(* ===== verification/_CoqProject ===== *)
-Q . S2P
Prelude.v
GoStrings.v
Base64.v
NetIP.v
Keys.v
NetText.v
Filter.v
FilterSpec.v
FilterRace.v
NFT.v
NFTMeaning.v
Tun.v
SignalProto.v
SignalServer.v
SignalOrder.v
Backoff.v
SignalClient.v
ClientRace.v
P2P.v
Session.v
SessionEnd.v
Handshake.v
UAPI.v
Device.v
Relay.v
Watchdog.v
WatchdogLive.v
Proxy.v
ProxyRun.v
Link.v
LinkEnd.v
Engine.v
EngineRace.v
Farewell.v
Delivery.v
Router.v
SelfUpdate.v
AgentMap.v
Policy.v
AgentUpdate.v
AgentControl.v
Desktop.v
DesktopGlue.v
Icons.v
AgentLoops.v
Daemons.v
Service.v
Elsewhere.v
Flags.v
Lifecycle.v
