(* ===== verification/Prelude.v ===== *)
(** * netflow-agent: a verification development

    netflow-agent puts machines on one WireGuard mesh.  An agent on each machine
    follows the map a management server gives it, negotiates a path to every
    peer with ICE through a signalling switchboard that only forwards sealed
    envelopes, filters what peers may start, routes the networks it carries, and
    updates itself from signed releases.  This development models that program,
    function by function, and proves what makes it correct; where the code does
    not do what it means to, a theorem shows the run that goes wrong.

    ** How the program's parts map to the files

    The files follow the packages, lower ones first.  Names are the source's
    names; a method of a Go type is a function of its state.

    - [Prelude], [GoStrings], [Base64], [NetIP], [NetText], [Keys]: what the
      agent uses of Go's run time, strings, base64 and net/netip, and of
      WireGuard keys (the class [WGKeys]).  A Go expression that can panic is a
      value of [go], a call that can fail one of [result]; an [int64] is a [Z]
      with its wrap-around ([wrap64]), a time a number of nanoseconds.
    - [Filter] (internal/filter/filter.go): the packet filter, each operation one
      step; [FilterSpec]: what a verdict is, from the history alone; [FilterRace]:
      the same operations instruction by instruction on the shared table, as the
      goroutines that read, write and prune really interleave.  [NFT]
      (nft_linux.go) is the nftables text and [NFTMeaning] what that text means to
      nft, compared with the filter; [Tun] (internal/tunnel/filtered.go) is the
      device that asks the filter.
    - [SignalProto], [SignalServer], [SignalOrder], [SignalClient]
      (internal/signal): envelopes, the switchboard with its bounded queues as a
      step relation and the order it keeps between two sockets, the client with
      its sessions, queue and reconnection.  [Backoff] holds the doubling and the
      jitter that three loops of the program write out.
    - [P2P], [Session], [SessionEnd], [Handshake], [Relay] (internal/p2p,
      engine.go): the ICE configuration; one negotiation as a machine cut at its
      locks and blocking calls, and how it ends; its two ends, with a network between them that loses, repeats and
      reorders; leaving the relay, and probing it.
    - [UAPI], [Device], [Proxy], [ProxyRun] (internal/tunnel): the uapi text
      written and read, the kernel device and the commands that configure it, the
      pumps of the loopback proxy and the goroutines that run them.
    - [Link], [LinkEnd], [Watchdog], [WatchdogLive], [Engine], [EngineRace],
      [Farewell], [Delivery] (internal/engine/engine.go): one peer ([dispatch],
      [keepPeerConnected], [connectOnce]), and how its goroutine ends; the watchdog, what it acts on and that it does act; the set
      of peers: the pieces [SetPeers] is cut into at its locks and what they do when
      the call is left alone ([Engine]), and any number of calls interleaved at
      those pieces with the goroutines they start ([EngineRace]); the goodbye
      from one machine to the link of another, and a word of a session
      ([sigLink]) to the session of the peer.
    - [Router] (internal/router): the rules of a subnet router and the forwarding
      switch, over both systems; [SelfUpdate] (internal/selfupdate, cmd/nfsign):
      releases, signatures, and the replacement of the binary.
    - [AgentMap], [Policy], [AgentUpdate], [AgentControl], [AgentLoops]
      (cmd/nfagent): following the map, pausing, saving and restarting; from the
      rules of a map to the packets of a machine; updating; enrolling,
      reporting and what the control socket answers; the loops around the engine,
      the socket and the commands.
    - [Desktop] (desktop/agent.go, app.go, tray.go): what the menu says of an
      answer of the agent; [DesktopGlue] (main.go, app.go, mainthread_*.go,
      dial_unix.go): the goroutines that feed the window and the menu, and the queue
      to the main thread; [Icons] (trayicon.go, build/icon/main.go): the pixels of
      the two marks, in IEEE binary64.  [Daemons] (cmd/nfsignal, cmd/nfrelay): what the two
      daemons start with.  [Service] (cmd/nfagent: install.go, service_linux.go,
      service_darwin.go, paths.go, system_*.go): the copy of the binary, the units
      and the commands, uninstalling, and what the machine calls itself, as
      effects on the files that may stop at any of them.  [Flags] is the command
      line, [Lifecycle] (main.go) the life of one process, how it ends, and what
      it leaves to the next: the goroutine that follows the map and the deferred
      [Close] run the pieces of [Router]'s calls one beside the other.  [Elsewhere] is what the other build targets have in
      the place of the files of Linux and macOS.

    ** How the parts interact

    [Engine] names links by numbers where the source has pointers and [Link] is
    what one of them does; [AgentMap] is proved against the interface
    [PeerEngine] of what the agent asks of an engine, which [Engine] implements;
    [Router]'s theorems are proved against [Platform], implemented by Linux and
    macOS.  [Farewell] composes the engine, the client, the switchboard, the
    other client and the other link, and [Delivery] does for the words of a
    negotiation what lets [Handshake] treat an announcement as something that may
    arrive; [Policy] composes the map, the device, the filter and the firewall;
    [Lifecycle] runs [Router] over one process after the other; [Desktop] composes
    the engine's answers, the control socket and the menu.  Crypto and codecs are classes with the laws the
    code relies on ([WGKeys], [SealLib], [ReleaseCrypto]), each with a concrete
    instance the witnesses run on.

    ** What the theorems show

    - Access: only packets a rule allows or that answer something get in, in
      every run and every interleaving; the filter refines its specification; the
      nftables text, read as nft reads it, admits what the filter would, save for
      the conversations one of the two remembers and the other does not; and over
      any history of maps and errors what is enforced is the last map taken, on
      the packets the filter can read: what it cannot, it lets in.
    - Signalling: what is queued is genuine, the newest registration owns a key,
      nothing is dropped silently, between two sockets everything arrives in the
      order it was sent, and a word of one session does to the session of
      the peer what it says.
    - Negotiation: no interleaving of words with a fragment panics an attempt, no
      candidate is lost, an attempt ends and gives back its agent and its path, the proxy on it leaves no
      goroutine behind, one end follows a restart, and Connected means carrying; the two ends agree whatever
      the network does, and what it lost is said again until both connect.
    - Engine: reconciliation with the map; whatever calls interleave, a goroutine
      the map does not name is being retired, so a peer has one; a link, once
      cancelled, ends in a bounded number of moves and speaks to WireGuard no
      more; the watchdog's evidence, and that a dead mesh is given up on.
    - Agent: one truth between map, rules, file and engine; a pause holds;
      restarts settle; updates are signed, newer and all or nothing; an
      installation never leaves half a binary, and uninstalling keeps the identity;
      every way out says goodbye first, and stopping between two calls of
      [Apply], with every command of the stop working, gives the machine its
      forwarding back, whatever processes came before.
    - Divergences: runs that lose a conversation, unroute a peer, starve the
      watchdog, leave a tunnel up under a pause, restart for ever, leave forwarding
      on for good after an exit or a stop in the middle of [Apply], enforce nothing and say so of nobody, show one
      thing in the window and another in the menu, or panic on an empty fragment or
      a short digest.

    ** Bounds and fuel

    Loops are folds or structural recursions over what each round was answered.
    The only fuel is in [FilterRace.alone] (one unit for each instruction, and
    the theorem gives the number that is enough) and in the search for a run of
    zeros of an IPv6 address (eight groups).  The liveness of the watchdog is
    bounded by ticks: it needs a stretch of five minutes with more ticks than the
    mesh has peers, and a theorem shows that the bound is needed.

    ** What is not modelled, and why

    - pion's ICE, wireguard-go, wgctrl, websockets, HTTP, JSON, the kernel, nft,
      pfctl and the file system answer as arguments.  [netip.ParsePrefix] and
      [ParseAddr] are arguments too.
    - Strings are bytes: [TrimSpace] and [Fields] know the ASCII spaces only.
    - Cancelling the context of the whole engine, as [closeAllPeers] does, is not
      an event of [EngineRace]; the reads and writes of [link.cancel] that race there are single words.
    - The ruleset is read by [NFTMeaning] as nft's documentation has it, for the
      statements this program writes and no others.
    - In [Handshake] pion finds a path or does not, as an event; that it can is
      the hypothesis of the theorem that both ends connect.
    - [SignalServer] closes a socket in one step; Go closes a channel and then the
      websocket, and a write may still fall between the two.  There and in [Link]
      a lookup under a lock and the use of what it found, after the lock, are one
      step ([readFrame], [dispatchLink]).
    - [Service] replays what installing does to the binary and its units; what
      enrolling writes to the configuration is in [AgentMap], and an update of a
      running agent beside an installation is in neither.
    - [Icons] rounds every operation on its own, as Go does on amd64; [math.Pow] is
      an argument, since its last bits differ between machines, and so is the
      encoding of an image.
    - wails, systray and the main queue of macOS are taken as documented: what they
      are given is modelled, what they draw is not.  Logging is not. *)
From stdpp Require Export base gmap strings list sorting.
From Stdlib Require Export ZArith Lia.
From Stdlib Require Export Strings.Byte.

#[global] Open Scope Z_scope.

(** ** Go's run-time outcomes *)

(** A Go expression either yields a value or panics (an index or a slice
    expression out of range, a nil dereference). *)
Inductive go (A : Type) : Type :=
| Ret (a : A)
| Panic.
Arguments Ret {A} a.
Arguments Panic {A}.

#[global] Instance go_ret : MRet go := fun A a => Ret a.
#[global] Instance go_bind : MBind go := fun A B f m =>
  match m with Ret a => f a | Panic => Panic end.

(** What an expression that does not panic yields. *)
Definition yields {A} (r : go A) : bool := match r with Ret _ => true | Panic => false end.
Definition retOf {A} (r : go A) : yields r = true -> A :=
  match r with Ret a => fun _ => a | Panic => fun H => False_rect A (diff_false_true H) end.

Lemma retOf_eq {A} (r : go A) (H : yields r = true) : r = Ret (retOf r H).
Proof. by destruct r. Qed.

(** A call that can fail returns a value or a non-nil [error]. *)
Inductive result (E A : Type) : Type :=
| Ok (a : A)
| Err (e : E).
Arguments Ok {E A} a.
Arguments Err {E A} e.

#[global] Instance result_ret E : MRet (result E) := fun A a => Ok a.
#[global] Instance result_bind E : MBind (result E) := fun A B f m =>
  match m with Ok a => f a | Err e => Err e end.

(** [err == nil]. *)
Definition is_ok {E A} (r : result E A) : bool :=
  match r with Ok _ => true | Err _ => false end.

(** The value of a call that did not fail. *)
Definition okOf {E A} (r : result E A) : is_ok r = true -> A :=
  match r with Ok a => fun _ => a | Err _ => fun H => False_rect A (diff_false_true H) end.

Lemma okOf_eq {E A} (r : result E A) (H : is_ok r = true) : r = Ok (okOf r H).
Proof. by destruct r. Qed.

(** Which of several ways, found by trying. *)
Ltac oneway := solve [reflexivity | repeat eexists | left; oneway | right; oneway].

(** ** Machine integers *)

Definition int64_min : Z := - 2 ^ 63.
Definition int64_max : Z := 2 ^ 63 - 1.

(** Two's complement wrap-around of Go's [int64] (and of [int] on the 64-bit
    platforms the agent is built for). *)
Definition wrap64 (z : Z) : Z := (z + 2 ^ 63) mod 2 ^ 64 - 2 ^ 63.

Definition in_int64 (z : Z) : Prop := int64_min <= z <= int64_max.

Lemma wrap64_range z : in_int64 (wrap64 z).
Proof.
  unfold wrap64, in_int64, int64_min, int64_max.
  pose proof (Z.mod_pos_bound (z + 2 ^ 63) (2 ^ 64) ltac:(lia)). lia.
Qed.

Lemma wrap64_id z : in_int64 z -> wrap64 z = z.
Proof.
  unfold wrap64, in_int64, int64_min, int64_max. intros Hz.
  rewrite Z.mod_small by lia. lia.
Qed.

(** ** Durations, in nanoseconds, as Go's [time] package counts them *)

Definition Millisecond : Z := 1000000.
Definition Second : Z := 1000 * Millisecond.
Definition Minute : Z := 60 * Second.
Definition Hour : Z := 60 * Minute.

(** ** Bytes *)

Definition byteZ (b : byte) : Z := Z.of_N (Byte.to_N b).

Lemma byteZ_range b : 0 <= byteZ b < 256.
Proof. unfold byteZ. pose proof (Byte.to_N_bounded b). lia. Qed.

#[global] Instance byte_eq_dec : EqDecision byte := Byte.byte_eq_dec.

(** The byte of a value of 0..255; other values wrap as [uint8(z)] does. *)
Definition Zbyte (z : Z) : byte :=
  default Byte.x00 (Byte.of_N (Z.to_N (z mod 256))).

Lemma byteZ_Zbyte z : byteZ (Zbyte z) = z mod 256.
Proof.
  unfold Zbyte, byteZ. pose proof (Z.mod_pos_bound z 256 ltac:(lia)).
  destruct (Byte.of_N (Z.to_N (z mod 256))) as [b|] eqn:E; simpl.
  - apply Byte.to_of_N in E. rewrite E. lia.
  - apply Byte.of_N_None_iff in E. lia.
Qed.

(** Reads of [b\[i\]] and [b\[i:j\]], which panic out of range. *)
Definition index {A} (b : list A) (i : nat) : go A :=
  match b !! i with Some x => Ret x | None => Panic end.

Definition slice {A} (b : list A) (i j : nat) : go (list A) :=
  if decide (i <= j /\ j <= length b)%nat then Ret (take (j - i) (drop i b)) else Panic.

Lemma index_ret {A} (b : list A) i : (i < length b)%nat -> exists x, b !! i = Some x /\ index b i = Ret x.
Proof. intros H. apply lookup_lt_is_Some in H as [x E]. exists x. unfold index. by rewrite E. Qed.

Lemma slice_ret {A} (b : list A) i j :
  (i <= j)%nat -> (j <= length b)%nat -> slice b i j = Ret (take (j - i) (drop i b)).
Proof. intros. unfold slice. by rewrite decide_True. Qed.

Lemma slice_length {A} (b s : list A) i j : slice b i j = Ret s -> length s = (j - i)%nat.
Proof.
  unfold slice. case_decide; [|done]. intros [= <-].
  rewrite length_take, length_drop. lia.
Qed.

(** Big-endian value of a byte string ([binary.BigEndian]). *)
Fixpoint be (acc : Z) (b : list byte) : Z :=
  match b with [] => acc | x :: b => be (acc * 256 + byteZ x) b end.

Lemma be_app acc b1 b2 : be acc (b1 ++ b2) = be (be acc b1) b2.
Proof. revert acc. induction b1; intros; simpl; auto. Qed.

Lemma be_bound acc b :
  0 <= acc -> acc * 256 ^ Z.of_nat (length b) <= be acc b < (acc + 1) * 256 ^ Z.of_nat (length b).
Proof.
  revert acc. induction b as [|x b IH]; intros acc Hacc; cbn [be length]; [lia|].
  pose proof (byteZ_range x). specialize (IH (acc * 256 + byteZ x) ltac:(lia)).
  rewrite Nat2Z.inj_succ, Z.pow_succ_r by lia.
  assert (0 < 256 ^ Z.of_nat (length b)) by lia. nia.
Qed.

(** Tactics shared by the components. *)

(** Split every conjunction of the goal and close what is immediate. *)
Ltac splits := repeat match goal with |- _ /\ _ => split end; auto.

(** Case analysis on the scrutinee of an [if] or a [match] of the goal or of a
    hypothesis, keeping its equation. *)
Ltac case_on_match :=
  match goal with
  | |- context [match ?x with _ => _ end] => destruct x eqn:?
  | H : context [match ?x with _ => _ end] |- _ => destruct x eqn:?
  end.

Create HintDb netflow.
#[export] Hint Resolve wrap64_range byteZ_range : netflow.
