(* ===== verification/GoStrings.v ===== *)
(** * The parts of Go's [strings], [strconv], [fmt] and [encoding/hex] that the
    sources use, on byte strings.

    [TrimSpace], [Fields] and [ToLower] are the ASCII cases of the Go
    functions: what the agent trims and splits (versions, sums, sysctl and uapi
    text, interface names) is ASCII. *)
From S2P Require Import Prelude.
From stdpp Require Export pretty.
From Stdlib Require Import Ascii.
#[global] Open Scope Z_scope.

(** ** Character classes *)

Definition is_space (c : Ascii.ascii) : bool :=
  match Ascii.nat_of_ascii c with
  | 9 | 10 | 11 | 12 | 13 | 32 => true
  | _ => false
  end%nat.

Definition nl : Ascii.ascii := Ascii.ascii_of_nat 10.

(** The one-character string "\n". *)
Definition NL : string := String nl "".

Fixpoint allc (P : Ascii.ascii -> bool) (s : string) : bool :=
  match s with "" => true | String c s => P c && allc P s end.

Definition nospace (s : string) : bool := allc (fun c => negb (is_space c)) s.
Definition nochar (x : Ascii.ascii) (s : string) : bool := allc (fun c => negb (Ascii.eqb c x)) s.

(** ** Prefixes and suffixes *)

Definition HasPrefix (s p : string) : bool := String.prefix p s.

Fixpoint drop_chars (n : nat) (s : string) : string :=
  match n, s with
  | O, _ => s
  | S n, "" => ""
  | S n, String _ s => drop_chars n s
  end.

(** [strings.CutPrefix] and [strings.TrimPrefix]. *)
Definition CutPrefix (s p : string) : string * bool :=
  if HasPrefix s p then (drop_chars (String.length p) s, true) else (s, false).
Definition TrimPrefix (s p : string) : string := (CutPrefix s p).1.

Fixpoint HasSuffix (s p : string) : bool :=
  String.eqb s p || match s with "" => false | String _ s => HasSuffix s p end.

(** [strings.Contains]. *)
Fixpoint Contains (s p : string) : bool :=
  HasPrefix s p || match s with "" => false | String _ s => Contains s p end.

(** ** Cutting and splitting *)

(** [strings.Cut] at a one-character separator. *)
Fixpoint cutc (x : Ascii.ascii) (s : string) : option (string * string) :=
  match s with
  | "" => None
  | String c s =>
      if Ascii.eqb c x then Some ("", s)
      else match cutc x s with Some (a, b) => Some (String c a, b) | None => None end
  end.

(** [strings.Split] (and [SplitSeq]) at a one-character separator. *)
Fixpoint splitc (x : Ascii.ascii) (s : string) : list string :=
  match s with
  | "" => [""]
  | String c s =>
      if Ascii.eqb c x then "" :: splitc x s
      else match splitc x s with [] => [String c ""] | h :: t => String c h :: t end
  end.

(** [strings.Join]. *)
Fixpoint Join (sep : string) (l : list string) : string :=
  match l with
  | [] => ""
  | [s] => s
  | s :: l => s +:+ sep +:+ Join sep l
  end.

Fixpoint trim_left (s : string) : string :=
  match s with "" => "" | String c s' => if is_space c then trim_left s' else s end.

Fixpoint trim_right (s : string) : string :=
  match s with
  | "" => ""
  | String c s =>
      match trim_right s with
      | "" => if is_space c then "" else String c ""
      | t => String c t
      end
  end.

Definition TrimSpace (s : string) : string := trim_right (trim_left s).

(** [strings.TrimRight] with a one-character cutset. *)
Fixpoint trim_right_char (x : Ascii.ascii) (s : string) : string :=
  match s with
  | "" => ""
  | String c s =>
      match trim_right_char x s with
      | "" => if Ascii.eqb c x then "" else String c ""
      | t => String c t
      end
  end.

(** [strings.Fields]: maximal runs of non-space characters. *)
Fixpoint fields_go (cur : string) (s : string) : list string :=
  match s with
  | "" => if String.eqb cur "" then [] else [cur]
  | String c s =>
      if is_space c
      then (if String.eqb cur "" then [] else [cur]) ++ fields_go "" s
      else fields_go (cur +:+ String c "") s
  end.
Definition Fields (s : string) : list string := fields_go "" s.

(** The text after the last occurrence of [x]:
    [s\[strings.LastIndex(s, x)+1:\]], the whole string when there is none. *)
Fixpoint after_last (x : Ascii.ascii) (s : string) : string :=
  match s with
  | "" => ""
  | String c s' =>
      if nochar x s' then (if Ascii.eqb c x then s' else s) else after_last x s'
  end.

Definition lower (c : Ascii.ascii) : Ascii.ascii :=
  let n := Ascii.nat_of_ascii c in
  if ((65 <=? n) && (n <=? 90))%nat then Ascii.ascii_of_nat (n + 32) else c.
Fixpoint ToLower (s : string) : string :=
  match s with "" => "" | String c s => String (lower c) (ToLower s) end.

(** ** Decimal *)

(** ["%d"] and [strconv.Itoa]. *)
Definition itoa (z : Z) : string := pretty z.

Definition digit (c : Ascii.ascii) : option Z :=
  let n := Z.of_nat (Ascii.nat_of_ascii c) in
  if (48 <=? n) && (n <=? 57) then Some (n - 48) else None.

(** The digits of [s] accumulated onto [acc]; [None] at the first character
    that is not a digit. *)
Fixpoint digits (acc : Z) (s : string) : option Z :=
  match s with
  | "" => Some acc
  | String c s => match digit c with Some d => digits (acc * 10 + d) s | None => None end
  end.

(** [strconv.Atoi]: an optional sign, at least one digit, and the value must
    fit an [int]. *)
Definition Atoi (s : string) : option Z :=
  let r := match s with
           | String "-"%char (String _ _ as s') => Z.opp <$> digits 0 s'
           | String "+"%char (String _ _ as s') => digits 0 s'
           | "" => None
           | _ => digits 0 s
           end in
  match r with
  | Some z => if bool_decide (in_int64 z) then Some z else None
  | None => None
  end.

(** ** Hexadecimal *)

Definition hexdigit (n : Z) : Ascii.ascii :=
  Ascii.ascii_of_nat (Z.to_nat (if n <? 10 then 48 + n else 87 + n)).

Definition unhex (c : Ascii.ascii) : option Z :=
  let n := Z.of_nat (Ascii.nat_of_ascii c) in
  if (48 <=? n) && (n <=? 57) then Some (n - 48)
  else if (97 <=? n) && (n <=? 102) then Some (n - 87)
  else if (65 <=? n) && (n <=? 70) then Some (n - 55)
  else None.

(** [hex.EncodeToString] and [hex.DecodeString]. *)
Fixpoint hexEncode (b : list byte) : string :=
  match b with
  | [] => ""
  | x :: b => String (hexdigit (byteZ x / 16)) (String (hexdigit (byteZ x mod 16)) (hexEncode b))
  end.

Fixpoint hexDecode (s : string) : option (list byte) :=
  match s with
  | "" => Some []
  | String c1 (String c2 s) =>
      match unhex c1, unhex c2, hexDecode s with
      | Some a, Some b, Some t => Some (Zbyte (a * 16 + b) :: t)
      | _, _, _ => None
      end
  | String _ "" => None
  end.

(** The text a [strings.Builder] holds after one [Fprintf] of "...\n" per
    line. *)
Fixpoint unlines (ls : list string) : string :=
  match ls with [] => "" | l :: ls => l +:+ NL +:+ unlines ls end.

(** Go's conversions between [string] and [[]byte]. *)
Fixpoint chars (s : string) : list byte :=
  match s with "" => [] | String c s => Ascii.byte_of_ascii c :: chars s end.
Fixpoint unchars (b : list byte) : string :=
  match b with [] => "" | x :: b => String (Ascii.ascii_of_byte x) (unchars b) end.

(** ** Lemmas *)

Lemma unchars_chars s : unchars (chars s) = s.
Proof. induction s as [|c s IH]; simpl; [done|]. by rewrite Ascii.ascii_of_byte_of_ascii, IH. Qed.

Lemma sapp_nil_r s : s +:+ "" = s.
Proof. induction s as [|c s IH]; [done|]. change (String c s +:+ "") with (String c (s +:+ "")). by rewrite IH. Qed.

Lemma sapp_cons c s t : String c s +:+ t = String c (s +:+ t).
Proof. done. Qed.

Lemma sapp_nil_l t : "" +:+ t = t.
Proof. done. Qed.

Lemma sapp_ne s t : t <> "" -> s <> s +:+ t.
Proof. intros Ht. induction s as [|c s IH]; [intros E; by destruct Ht|]. rewrite sapp_cons. congruence. Qed.

Lemma sapp_assoc a b c : (a +:+ b) +:+ c = a +:+ b +:+ c.
Proof. induction a as [|x a IH]; [done|]. by rewrite !sapp_cons, IH. Qed.

Lemma allc_app P s t : allc P (s +:+ t) = allc P s && allc P t.
Proof. induction s as [|c s IH]; [done|]. rewrite sapp_cons. simpl. by rewrite IH, andb_assoc. Qed.

Lemma allc_impl (P Q : ascii -> bool) s :
  (forall c, P c = true -> Q c = true) -> allc P s = true -> allc Q s = true.
Proof.
  intros HPQ. induction s as [|c s IH]; simpl; [done|].
  rewrite !andb_true_iff. intros [H1 H2]. auto.
Qed.

Lemma nospace_nochar x s : is_space x = true -> nospace s = true -> nochar x s = true.
Proof.
  intros Hx. apply allc_impl. intros c Hc. destruct (Ascii.eqb_spec c x) as [->|]; [|done]. by rewrite Hx in Hc.
Qed.

Lemma nospace_nonl s : nospace s = true -> nochar nl s = true.
Proof. by apply nospace_nochar. Qed.

Lemma cutc_app x k v : nochar x k = true -> cutc x (k +:+ String x v) = Some (k, v).
Proof.
  induction k as [|c k IH]; simpl; intros H; rewrite ?sapp_nil_l, ?sapp_cons; simpl.
  - by rewrite Ascii.eqb_refl.
  - apply andb_true_iff in H as [H1 H2]. apply negb_true_iff in H1. rewrite H1. by rewrite IH.
Qed.

Lemma cutc_None x s : nochar x s = true -> cutc x s = None.
Proof.
  induction s as [|c s IH]; simpl; [done|]. intros [H1 H2]%andb_true_iff.
  apply negb_true_iff in H1. by rewrite H1, IH.
Qed.

Lemma splitc_nochar x s : nochar x s = true -> splitc x s = [s].
Proof.
  induction s as [|c s IH]; simpl; [done|]. intros [H1 H2]%andb_true_iff.
  apply negb_true_iff in H1. by rewrite H1, IH.
Qed.

Lemma splitc_app x s t : nochar x s = true -> splitc x (s +:+ String x t) = s :: splitc x t.
Proof.
  induction s as [|c s IH]; simpl; intros H; rewrite ?sapp_nil_l, ?sapp_cons; simpl.
  - by rewrite Ascii.eqb_refl.
  - apply andb_true_iff in H as [H1 H2]. apply negb_true_iff in H1. by rewrite H1, IH.
Qed.

Lemma splitc_Join x l :
  l <> [] -> Forall (fun s => nochar x s = true) l -> splitc x (Join (String x "") l) = l.
Proof.
  intros Hne Hall. induction Hall as [|s l Hs Hall IH]; [done|].
  destruct l as [|s' l]; [by apply splitc_nochar|].
  change (Join (String x "") (s :: s' :: l)) with (s +:+ String x (Join (String x "") (s' :: l))).
  rewrite splitc_app by done. by rewrite IH.
Qed.

(** Splitting never yields the empty list. *)
Lemma splitc_ne x s : splitc x s <> [].
Proof. destruct s as [|c s]; simpl; [done|]. repeat case_match; done. Qed.

Lemma splitc_unlines ls :
  Forall (fun l => nochar nl l = true) ls -> splitc nl (unlines ls) = ls ++ [""].
Proof.
  induction 1 as [|l ls Hl Hall IH]; [done|].
  change (unlines (l :: ls)) with (l +:+ String nl (unlines ls)).
  by rewrite splitc_app, IH.
Qed.

Lemma trim_left_app c s : is_space c = false -> trim_left (String c s) = String c s.
Proof. intros H. simpl. by rewrite H. Qed.

Lemma trim_left_nospace s : nospace s = true -> trim_left s = s.
Proof. destruct s as [|c s]; [done|]. simpl. intros [Hc _]%andb_true_iff. by destruct (is_space c). Qed.

Lemma trim_right_nospace s : nospace s = true -> trim_right s = s.
Proof.
  induction s as [|c s IH]; simpl; [done|]. intros [H1 H2]%andb_true_iff.
  rewrite IH by done. apply negb_true_iff in H1. rewrite H1. by destruct s.
Qed.

Lemma trim_right_app s t : trim_right t <> "" -> trim_right (s +:+ t) = s +:+ trim_right t.
Proof.
  intros Ht. induction s as [|c s IH]; [done|]. rewrite !sapp_cons. simpl. rewrite IH.
  destruct s; [|done]. rewrite sapp_nil_l. by destruct (trim_right t).
Qed.

Lemma trim_right_nl s : nospace s = true -> trim_right (s +:+ NL) = s.
Proof.
  induction s as [|c s IH]; [done|]. rewrite sapp_cons. intros [H1 H2]%andb_true_iff.
  cbn [trim_right]. rewrite IH by done. apply negb_true_iff in H1.
  rewrite H1. by destruct s.
Qed.

Lemma TrimSpace_nospace s : nospace s = true -> TrimSpace s = s.
Proof. intros H. unfold TrimSpace. by rewrite trim_left_nospace, trim_right_nospace. Qed.

Lemma TrimSpace_line s : nospace s = true -> TrimSpace (s +:+ NL) = s.
Proof.
  intros H. destruct s as [|c s]; [done|]. unfold TrimSpace.
  assert (Hc : is_space c = false) by (unfold nospace in H; cbn [allc] in H; by destruct (is_space c)).
  rewrite sapp_cons, trim_left_app by done. rewrite <- sapp_cons. by apply trim_right_nl.
Qed.

(** Trimming the text of a builder drops its final newline only, so splitting
    it gives the lines back. *)
Lemma splitc_trim_unlines ls :
  ls <> [] -> Forall (fun l => l <> "" /\ nospace l = true) ls ->
  splitc nl (TrimSpace (unlines ls)) = ls.
Proof.
  intros Hne Hall.
  assert (Hl : forall ls, ls <> [] -> Forall (fun l => l <> "" /\ nospace l = true) ls ->
            trim_right (unlines ls) = Join NL ls /\ Join NL ls <> "").
  { clear. intros ls Hne Hall. induction Hall as [|l ls [Hl1 Hl2] Hall IH]; [done|].
    destruct ls as [|l' ls].
    - simpl. rewrite sapp_nil_r. split; [by apply trim_right_nl|done].
    - destruct IH as [IH1 IH2]; [done|].
      change (unlines (l :: l' :: ls)) with (l +:+ NL +:+ unlines (l' :: ls)).
      change (Join NL (l :: l' :: ls)) with (l +:+ NL +:+ Join NL (l' :: ls)).
      rewrite <- !sapp_assoc. rewrite trim_right_app by (by rewrite IH1). rewrite IH1.
      split; [done|]. by destruct l. }
  assert (Ht : trim_left (unlines ls) = unlines ls).
  { destruct Hall as [|l ls [Hl1 Hl2] _]; [done|]. destruct l as [|c l]; [done|].
    simpl in Hl2. apply andb_true_iff in Hl2 as [Hc _]. apply negb_true_iff in Hc.
    by apply trim_left_app. }
  unfold TrimSpace. rewrite Ht. destruct (Hl ls Hne Hall) as [-> _].
  apply splitc_Join; [done|]. eapply Forall_impl; [exact Hall|].
  intros l [_ H]. by apply nospace_nonl.
Qed.

(** A fact about a small number is checked on each of them. *)
Lemma below_cases (P : Z -> Prop) (k : nat) n : Forall P (seqZ 0 (Z.of_nat k)) -> 0 <= n < Z.of_nat k -> P n.
Proof. intros Hall Hn. rewrite Forall_forall in Hall. apply Hall, elem_of_seqZ. lia. Qed.

Lemma hexdigit_unhex n : 0 <= n < 16 -> unhex (hexdigit n) = Some n.
Proof.
  apply (below_cases (fun n => unhex (hexdigit n) = Some n) 16). by repeat constructor.
Qed.

Lemma byteZ_inj a b : byteZ a = byteZ b -> a = b.
Proof.
  unfold byteZ. intros H. apply N2Z.inj in H.
  apply (f_equal Byte.of_N) in H. rewrite !Byte.of_to_N in H. by injection H.
Qed.

Lemma Zbyte_byteZ b : Zbyte (byteZ b) = b.
Proof.
  apply byteZ_inj. rewrite byteZ_Zbyte. apply Z.mod_small. apply byteZ_range.
Qed.

Lemma hexDecode_encode b : hexDecode (hexEncode b) = Some b.
Proof.
  induction b as [|x b IH]; [done|]. cbn [hexEncode hexDecode].
  pose proof (byteZ_range x). pose proof (Z.mod_pos_bound (byteZ x) 16 ltac:(lia)).
  rewrite !hexdigit_unhex, IH by (try apply Z.mod_pos_bound; try split; try apply Z.div_pos;
    try apply Z.div_lt_upper_bound; lia).
  rewrite Z.mul_comm, <- Z.div_mod by lia. by rewrite Zbyte_byteZ.
Qed.

Lemma hexdigit_nospace n : 0 <= n < 16 -> is_space (hexdigit n) = false.
Proof.
  apply (below_cases (fun n => is_space (hexdigit n) = false) 16). by repeat constructor.
Qed.

Lemma hexEncode_nospace b : nospace (hexEncode b) = true.
Proof.
  unfold nospace. induction b as [|x b IH]; [done|]. cbn [hexEncode allc].
  pose proof (byteZ_range x). pose proof (Z.mod_pos_bound (byteZ x) 16 ltac:(lia)).
  rewrite !hexdigit_nospace, IH by (try split; try apply Z.div_pos;
    try apply Z.div_lt_upper_bound; lia). done.
Qed.

Lemma pretty_N_char_digit (n : N) :
  (n < 10)%N -> digit (pretty_N_char n) = Some (Z.of_N n) /\ is_space (pretty_N_char n) = false /\
    pretty_N_char n <> "-"%char /\ pretty_N_char n <> "+"%char.
Proof.
  intros H. pose (P z := let c := pretty_N_char (Z.to_N z) in
    digit c = Some z /\ is_space c = false /\ c <> "-"%char /\ c <> "+"%char).
  pose proof (below_cases P 10 (Z.of_N n)) as HP. unfold P in HP. rewrite N2Z.id in HP.
  apply HP; [by repeat constructor|lia].
Qed.

(** What [pretty] prints for a natural: digits whose value is the number, put in
    front of [s]. *)
Lemma pretty_N_go_digits (n : N) s :
  exists p, pretty_N_go n s = p +:+ s /\ (n = 0%N -> p = "") /\
    (n <> 0%N -> exists c q, p = String c q /\ c <> "-"%char /\ c <> "+"%char) /\
    nospace p = true /\
    exists k, 0 <= k /\ forall acc t, digits acc (p +:+ t) = digits (acc * 10 ^ k + Z.of_N n) t.
Proof.
  revert s. induction (N.lt_wf_0 n) as [n _ IH]. intros s.
  destruct (decide (n = 0%N)) as [->|Hn].
  - exists "". rewrite pretty_N_go_0. splits; [done|]. exists 0. split; [lia|].
    intros. rewrite sapp_nil_l. f_equal. lia.
  - rewrite pretty_N_go_step by lia.
    destruct (pretty_N_char_digit (n `mod` 10)) as (Hd & Hs & Hm & Hp); [by apply N.mod_lt|].
    destruct (IH (n `div` 10)%N (N.div_lt n 10 ltac:(lia) ltac:(lia))
                (String (pretty_N_char (n `mod` 10)) s)) as (p & E & Hz & Hnz & Hsp & k & Hk & Hdig).
    exists (p +:+ String (pretty_N_char (n `mod` 10)) "").
    rewrite E, sapp_assoc, sapp_cons, sapp_nil_l. splits; [done| | |].
    + intros _. destruct (decide (n `div` 10 = 0)%N) as [E0|E0].
      * rewrite (Hz E0), sapp_nil_l. by eauto.
      * destruct (Hnz E0) as (c & q & -> & ? & ?). rewrite sapp_cons. by eauto.
    + unfold nospace in *. rewrite allc_app, Hsp. simpl. by rewrite Hs.
    + exists (k + 1). split; [lia|]. intros acc t.
      rewrite sapp_assoc, Hdig, sapp_cons, sapp_nil_l. cbn [digits]. rewrite Hd. f_equal.
      rewrite Z.pow_add_r by lia. pose proof (N.div_mod n 10 ltac:(lia)) as Hdm. lia.
Qed.

Lemma itoa_digits z : 0 <= z ->
  nospace (itoa z) = true /\ exists c q, itoa z = String c q /\ c <> "-"%char /\ c <> "+"%char /\
    digits 0 (itoa z) = Some z.
Proof.
  intros Hz. unfold itoa, pretty, pretty_Z. destruct z as [|p|p]; [..|lia].
  - splits. exists "0"%char, "". splits; done.
  - replace (pretty p) with (pretty_N_go (N.pos p) "") by done.
    destruct (pretty_N_go_digits (N.pos p) "") as (q & E & _ & Hnz & Hsp & k & Hk & Hd).
    destruct (Hnz ltac:(done)) as (c & q' & -> & ? & ?).
    rewrite E. specialize (Hd 0 ""). rewrite sapp_nil_r in *. split; [done|].
    exists c, q'. splits.
Qed.

Lemma Atoi_itoa z : 0 <= z <= int64_max -> Atoi (itoa z) = Some z.
Proof.
  intros Hz. destruct (itoa_digits z) as (_ & c & q & E & Hm & Hp & Hd); [lia|].
  unfold Atoi. rewrite E in *.
  replace (match String c q with
           | String "-"%char (String _ _ as s') => Z.opp <$> digits 0 s'
           | String "+"%char (String _ _ as s') => digits 0 s'
           | "" => None
           | _ => digits 0 (String c q)
           end) with (Some z).
  - rewrite bool_decide_true; [done|]. unfold in_int64, int64_min. lia.
  - destruct c as [[] [] [] [] [] [] [] []]; try done; exfalso; auto.
Qed.
