(* ===== verification/Base64.v ===== *)
(** * [encoding/base64] as the agent uses it: [StdEncoding.EncodeToString] and
    [StdEncoding.DecodeString], padded, with the line breaks that the decoder
    skips, and the round trip of the two. *)
From S2P Require Import Prelude GoStrings.
From Stdlib Require Import Ascii.

Definition b64char (n : Z) : Ascii.ascii :=
  Ascii.ascii_of_nat (Z.to_nat
    (if n <? 26 then 65 + n else if n <? 52 then 71 + n else if n <? 62 then n - 4
     else if n =? 62 then 43 else 47)).

Definition unb64 (c : Ascii.ascii) : option Z :=
  let n := Z.of_nat (Ascii.nat_of_ascii c) in
  if (65 <=? n) && (n <=? 90) then Some (n - 65)
  else if (97 <=? n) && (n <=? 122) then Some (n - 71)
  else if (48 <=? n) && (n <=? 57) then Some (n + 4)
  else if n =? 43 then Some 62
  else if n =? 47 then Some 63
  else None.

Definition isPad (c : Ascii.ascii) : bool := Ascii.eqb c "="%char.

(** Three bytes as a number, and the four six-bit digits of one. *)
Definition pack (x y z : Z) : Z := x * 65536 + y * 256 + z.
Definition sextet (v : Z) (k : Z) : Ascii.ascii := b64char (v / 2 ^ k mod 64).

Fixpoint b64Encode (b : list byte) : string :=
  match b with
  | [] => ""
  | [x] =>
      let v := pack (byteZ x) 0 0 in
      String (sextet v 18) (String (sextet v 12) "==")
  | [x; y] =>
      let v := pack (byteZ x) (byteZ y) 0 in
      String (sextet v 18) (String (sextet v 12) (String (sextet v 6) "="))
  | x :: y :: z :: b =>
      let v := pack (byteZ x) (byteZ y) (byteZ z) in
      String (sextet v 18) (String (sextet v 12) (String (sextet v 6) (String (sextet v 0) (b64Encode b))))
  end.

(** The first [n] bytes of four digits. *)
Definition unpack (n : nat) (a b c d : Z) : list byte :=
  let v := ((a * 64 + b) * 64 + c) * 64 + d in
  take n [Zbyte (v / 65536); Zbyte (v / 256); Zbyte v].

(** [decodeQuantum] and the loop around it, on a text without line breaks. *)
Fixpoint b64quanta (s : string) : option (list byte) :=
  match s with
  | "" => Some []
  | String c0 (String c1 (String c2 (String c3 s))) =>
      match unb64 c0, unb64 c1, unb64 c2, unb64 c3 with
      | Some a, Some b, Some c, Some d =>
          match b64quanta s with Some t => Some (unpack 3 a b c d ++ t) | None => None end
      | Some a, Some b, Some c, None =>
          if isPad c3 && String.eqb s "" then Some (unpack 2 a b c 0) else None
      | Some a, Some b, None, None =>
          if isPad c2 && isPad c3 && String.eqb s "" then Some (unpack 1 a b 0 0) else None
      | _, _, _, _ => None
      end
  | _ => None
  end.

Definition isBreak (c : Ascii.ascii) : bool :=
  (Ascii.nat_of_ascii c =? 10)%nat || (Ascii.nat_of_ascii c =? 13)%nat.

Fixpoint unbroken (s : string) : string :=
  match s with "" => "" | String c s => if isBreak c then unbroken s else String c (unbroken s) end.

Definition b64Decode (s : string) : option (list byte) := b64quanta (unbroken s).

(** ** The round trip *)

Definition goodDigit (n : Z) : Prop :=
  unb64 (b64char n) = Some n /\ isBreak (b64char n) = false /\ is_space (b64char n) = false.

Lemma b64char_good n : 0 <= n < 64 -> goodDigit n.
Proof. apply (below_cases goodDigit 64). by repeat constructor. Qed.

Lemma sextet_good v k : goodDigit (v / 2 ^ k mod 64).
Proof. apply b64char_good, Z.mod_pos_bound. lia. Qed.

Lemma unb64_sextet v k : unb64 (sextet v k) = Some (v / 2 ^ k mod 64).
Proof. apply sextet_good. Qed.

Lemma unbroken_sextet v k s : unbroken (String (sextet v k) s) = String (sextet v k) (unbroken s).
Proof. cbn [unbroken]. unfold sextet. by rewrite (proj1 (proj2 (sextet_good v k))). Qed.

Lemma digits_pack v :
  0 <= v < 2 ^ 24 ->
  ((v / 2 ^ 18 mod 64 * 64 + v / 2 ^ 12 mod 64) * 64 + v / 2 ^ 6 mod 64) * 64 + v / 2 ^ 0 mod 64 = v.
Proof.
  change (2 ^ 18) with 262144. change (2 ^ 12) with 4096. change (2 ^ 6) with 64. change (2 ^ 0) with 1.
  change (2 ^ 24) with 16777216. intros Hv. Z.to_euclidean_division_equations. lia.
Qed.

Lemma Zbyte_mod v : Zbyte (v mod 256) = Zbyte v.
Proof. unfold Zbyte. by rewrite Z.mod_mod. Qed.

Lemma pack_bytes x y z :
  unpack 3 0 0 0 (pack (byteZ x) (byteZ y) (byteZ z)) = [x; y; z].
Proof.
  pose proof (byteZ_range x). pose proof (byteZ_range y). pose proof (byteZ_range z).
  unfold unpack, pack. cbn [take]. rewrite !Z.mul_0_l, !Z.add_0_l.
  rewrite <- (Zbyte_mod (_ / 256)), <- (Zbyte_mod (byteZ x * _ + _ + _)).
  replace ((byteZ x * 65536 + byteZ y * 256 + byteZ z) / 65536) with (byteZ x)
    by (Z.to_euclidean_division_equations; lia).
  replace ((byteZ x * 65536 + byteZ y * 256 + byteZ z) / 256 mod 256) with (byteZ y)
    by (Z.to_euclidean_division_equations; lia).
  replace ((byteZ x * 65536 + byteZ y * 256 + byteZ z) mod 256) with (byteZ z)
    by (Z.to_euclidean_division_equations; lia).
  by rewrite !Zbyte_byteZ.
Qed.

Lemma pack_range x y z : 0 <= pack (byteZ x) (byteZ y) (byteZ z) < 2 ^ 24.
Proof.
  pose proof (byteZ_range x). pose proof (byteZ_range y). pose proof (byteZ_range z). unfold pack. lia.
Qed.

Lemma unpack_sextets n x y z v :
  v = pack (byteZ x) (byteZ y) (byteZ z) ->
  unpack n (v / 2 ^ 18 mod 64) (v / 2 ^ 12 mod 64) (v / 2 ^ 6 mod 64) (v / 2 ^ 0 mod 64) = take n [x; y; z].
Proof.
  intros ->. unfold unpack. rewrite digits_pack by apply pack_range.
  f_equal. rewrite <- (pack_bytes x y z). unfold unpack. cbn [take]. by rewrite !Z.mul_0_l, !Z.add_0_l.
Qed.

Lemma pack_tail2 x : pack (byteZ x) 0 0 / 2 ^ 6 mod 64 = 0 /\ pack (byteZ x) 0 0 / 2 ^ 0 mod 64 = 0.
Proof.
  pose proof (byteZ_range x). unfold pack. change (2 ^ 6) with 64. change (2 ^ 0) with 1.
  split; Z.to_euclidean_division_equations; lia.
Qed.

Lemma pack_tail1 x y : pack (byteZ x) (byteZ y) 0 / 2 ^ 0 mod 64 = 0.
Proof.
  pose proof (byteZ_range x). pose proof (byteZ_range y). unfold pack. change (2 ^ 0) with 1.
  Z.to_euclidean_division_equations. lia.
Qed.

Lemma b64Decode_encode b : b64Decode (b64Encode b) = Some b.
Proof.
  unfold b64Decode. revert b. fix IH 1. intros [|x [|y [|z b]]]; [done|..]; cbn [b64Encode].
  - rewrite !unbroken_sextet. cbn [unbroken b64quanta]. rewrite !unb64_sextet. cbn -[unpack pack Z.pow Z.div Z.modulo Z.mul Z.add].
    pose proof (unpack_sextets 1 x Byte.x00 Byte.x00 _ eq_refl) as H.
    change (byteZ Byte.x00) with 0 in H. destruct (pack_tail2 x) as [H1 H2].
    rewrite H1, H2 in H. by rewrite H.
  - rewrite !unbroken_sextet. cbn [unbroken b64quanta]. rewrite !unb64_sextet. cbn -[unpack pack Z.pow Z.div Z.modulo Z.mul Z.add].
    pose proof (unpack_sextets 2 x y Byte.x00 _ eq_refl) as H.
    change (byteZ Byte.x00) with 0 in H. rewrite (pack_tail1 x y) in H. by rewrite H.
  - rewrite !unbroken_sextet. cbn [b64quanta]. rewrite !unb64_sextet, IH.
    by rewrite (unpack_sextets 3 x y z _ eq_refl).
Qed.

(** An encoded text has no space to trim. *)
Lemma nospace_sextet v k s : nospace (String (sextet v k) s) = nospace s.
Proof. unfold nospace. cbn [allc]. unfold sextet. by rewrite (proj2 (proj2 (sextet_good v k))). Qed.

Lemma nospace_b64Encode b : nospace (b64Encode b) = true.
Proof.
  revert b. fix IH 1. intros [|x [|y [|z b]]]; [done|..]; cbn [b64Encode]; rewrite !nospace_sextet; [done|done|].
  apply IH.
Qed.

Example b64_ex : b64Encode (chars "nfagent") = "bmZhZ2VudA==".
Proof. vm_compute. reflexivity. Qed.
