(* ===== verification/NetIP.v ===== *)
(** * The part of Go's [net/netip] the agent uses: addresses, their order,
    prefixes and the overlap test.  Values are kept as the integers the
    package itself compares. *)
From S2P Require Import Prelude.

(** [netip.Addr]: the zero (invalid) address, IPv4, or IPv6 with its zone. *)
Inductive Addr : Type :=
| AddrZero
| V4 (v : Z)
| V6 (v : Z) (zone : string).

#[global] Instance Addr_eq_dec : EqDecision Addr.
Proof. solve_decision. Defined.

#[global] Program Instance Addr_countable : Countable Addr :=
  inj_countable
    (fun a => match a with
              | AddrZero => inl tt | V4 v => inr (inl v) | V6 v z => inr (inr (v, z)) end)
    (fun x => match x with
              | inl _ => Some AddrZero | inr (inl v) => Some (V4 v)
              | inr (inr (v, z)) => Some (V6 v z) end) _.
Next Obligation. by intros []. Qed.

Definition Addr_IsValid (a : Addr) : bool :=
  match a with AddrZero => false | _ => true end.
Definition Is4 (a : Addr) : bool := match a with V4 _ => true | _ => false end.
Definition Is6 (a : Addr) : bool := match a with V6 _ _ => true | _ => false end.
Definition BitLen (a : Addr) : Z :=
  match a with AddrZero => 0 | V4 _ => 32 | V6 _ _ => 128 end.
Definition addr_value (a : Addr) : Z :=
  match a with AddrZero => 0 | V4 v => v | V6 v _ => v end.
Definition addr_zone (a : Addr) : string :=
  match a with V6 _ z => z | _ => "" end.

(** [netip.AddrFromSlice]: four bytes are IPv4, sixteen are IPv6, anything else
    is the zero address with a false flag. *)
Definition AddrFromSlice (b : list byte) : Addr * bool :=
  if (length b =? 4)%nat then (V4 (be 0 b), true)
  else if (length b =? 16)%nat then (V6 (be 0 b) "", true)
  else (AddrZero, false).

(** [Addr.Compare]: by width, then by value, then by zone. *)
Definition addr_compare (a b : Addr) : comparison :=
  match BitLen a ?= BitLen b with
  | Eq => match addr_value a ?= addr_value b with
          | Eq => String.compare (addr_zone a) (addr_zone b)
          | c => c
          end
  | c => c
  end.

Definition Addr_Less (a b : Addr) : bool :=
  match addr_compare a b with Lt => true | _ => false end.

Definition addr_le (a b : Addr) : Prop := Addr_Less b a = false.

#[global] Instance addr_le_dec : RelDecision addr_le.
Proof. intros a b. unfold addr_le. apply _. Defined.

Lemma ascii_compare_refl a : Ascii.compare a a = Eq.
Proof. unfold Ascii.compare. apply N.compare_refl. Qed.

Lemma string_compare_refl s : String.compare s s = Eq.
Proof. induction s as [|a s IH]; simpl; [done|]. by rewrite ascii_compare_refl. Qed.

Lemma addr_compare_eq a b : addr_compare a b = Eq -> a = b.
Proof.
  unfold addr_compare. intros H.
  destruct (BitLen a ?= BitLen b) eqn:E1; try done.
  destruct (addr_value a ?= addr_value b) eqn:E2; try done.
  apply Z.compare_eq in E1, E2. apply String.compare_eq_iff in H.
  destruct a, b; simpl in *; try discriminate; by subst.
Qed.

Lemma addr_compare_antisym a b : addr_compare b a = CompOpp (addr_compare a b).
Proof.
  unfold addr_compare.
  rewrite (Z.compare_antisym (BitLen a) (BitLen b)).
  destruct (BitLen a ?= BitLen b); simpl; try done.
  rewrite (Z.compare_antisym (addr_value a) (addr_value b)).
  destruct (addr_value a ?= addr_value b); simpl; try done.
  apply String.compare_antisym.
Qed.

Lemma ascii_compare_lt_trans a b c :
  Ascii.compare a b = Lt -> Ascii.compare b c = Lt -> Ascii.compare a c = Lt.
Proof. unfold Ascii.compare. rewrite !N.compare_lt_iff. lia. Qed.

Lemma string_compare_lt_trans s1 s2 s3 :
  String.compare s1 s2 = Lt -> String.compare s2 s3 = Lt -> String.compare s1 s3 = Lt.
Proof.
  revert s2 s3. induction s1 as [|a s1 IH]; intros [|b s2] [|c s3]; simpl; try done.
  destruct (Ascii.compare a b) eqn:E1; try done;
    destruct (Ascii.compare b c) eqn:E2; try done; intros H1 H2.
  - apply Ascii.compare_eq_iff in E1, E2. subst.
    rewrite ascii_compare_refl. eauto.
  - apply Ascii.compare_eq_iff in E1. subst. by rewrite E2.
  - apply Ascii.compare_eq_iff in E2. subst. by rewrite E1.
  - by rewrite (ascii_compare_lt_trans _ _ _ E1 E2).
Qed.

Lemma addr_compare_lt_trans a b c :
  addr_compare a b = Lt -> addr_compare b c = Lt -> addr_compare a c = Lt.
Proof.
  unfold addr_compare. intros H1 H2.
  destruct (Z.compare_spec (BitLen a) (BitLen b)) as [E1|E1|E1]; try done;
    destruct (Z.compare_spec (BitLen b) (BitLen c)) as [E2|E2|E2]; try done;
    destruct (Z.compare_spec (BitLen a) (BitLen c)) as [E3|E3|E3]; try lia; try done.
  destruct (Z.compare_spec (addr_value a) (addr_value b)) as [F1|F1|F1]; try done;
    destruct (Z.compare_spec (addr_value b) (addr_value c)) as [F2|F2|F2]; try done;
    destruct (Z.compare_spec (addr_value a) (addr_value c)) as [F3|F3|F3]; try lia; try done.
  by eapply string_compare_lt_trans.
Qed.

Lemma addr_le_iff a b : addr_le a b <-> a = b \/ addr_compare a b = Lt.
Proof.
  unfold addr_le, Addr_Less. rewrite (addr_compare_antisym a b).
  destruct (addr_compare a b) eqn:E; simpl; split; intros H; try done; eauto.
  - left. by apply addr_compare_eq.
  - destruct H as [->|]; [|done].
    pose proof (addr_compare_antisym b b) as Hb. rewrite E in Hb. done.
Qed.

#[global] Instance addr_le_total : Total addr_le.
Proof.
  intros a b. rewrite !addr_le_iff. rewrite (addr_compare_antisym a b).
  destruct (addr_compare a b) eqn:E; simpl; eauto. left. left. by apply addr_compare_eq.
Qed.

#[global] Instance addr_le_trans : Transitive addr_le.
Proof.
  intros a b c. rewrite !addr_le_iff. intros [->|H1] [->|H2]; eauto.
  right. by eapply addr_compare_lt_trans.
Qed.

#[global] Instance addr_le_antisym : AntiSymm eq addr_le.
Proof.
  intros a b. rewrite !addr_le_iff, (addr_compare_antisym a b).
  intros [Heq|H1] [Heq'|H2]; try done. by rewrite H1 in H2.
Qed.

#[global] Instance addr_le_refl : Reflexive addr_le.
Proof. intros a. rewrite addr_le_iff. auto. Qed.

(** [netip.Prefix]; [-1] bits is the invalid prefix. *)
Record Prefix : Type := mkPrefix { pfx_addr : Addr; pfx_bits : Z }.

#[global] Instance Prefix_eq_dec : EqDecision Prefix.
Proof. solve_decision. Defined.

#[global] Program Instance Prefix_countable : Countable Prefix :=
  inj_countable (fun p => (pfx_addr p, pfx_bits p)) (fun x => Some (mkPrefix x.1 x.2)) _.
Next Obligation. by intros []. Qed.

Definition PrefixZero : Prefix := mkPrefix AddrZero (-1).

Definition Prefix_IsValid (p : Prefix) : bool := 0 <=? pfx_bits p.

(** What [netip.PrefixFrom] and [netip.ParsePrefix] produce. *)
Definition prefix_wf (p : Prefix) : Prop :=
  match pfx_addr p with
  | AddrZero => pfx_bits p = -1
  | V4 v => 0 <= v < 2 ^ 32 /\ -1 <= pfx_bits p <= 32
  | V6 v z => 0 <= v < 2 ^ 128 /\ z = "" /\ -1 <= pfx_bits p <= 128
  end.

(** [Addr.Prefix(b)]: the address with everything below the first [b] bits
    cleared, zone dropped. *)
Definition mask_to (a : Addr) (b : Z) : Z :=
  Z.shiftl (Z.shiftr (addr_value a) (BitLen a - b)) (BitLen a - b).

(** [Prefix.Masked]: the network the prefix lies in. *)
Definition Masked (p : Prefix) : Prefix :=
  match pfx_addr p with
  | AddrZero => PrefixZero
  | V4 _ => mkPrefix (V4 (mask_to (pfx_addr p) (pfx_bits p))) (pfx_bits p)
  | V6 _ _ => mkPrefix (V6 (mask_to (pfx_addr p) (pfx_bits p)) "") (pfx_bits p)
  end.

(** [Prefix.Overlaps]. *)
Definition Overlaps (p o : Prefix) : bool :=
  if negb (Prefix_IsValid p) || negb (Prefix_IsValid o) then false
  else if bool_decide (p = o) then true
  else if negb (Bool.eqb (Is4 (pfx_addr p)) (Is4 (pfx_addr o))) then false
  else let minBits := Z.min (pfx_bits p) (pfx_bits o) in
       if minBits =? 0 then true
       else mask_to (pfx_addr p) minBits =? mask_to (pfx_addr o) minBits.

(** [Prefix.Contains], for an address without a zone. *)
Definition Contains (p : Prefix) (a : Addr) : bool :=
  Prefix_IsValid p && Bool.eqb (Is4 (pfx_addr p)) (Is4 a) &&
  Bool.eqb (Is6 (pfx_addr p)) (Is6 a) && Addr_IsValid a &&
  (mask_to (pfx_addr p) (pfx_bits p) =? mask_to a (pfx_bits p)).

Lemma Overlaps_sym p o : Overlaps p o = Overlaps o p.
Proof.
  unfold Overlaps. rewrite orb_comm. destruct (_ || _); [done|].
  destruct (decide (p = o)) as [->|Hne]; [by rewrite !bool_decide_true by done|].
  rewrite !bool_decide_false by congruence.
  destruct (Is4 (pfx_addr p)), (Is4 (pfx_addr o)); simpl; try done;
    rewrite Z.min_comm; destruct (_ =? 0); try done; apply Z.eqb_sym.
Qed.
