(* ===== verification/Keys.v ===== *)
(** * WireGuard keys, as [wgtypes.Key] is used by every component.

    A key is its 32 bytes.  [wgtypes] is a library: its textual form and the
    derivation of the public half are operations of the class [WGKeys], whose
    laws are its documented behaviour (the text is an encoding of the bytes
    that [ParseKey] reads back, and a parsed key has 32 bytes). *)
From S2P Require Import Prelude GoStrings.

Abbreviation Key := (list byte).

Definition keyLen : nat := 32.

(** [wgtypes.Key{}]. *)
Definition zeroKey : Key := repeat Byte.x00 keyLen.

Class WGKeys : Type := {
  KeyString : Key -> string;
  ParseKey : string -> option Key;
  PublicKey : Key -> Key;
  ParseKey_String : forall k, length k = keyLen -> ParseKey (KeyString k) = Some k;
  ParseKey_empty : ParseKey "" = None;
  ParseKey_length : forall s k, ParseKey s = Some k -> length k = keyLen;
  PublicKey_length : forall k, length k = keyLen -> length (PublicKey k) = keyLen }.

Section Laws.
Context `{WGKeys}.

Lemma KeyString_inj k1 k2 :
  length k1 = keyLen -> length k2 = keyLen -> KeyString k1 = KeyString k2 -> k1 = k2.
Proof.
  intros H1 H2 E. apply (f_equal ParseKey) in E. rewrite !ParseKey_String in E by done.
  by injection E.
Qed.

Lemma KeyString_ne k : length k = keyLen -> KeyString k <> "".
Proof. intros Hk E. pose proof (ParseKey_String k Hk) as Hp. by rewrite E, ParseKey_empty in Hp. Qed.

(** Parsing normalises the spelling: the text of a parsed key parses to it. *)
Lemma ParseKey_normal s k : ParseKey s = Some k -> ParseKey (KeyString k) = Some k.
Proof. intros Hs. apply ParseKey_String. by eapply ParseKey_length. Qed.

End Laws.

(** A concrete instance, for evaluating the model: keys spelled in hex, and a
    stand-in derivation that flips every byte. *)
Definition flipByte (b : byte) : byte := Zbyte (255 - byteZ b).

#[export] Program Instance hexKeys : WGKeys := {|
  KeyString := hexEncode;
  ParseKey s := match hexDecode s with
                | Some b => if (length b =? keyLen)%nat then Some b else None
                | None => None
                end;
  PublicKey k := map flipByte k |}.
Next Obligation. intros k Hk. simpl. by rewrite hexDecode_encode, Hk. Qed.
Next Obligation. done. Qed.
Next Obligation.
  intros s k. simpl. destruct (hexDecode s) as [b|]; [|done].
  destruct (Nat.eqb_spec (length b) keyLen); [|done]. by intros [= <-].
Qed.
Next Obligation. intros k Hk. by rewrite length_map. Qed.

Definition exKey (n : Z) : Key := repeat (Zbyte n) keyLen.
