(* ===== verification/NetText.v ===== *)
(** * The text of [net/netip] addresses and prefixes, as the generated rulesets,
    routes and reports spell them ([Addr.String], [Prefix.String]). *)
From S2P Require Import Prelude GoStrings NetIP.

Module NetText.

(** The text of an address is made of characters that end no line. *)
Definition noNL (s : string) : bool := nochar nl s.

(** [Addr.string4]. *)
Definition string4 (v : Z) : string :=
  Join "." (map (fun k => itoa (Z.land (Z.shiftr v k) 255)) [24; 16; 8; 0]).

(** The [i]-th group of sixteen bits, [v6u16]. *)
Definition v6u16 (v : Z) (i : nat) : Z := Z.land (Z.shiftr v (112 - 16 * Z.of_nat i)) 65535.

(** [appendHex]: no leading zeros, at least one digit. *)
Definition hex16 (x : Z) : string :=
  let d k := String (hexdigit (Z.land (Z.shiftr x k) 15)) "" in
  (if 4096 <=? x then d 12 else "") +:+ (if 256 <=? x then d 8 else "") +:+
  (if 16 <=? x then d 4 else "") +:+ d 0.

(** The length of the run of zero groups from [i]; [fuel] is the groups left. *)
Fixpoint zeroRun (v : Z) (i fuel : nat) : nat :=
  match fuel with
  | O => 0
  | S fuel => if v6u16 v i =? 0 then S (zeroRun v (S i) fuel) else 0
  end.

(** The run that [appendTo6] replaces by two colons: the first of the longest,
    of two groups at least. *)
Definition longestZeros (v : Z) : option (nat * nat) :=
  fold_left (fun best i =>
      let l := zeroRun v i (8 - i) in
      if ((2 <=? l) && (match best with Some (_, l0) => l0 | None => 0 end <? l))%nat
      then Some (i, l) else best)
    (seq 0 8) None.

Definition groups (v : Z) (i n : nat) : string := Join ":" (map (fun k => hex16 (v6u16 v k)) (seq i n)).

Definition string6 (v : Z) : string :=
  match longestZeros v with
  | None => groups v 0 8
  | Some (i, l) => groups v 0 i +:+ "::" +:+ groups v (i + l) (8 - (i + l))
  end.

Definition Addr_String (a : Addr) : string :=
  match a with
  | AddrZero => "invalid IP"
  | V4 v => string4 v
  | V6 v zone =>
      (if Z.shiftr v 32 =? 65535 then "::ffff:" +:+ string4 (Z.land v (Z.ones 32)) else string6 v)
      +:+ (if String.eqb zone "" then "" else "%" +:+ zone)
  end.

Definition Prefix_String (p : Prefix) : string :=
  if negb (Prefix_IsValid p) then "invalid Prefix"
  else Addr_String (pfx_addr p) +:+ "/" +:+ itoa (pfx_bits p).

Example string4_ex : Addr_String (V4 (100 * 2 ^ 24 + 64 * 2 ^ 16 + 7)) = "100.64.0.7".
Proof. vm_compute. reflexivity. Qed.
Example string6_ex : Addr_String (V6 (0xfd00 * 2 ^ 112 + 0x12 * 2 ^ 16 + 0xab) "") = "fd00::12:ab".
Proof. vm_compute. reflexivity. Qed.
Example string6_ex2 : Addr_String (V6 1 "eth0") = "::1%eth0".
Proof. vm_compute. reflexivity. Qed.

Lemma noNL_app s t : noNL (s +:+ t) = noNL s && noNL t.
Proof. apply allc_app. Qed.

Lemma noNL_Join sep l : noNL sep = true -> Forall (fun s => noNL s = true) l -> noNL (Join sep l) = true.
Proof.
  intros Hsep. induction 1 as [|s l Hs Hl IH]; [done|]. destruct l as [|s' l]; [done|].
  change (Join sep (s :: s' :: l)) with (s +:+ sep +:+ Join sep (s' :: l)).
  by rewrite !noNL_app, Hs, Hsep, IH.
Qed.

Lemma nospace_itoa z : nospace (itoa z) = true.
Proof.
  destruct (Z.le_gt_cases 0 z); [by apply itoa_digits|].
  destruct z as [|p|p]; [lia..|]. change (itoa (Z.neg p)) with ("-" +:+ itoa (Z.pos p)).
  unfold nospace. rewrite allc_app. simpl. exact (proj1 (itoa_digits (Z.pos p) ltac:(lia))).
Qed.

Lemma noNL_itoa z : noNL (itoa z) = true.
Proof. apply nospace_nonl, nospace_itoa. Qed.

Lemma nospace_app s t : nospace (s +:+ t) = nospace s && nospace t.
Proof. apply allc_app. Qed.

Lemma nospace_Join sep l :
  nospace sep = true -> Forall (fun s => nospace s = true) l -> nospace (Join sep l) = true.
Proof.
  intros Hsep. induction 1 as [|s l Hs Hl IH]; [done|]. destruct l as [|s' l]; [done|].
  change (Join sep (s :: s' :: l)) with (s +:+ sep +:+ Join sep (s' :: l)).
  by rewrite !nospace_app, Hs, Hsep, IH.
Qed.

Lemma nospace_hexdigit x : nospace (String (hexdigit (Z.land x 15)) "") = true.
Proof.
  unfold nospace. simpl. rewrite andb_true_r. apply negb_true_iff, hexdigit_nospace.
  change 15 with (Z.ones 4). rewrite Z.land_ones by lia. by apply Z.mod_pos_bound.
Qed.

Lemma nospace_hex16 x : nospace (hex16 x) = true.
Proof.
  unfold hex16. rewrite !nospace_app, !nospace_hexdigit.
  destruct (_ <=? _), (_ <=? _), (_ <=? _); rewrite ?nospace_hexdigit; done.
Qed.

Lemma nospace_groups v i n : nospace (groups v i n) = true.
Proof.
  apply nospace_Join; [done|]. apply Forall_forall. intros s Hs.
  apply list_elem_of_fmap in Hs as (k & -> & _). apply nospace_hex16.
Qed.

(** An address with no zone, which is every address a map carries, spells as one
    word. *)
Lemma nospace_Addr_String a :
  a <> AddrZero -> nospace (addr_zone a) = true -> nospace (Addr_String a) = true.
Proof.
  assert (H4 : forall v, nospace (string4 v) = true).
  { intros v. apply nospace_Join; [done|]. apply Forall_forall. intros s Hs.
    apply list_elem_of_fmap in Hs as (k & -> & _). apply nospace_itoa. }
  destruct a as [|v|v z]; cbn [Addr_String addr_zone]; [done|auto|]. intros _ Hz. rewrite nospace_app.
  apply andb_true_iff. split.
  - destruct (_ =? _); [rewrite nospace_app, H4; reflexivity|].
    unfold string6. destruct (longestZeros v) as [[i l]|]; rewrite ?nospace_app, !nospace_groups; reflexivity.
  - destruct (String.eqb z ""); [done|]. rewrite nospace_app, Hz. reflexivity.
Qed.

Lemma noNL_Addr_String a : nospace (addr_zone a) = true -> noNL (Addr_String a) = true.
Proof.
  intros Hz. destruct (decide (a = AddrZero)) as [->|Hne]; [done|].
  by apply nospace_nonl, nospace_Addr_String.
Qed.

Lemma sapp_ne_nil s t : t <> "" -> s +:+ t <> "".
Proof. by destruct s. Qed.

(** No address spells as nothing. *)
Lemma Addr_String_ne a : Addr_String a <> "".
Proof.
  assert (H4 : forall v, string4 v <> "") by (intros v; by apply sapp_ne_nil).
  destruct a as [|v|v z]; cbn [Addr_String]; [done|apply H4|].
  assert (H6 : string6 v <> "").
  { unfold string6. destruct (longestZeros v) as [[i l]|]; by apply sapp_ne_nil. }
  destruct (_ =? _); [done|]. by destruct (string6 v).
Qed.

#[global] Opaque Addr_String.

(** [netip.AddrPort]: an endpoint. *)
Record AddrPort : Type := mkAddrPort { ap_addr : Addr; ap_port : Z }.

#[global] Instance AddrPort_eq_dec : EqDecision AddrPort.
Proof. solve_decision. Defined.

Definition AddrPort_IsValid (ap : AddrPort) : bool := Addr_IsValid (ap_addr ap).

Definition AddrPort_String (ap : AddrPort) : string :=
  match ap_addr ap with
  | AddrZero => "invalid AddrPort"
  | V4 v => Addr_String (V4 v) +:+ ":" +:+ itoa (ap_port ap)
  | V6 v z => "[" +:+ Addr_String (V6 v z) +:+ "]:" +:+ itoa (ap_port ap)
  end.

Lemma nospace_AddrPort_String ap :
  AddrPort_IsValid ap = true -> nospace (addr_zone (ap_addr ap)) = true ->
  nospace (AddrPort_String ap) = true.
Proof.
  destruct ap as [a p]. unfold AddrPort_IsValid, AddrPort_String. cbn [ap_addr ap_port].
  destruct a as [|v|v z]; [done|..]; intros _ Hz;
    rewrite !nospace_app, nospace_itoa, (nospace_Addr_String (_ v)) || 
    rewrite !nospace_app, nospace_itoa, (nospace_Addr_String (V6 v z)); done.
Qed.

Lemma nospace_Prefix_String p :
  Prefix_IsValid p = true -> pfx_addr p <> AddrZero -> nospace (addr_zone (pfx_addr p)) = true ->
  nospace (Prefix_String p) = true.
Proof.
  unfold Prefix_String. intros -> Ha Hz. cbn [negb].
  by rewrite !nospace_app, nospace_Addr_String, nospace_itoa.
Qed.

End NetText.
