(* ===== verification/Filter.v ===== *)
(** * internal/filter/filter.go: the stateful packet filter.

    [Filter] is the receiving side of every access rule: [Outbound] remembers
    the conversations this machine starts, [Inbound] decides whether a packet
    from the mesh is delivered, [Prune] forgets idle conversations and
    [SetRules] replaces what each peer may start.  Time is a reading of
    [f.now().UnixNano()] passed to each operation. *)
From S2P Require Import Prelude NetIP.

Module Filter.

(** [Protocol] is a string, as it arrives from the network map. *)
Definition All : string := "all".
Definition TCP : string := "tcp".
Definition UDP : string := "udp".
Definition ICMP : string := "icmp".

Record PortRange : Type := mkPortRange { From : Z; To : Z }.

#[global] Instance PortRange_eq_dec : EqDecision PortRange.
Proof. solve_decision. Defined.

Definition contains (p : PortRange) (port : Z) : bool :=
  (From p <=? port) && (port <=? To p).

Record Rule : Type := mkRule { Protocol : string; Ports : list PortRange }.

#[global] Instance Rule_eq_dec : EqDecision Rule.
Proof. solve_decision. Defined.

Definition protoICMP : Z := 1.
Definition protoTCP : Z := 6.
Definition protoUDP : Z := 17.
Definition protoICMPv6 : Z := 58.
Definition tcpIdle : Z := 5 * Minute.
Definition otherIdle : Z := 60 * Second.

(** The tail of [Rule.allows]: no port list means every port. *)
Definition portsAllow (ports : list PortRange) (port : Z) : bool :=
  if (length ports =? 0)%nat then true else existsb (fun p => contains p port) ports.

Definition allows (r : Rule) (proto port : Z) : bool :=
  if String.eqb (Protocol r) All then true
  else if String.eqb (Protocol r) ICMP then (proto =? protoICMP) || (proto =? protoICMPv6)
  else if String.eqb (Protocol r) TCP then
    if negb (proto =? protoTCP) then false else portsAllow (Ports r) port
  else if String.eqb (Protocol r) UDP then
    if negb (proto =? protoUDP) then false else portsAllow (Ports r) port
  else false.

(** One conversation, from the point of view of this machine. *)
Record flow : Type := mkFlow {
  f_proto : Z; f_local : Addr; f_remote : Addr; f_localPort : Z; f_remotePort : Z }.

#[global] Instance flow_eq_dec : EqDecision flow.
Proof. solve_decision. Defined.

#[global] Program Instance flow_countable : Countable flow :=
  inj_countable (fun k => (f_proto k, f_local k, f_remote k, f_localPort k, f_remotePort k))
    (fun '(p, l, r, lp, rp) => Some (mkFlow p l r lp rp)) _.
Next Obligation. by intros []. Qed.

(** The state.  [flows] maps a conversation to the nanosecond stamp its
    [*int64] holds. *)
Record Filter : Type := mkFilter {
  on : bool; rules : gmap Addr (list Rule); flows : gmap flow Z }.

Definition New : Filter := mkFilter false ∅ ∅.

Definition SetRules (f : Filter) (r : gmap Addr (list Rule)) : Filter :=
  mkFilter true r (flows f).

Definition Enabled (f : Filter) : bool := on f.

Definition set_flows (f : Filter) (m : gmap flow Z) : Filter :=
  mkFilter (on f) (rules f) m.

(** The little of a packet the filter needs. *)
Record parsed : Type := mkParsed {
  proto : Z; src : Addr; dst : Addr; srcPort : Z; dstPort : Z }.

(** The second half of [parse]: validity of the addresses, then the ports. *)
Definition parsePorts (proto : Z) (src dst : Addr) (payload : list byte) : go (option parsed) :=
  if negb (Addr_IsValid src) || negb (Addr_IsValid dst) then Ret None
  else if (proto =? protoTCP) || (proto =? protoUDP) then
    if (length payload <? 4)%nat then Ret None
    else sp ← slice payload 0 2; dp ← slice payload 2 4;
         Ret (Some (mkParsed proto src dst (be 0 sp) (be 0 dp)))
  else if (proto =? protoICMP) || (proto =? protoICMPv6) then
    Ret (Some (mkParsed proto src dst 0 0))
  else Ret None.

(** [parse]; [None] is the false flag, [Panic] an index out of range. *)
Definition parse (b : list byte) : go (option parsed) :=
  if (length b <? 20)%nat then Ret None
  else
    b0 ← index b 0;
    let version := Z.shiftr (byteZ b0) 4 in
    if version =? 4 then
      let ihl := Z.land (byteZ b0) 15 * 4 in
      if (ihl <? 20) || (Z.of_nat (length b) <? ihl) then Ret None
      else
        frag ← slice b 6 8;
        if negb (Z.land (be 0 frag) 8191 =? 0) then Ret None
        else
          p ← index b 9;
          s ← slice b 12 16; d ← slice b 16 20;
          payload ← slice b (Z.to_nat ihl) (length b);
          parsePorts (byteZ p) (AddrFromSlice s).1 (AddrFromSlice d).1 payload
    else if version =? 6 then
      if (length b <? 40)%nat then Ret None
      else
        p ← index b 6;
        s ← slice b 8 24; d ← slice b 24 40;
        payload ← slice b 40 (length b);
        parsePorts (byteZ p) (AddrFromSlice s).1 (AddrFromSlice d).1 payload
    else Ret None.

(** The key [Outbound] stores and the key [Inbound] looks up. *)
Definition outKey (p : parsed) : flow :=
  mkFlow (proto p) (src p) (dst p) (srcPort p) (dstPort p).
Definition inKey (p : parsed) : flow :=
  mkFlow (proto p) (dst p) (src p) (dstPort p) (srcPort p).

Definition idleFor (proto : Z) : Z :=
  if proto =? protoTCP then tcpIdle else otherIdle.

(** [Outbound] at time [now]: both the refresh of a known flow and the store
    of a new one leave the stamp at [now]. *)
Definition Outbound (f : Filter) (now : Z) (packet : list byte) : go Filter :=
  op ← parse packet;
  match op with
  | None => Ret f
  | Some p =>
      match flows f !! outKey p with
      | Some _ => Ret (set_flows f (<[outKey p := now]> (flows f)))
      | None => Ret (set_flows f (<[outKey p := now]> (flows f)))
      end
  end.

(** The loop over [rules\[p.src\]]; a missing entry is an empty list. *)
Definition rulesAllow (rs : gmap Addr (list Rule)) (p : parsed) : bool :=
  existsb (fun r => allows r (proto p) (dstPort p)) (default [] (rs !! src p)).

(** [Inbound]: [now] is the clock read by the expiry test, [now'] the one
    stored by the refresh.  Returns the verdict and the state. *)
Definition Inbound (f : Filter) (now now' : Z) (packet : list byte) : go (bool * Filter) :=
  if negb (on f) then Ret (true, f)
  else
    op ← parse packet;
    match op with
    | None => Ret (true, f)
    | Some p =>
        match flows f !! inKey p with
        | Some stamp =>
            if wrap64 (now - stamp) <? idleFor (proto p)
            then Ret (true, set_flows f (<[inKey p := now']> (flows f)))
            else Ret (rulesAllow (rules f) p, set_flows f (delete (inKey p) (flows f)))
        | None => Ret (rulesAllow (rules f) p, f)
        end
    end.

(** [Prune] at [cutoff]. *)
Definition Prune (f : Filter) (cutoff : Z) : Filter :=
  set_flows f (filter (fun kv => ~ (tcpIdle < wrap64 (cutoff - kv.2))) (flows f)).

(** ** Traces: the operations other goroutines apply to one filter, in the
    order the filter sees them *)

Inductive op : Type :=
| OSetRules (r : gmap Addr (list Rule))
| OOutbound (t : Z) (packet : list byte)
| OInbound (t t' : Z) (packet : list byte)
| OPrune (t : Z).

(** One operation; the verdict is present for [Inbound] only. *)
Definition step (f : Filter) (o : op) : go (option bool * Filter) :=
  match o with
  | OSetRules r => Ret (None, SetRules f r)
  | OOutbound t pkt => f' ← Outbound f t pkt; Ret (None, f')
  | OInbound t t' pkt => vf ← Inbound f t t' pkt; Ret (Some (vf.1), vf.2)
  | OPrune t => Ret (None, Prune f t)
  end.

(** A run, with the verdicts it gave. *)
Fixpoint run (f : Filter) (tr : list op) : go (list (option bool) * Filter) :=
  match tr with
  | [] => Ret ([], f)
  | o :: tr => vf ← step f o; vsf ← run vf.2 tr; Ret (vf.1 :: vsf.1, vsf.2)
  end.

(** The clock readings of a run are non-negative, representable and do not go
    backwards from [t0]. *)
Fixpoint clocked (t0 : Z) (tr : list op) : Prop :=
  match tr with
  | [] => True
  | OSetRules _ :: tr => clocked t0 tr
  | OOutbound t _ :: tr | OPrune t :: tr => t0 <= t <= int64_max /\ clocked t tr
  | OInbound t t' _ :: tr => t0 <= t /\ t <= t' <= int64_max /\ clocked t' tr
  end.

(** What the package documentation promises of a verdict. *)
Definition freshReply (f : Filter) (now : Z) (p : parsed) : Prop :=
  exists stamp, flows f !! inKey p = Some stamp /\ wrap64 (now - stamp) < idleFor (proto p).

Definition mayStart (rs : gmap Addr (list Rule)) (p : parsed) : Prop :=
  exists r, r ∈ default [] (rs !! src p) /\ allows r (proto p) (dstPort p) = true.

Definition admitted (f : Filter) (now : Z) (packet : list byte) : Prop :=
  on f = false \/ parse packet = Ret None \/
  exists p, parse packet = Ret (Some p) /\ (freshReply f now p \/ mayStart (rules f) p).

(** ** Lemmas *)

Lemma AddrFromSlice_4 s : length s = 4%nat -> AddrFromSlice s = (V4 (be 0 s), true).
Proof. intros H. unfold AddrFromSlice. by rewrite H. Qed.

Lemma AddrFromSlice_16 s : length s = 16%nat -> AddrFromSlice s = (V6 (be 0 s) "", true).
Proof. intros H. unfold AddrFromSlice. by rewrite H. Qed.

Lemma parsePorts_total pr a d pl : exists r, parsePorts pr a d pl = Ret r.
Proof.
  unfold parsePorts. destruct (_ || _); [eauto|]. destruct (_ || _).
  - destruct (Nat.ltb_spec (length pl) 4); [eauto|].
    rewrite !slice_ret by lia. simpl. eauto.
  - destruct (_ || _); eauto.
Qed.

Lemma land15_bound z : 0 <= Z.land z 15 <= 15.
Proof.
  pose proof (Z.land_ones z 4 ltac:(lia)) as E. change (Z.ones 4) with 15 in E. rewrite E.
  pose proof (Z.mod_pos_bound z (2 ^ 4) ltac:(lia)). lia.
Qed.

Lemma idleFor_le pr : otherIdle <= idleFor pr <= tcpIdle.
Proof. unfold idleFor. case_match; unfold tcpIdle, otherIdle, Minute, Second, Millisecond; lia. Qed.

Lemma Outbound_parsed f now pkt p :
  parse pkt = Ret (Some p) ->
  Outbound f now pkt = Ret (set_flows f (<[outKey p := now]> (flows f))).
Proof. intros H. unfold Outbound. rewrite H. simpl. by case_match. Qed.

Lemma rulesAllow_iff rs p : rulesAllow rs p = true <-> mayStart rs p.
Proof.
  unfold rulesAllow, mayStart. rewrite existsb_exists.
  setoid_rewrite list_elem_of_In. naive_solver.
Qed.

(** ** Properties *)

(** No sequence of bytes makes the header parser index out of range. *)
Lemma parse_total b : exists r, parse b = Ret r.
Proof.
  unfold parse. destruct (Nat.ltb_spec (length b) 20) as [|Hlen]; [eauto|].
  destruct (index_ret b 0) as (b0 & _ & ->); [lia|]. simpl.
  destruct (_ =? 4).
  - destruct (_ || _) eqn:E; [eauto|].
    apply orb_false_iff in E as [E1 E2]. apply Z.ltb_ge in E1, E2.
    rewrite !slice_ret by lia. simpl. case_match; [eauto|].
    destruct (index_ret b 9) as (b9 & _ & ->); [lia|]. apply parsePorts_total.
  - destruct (_ =? 6); [|eauto].
    destruct (Nat.ltb_spec (length b) 40); [eauto|].
    destruct (index_ret b 6) as (b6 & _ & ->); [lia|]. simpl.
    rewrite !slice_ret by lia. apply parsePorts_total.
Qed.

Lemma Inbound_verdict f now now' pkt :
  exists b f', Inbound f now now' pkt = Ret (b, f') /\ (b = true <-> admitted f now pkt).
Proof.
  unfold Inbound, admitted. destruct (on f) eqn:Hon; simpl; [|exists true, f; naive_solver].
  destruct (parse_total pkt) as [[p|] Hp]; rewrite Hp; simpl; [|exists true, f; naive_solver].
  destruct (flows f !! inKey p) as [stamp|] eqn:Hl.
  - destruct (Z.ltb_spec (wrap64 (now - stamp)) (idleFor (proto p))) as [Hlt|Hge].
    + do 2 eexists; split; [done|]. split; [|done]. intros _.
      right; right. exists p. split; [done|]. left. by exists stamp.
    + do 2 eexists; split; [done|]. rewrite rulesAllow_iff. split.
      * intros. right; right. eauto.
      * intros [|[|(q & [= <-] & [(st & Hst & Hlt)|])]]; try done. simplify_eq. lia.
  - do 2 eexists; split; [done|]. rewrite rulesAllow_iff. split.
    + intros. right; right. eauto.
    + intros [|[|(q & [= <-] & [(st & Hst & Hlt)|])]]; try done. simplify_eq.
Qed.

(** on every sequence of bytes the filter reaches a verdict without indexing
    out of range, and it delivers exactly what the package documentation
    promises: everything while no rules were ever set, whatever it cannot
    parse, fresh replies to conversations this machine started, and what the
    sender's rules let it start. *)
Theorem Inbound_decides f now now' pkt :
  exists b f', Inbound f now now' pkt = Ret (b, f') /\ (b = true <-> admitted f now pkt).
Proof. apply Inbound_verdict. Qed.

(** what one rule covers, declaratively: an [all] rule covers everything, an
    [icmp] rule both ICMP protocols, a [tcp] or [udp] rule its protocol on every
    port when it lists none and on the listed ranges otherwise, and a rule with
    any other protocol name covers nothing. *)
Theorem allows_iff r pr port :
  allows r pr port = true <->
  Protocol r = All \/
  (Protocol r = ICMP /\ (pr = protoICMP \/ pr = protoICMPv6)) \/
  ((Protocol r = TCP /\ pr = protoTCP \/ Protocol r = UDP /\ pr = protoUDP) /\
   (Ports r = [] \/ exists q, q ∈ Ports r /\ From q <= port <= To q)).
Proof.
  assert (Hp : portsAllow (Ports r) port = true <->
               Ports r = [] \/ exists q, q ∈ Ports r /\ From q <= port <= To q).
  { unfold portsAllow. destruct (Ports r) as [|q0 l]; [naive_solver|].
    change ((length (q0 :: l) =? 0)%nat) with false. cbv iota. rewrite existsb_exists.
    setoid_rewrite list_elem_of_In. unfold contains. setoid_rewrite andb_true_iff.
    setoid_rewrite Z.leb_le. naive_solver. }
  unfold allows.
  destruct (String.eqb_spec (Protocol r) All) as [E|N1]; [naive_solver|].
  destruct (String.eqb_spec (Protocol r) ICMP) as [E|N2].
  { rewrite orb_true_iff, !Z.eqb_eq. rewrite E in *. naive_solver. }
  destruct (String.eqb_spec (Protocol r) TCP) as [E|N3].
  { destruct (Z.eqb_spec pr protoTCP); simpl; rewrite ?Hp, ?E; naive_solver. }
  destruct (String.eqb_spec (Protocol r) UDP) as [E|N4].
  { destruct (Z.eqb_spec pr protoUDP); simpl; rewrite ?Hp, ?E; naive_solver. }
  naive_solver.
Qed.

(** The parser reads an IPv4 header of [4 * w] bytes as RFC 791 lays it out. *)
Lemma parse_ipv4_layout w b0 b1 b2 b3 b4 b5 b6 b7 b8 b9 b10 b11 s1 s2 s3 s4 d1 d2 d3 d4
    opts p1 p2 p3 p4 rest :
  byteZ b0 = 4 * 16 + w -> 5 <= w <= 15 -> length opts = (4 * (Z.to_nat w - 5))%nat ->
  Z.land (be 0 [b6; b7]) 8191 = 0 ->
  byteZ b9 = protoTCP \/ byteZ b9 = protoUDP ->
  parse ([b0; b1; b2; b3; b4; b5; b6; b7; b8; b9; b10; b11;
          s1; s2; s3; s4; d1; d2; d3; d4] ++ opts ++ [p1; p2; p3; p4] ++ rest) =
  Ret (Some (mkParsed (byteZ b9) (V4 (be 0 [s1; s2; s3; s4])) (V4 (be 0 [d1; d2; d3; d4]))
                      (be 0 [p1; p2]) (be 0 [p3; p4]))).
Proof.
  intros Hb0 Hw Hopts Hfrag Hpr.
  set (hdr := [b0; b1; b2; b3; b4; b5; b6; b7; b8; b9; b10; b11;
               s1; s2; s3; s4; d1; d2; d3; d4]).
  set (b := hdr ++ opts ++ [p1; p2; p3; p4] ++ rest).
  assert (Hlen : length b = (20 + length opts + 4 + length rest)%nat).
  { unfold b. rewrite !length_app. simpl. lia. }
  assert (Hv : Z.shiftr (byteZ b0) 4 = 4).
  { rewrite Z.shiftr_div_pow2, Hb0 by lia. symmetry. apply (Z.div_unique _ _ _ w); lia. }
  assert (Hl : Z.land (byteZ b0) 15 = w).
  { pose proof (Z.land_ones (byteZ b0) 4 ltac:(lia)) as E. change (Z.ones 4) with 15 in E.
    rewrite E, Hb0. symmetry. apply (Z.mod_unique _ _ 4); lia. }
  unfold parse. destruct (Nat.ltb_spec (length b) 20); [lia|].
  change (index b 0) with (Ret b0). cbn [mbind go_bind].
  rewrite Hv, Hl. cbn [Z.eqb]. rewrite !slice_ret by lia.
  destruct (Z.ltb_spec (w * 4) 20); [lia|]. destruct (Z.ltb_spec (Z.of_nat (length b)) (w * 4)); [lia|].
  change (index b 9) with (Ret b9). cbn [orb mbind go_bind].
  change (take (8 - 6) (drop 6 b)) with [b6; b7]. rewrite Hfrag. cbn [Z.eqb negb].
  change (take (16 - 12) (drop 12 b)) with [s1; s2; s3; s4].
  change (take (20 - 16) (drop 16 b)) with [d1; d2; d3; d4].
  assert (Hpl : take (length b - Z.to_nat (w * 4)) (drop (Z.to_nat (w * 4)) b)
                = [p1; p2; p3; p4] ++ rest).
  { rewrite take_ge by (rewrite length_drop; lia). unfold b. rewrite app_assoc.
    apply drop_app_length'. rewrite length_app. simpl. lia. }
  rewrite Hpl. unfold parsePorts. cbn [AddrFromSlice length Nat.eqb fst Addr_IsValid negb orb].
  replace ((byteZ b9 =? protoTCP) || (byteZ b9 =? protoUDP)) with true
    by (symmetry; apply orb_true_iff; rewrite !Z.eqb_eq; tauto).
  reflexivity.
Qed.

(** The mirror of a packet, on the wire: the other end sends it back from the
    address and port it was sent to, to those it was sent from. *)
Definition isReplyTo (q p : parsed) : Prop :=
  proto q = proto p /\ src q = dst p /\ dst q = src p /\
  srcPort q = dstPort p /\ dstPort q = srcPort p.

(** The two keys under which the filter files the two directions agree exactly
    on mirrored packets. *)
Lemma inKey_outKey q p : inKey q = outKey p <-> isReplyTo q p.
Proof.
  unfold inKey, outKey, isReplyTo. split; [intros [= -> -> -> -> ->]; done|].
  intros (-> & -> & -> & -> & ->). done.
Qed.

(** a reply to a conversation this machine started is delivered, whatever
    the rules say about the peer, as long as the conversation has not been idle
    for [idleFor] its protocol. *)
Theorem reply_admitted f t pkt p f' now now' reply q :
  parse pkt = Ret (Some p) -> Outbound f t pkt = Ret f' ->
  parse reply = Ret (Some q) -> isReplyTo q p ->
  0 <= t <= now -> now <= int64_max -> now - t < idleFor (proto q) ->
  exists f'', Inbound f' now now' reply = Ret (true, f'').
Proof.
  intros Hp Ho Hq Hr Ht Hmax Hidle.
  rewrite (Outbound_parsed _ _ _ _ Hp) in Ho. injection Ho as <-.
  unfold Inbound. destruct (on _); simpl; [|eauto].
  rewrite Hq. simpl. rewrite (proj2 (inKey_outKey q p) Hr), lookup_insert_eq.
  rewrite wrap64_id by (unfold in_int64, int64_min in *; lia).
  destruct (Z.ltb_spec (now - t) (idleFor (proto q))); [eauto|lia].
Qed.

(** The run [tr] contains an outbound packet filed under [k]. *)
Definition startedIn (tr : list op) (k : flow) : Prop :=
  exists t pkt p, OOutbound t pkt ∈ tr /\ parse pkt = Ret (Some p) /\ outKey p = k.

(** The run [tr] contains an outbound packet that [q] answers. *)
Definition answersIn (tr : list op) (q : parsed) : Prop :=
  exists t pkt p, OOutbound t pkt ∈ tr /\ parse pkt = Ret (Some p) /\ isReplyTo q p.

Lemma startedIn_snoc tr o k : startedIn tr k -> startedIn (tr ++ [o]) k.
Proof. intros (t & pkt & p & ? & ?). exists t, pkt, p. set_solver. Qed.

Lemma step_flows f o v f' k stamp :
  step f o = Ret (v, f') -> flows f' !! k = Some stamp ->
  is_Some (flows f !! k) \/ startedIn [o] k.
Proof.
  destruct o as [r|t pkt|t t' pkt|t]; simpl.
  - intros [= <- <-]. simpl. eauto.
  - unfold Outbound. destruct (parse pkt) as [[p|]|] eqn:Hp; simpl; try done.
    + assert (Hk : flows (set_flows f (<[outKey p := t]> (flows f))) !! k = Some stamp ->
                is_Some (flows f !! k) \/ startedIn [OOutbound t pkt] k).
      { simpl. rewrite lookup_insert. case_decide as Hd; [|eauto].
        intros _. right. exists t, pkt, p. set_solver. }
      case_match; intros [= <- <-]; exact Hk.
    + intros [= <- <-]. eauto.
  - unfold Inbound. destruct (on f); simpl; [|intros [= <- <-]; eauto].
    destruct (parse pkt) as [[p|]|]; simpl; try done; [|intros [= <- <-]; eauto].
    destruct (flows f !! inKey p) as [st|] eqn:El; [|intros [= <- <-]; eauto].
    case_match; intros [= <- <-]; simpl.
    + rewrite lookup_insert. case_decide; subst; eauto.
    + rewrite lookup_delete. case_decide; subst; [done|eauto].
  - intros [= <- <-]. simpl. intros [H _]%map_lookup_filter_Some. eauto.
Qed.

Lemma run_snoc f tr o vs f' :
  run f (tr ++ [o]) = Ret (vs, f') ->
  exists vs1 f1 v, run f tr = Ret (vs1, f1) /\ step f1 o = Ret (v, f') /\ vs = vs1 ++ [v].
Proof.
  revert f vs. induction tr as [|o' tr IH]; intros f vs; simpl.
  - destruct (step f o) as [[v1 f1]|] eqn:E; simpl; [|done]. intros [= <- <-]. naive_solver.
  - destruct (step f o') as [[v1 f1]|]; simpl; [|done].
    destruct (run f1 (tr ++ [o])) as [[vs2 f2]|] eqn:E; simpl; [|done].
    intros [= <- <-]. apply IH in E as (vs1 & f3 & v & E1 & E2 & ->).
    rewrite E1. simpl. naive_solver.
Qed.

(** A flow is only ever remembered because this machine sent a packet of it. *)
Lemma flows_started tr vs f k :
  run New tr = Ret (vs, f) -> is_Some (flows f !! k) -> startedIn tr k.
Proof.
  revert vs f. induction tr as [|o tr IH] using rev_ind; intros vs f.
  - simpl. intros [= <- <-] [x Hx]. done.
  - intros (vs1 & f1 & v & E1 & E2 & ->)%run_snoc [x Hx].
    destruct (step_flows _ _ _ _ _ _ E2 Hx) as [H|(t & pkt & p & H)].
    + by eapply startedIn_snoc, IH.
    + exists t, pkt, p. set_solver.
Qed.

(** C1: in every run from a fresh filter, a packet the parser understands that
    is delivered while rules are in force is either something its sender's
    rules let it start, or belongs to a conversation this machine started
    earlier in the run: traffic from a peer can never open the door by itself. *)
Theorem delivered_justified tr vs f now now' pkt p f' :
  run New tr = Ret (vs, f) -> on f = true -> parse pkt = Ret (Some p) ->
  Inbound f now now' pkt = Ret (true, f') ->
  mayStart (rules f) p \/ answersIn tr p.
Proof.
  intros Hrun Hon Hp Hin. unfold Inbound in Hin. rewrite Hon, Hp in Hin. simpl in Hin.
  destruct (flows f !! inKey p) as [st|] eqn:E.
  - right. destruct (flows_started _ _ _ _ Hrun (ex_intro _ st E)) as (t & o & r & ? & ? & Hk).
    exists t, o, r. split_and!; try done. apply inKey_outKey. by rewrite Hk.
  - left. injection Hin as Hin _. by apply rulesAllow_iff.
Qed.

(** What a packet that was understood is made of: a protocol the rules know, two
    addresses of one family and of its width, and ports of sixteen bits, which
    only TCP and UDP have. *)
Record wellFormed (p : parsed) : Prop := {
  wf_proto : proto p ∈ [protoTCP; protoUDP; protoICMP; protoICMPv6];
  wf_family : (exists s d, src p = V4 s /\ dst p = V4 d /\ 0 <= s < 2 ^ 32 /\ 0 <= d < 2 ^ 32) \/
              (exists s d, src p = V6 s "" /\ dst p = V6 d "" /\ 0 <= s < 2 ^ 128 /\ 0 <= d < 2 ^ 128);
  wf_ports : 0 <= srcPort p < 2 ^ 16 /\ 0 <= dstPort p < 2 ^ 16;
  wf_portless : proto p <> protoTCP -> proto p <> protoUDP -> srcPort p = 0 /\ dstPort p = 0 }.

Lemma be_range b n : length b = n -> 0 <= be 0 b < 2 ^ (8 * Z.of_nat n).
Proof.
  intros <-. pose proof (be_bound 0 b ltac:(lia)) as Hb. rewrite Z.pow_mul_r by lia.
  change (2 ^ 8) with 256. lia.
Qed.

Lemma parsePorts_wellFormed pr s d pl p :
  parsePorts pr s d pl = Ret (Some p) ->
  ((exists x y, s = V4 x /\ d = V4 y /\ 0 <= x < 2 ^ 32 /\ 0 <= y < 2 ^ 32) \/
   (exists x y, s = V6 x "" /\ d = V6 y "" /\ 0 <= x < 2 ^ 128 /\ 0 <= y < 2 ^ 128)) ->
  wellFormed p.
Proof.
  unfold parsePorts. intros Hp Hf. destruct (_ || _); [done|].
  destruct ((pr =? protoTCP) || (pr =? protoUDP)) eqn:Etu.
  - destruct (Nat.ltb_spec (length pl) 4); [done|].
    destruct (slice pl 0 2) as [sp|] eqn:E1; [|done]. destruct (slice pl 2 4) as [dp|] eqn:E2; [|done].
    simpl in Hp. injection Hp as <-. apply slice_length in E1, E2.
    pose proof (be_range sp 2 E1). pose proof (be_range dp 2 E2).
    rewrite orb_true_iff, !Z.eqb_eq in Etu. split; simpl; [set_solver|exact Hf|done|tauto].
  - destruct ((pr =? protoICMP) || (pr =? protoICMPv6)) eqn:Ei; [|done]. injection Hp as <-.
    rewrite orb_true_iff, !Z.eqb_eq in Ei. split; simpl; [set_solver|exact Hf|lia|done].
Qed.

(** C3: whatever bytes arrive, what the header parser takes from them is well
    formed: what the rules and the table of conversations are asked about is
    always a protocol, two addresses of one family and two ports. *)
Theorem parse_wellFormed b p : parse b = Ret (Some p) -> wellFormed p.
Proof.
  unfold parse. destruct (length b <? 20)%nat; [done|].
  destruct (index b 0) as [b0|]; [|done]. simpl. destruct (_ =? 4).
  - destruct (_ || _); [done|]. destruct (slice b 6 8) as [fr|]; [|done]. simpl.
    destruct (negb _); [done|]. destruct (index b 9) as [p9|]; [|done].
    destruct (slice b 12 16) as [s|] eqn:Es; [|done]. destruct (slice b 16 20) as [d|] eqn:Ed; [|done].
    simpl. match goal with |- context [slice b ?i (length b)] => destruct (slice b i (length b)) as [pl|]; [|done] end. simpl. intros Hp.
    apply slice_length in Es, Ed. rewrite !AddrFromSlice_4 in Hp by done.
    eapply parsePorts_wellFormed; [exact Hp|]. left. exists (be 0 s), (be 0 d).
    pose proof (be_range s 4 Es). pose proof (be_range d 4 Ed). done.
  - destruct (_ =? 6); [|done]. destruct (_ <? 40)%nat; [done|].
    destruct (index b 6) as [p6|]; [|done]. simpl.
    destruct (slice b 8 24) as [s|] eqn:Es; [|done]. destruct (slice b 24 40) as [d|] eqn:Ed; [|done].
    simpl. match goal with |- context [slice b ?i (length b)] => destruct (slice b i (length b)) as [pl|]; [|done] end. simpl. intros Hp.
    apply slice_length in Es, Ed. rewrite !AddrFromSlice_16 in Hp by done.
    eapply parsePorts_wellFormed; [exact Hp|]. right. exists (be 0 s), (be 0 d).
    pose proof (be_range s 16 Es). pose proof (be_range d 16 Ed). done.
Qed.

(** Every stamp of [f] is a clock reading no later than [T]. *)
Definition stampsUpto (T : Z) (f : Filter) : Prop :=
  forall k t, flows f !! k = Some t -> 0 <= t <= T.

(** [g] is [f] without some conversations that are already idle too long at
    [T]. *)
Record upToStale (T : Z) (f g : Filter) : Prop := {
  us_on : on f = on g;
  us_rules : rules f = rules g;
  us_stamps : stampsUpto T f;
  us_flows : forall k, flows f !! k = flows g !! k \/
    (flows g !! k = None /\ exists t, flows f !! k = Some t /\ tcpIdle < T - t) }.

Lemma upToStale_mono T T' f g : T <= T' -> upToStale T f g -> upToStale T' f g.
Proof.
  intros HT [H1 H2 H3 H4]. split; auto.
  - intros k t Hk. specialize (H3 k t Hk). lia.
  - intros k. destruct (H4 k) as [?|(? & t & ? & ?)]; [auto|right].
    split; [done|]. exists t. split; [done|lia].
Qed.

(** Writing or deleting the same key on both sides keeps them related. *)
Lemma upToStale_insert T f g k t :
  0 <= t <= T -> upToStale T f g ->
  upToStale T (set_flows f (<[k := t]> (flows f))) (set_flows g (<[k := t]> (flows g))).
Proof.
  intros Ht [H1 H2 H3 H4]. split; simpl; auto.
  - intros k' t'. simpl. rewrite lookup_insert. case_decide; [naive_solver|apply H3].
  - intros k'. rewrite !lookup_insert. case_decide; auto.
Qed.

Lemma upToStale_delete T f g k :
  upToStale T f g ->
  upToStale T (set_flows f (delete k (flows f))) (set_flows g (delete k (flows g))).
Proof.
  intros [H1 H2 H3 H4]. split; simpl; auto.
  - intros k' t'. simpl. rewrite lookup_delete. case_decide; [done|apply H3].
  - intros k'. rewrite !lookup_delete. case_decide; auto.
Qed.

Lemma upToStale_delete_l T f g k :
  flows g !! k = None -> upToStale T f g ->
  upToStale T (set_flows f (delete k (flows f))) g.
Proof.
  intros Hg [H1 H2 H3 H4]. split; simpl; auto.
  - intros k' t'. simpl. rewrite lookup_delete. case_decide; [done|apply H3].
  - intros k'. rewrite lookup_delete. case_decide; subst; auto.
Qed.

Lemma upToStale_prune T f g :
  0 <= T <= int64_max -> upToStale T f g -> upToStale T (Prune f T) (Prune g T).
Proof.
  intros HT [H1 H2 H3 H4]. split; simpl; auto.
  - intros k t [Hk _]%map_lookup_filter_Some. by apply (H3 k).
  - intros k. left. destruct (H4 k) as [E|(Hg & t & Hf & Hlt)].
    + apply option_eq. intros t. rewrite !map_lookup_filter_Some. by rewrite E.
    + apply option_eq. intros t'. rewrite !map_lookup_filter_Some, Hg, Hf. simpl.
      split; [|naive_solver]. intros [[= <-] Hn]. exfalso. apply Hn.
      specialize (H3 k t Hf).
      rewrite wrap64_id; [done|]. unfold in_int64, int64_min. lia.
Qed.

Lemma upToStale_self T f cutoff :
  0 <= cutoff <= T -> T <= int64_max -> stampsUpto cutoff f -> upToStale T f (Prune f cutoff).
Proof.
  intros HT Hmax Hs. split; simpl; auto.
  - intros k t Hk. specialize (Hs k t Hk). lia.
  - intros k. destruct (flows f !! k) as [t|] eqn:E.
    + specialize (Hs k t E).
      destruct (decide (tcpIdle < cutoff - t)) as [Hlt|Hge].
      * right. split; [|exists t; split; [done|lia]].
        apply map_lookup_filter_None. right. intros t' E'. simplify_eq. simpl.
        rewrite wrap64_id; [naive_solver|]. unfold in_int64, int64_min. lia.
      * left. symmetry. apply map_lookup_filter_Some. split; [done|]. simpl.
        rewrite wrap64_id; [done|]. unfold in_int64, int64_min. lia.
    + left. symmetry. apply map_lookup_filter_None. by left.
Qed.

Lemma Outbound_upToStale T f g t pkt :
  0 <= T -> T <= t -> upToStale T f g ->
  exists f' g', Outbound f t pkt = Ret f' /\ Outbound g t pkt = Ret g' /\ upToStale t f' g'.
Proof.
  intros HT Hle Hs. destruct (parse_total pkt) as [[p|] Hp].
  - rewrite !(Outbound_parsed _ _ _ _ Hp). do 2 eexists. splits.
    apply upToStale_insert; [lia|]. by eapply upToStale_mono.
  - unfold Outbound. rewrite Hp. simpl. do 2 eexists. splits. by eapply upToStale_mono.
Qed.

Lemma Inbound_upToStale T f g t t' pkt :
  0 <= T -> T <= t -> t <= t' <= int64_max -> upToStale T f g ->
  exists v f' g', Inbound f t t' pkt = Ret (v, f') /\ Inbound g t t' pkt = Ret (v, g') /\
                  upToStale t' f' g'.
Proof.
  intros HT Hle Hmax Hs. pose proof (upToStale_mono T t' f g ltac:(lia) Hs) as Hs'.
  destruct Hs as [H1 H2 H3 H4]. unfold Inbound. rewrite <- H1, <- H2.
  destruct (on f); simpl; [|by eauto 10].
  destruct (parse_total pkt) as [[p|] Hp]; rewrite Hp; simpl; [|by eauto 10].
  destruct (H4 (inKey p)) as [E|(Hg & st & Hf & Hlt)].
  - rewrite <- E. destruct (flows f !! inKey p) as [st|]; [|by eauto 10].
    case_match; (do 3 eexists); splits.
    + apply upToStale_insert; [lia|done].
    + by apply upToStale_delete.
  - rewrite Hg, Hf. specialize (H3 _ _ Hf).
    rewrite wrap64_id by (unfold in_int64, int64_min; lia).
    pose proof (idleFor_le (proto p)).
    destruct (Z.ltb_spec (t - st) (idleFor (proto p))); [lia|].
    do 3 eexists. splits. by apply upToStale_delete_l.
Qed.

(** Related filters give the same verdicts on every run. *)
Lemma upToStale_run T f g tr :
  0 <= T <= int64_max -> upToStale T f g -> clocked T tr ->
  exists vs f' g', run f tr = Ret (vs, f') /\ run g tr = Ret (vs, g').
Proof.
  revert T f g. induction tr as [|o tr IH]; intros T f g HT Hs Hc; simpl; [by eauto|].
  assert (Hstep : exists T' v f1 g1, 0 <= T' <= int64_max /\ clocked T' tr /\
            step f o = Ret (v, f1) /\ step g o = Ret (v, g1) /\ upToStale T' f1 g1).
  { destruct o as [r|t pkt|t t' pkt|t]; simpl in Hc |- *.
    - exists T. do 3 eexists. splits; [lia..|]. split; simpl; auto; apply Hs.
    - destruct Hc as [Ht Hc]. exists t.
      destruct (Outbound_upToStale T f g t pkt) as (f1 & g1 & -> & -> & Hs1); [lia..|done|].
      exists None, f1, g1. splits; lia.
    - destruct Hc as (Ht & Ht' & Hc). exists t'.
      destruct (Inbound_upToStale T f g t t' pkt) as (v & f1 & g1 & -> & -> & Hs1); [lia..|done|].
      exists (Some v), f1, g1. splits; lia.
    - destruct Hc as [Ht Hc]. exists t. do 3 eexists. splits; [lia..|].
      apply upToStale_prune; [lia|]. by eapply upToStale_mono with (T := T); [lia|]. }
  destruct Hstep as (T' & v & f1 & g1 & HT' & Hc' & -> & -> & Hs1). simpl.
  destruct (IH T' f1 g1 HT' Hs1 Hc') as (vs & f2 & g2 & -> & ->). simpl. by eauto.
Qed.

(** pruning is invisible: whatever happens afterwards, as long as the clock
    does not go backwards, a filter that has just been pruned gives exactly the
    verdicts it would have given without the pruning. *)
Theorem Prune_invisible f cutoff tr :
  0 <= cutoff <= int64_max -> stampsUpto cutoff f -> clocked cutoff tr ->
  exists vs f1 f2, run f tr = Ret (vs, f1) /\ run (Prune f cutoff) tr = Ret (vs, f2).
Proof.
  intros Hc Hs Htr. apply (upToStale_run cutoff); [done| |done].
  apply upToStale_self; [lia|lia|done].
Qed.

(** after a pruning the table holds only conversations heard from within
    [tcpIdle], so what survives one round of the one-minute loop is bounded by
    the traffic of the last five minutes. *)
Theorem Prune_recent f cutoff k t :
  0 <= cutoff <= int64_max -> stampsUpto cutoff f ->
  flows (Prune f cutoff) !! k = Some t <-> flows f !! k = Some t /\ cutoff - t <= tcpIdle.
Proof.
  intros Hc Hs. simpl. rewrite map_lookup_filter_Some. simpl.
  split; intros [Hk Hn]; (split; [done|]); specialize (Hs k t Hk);
    rewrite wrap64_id in * by (unfold in_int64, int64_min; lia); lia.
Qed.

(** ** Witnesses *)

(** TCP 10.90.0.3:50000 -> 10.90.0.7:22, and the answer to it. *)
Definition exSyn : list byte :=
  map Zbyte [69;0;0;24; 0;0;64;0; 64;6;0;0; 10;90;0;3; 10;90;0;7; 195;80;0;22].
Definition exAck : list byte :=
  map Zbyte [69;0;0;24; 0;0;64;0; 64;6;0;0; 10;90;0;7; 10;90;0;3; 0;22;195;80].
Definition exPeer : Addr := V4 (((10 * 256 + 90) * 256 + 0) * 256 + 7).
Definition exMe : Addr := V4 (((10 * 256 + 90) * 256 + 0) * 256 + 3).
Definition exParsedSyn : parsed := mkParsed 6 exMe exPeer 50000 22.
Definition exParsedAck : parsed := mkParsed 6 exPeer exMe 22 50000.

(** A filter told that the peer may start nothing. *)
Definition exClosed : Filter := SetRules New {[ exPeer := [] ]}.

Lemma reply_admitted_witness :
  exists f', Outbound exClosed 1000 exSyn = Ret f' /\
    (exists b f'', Inbound exClosed 2000 2001 exAck = Ret (b, f'') /\ b = false) /\
    exists f'', Inbound f' 2000 2001 exAck = Ret (true, f'').
Proof.
  exists (set_flows exClosed (<[outKey exParsedSyn := 1000]> (flows exClosed))).
  split; [vm_compute; reflexivity|]. split.
  - do 2 eexists. split; vm_compute; reflexivity.
  - apply (reply_admitted exClosed 1000 exSyn exParsedSyn _ 2000 2001 exAck exParsedAck).
    + vm_compute. reflexivity.
    + vm_compute. reflexivity.
    + vm_compute. reflexivity.
    + repeat split.
    + lia.
    + unfold int64_max. lia.
    + vm_compute. reflexivity.
Defined.

(** An open port on this machine, and a peer using it. *)
Definition exOpen : gmap Addr (list Rule) :=
  {[ exPeer := [mkRule TCP [mkPortRange 40000 60000]] ]}.

Lemma delivered_justified_witness :
  let f := SetRules New exOpen in
  Inbound f 5 6 exAck = Ret (true, f) /\
  (mayStart exOpen exParsedAck \/ answersIn [OSetRules exOpen] exParsedAck).
Proof.
  intros f. assert (H : Inbound f 5 6 exAck = Ret (true, f)) by (vm_compute; reflexivity).
  split; [exact H|].
  exact (delivered_justified [OSetRules exOpen] [None] f 5 6 exAck exParsedAck f
           eq_refl eq_refl ltac:(vm_compute; reflexivity) H).
Defined.

Definition exStale : Filter :=
  mkFilter true {[ exPeer := [] ]} {[ inKey exParsedAck := 7 ]}.

Lemma Prune_invisible_witness :
  exists vs f1 f2,
    run exStale [OInbound (6 * Minute) (6 * Minute) exAck] = Ret (vs, f1) /\
    run (Prune exStale (6 * Minute)) [OInbound (6 * Minute) (6 * Minute) exAck] = Ret (vs, f2).
Proof.
  apply (Prune_invisible exStale (6 * Minute)).
  - vm_compute. split; discriminate.
  - intros k t. unfold exStale; simpl. intros [<- <-]%lookup_singleton_Some.
    vm_compute. split; discriminate.
  - vm_compute. repeat split; discriminate.
Defined.

Lemma Prune_recent_witness :
  flows (Prune exStale (6 * Minute)) !! inKey exParsedAck = Some 7 <->
  flows exStale !! inKey exParsedAck = Some 7 /\ 6 * Minute - 7 <= tcpIdle.
Proof.
  apply (Prune_recent exStale (6 * Minute)).
  - vm_compute. split; discriminate.
  - intros k t. unfold exStale; simpl. intros [<- <-]%lookup_singleton_Some.
    vm_compute. split; discriminate.
Defined.

Lemma parse_wellFormed_witness : parse exSyn = Ret (Some exParsedSyn) /\ wellFormed exParsedSyn.
Proof. split; [vm_compute; reflexivity|]. apply (parse_wellFormed exSyn). vm_compute. reflexivity. Defined.

End Filter.
