(* ===== verification/FilterSpec.v ===== *)
(** * What the packet filter promises, and that it keeps it.

    The filter of [Filter] keeps a table of conversations that it refreshes,
    deletes from and prunes.  This file states what a verdict is in terms of
    the history alone, with no table: [lastSeen] looks back through what
    happened for the last time a conversation was used, and [verdict] reads
    that and the rules of the last [SetRules].  The refinement theorem is that
    the table-based filter gives, on every history whose clock does not go
    backwards, exactly those verdicts. *)
From S2P Require Import Prelude NetIP Filter.

Module FilterSpec.
Import Filter.

Section Spec.

(** A packet as both sides see it. *)
Definition seenPacket (pkt : list byte) : option parsed :=
  match parse pkt with Ret op => op | Panic => None end.

(** A history is the list of operations, the latest first. *)
Fixpoint inForce (h : list op) : bool :=
  match h with
  | [] => false
  | OSetRules _ :: _ => true
  | _ :: h => inForce h
  end.

Fixpoint rulesOf (h : list op) : gmap Addr (list Rule) :=
  match h with
  | [] => ∅
  | OSetRules r :: _ => r
  | _ :: h => rulesOf h
  end.

(** A reply at [t] to a conversation last used at [seen]. *)
Definition isFresh (seen : option Z) (t : Z) (pr : Z) : bool :=
  match seen with Some s => t - s <? idleFor pr | None => false end.

(** When the conversation [k] was last used: it is used by every packet this
    machine sends on it, and by every answer that arrives in time while rules
    are in force. *)
Fixpoint lastSeen (h : list op) (k : flow) : option Z :=
  match h with
  | [] => None
  | OOutbound t pkt :: h =>
      match seenPacket pkt with
      | Some p => if decide (outKey p = k) then Some t else lastSeen h k
      | None => lastSeen h k
      end
  | OInbound t t' pkt :: h =>
      match seenPacket pkt with
      | Some p => if decide (inKey p = k)
                  then if inForce h && isFresh (lastSeen h k) t (proto p) then Some t' else lastSeen h k
                  else lastSeen h k
      | None => lastSeen h k
      end
  | (OSetRules _ | OPrune _) :: h => lastSeen h k
  end.

(** The verdict on a packet that arrives at [t] after the history [h]. *)
Definition verdict (h : list op) (t : Z) (pkt : list byte) : bool :=
  negb (inForce h) ||
  match seenPacket pkt with
  | None => true
  | Some p => isFresh (lastSeen h (inKey p)) t (proto p) || rulesAllow (rulesOf h) p
  end.

(** The verdicts of a run, each read off the history before it. *)
Fixpoint verdicts (h : list op) (tr : list op) : list (option bool) :=
  match tr with
  | [] => []
  | o :: tr => match o with OInbound t _ pkt => Some (verdict h t pkt) | _ => None end
               :: verdicts (o :: h) tr
  end.

End Spec.

(** ** The relation between the table and the history *)

(** An entry of the table says when its conversation was last used; a
    conversation that is not in the table was never used, or is idle too long
    already. *)
Definition upToDate (T : Z) (h : list op) (f : Filter) (k : flow) : Prop :=
  flows f !! k = lastSeen h k \/
  flows f !! k = None /\ exists t, lastSeen h k = Some t /\ idleFor (f_proto k) <= T - t.

Record refines (T : Z) (h : list op) (f : Filter) : Prop := {
  rf_on : on f = inForce h;
  rf_rules : rules f = rulesOf h;
  rf_past : forall k t, lastSeen h k = Some t -> 0 <= t <= T;
  rf_table : forall k, upToDate T h f k }.

Lemma refines_New : refines 0 [] New.
Proof. split; try done. intros k. left. apply lookup_empty. Qed.

Lemma upToDate_mono T T' h f k : T <= T' -> upToDate T h f k -> upToDate T' h f k.
Proof.
  intros HT [?|(? & t & ? & ?)]; [by left|right]. split; [done|]. exists t. split; [done|lia].
Qed.

Lemma refines_mono T T' h f : T <= T' -> refines T h f -> refines T' h f.
Proof.
  intros HT [H1 H2 H3 H4]. split; auto.
  - intros k t Hk. specialize (H3 k t Hk). lia.
  - intros k. by eapply upToDate_mono.
Qed.

Lemma seenPacket_parse pkt op : parse pkt = Ret op -> seenPacket pkt = op.
Proof. intros H. unfold seenPacket. by rewrite H. Qed.

(** An entry found in the table, and what a missing one means for a packet. *)
Lemma refines_fresh T h f t p :
  refines T h f -> T <= t <= int64_max ->
  isFresh (lastSeen h (inKey p)) t (proto p) =
  match flows f !! inKey p with
  | Some stamp => wrap64 (t - stamp) <? idleFor (proto p)
  | None => false
  end.
Proof.
  intros Hr Ht. destruct (rf_table _ _ _ Hr (inKey p)) as [E|(-> & s & E & Hs)].
  - rewrite E. destruct (lastSeen h (inKey p)) as [s|] eqn:El; [|done]. simpl.
    pose proof (rf_past _ _ _ Hr _ _ El).
    by rewrite wrap64_id by (unfold in_int64, int64_min; lia).
  - rewrite E. simpl in *. apply Z.ltb_ge. lia.
Qed.

(** ** One operation *)

Lemma step_SetRules T h f r : refines T h f -> refines T (OSetRules r :: h) (SetRules f r).
Proof. intros [H1 H2 H3 H4]. by split. Qed.

Lemma step_Prune T h f :
  0 <= T <= int64_max -> refines T h f -> refines T (OPrune T :: h) (Prune f T).
Proof.
  intros HT [H1 H2 H3 H4]. split; auto. intros k. unfold upToDate. simpl.
  destruct (H4 k) as [E|(E & t & El & Hs)].
  - destruct (lastSeen h k) as [t|] eqn:El.
    + pose proof (H3 _ _ El). pose proof (idleFor_le (f_proto k)).
      destruct (decide (tcpIdle < T - t)) as [Hlt|Hge].
      * right. split; [|exists t; split; [done|lia]].
        apply map_lookup_filter_None. right. intros t' E'. simplify_eq. simpl.
        rewrite wrap64_id; [naive_solver|]. unfold in_int64, int64_min. lia.
      * left. apply map_lookup_filter_Some. split; [done|]. simpl.
        rewrite wrap64_id; [done|]. unfold in_int64, int64_min. lia.
    + left. apply map_lookup_filter_None. by left.
  - right. split; [|by exists t]. apply map_lookup_filter_None. by left.
Qed.

Lemma step_Outbound T h f t pkt :
  0 <= T <= t -> refines T h f ->
  exists f', Outbound f t pkt = Ret f' /\ refines t (OOutbound t pkt :: h) f'.
Proof.
  intros HT Hr. apply (refines_mono _ t) in Hr; [|lia].
  destruct (parse_total pkt) as [[p|] Hp]; pose proof (seenPacket_parse _ _ Hp) as Hs.
  - rewrite (Outbound_parsed _ _ _ _ Hp). eexists. split; [done|].
    destruct Hr as [H1 H2 H3 H4]. split; auto; intros k; unfold upToDate; simpl; rewrite Hs.
    + intros t0. case_decide; [intros [= <-]; lia|apply H3].
    + rewrite lookup_insert. case_decide; [by left|apply H4].
  - unfold Outbound. rewrite Hp. simpl. eexists. split; [done|].
    destruct Hr as [H1 H2 H3 H4]. split; auto; intros k; unfold upToDate; simpl; rewrite Hs;
      [apply H3|apply H4].
Qed.

Lemma step_Inbound T h f t t' pkt :
  0 <= T <= t -> t <= t' <= int64_max -> refines T h f ->
  exists f', Inbound f t t' pkt = Ret (verdict h t pkt, f') /\
             refines t' (OInbound t t' pkt :: h) f'.
Proof.
  intros HT Ht' Hr. assert (Hr' : refines t' h f) by (eapply refines_mono; [|done]; lia).
  assert (Hsame : (forall k, lastSeen (OInbound t t' pkt :: h) k = lastSeen h k) ->
                  refines t' (OInbound t t' pkt :: h) f).
  { intros Hk. destruct Hr' as [H1 H2 H3 H4]. split; auto; intros k;
      [intros ?|]; unfold upToDate; rewrite Hk; [apply H3|apply H4]. }
  unfold Inbound, verdict. rewrite (rf_on _ _ _ Hr).
  destruct (inForce h) eqn:Eon; simpl.
  2:{ eexists. split; [done|]. apply Hsame. intros k. simpl.
      destruct (seenPacket pkt); [|done]. case_decide; [|done]. by rewrite Eon. }
  destruct (parse_total pkt) as [[p|] Hp]; pose proof (seenPacket_parse _ _ Hp) as Hs;
    rewrite Hp, Hs; simpl.
  2:{ eexists. split; [done|]. apply Hsame. intros k. simpl. by rewrite Hs. }
  pose proof (refines_fresh _ _ _ t p Hr ltac:(lia)) as Hf. rewrite Hf, (rf_rules _ _ _ Hr).
  destruct (flows f !! inKey p) as [s|] eqn:Efl.
  - destruct (Z.ltb_spec (wrap64 (t - s)) (idleFor (proto p))) as [Hlt|Hge]; simpl;
      (eexists; split; [done|]); destruct Hr' as [H1 H2 H3 H4];
      (split; [done|done| |]); intros k; unfold upToDate; simpl; rewrite Hs;
      (destruct (decide (inKey p = k)) as [<-|Hk];
        [rewrite Eon, Hf; simpl|
         rewrite ?lookup_insert_ne, ?lookup_delete_ne by done; first [apply H3|apply H4]]).
    + intros ? [= <-]. lia.
    + left. apply lookup_insert_eq.
    + apply H3.
    + destruct (rf_table _ _ _ Hr (inKey p)) as [E|(E & _)]; [|congruence].
      rewrite Efl in E. symmetry in E. pose proof (rf_past _ _ _ Hr _ _ E).
      right. split; [apply lookup_delete_eq|]. exists s. split; [done|]. simpl.
      rewrite wrap64_id in Hge by (unfold in_int64, int64_min; lia). lia.
  - simpl. eexists. split; [done|]. apply Hsame. intros k. simpl. rewrite Hs.
    case_decide; subst; [|done]. by rewrite Eon, Hf.
Qed.

Lemma run_refines T h f tr :
  0 <= T <= int64_max -> clocked T tr -> refines T h f ->
  exists f', run f tr = Ret (verdicts h tr, f').
Proof.
  revert T h f. induction tr as [|o tr IH]; intros T h f HT Hc Hr; simpl; [by eauto|].
  assert (Hstep : exists T' f1, 0 <= T' <= int64_max /\ clocked T' tr /\ refines T' (o :: h) f1 /\
    step f o = Ret (match o with OInbound t _ pkt => Some (verdict h t pkt) | _ => None end, f1)).
  { destruct o as [r|t pkt|t t' pkt|t]; simpl in Hc |- *.
    - exists T, (SetRules f r). splits; try lia. by apply step_SetRules.
    - destruct Hc as [Ht Hc]. destruct (step_Outbound T h f t pkt) as (f1 & -> & Hr1); [lia|done|].
      exists t, f1. splits; lia.
    - destruct Hc as (Ht & Ht' & Hc).
      destruct (step_Inbound T h f t t' pkt) as (f1 & -> & Hr1); [lia..|done|].
      exists t', f1. splits; lia.
    - destruct Hc as [Ht Hc]. exists t, (Prune f t). splits; try lia.
      apply step_Prune; [lia|]. eapply refines_mono; [|done]. lia. }
  destruct Hstep as (T' & f1 & HT' & Hc' & Hr1 & ->). simpl.
  destruct (IH T' (o :: h) f1 HT' Hc' Hr1) as (f2 & ->). simpl. by eauto.
Qed.

(** C2: the filter with its table, its refreshes, its deletions and its pruning
    gives, on every history whose clock does not go backwards, exactly the
    verdicts the specification reads off that history: no rules yet, a packet
    that cannot be read, a conversation used recently enough, or a rule of the
    sender. *)
Theorem filter_refines_history tr :
  clocked 0 tr -> exists f, run New tr = Ret (verdicts [] tr, f).
Proof.
  intros Hc. apply (run_refines 0); [unfold int64_max; lia|done|apply refines_New].
Qed.

(** ** What only [Prune] forgets *)

(** However long ago they were: the conversations a machine started are in the
    table until a late answer or [Prune] finds them, so sending alone makes it
    grow by one entry for each new address and port. *)
Lemma started_stays sent : forall f f' vs,
  run f (map (fun tp => OOutbound tp.1 tp.2) sent) = Ret (vs, f') ->
  dom (flows f) ∪ list_to_set (omap (fun tp => match parse tp.2 with Ret (Some p) => Some (outKey p) | _ => None end) sent) ⊆
  dom (flows f').
Proof.
  induction sent as [|[t pkt] sent IH]; intros f f' vs; simpl; [intros [= _ <-]; set_solver|].
  destruct (parse_total pkt) as [[p|] Hp]; unfold Outbound; rewrite Hp; simpl.
  - assert (E : (match flows f !! outKey p with
                 | Some _ => Ret (set_flows f (<[outKey p:=t]> (flows f)))
                 | None => Ret (set_flows f (<[outKey p:=t]> (flows f))) end) = Ret (set_flows f (<[outKey p := t]> (flows f))))
      by (by destruct (flows f !! outKey p)).
    rewrite E. simpl. destruct (run _ _) as [[vs' f1]|] eqn:Er; [|done]. intros [= _ <-].
    apply IH in Er. simpl in Er. rewrite dom_insert_L in Er. set_solver.
  - destruct (run _ _) as [[vs' f1]|] eqn:Er; [|done]. intros [= _ <-]. by apply IH in Er.
Qed.

(** ** Witness *)

(** A reply in time, a minute of silence pruned, and a late one. *)
Definition exHistory : list op :=
  [OOutbound 1000 exSyn; OInbound 2000 2001 exAck; OSetRules ∅; OInbound 3000 3001 exAck;
   OPrune (10 * Minute); OInbound (10 * Minute) (10 * Minute) exAck].

Lemma filter_refines_history_witness :
  verdicts [] exHistory = [None; Some true; None; Some true; None; Some false] /\
  exists f, run New exHistory = Ret (verdicts [] exHistory, f).
Proof.
  split; [vm_compute; reflexivity|].
  apply filter_refines_history. vm_compute. repeat split; discriminate.
Defined.

End FilterSpec.
