(* ===== verification/FilterRace.v ===== *)
(** * The packet filter under concurrency.

    [Filter] takes each operation as one step.  In the program they are not:
    the table is a [sync.Map] from conversations to pointers, every call on it
    and every read or write through such a pointer is a step of its own, and
    the goroutine reading the tunnel, the one writing it and [PruneLoop]
    interleave them.  This file is that machine: a shared table and heap, and
    one program counter per operation in progress.

    A read or a write of a stamp is one step: the program does not synchronise
    them, and on the 64-bit platforms it is built for they are single words. *)
From S2P Require Import Prelude NetIP Filter.

Module FilterRace.
Import Filter.

(** What the operations share. *)
Record shared : Type := mkShared {
  sh_on : bool; sh_rules : gmap Addr (list Rule);
  sh_table : gmap flow nat; sh_heap : gmap nat Z; sh_next : nat }.

Definition empty : shared := mkShared false ∅ ∅ ∅ 0.

Definition set_table (t : gmap flow nat) (s : shared) : shared :=
  mkShared (sh_on s) (sh_rules s) t (sh_heap s) (sh_next s).
Definition write (l : nat) (v : Z) (s : shared) : shared :=
  mkShared (sh_on s) (sh_rules s) (sh_table s) (<[l := v]> (sh_heap s)) (sh_next s).
(** [stamp := now; f.flows.Store(key, &stamp)]. *)
Definition store (k : flow) (v : Z) (s : shared) : shared :=
  mkShared (sh_on s) (sh_rules s) (<[k := sh_next s]> (sh_table s))
    (<[sh_next s := v]> (sh_heap s)) (S (sh_next s)).

(** Where an operation stands.  [In*] carry the snapshot of the rules taken
    under the lock, [Prune*] the cutoff and the keys [Range] has visited. *)
Inductive thread : Type :=
| OutLoad (p : parsed) (now : Z)
| OutWrite (l : nat) (now : Z)
| OutStore (p : parsed) (now : Z)
| InLock (pkt : list byte)
| InLoad (rs : gmap Addr (list Rule)) (p : parsed)
| InCheck (rs : gmap Addr (list Rule)) (p : parsed) (l : nat)
| InTouch (p : parsed) (l : nat)
| InDelete (rs : gmap Addr (list Rule)) (p : parsed)
| PruneRange (cutoff : Z) (visited : list flow)
| PruneDelete (cutoff : Z) (k : flow) (visited : list flow)
| Finished (verdict : option bool).

(** The first instruction of each operation. *)
Inductive call : Type :=
| COut (now : Z) (pkt : list byte)
| CIn (pkt : list byte)
| CPrune (cutoff : Z).

Definition begin (c : call) : go thread :=
  match c with
  | COut now pkt => op ← parse pkt;
                    Ret match op with Some p => OutLoad p now | None => Finished None end
  | CIn pkt => Ret (InLock pkt)
  | CPrune cutoff => Ret (PruneRange cutoff [])
  end.

(** The rules, once the table had nothing to say. *)
Definition byRules (rs : gmap Addr (list Rule)) (p : parsed) : thread :=
  Finished (Some (rulesAllow rs p)).

(** One step of one operation: [now] is the clock, [pick] the key [Range]
    hands over next ([None] when it has handed over all of them). *)
Definition tstep (now : Z) (pick : option flow) (s : shared) (th : thread) : go (shared * thread) :=
  match th with
  | OutLoad p t =>
      Ret (s, match sh_table s !! outKey p with Some l => OutWrite l t | None => OutStore p t end)
  | OutWrite l t => Ret (write l t s, Finished None)
  | OutStore p t => Ret (store (outKey p) t s, Finished None)
  | InLock pkt =>
      if negb (sh_on s) then Ret (s, Finished (Some true))
      else op ← parse pkt;
           Ret (s, match op with Some p => InLoad (sh_rules s) p | None => Finished (Some true) end)
  | InLoad rs p =>
      Ret (s, match sh_table s !! inKey p with Some l => InCheck rs p l | None => byRules rs p end)
  | InCheck rs p l =>
      Ret (s, if wrap64 (now - default 0 (sh_heap s !! l)) <? idleFor (proto p)
              then InTouch p l else InDelete rs p)
  | InTouch p l => Ret (write l now s, Finished (Some true))
  | InDelete rs p => Ret (set_table (delete (inKey p) (sh_table s)) s, byRules rs p)
  | PruneRange cutoff visited =>
      Ret match pick with
          | None => (s, Finished None)
          | Some k =>
              match sh_table s !! k with
              | Some l => (s, if tcpIdle <? wrap64 (cutoff - default 0 (sh_heap s !! l))
                              then PruneDelete cutoff k (k :: visited) else PruneRange cutoff (k :: visited))
              | None => (s, PruneRange cutoff visited)
              end
          end
  | PruneDelete cutoff k visited =>
      Ret (set_table (delete k (sh_table s)) s, PruneRange cutoff visited)
  | Finished v => Ret (s, th)
  end.

(** The whole: operations in progress and, for the statements, which packets
    were given to [Outbound] and which rules were ever set. *)
Record system : Type := mkSystem {
  sy_shared : shared; sy_threads : list thread;
  sy_sent : list parsed; sy_set : list (gmap Addr (list Rule)) }.

Definition initial : system := mkSystem empty [] [] [].

Inductive event : Type :=
| ESetRules (r : gmap Addr (list Rule))
| ECall (c : call)
| EStep (i : nat) (now : Z) (pick : option flow).

Definition sentBy (c : call) : list parsed :=
  match c with
  | COut _ pkt => match parse pkt with Ret (Some p) => [p] | _ => [] end
  | _ => []
  end.

Definition step (y : system) (e : event) : go system :=
  match e with
  | ESetRules r =>
      let s := sy_shared y in
      Ret (mkSystem (mkShared true r (sh_table s) (sh_heap s) (sh_next s)) (sy_threads y)
             (sy_sent y) (r :: sy_set y))
  | ECall c =>
      th ← begin c;
      Ret (mkSystem (sy_shared y) (sy_threads y ++ [th]) (sentBy c ++ sy_sent y) (sy_set y))
  | EStep i now pick =>
      match sy_threads y !! i with
      | None => Ret y
      | Some th =>
          '(s, th) ← tstep now pick (sy_shared y) th;
          Ret (mkSystem s (<[i := th]> (sy_threads y)) (sy_sent y) (sy_set y))
      end
  end.

Fixpoint steps (y : system) (es : list event) : go system :=
  match es with [] => Ret y | e :: es => y ← step y e; steps y es end.

(** The table the sequential model keeps: each conversation with its stamp. *)
Definition abs (s : shared) : Filter :=
  mkFilter (sh_on s) (sh_rules s) (omap (fun l => sh_heap s !! l) (sh_table s)).

(** One operation run by itself to its end; [now1] and [now2] are its clock
    readings, [keys] the order in which [Range] hands the table over. *)
Fixpoint alone (fuel : nat) (now1 now2 : Z) (keys : list flow) (s : shared) (th : thread) : go (shared * thread) :=
  match fuel with
  | O => Ret (s, th)
  | S fuel =>
      '(s, th') ← tstep (match th with InTouch _ _ => now2 | _ => now1 end) (head keys) s th;
      alone fuel now1 now2 (match th with PruneRange _ _ => tail keys | _ => keys end) s th'
  end.

(** ** What every interleaving keeps *)

(** The packet an operation is deciding, once it is known to be readable. *)
Definition deciding (th : thread) : option parsed :=
  match th with
  | InLoad _ p | InCheck _ p _ | InTouch p _ | InDelete _ p => Some p
  | _ => None
  end.

(** What is known of one operation. *)
Definition justified (sent : list parsed) (set : list (gmap Addr (list Rule))) (th : thread) : Prop :=
  match th with
  | OutLoad p _ | OutStore p _ => p ∈ sent
  | InLoad rs p => rs ∈ set
  | InCheck rs p _ | InDelete rs p => rs ∈ set /\ exists q, q ∈ sent /\ isReplyTo p q
  | InTouch p _ => exists q, q ∈ sent /\ isReplyTo p q
  | _ => True
  end.

Record Inv (y : system) : Prop := {
  inv_set : sh_on (sy_shared y) = true -> sh_rules (sy_shared y) ∈ sy_set y;
  inv_table : forall k l, sh_table (sy_shared y) !! k = Some l ->
              exists q, q ∈ sy_sent y /\ outKey q = k;
  inv_threads : Forall (justified (sy_sent y) (sy_set y)) (sy_threads y) }.

Lemma justified_weaken sent sent' set set' th :
  sent ⊆ sent' -> set ⊆ set' -> justified sent set th -> justified sent' set' th.
Proof. intros H1 H2. destruct th; simpl; set_solver. Qed.

Lemma tstep_justified now pick s th s' th' sent set :
  (sh_on s = true -> sh_rules s ∈ set) ->
  (forall k l, sh_table s !! k = Some l -> exists q, q ∈ sent /\ outKey q = k) ->
  justified sent set th -> tstep now pick s th = Ret (s', th') ->
  (sh_on s' = true -> sh_rules s' ∈ set) /\
  (forall k l, sh_table s' !! k = Some l -> exists q, q ∈ sent /\ outKey q = k) /\
  justified sent set th'.
Proof.
  intros Hset Htab Hth.
  destruct th as [p t|l t|p t|pkt|rs p|rs p l|p l|rs p|c vis|c k vis|v]; simpl in *;
    try (intros [= <- <-]; splits; fail).
  - intros [= <- <-]. splits. by case_match.
  - intros [= <- <-]. splits; simpl; try done; intros k l. rewrite lookup_insert. case_decide; [|apply Htab].
    intros _. by exists p.
  - destruct (sh_on s) eqn:E; simpl; [|intros [= <- <-]; rewrite E; splits; done].
    destruct (parse pkt) as [[p|]|]; simpl; [..|done]; intros [= <- <-]; rewrite ?E; splits; simpl; auto.
  - intros [= <- <-]. splits. case_match eqn:E; simpl; [|done]. split; [done|].
    destruct (Htab _ _ E) as (q & Hq & Hk). exists q. split; [done|]. by apply inKey_outKey.
  - intros [= <- <-]. splits. case_match; simpl; tauto.
  - intros [= <- <-]. splits; simpl; auto.
  - intros [= <- <-]. splits; simpl; try done. by intros k l [_ H]%lookup_delete_Some; eapply Htab.
  - destruct pick; [case_match; [case_match|]|]; intros [= <- <-]; splits; simpl; auto.
  - intros [= <- <-]. splits; simpl; try done. by intros k' l [_ H]%lookup_delete_Some; eapply Htab.
Qed.

Lemma step_justified y e y' : Inv y -> step y e = Ret y' -> Inv y'.
Proof.
  intros [H1 H2 H3]. destruct e as [r|c|i now pick]; simpl.
  - intros [= <-]. split; simpl; [set_solver|done|].
    eapply Forall_impl; [done|]. intros th. apply justified_weaken; set_solver.
  - destruct (begin c) as [th|] eqn:E; [|done]. intros [= <-]. split; simpl; [done| |].
    + intros k l Hk. destruct (H2 k l Hk) as (q & ? & ?). set_solver.
    + apply Forall_app. split.
      * eapply Forall_impl; [done|]. intros th'. apply justified_weaken; set_solver.
      * apply Forall_singleton. destruct c as [now pkt|pkt|cut]; simpl in *;
          [|by injection E as <-..].
        destruct (parse pkt) as [[p|]|]; simpl in *; simplify_eq; simpl; set_solver.
  - destruct (sy_threads y !! i) as [th|] eqn:Ei; [|by intros [= <-]].
    destruct (tstep now pick (sy_shared y) th) as [[s' th']|] eqn:E; simpl; [|done].
    intros [= <-]. pose proof (Forall_lookup_1 _ _ _ _ H3 Ei) as Hth.
    destruct (tstep_justified _ _ _ _ _ _ _ _ H1 H2 Hth E) as (? & ? & ?).
    split; simpl; [done..|]. by apply Forall_insert.
Qed.

Lemma steps_justified y es y' : Inv y -> steps y es = Ret y' -> Inv y'.
Proof.
  revert y. induction es as [|e es IH]; intros y Hy; simpl; [by intros [= <-]|].
  destruct (step y e) as [y1|] eqn:E; simpl; [|done]. apply IH. by eapply step_justified.
Qed.

Lemma initial_justified : Inv initial.
Proof. split; simpl; [done| |constructor]. intros k l. by rewrite lookup_empty. Qed.

(** C4: however the reader, the writer, the pruning and new rules interleave, the
    decision on a readable packet ends in letting it in only when rules that
    were set let its sender start it, or when it answers a packet that was given
    to [Outbound]. *)
Theorem interleaved_justified es y i th p now pick s' :
  steps initial es = Ret y -> sy_threads y !! i = Some th -> deciding th = Some p ->
  tstep now pick (sy_shared y) th = Ret (s', Finished (Some true)) ->
  (exists rs, rs ∈ sy_set y /\ mayStart rs p) \/ (exists q, q ∈ sy_sent y /\ isReplyTo p q).
Proof.
  intros Hy Hi Hp Hs. pose proof (steps_justified _ _ _ initial_justified Hy) as [_ _ Hall].
  pose proof (Forall_lookup_1 _ _ _ _ Hall Hi) as Hth.
  destruct th; simpl in Hp; try discriminate Hp; injection Hp as ->; simpl in *.
  - injection Hs as _ Hv. case_match; [done|]. injection Hv as Hv.
    left. eexists. split; [done|]. by apply rulesAllow_iff.
  - right. tauto.
  - by right.
  - right. tauto.
Qed.

(** ** The heap stays well formed *)

(** The pointer an operation holds. *)
Definition holds (th : thread) : option nat :=
  match th with OutWrite l _ | InCheck _ _ l | InTouch _ l => Some l | _ => None end.

(** Every conversation of the table has a stamp of its own, and nothing points
    past what has been allocated. *)
Record WF (s : shared) : Prop := {
  wf_heap : forall k l, sh_table s !! k = Some l -> is_Some (sh_heap s !! l);
  wf_inj : forall k k' l, sh_table s !! k = Some l -> sh_table s !! k' = Some l -> k = k';
  wf_next : forall l, is_Some (sh_heap s !! l) -> (l < sh_next s)%nat }.

Definition bounded (s : shared) (th : thread) : Prop :=
  forall l, holds th = Some l -> (l < sh_next s)%nat.

Lemma WF_empty : WF empty.
Proof.
  split; simpl; intros *; rewrite ?lookup_empty; done || by intros [? ?].
Qed.

Lemma WF_write s l v : (l < sh_next s)%nat -> WF s -> WF (write l v s).
Proof.
  intros Hl [H1 H2 H3]. split; simpl.
  - intros k l' Hk. rewrite lookup_insert. case_decide; [by eexists|]. by eapply H1.
  - done.
  - intros l'. rewrite lookup_insert. case_decide; [by intros; subst|apply H3].
Qed.

Lemma WF_store s k v : WF s -> WF (store k v s).
Proof.
  intros [H1 H2 H3]. assert (Hn : forall k l, sh_table s !! k = Some l -> l <> sh_next s).
  { intros k' l Hk ->. specialize (H1 _ _ Hk). apply H3 in H1. lia. }
  split; simpl.
  - intros k' l. rewrite (lookup_insert (sh_table s)). case_decide.
    + intros [= <-]. rewrite lookup_insert_eq. by eexists.
    + intros Hk. rewrite lookup_insert_ne; [by eapply H1|]. intros <-. by eapply Hn.
  - intros k1 k2 l. rewrite !lookup_insert. repeat case_decide; subst; [done|..|apply H2].
    + intros [= <-] Hk. by destruct (Hn _ _ Hk).
    + intros Hk [= <-]. by destruct (Hn _ _ Hk).
  - intros l. rewrite lookup_insert. case_decide; [lia|]. intros Hs. apply H3 in Hs. lia.
Qed.

Lemma WF_delete s k : WF s -> WF (set_table (delete k (sh_table s)) s).
Proof.
  intros [H1 H2 H3]. split; simpl; [..|done].
  - intros k' l [_ Hk]%lookup_delete_Some. by eapply H1.
  - intros k1 k2 l [_ ?]%lookup_delete_Some [_ ?]%lookup_delete_Some. by eapply H2.
Qed.

Lemma WF_loc s k l : WF s -> sh_table s !! k = Some l -> (l < sh_next s)%nat.
Proof. intros [H1 _ H3] Hk. by eapply H3, H1. Qed.

Lemma tstep_WF now pick s th s' th' :
  WF s -> bounded s th -> tstep now pick s th = Ret (s', th') ->
  WF s' /\ bounded s' th' /\ (sh_next s <= sh_next s')%nat.
Proof.
  intros Hw Hb. unfold bounded in *.
  destruct th as [p t|l t|p t|pkt|rs p|rs p l|p l|rs p|c vis|c k vis|v]; simpl in *.
  - intros [= <- <-]. splits. case_match eqn:E; simpl; [|done]. intros ? [= <-]. by eapply WF_loc.
  - intros [= <- <-]. splits; simpl; try done. apply WF_write; auto.
  - intros [= <- <-]. splits; simpl; [|done|lia]. by apply WF_store.
  - destruct (negb (sh_on s)); [intros [= <- <-]; splits; done|].
    destruct (parse pkt) as [[?|]|]; simpl; [..|done]; intros [= <- <-]; splits; done.
  - intros [= <- <-]. splits. case_match eqn:E; simpl; [|done]. intros ? [= <-]. by eapply WF_loc.
  - intros [= <- <-]. splits. case_match; simpl; [auto|done].
  - intros [= <- <-]. splits; simpl; try done. apply WF_write; auto.
  - intros [= <- <-]. splits; simpl; try done. by apply WF_delete.
  - destruct pick; [case_match; [case_match|]|]; intros [= <- <-]; splits; done.
  - intros [= <- <-]. splits; simpl; try done. by apply WF_delete.
  - intros [= <- <-]. splits; done.
Qed.

Definition WFsys (y : system) : Prop :=
  WF (sy_shared y) /\ Forall (bounded (sy_shared y)) (sy_threads y).

Lemma step_WF y e y' : WFsys y -> step y e = Ret y' -> WFsys y'.
Proof.
  intros [Hw Hb]. destruct e as [r|c|i now pick]; simpl.
  - intros [= <-]. split; [|done]. destruct Hw as [H1 H2 H3]. by split.
  - destruct (begin c) as [th|] eqn:E; simpl; [|done]. intros [= <-]. split; [done|].
    apply Forall_app. split; [done|]. apply Forall_singleton.
    destruct c as [t pkt|pkt|cut]; simpl in E; [|by injection E as <-..].
    destruct (parse pkt) as [[p|]|]; simpl in E; [..|done]; by injection E as <-.
  - destruct (sy_threads y !! i) as [th|] eqn:Ei; [|by intros [= <-]].
    destruct (tstep now pick (sy_shared y) th) as [[s' th']|] eqn:E; simpl; [|done].
    intros [= <-]. pose proof (Forall_lookup_1 _ _ _ _ Hb Ei) as Hth.
    destruct (tstep_WF _ _ _ _ _ _ Hw Hth E) as (? & ? & Hn). split; simpl; [done|].
    apply Forall_insert; [|done]. eapply Forall_impl; [done|].
    intros th0 Hth0 l Hl. specialize (Hth0 l Hl). lia.
Qed.

Lemma steps_WF y es y' : WFsys y -> steps y es = Ret y' -> WFsys y'.
Proof.
  revert y. induction es as [|e es IH]; intros y Hy; simpl; [by intros [= <-]|].
  destruct (step y e) as [y1|] eqn:E; simpl; [|done]. apply IH. by eapply step_WF.
Qed.

(** ** An operation by itself is the operation of [Filter] *)

Lemma abs_write s k l v :
  WF s -> sh_table s !! k = Some l ->
  abs (write l v s) = set_flows (abs s) (<[k := v]> (flows (abs s))).
Proof.
  intros Hw Hk. unfold abs, set_flows. simpl. f_equal. apply map_eq. intros k'.
  rewrite lookup_insert, !lookup_omap. case_decide as E; subst.
  - rewrite Hk. simpl. apply lookup_insert_eq.
  - destruct (sh_table s !! k') as [l'|] eqn:Hk'; simpl; [|done].
    apply lookup_insert_ne. intros <-. by apply E, (wf_inj _ Hw _ _ _ Hk Hk').
Qed.

Lemma abs_store s k v : WF s -> abs (store k v s) = set_flows (abs s) (<[k := v]> (flows (abs s))).
Proof.
  intros Hw. unfold abs, set_flows. simpl. f_equal. apply map_eq. intros k'.
  rewrite lookup_insert, !lookup_omap, lookup_insert. case_decide as E; subst; simpl.
  - apply lookup_insert_eq.
  - destruct (sh_table s !! k') as [l'|] eqn:Hk'; simpl; [|done].
    apply lookup_insert_ne. pose proof (WF_loc _ _ _ Hw Hk'). lia.
Qed.

Lemma abs_delete s k :
  abs (set_table (delete k (sh_table s)) s) = set_flows (abs s) (delete k (flows (abs s))).
Proof.
  unfold abs, set_flows. simpl. f_equal. apply map_eq. intros k'.
  rewrite lookup_delete, !lookup_omap, lookup_delete. by case_decide.
Qed.

Lemma abs_lookup s k :
  WF s -> flows (abs s) !! k = (fun l => default 0 (sh_heap s !! l)) <$> sh_table s !! k.
Proof.
  intros Hw. simpl. rewrite lookup_omap. destruct (sh_table s !! k) as [l|] eqn:E; simpl; [|done].
  destruct (wf_heap _ Hw _ _ E) as [z ->]. done.
Qed.

Lemma alone_finished fuel n1 n2 keys s v : alone fuel n1 n2 keys s (Finished v) = Ret (s, Finished v).
Proof. revert keys. induction fuel as [|n IH]; intros keys; simpl; [done|apply IH]. Qed.

(** More fuel does not change what has finished. *)
Lemma alone_more fuel n1 n2 : forall keys s th r,
  alone fuel n1 n2 keys s th = Ret (r.1, Finished r.2) ->
  alone (fuel + 1) n1 n2 keys s th = Ret (r.1, Finished r.2).
Proof.
  induction fuel as [|n IH]; intros keys s th r.
  - intros [= -> ->]. done.
  - cbn [alone Nat.add]. destruct (tstep _ _ s th) as [[s' th']|]; simpl; [|done]. apply IH.
Qed.

Lemma alone_Outbound s now n1 n2 pkt :
  WF s -> exists th s', begin (COut now pkt) = Ret th /\
  alone 2 n1 n2 [] s th = Ret (s', Finished None) /\ Outbound (abs s) now pkt = Ret (abs s').
Proof.
  intros Hw. destruct (parse_total pkt) as [[p|] Hp].
  - rewrite (Outbound_parsed _ _ _ _ Hp). simpl. rewrite Hp. simpl.
    destruct (sh_table s !! outKey p) as [l|] eqn:E; (do 2 eexists); (split; [done|]); simpl;
      rewrite E; simpl; (split; [done|]).
    + by rewrite (abs_write _ _ _ _ Hw E).
    + by rewrite (abs_store _ _ _ Hw).
  - unfold Outbound. simpl. rewrite Hp. simpl. by eauto.
Qed.

Lemma alone_Inbound s n1 n2 pkt :
  WF s -> exists v s', alone 5 n1 n2 [] s (InLock pkt) = Ret (s', Finished (Some v)) /\
                       Inbound (abs s) n1 n2 pkt = Ret (v, abs s').
Proof.
  intros Hw. unfold Inbound. pose proof (abs_lookup s) as Habs. cbn [alone tstep].
  change (on (abs s)) with (sh_on s). change (rules (abs s)) with (sh_rules s).
  destruct (sh_on s) eqn:Eon; cbn [negb]; [|by simpl; eauto].
  destruct (parse_total pkt) as [[p|] Hp]; rewrite Hp; cbn [mbind go_bind]; [|by simpl; eauto].
  rewrite (Habs (inKey p) Hw). cbn [alone tstep].
  destruct (sh_table s !! inKey p) as [l|] eqn:E; simpl; rewrite ?E; [|by eauto].
  destruct (_ <? _) eqn:Ef; simpl; rewrite ?Ef; simpl; (do 2 eexists); (split; [done|]).
  - by rewrite (abs_write _ _ _ _ Hw E).
  - by rewrite abs_delete.
Qed.

(** What [Prune] finds idle. *)
Definition idle (cutoff : Z) (s : shared) (k : flow) : bool :=
  match sh_table s !! k with
  | Some l => tcpIdle <? wrap64 (cutoff - default 0 (sh_heap s !! l))
  | None => false
  end.

Lemma alone_range cutoff n1 n2 keys : forall s vis,
  NoDup keys -> (forall k, k ∈ keys -> is_Some (sh_table s !! k)) ->
  exists t, alone (2 * length keys + 1) n1 n2 keys s (PruneRange cutoff vis) =
            Ret (set_table t s, Finished None) /\
  forall k, t !! k = if bool_decide (k ∈ keys) && idle cutoff s k then None else sh_table s !! k.
Proof.
  induction keys as [|k keys IH]; intros s vis Hnd Hin.
  - exists (sh_table s). split; [by destruct s|]. intros k. by rewrite bool_decide_false by set_solver.
  - apply NoDup_cons in Hnd as [Hk Hnd]. destruct (Hin k) as [l Hl]; [set_solver|].
    replace (2 * length (k :: keys) + 1)%nat with (S (S (2 * length keys + 1))) by (simpl; lia).
    destruct (idle cutoff s k) eqn:Ei; pose proof Ei as Ei'; unfold idle in Ei'; rewrite Hl in Ei'.
    + set (s1 := set_table (delete k (sh_table s)) s).
      destruct (IH s1 (k :: vis) Hnd) as (t & Ht & Hlook).
      { intros k' Hk'. simpl. rewrite lookup_delete_ne by congruence. apply Hin. set_solver. }
      exists t. split.
      * cbn [alone tstep head tail]. rewrite Hl, Ei'. cbn [mbind go_bind alone tstep tail].
        exact Ht.
      * intros k'. rewrite Hlook. unfold idle. simpl. destruct (decide (k' = k)) as [->|Hne].
        -- rewrite lookup_delete_eq, andb_false_r, bool_decide_true by set_solver. simpl.
           unfold idle in Ei. by rewrite Ei.
        -- rewrite lookup_delete_ne by done. by rewrite (bool_decide_ext (k' ∈ keys) (k' ∈ k :: keys)) by set_solver.
    + destruct (IH s (k :: vis) Hnd) as (t & Ht & Hlook); [set_solver|].
      exists t. split.
      * replace (S (S (2 * length keys + 1))) with (S ((2 * length keys + 1) + 1)) by lia.
        cbn [alone tstep head tail]. rewrite Hl, Ei'. cbn [mbind go_bind alone tstep tail].
        rewrite alone_more with (r := (set_table t s, None)); done.
      * intros k'. rewrite Hlook. destruct (decide (k' = k)) as [->|Hne].
        -- by rewrite Ei, !andb_false_r.
        -- by rewrite (bool_decide_ext (k' ∈ keys) (k' ∈ k :: keys)) by set_solver.
Qed.

Lemma alone_Prune s cutoff n1 n2 keys :
  WF s -> NoDup keys -> (forall k, k ∈ keys <-> is_Some (sh_table s !! k)) ->
  exists s', alone (2 * length keys + 1) n1 n2 keys s (PruneRange cutoff []) = Ret (s', Finished None) /\
             Prune (abs s) cutoff = abs s'.
Proof.
  intros Hw Hnd Hk. destruct (alone_range cutoff n1 n2 keys s []) as (t & Ht & Hlook); [done|naive_solver|].
  eexists. split; [exact Ht|]. unfold Prune, set_flows. unfold abs at 4. simpl. f_equal.
  apply map_eq. intros k.
  rewrite lookup_omap, Hlook. pose proof (abs_lookup s k Hw) as Ha. simpl in Ha.
  unfold idle. destruct (sh_table s !! k) as [l|] eqn:E; simpl in Ha.
  - rewrite bool_decide_true by (apply Hk; by eexists). simpl.
    destruct (Z.ltb_spec tcpIdle (wrap64 (cutoff - default 0 (sh_heap s !! l)))) as [Hlt|Hge]; simpl.
    + apply map_lookup_filter_None. right. intros z Hz. rewrite Ha in Hz. injection Hz as <-. tauto.
    + destruct (wf_heap _ Hw _ _ E) as [z Hz]. rewrite Hz in *. simpl in *.
      apply map_lookup_filter_Some. split; [done|]. simpl. lia.
  - rewrite andb_false_r. simpl. apply map_lookup_filter_None. by left.
Qed.

(** C5: taken one at a time, from any state that concurrent operations may have
    left, the instructions of an operation do what [Filter] says the operation
    does, and reach its end within a number of steps that no other goroutine
    can lengthen: two for a packet sent, five for one received, two for each
    conversation pruned. *)
Theorem alone_refines es y n1 n2 :
  steps initial es = Ret y ->
  let s := sy_shared y in
  (forall now pkt, exists th s', begin (COut now pkt) = Ret th /\
     alone 2 n1 n2 [] s th = Ret (s', Finished None) /\ Outbound (abs s) now pkt = Ret (abs s')) /\
  (forall pkt, exists v s', alone 5 n1 n2 [] s (InLock pkt) = Ret (s', Finished (Some v)) /\
     Inbound (abs s) n1 n2 pkt = Ret (v, abs s')) /\
  (forall cutoff keys, NoDup keys -> (forall k, k ∈ keys <-> is_Some (sh_table s !! k)) ->
     exists s', alone (2 * length keys + 1) n1 n2 keys s (PruneRange cutoff []) = Ret (s', Finished None) /\
                Prune (abs s) cutoff = abs s').
Proof.
  intros Hy s. assert (Hw : WF s).
  { eapply (steps_WF initial es y); [|done]. split; [apply WF_empty|constructor]. }
  split_and!; intros.
  - by apply alone_Outbound.
  - by apply alone_Inbound.
  - by apply alone_Prune.
Qed.

(** ** What the interleaving loses *)

(** A conversation that was idle; [InCheck] has just found it so when this
    machine speaks on it again, and the entry [Outbound] refreshed is the one
    [InDelete] then removes. *)
Definition exLost : list event :=
  [ESetRules ∅;
   ECall (COut 0 exSyn); EStep 0 0 None; EStep 0 0 None;
   ECall (CIn exAck); EStep 1 (6 * Minute) None; EStep 1 (6 * Minute) None; EStep 1 (6 * Minute) None;
   ECall (COut (6 * Minute) exSyn); EStep 2 0 None; EStep 2 0 None;
   EStep 1 (6 * Minute) None;
   ECall (CIn exAck); EStep 3 (6 * Minute + 1) None; EStep 3 (6 * Minute + 1) None].

(** the reply that arrives a nanosecond after this machine finished sending is
    refused: [Outbound] returned with the conversation's stamp at the present,
    and the entry was deleted under it. *)
Theorem lost_conversation :
  exists y, steps initial exLost = Ret y /\
  sy_threads y !! 2%nat = Some (Finished None) /\ sy_threads y !! 3%nat = Some (Finished (Some false)) /\
  sy_sent y = [exParsedSyn; exParsedSyn] /\ isReplyTo exParsedAck exParsedSyn.
Proof. eexists. split; [vm_compute; reflexivity|]. by vm_compute. Qed.

(** ** Witnesses *)

(** The reader has found the conversation of the reply fresh, and is about to keep
    it. *)
Definition exPlay : list event := take 7 exLost ++ [EStep 1 1 None].

Lemma exPlay_yields : yields (steps initial exPlay) = true.
Proof. vm_compute. reflexivity. Defined.

Definition exMid : system := retOf _ exPlay_yields.

Lemma interleaved_justified_witness :
  exists s', tstep 2 None (sy_shared exMid) (InTouch exParsedAck 0) = Ret (s', Finished (Some true)) /\
  ((exists rs, rs ∈ sy_set exMid /\ mayStart rs exParsedAck) \/ (exists q, q ∈ sy_sent exMid /\ isReplyTo exParsedAck q)).
Proof.
  eexists. split; [reflexivity|].
  eapply (interleaved_justified exPlay exMid 1 (InTouch exParsedAck 0) exParsedAck 2 None _ (retOf_eq _ exPlay_yields));
    [vm_compute; reflexivity|reflexivity|reflexivity].
Defined.

Lemma alone_refines_witness :
  exists y, steps initial exLost = Ret y /\
  exists v s', alone 5 7 8 [] (sy_shared y) (InLock exAck) = Ret (s', Finished (Some v)) /\
               Inbound (abs (sy_shared y)) 7 8 exAck = Ret (v, abs s').
Proof.
  eexists. split; [vm_compute; reflexivity|].
  exact (proj1 (proj2 (alone_refines exLost _ 7 8 ltac:(vm_compute; reflexivity))) exAck).
Defined.

End FilterRace.
