(* ===== verification/NFT.v ===== *)
(** * internal/filter/nft_linux.go: the same rules, as an nftables ruleset.

    The text is built the way [buildRuleset] builds it; the order in which Go
    ranges over the map of rules is a parameter.  [nft] itself is a program: what
    a run of it answers is a parameter too. *)
From S2P Require Import Prelude GoStrings NetIP NetText Filter.

Module NFT.
Import NetText.NetText Filter.Filter.

Definition nftTable : string := "netflow".
Definition dquote : string := String (Ascii.ascii_of_nat 34) "".

Definition nftPort (p : PortRange) : string :=
  if From p =? To p then itoa (From p) else itoa (From p) +:+ "-" +:+ itoa (To p).

Definition nftPorts (ports : list PortRange) : string :=
  "{ " +:+ Join ", " (map nftPort ports) +:+ " }".

(** The body of the loop over one peer's rules: no line for a protocol it does
    not know. *)
Definition ruleLine (addr : Addr) (r : Rule) : list string :=
  let family := if Is6 addr then "ip6" else "ip" in
  if String.eqb (Protocol r) All then ["    " +:+ family +:+ " saddr " +:+ Addr_String addr +:+ " accept"]
  else if String.eqb (Protocol r) ICMP then
    let proto := if Is6 addr then "icmpv6" else "icmp" in
    ["    " +:+ family +:+ " saddr " +:+ Addr_String addr +:+ " meta l4proto " +:+ proto +:+ " accept"]
  else if String.eqb (Protocol r) TCP || String.eqb (Protocol r) UDP then
    if (length (Ports r) =? 0)%nat then
      ["    " +:+ family +:+ " saddr " +:+ Addr_String addr +:+ " meta l4proto " +:+ Protocol r +:+ " accept"]
    else
      ["    " +:+ family +:+ " saddr " +:+ Addr_String addr +:+ " " +:+ Protocol r +:+ " dport " +:+
         nftPorts (Ports r) +:+ " accept"]
  else [].

Definition rulesetHead (iface : string) : list string :=
  ["table inet " +:+ nftTable;
   "delete table inet " +:+ nftTable;
   "table inet " +:+ nftTable +:+ " {";
   "  chain input {";
   "    type filter hook input priority filter; policy accept;";
   "    iifname != " +:+ dquote +:+ iface +:+ dquote +:+ " accept";
   "    ct state established,related accept"].

(** [buildRuleset]; [order] is the order in which the map was ranged over. *)
Definition rulesetLines (iface : string) (rules : gmap Addr (list Rule)) (order : list Addr) : list string :=
  rulesetHead iface ++
  concat (map (fun addr => concat (map (ruleLine addr) (default [] (rules !! addr))))
              (merge_sort addr_le order)) ++
  ["    drop"; "  }"; "}"].

Definition buildRuleset (iface : string) (rules : gmap Addr (list Rule)) (order : list Addr) : string :=
  unlines (rulesetLines iface rules order).

(** [nftRun]: [nft] answers [None] on success, its standard error otherwise. *)
Definition nftRun (nft : string -> option string) (ruleset : string) : result string unit :=
  match nft ruleset with None => Ok tt | Some stderr => Err (TrimSpace stderr) end.

Definition ApplyNFTables (nft : string -> option string) (iface : string)
    (rules : gmap Addr (list Rule)) (order : list Addr) : result string unit :=
  nftRun nft (buildRuleset iface rules order).

Definition removeText : string :=
  unlines ["table inet " +:+ nftTable; "delete table inet " +:+ nftTable].

Definition RemoveNFTables (nft : string -> option string) : result string unit :=
  nftRun nft removeText.

(** ** What the text says *)

(** The rules that get a line: the ones of a protocol the filter knows. *)
Definition spoken (r : Rule) : bool :=
  String.eqb (Protocol r) All || String.eqb (Protocol r) ICMP ||
  String.eqb (Protocol r) TCP || String.eqb (Protocol r) UDP.

Lemma ruleLine_length addr r : length (ruleLine addr r) = if spoken r then 1%nat else 0%nat.
Proof.
  unfold ruleLine, spoken. destruct (String.eqb (Protocol r) All), (String.eqb (Protocol r) ICMP); simpl; try done.
  destruct (_ || _); [|done]. by destruct (_ =? _)%nat.
Qed.

Lemma noNL_nftPorts ports : noNL (nftPorts ports) = true.
Proof.
  unfold nftPorts. rewrite !noNL_app. apply andb_true_iff. split; [done|].
  apply andb_true_iff. split; [|done]. apply noNL_Join; [done|]. apply Forall_forall. intros s (p & -> & _)%list_elem_of_fmap.
  unfold nftPort. destruct (_ =? _); rewrite ?noNL_app, !noNL_itoa; done.
Qed.

Lemma ruleLine_noNL addr r :
  nospace (addr_zone addr) = true -> Forall (fun l => noNL l = true) (ruleLine addr r).
Proof.
  intros Hz. pose proof (noNL_Addr_String addr Hz) as Ha. unfold ruleLine.
  destruct (String.eqb (Protocol r) All).
  { repeat constructor. rewrite !noNL_app, Ha. by destruct (Is6 addr). }
  destruct (String.eqb (Protocol r) ICMP).
  { repeat constructor. rewrite !noNL_app, Ha. by destruct (Is6 addr). }
  destruct (String.eqb_spec (Protocol r) TCP) as [->|]; simpl.
  { destruct (_ =? _)%nat; repeat constructor; rewrite !noNL_app, Ha, ?noNL_nftPorts; by destruct (Is6 addr). }
  destruct (String.eqb_spec (Protocol r) UDP) as [->|]; simpl; [|constructor].
  destruct (_ =? _)%nat; repeat constructor; rewrite !noNL_app, Ha, ?noNL_nftPorts; by destruct (Is6 addr).
Qed.

(** The lines of the peers, in the order of their addresses. *)
Definition peerLines (rules : gmap Addr (list Rule)) (order : list Addr) : list string :=
  concat (map (fun addr => concat (map (ruleLine addr) (default [] (rules !! addr))))
              (merge_sort addr_le order)).

Lemma elem_peerLines rules order l :
  l ∈ peerLines rules order <->
  exists a rs r, a ∈ order /\ rules !! a = Some rs /\ r ∈ rs /\ l ∈ ruleLine a r.
Proof.
  unfold peerLines. rewrite !list_elem_of_In, in_concat. setoid_rewrite in_map_iff. split.
  - intros (ls & (a & <- & Ha) & Hl). apply in_concat in Hl as (ls & (r & <- & Hr)%in_map_iff & Hl).
    destruct (rules !! a) as [rs|] eqn:E; simpl in Hr; [|done].
    exists a, rs, r. rewrite <- list_elem_of_In in Ha. rewrite merge_sort_Permutation in Ha.
    rewrite !list_elem_of_In. rewrite list_elem_of_In in Ha. done.
  - intros (a & rs & r & Ha & E & Hr & Hl). eexists. split.
    + exists a. split; [done|]. apply list_elem_of_In. by rewrite merge_sort_Permutation.
    + rewrite E. simpl. apply in_concat. exists (ruleLine a r). split; [|by apply list_elem_of_In].
      apply in_map_iff. exists r. split; [done|]. by apply list_elem_of_In.
Qed.

(** the ruleset depends on the rules alone, not on the order in which Go
    happens to range over the map. *)
Theorem buildRuleset_deterministic iface rules order1 order2 :
  order1 ≡ₚ order2 -> buildRuleset iface rules order1 = buildRuleset iface rules order2.
Proof.
  intros HP. unfold buildRuleset, rulesetLines. do 3 f_equal.
  enough (E : merge_sort addr_le order1 = merge_sort addr_le order2) by (by rewrite E).
  apply (StronglySorted_unique addr_le).
  - apply StronglySorted_merge_sort; apply _.
  - apply StronglySorted_merge_sort; apply _.
  - by rewrite !merge_sort_Permutation.
Qed.

(** The text splits back into the lines it was made of. *)
Lemma buildRuleset_split iface rules order :
  noNL iface = true -> (forall a, is_Some (rules !! a) -> nospace (addr_zone a) = true) ->
  splitc nl (buildRuleset iface rules order) = rulesetHead iface ++ peerLines rules order ++ ["    drop"; "  }"; "}"; ""].
Proof.
  intros Hi Hz. unfold buildRuleset. rewrite splitc_unlines.
  - unfold rulesetLines. fold (peerLines rules order). by rewrite <- !app_assoc.
  - unfold rulesetLines. fold (peerLines rules order). rewrite !Forall_app. splits.
    + repeat constructor. change (noNL ("    iifname != " +:+ dquote +:+ iface +:+ dquote +:+ " accept") = true).
      rewrite !noNL_app, Hi. reflexivity.
    + apply Forall_forall. intros l (a & rs & r & Ha & E & Hr & Hl)%elem_peerLines.
      eapply (proj1 (Forall_forall _ _) (ruleLine_noNL a r (Hz a (mk_is_Some _ _ E)))). done.
Qed.

(** What the order of a map ranges over. *)
Lemma order_dom (rules : gmap Addr (list Rule)) order : order ≡ₚ (map_to_list rules).*1 -> forall a, a ∈ order <-> is_Some (rules !! a).
Proof.
  intros HP a. rewrite HP, list_elem_of_fmap. split.
  - intros ([a' rs] & -> & Hin). apply elem_of_map_to_list in Hin. by exists rs.
  - intros [rs Hrs]. exists (a, rs). split; [done|]. by apply elem_of_map_to_list.
Qed.

(** the text a machine's [nft] reads is, line by line, the fixed head, one
    accept line for each rule of a known protocol of each peer and no other,
    then the drop that answers everything else: no address, interface name or
    port list can end a line early. *)
Theorem buildRuleset_lines iface rules order :
  noNL iface = true -> (forall a, is_Some (rules !! a) -> nospace (addr_zone a) = true) ->
  order ≡ₚ (map_to_list rules).*1 ->
  exists mid,
    splitc nl (buildRuleset iface rules order) = rulesetHead iface ++ mid ++ ["    drop"; "  }"; "}"; ""] /\
    (forall l, l ∈ mid <-> exists a rs r, rules !! a = Some rs /\ r ∈ rs /\ l ∈ ruleLine a r) /\
    (forall a rs r, rules !! a = Some rs -> r ∈ rs -> length (ruleLine a r) = if spoken r then 1%nat else 0%nat).
Proof.
  intros Hi Hz HP. pose proof (order_dom rules order HP) as Hdom.
  exists (peerLines rules order). split; [by apply buildRuleset_split|split].
  - intros l. rewrite elem_peerLines. split.
    + intros (a & rs & r & _ & ?). eauto.
    + intros (a & rs & r & E & ?). exists a, rs, r. split; [|done]. apply Hdom. by exists rs.
  - intros. apply ruleLine_length.
Qed.

(** ** Witnesses *)

Definition exRules : gmap Addr (list Rule) :=
  {[ V4 7 := [mkRule TCP [mkPortRange 22 22; mkPortRange 8000 8080]; mkRule "gre" []];
     V4 5 := [mkRule ICMP []]; V6 1 "" := [mkRule All []] ]}.

Definition exOrder : list Addr := (map_to_list exRules).*1.

Example exRuleset_lines :
  peerLines exRules exOrder =
  ["    ip saddr 0.0.0.5 meta l4proto icmp accept";
   "    ip saddr 0.0.0.7 tcp dport { 22, 8000-8080 } accept";
   "    ip6 saddr ::1 accept"].
Proof. vm_compute. reflexivity. Qed.

Lemma buildRuleset_deterministic_witness :
  rev exOrder <> exOrder /\
  buildRuleset "wg0" exRules (rev exOrder) = buildRuleset "wg0" exRules exOrder.
Proof.
  split; [vm_compute; discriminate|]. apply buildRuleset_deterministic. symmetry. apply Permutation_rev.
Defined.

Lemma buildRuleset_lines_witness :
  exists mid,
    splitc nl (buildRuleset "wg0" exRules exOrder) = rulesetHead "wg0" ++ mid ++ ["    drop"; "  }"; "}"; ""] /\
    (forall l, l ∈ mid <-> exists a rs r, exRules !! a = Some rs /\ r ∈ rs /\ l ∈ ruleLine a r) /\
    (forall a rs r, exRules !! a = Some rs -> r ∈ rs -> length (ruleLine a r) = if spoken r then 1%nat else 0%nat).
Proof.
  apply (buildRuleset_lines "wg0" exRules exOrder); [reflexivity| |reflexivity].
  intros a [rs Hrs]. apply elem_of_map_to_list in Hrs.
  change (map_to_list exRules) with (map_to_list exRules) in Hrs.
  assert (Hall : forallb (fun p => nospace (addr_zone p.1)) (map_to_list exRules) = true) by (vm_compute; reflexivity).
  rewrite forallb_forall in Hall. apply (Hall (a, rs)). by apply list_elem_of_In.
Defined.

End NFT.
