(* ===== verification/NFTMeaning.v ===== *)
(** * What the ruleset of internal/filter/nft_linux.go admits.

    Where the kernel holds the WireGuard interface the access rules are enforced
    by [nft], from the text [buildRuleset] writes; elsewhere by the filter of
    filter.go.  Here the text is read back as the manual of nft gives it a
    meaning (the clauses of a rule all hold, the first rule that matches decides,
    the policy decides the rest), and the two enforcements are compared.

    How nft reads an address is a parameter: all that is asked of it is that it
    reads the addresses of the rules as [netip] writes them. *)
From S2P Require Import Prelude GoStrings NetIP NetText Filter NFT.
From Stdlib Require Import Ascii.

Module NFTMeaning.
Import NetText.NetText Filter.Filter NFT.NFT.

(** ** Words *)

Definition space : ascii := " "%char.
Definition word (w : string) : bool := nochar space w && negb (String.eqb w "").
Definition words (l : string) : list string := filter (fun w => w <> "") (splitc space l).

Lemma words_skip s : words (String space s) = words s.
Proof. unfold words. change (String space s) with ("" +:+ String space s). rewrite splitc_app by done. rewrite filter_cons_False; [done|tauto]. Qed.

Lemma words_cons w s : word w = true -> words (w +:+ String space s) = w :: words s.
Proof.
  unfold word, words. rewrite andb_true_iff, negb_true_iff, String.eqb_neq. intros [Hn Hne].
  rewrite splitc_app by done. by rewrite filter_cons_True.
Qed.

Lemma words_one w : word w = true -> words w = [w].
Proof.
  unfold word, words. rewrite andb_true_iff, negb_true_iff, String.eqb_neq. intros [Hn Hne].
  rewrite splitc_nochar by done. by rewrite filter_cons_True.
Qed.

Lemma words_Join ts : Forall (fun w => word w = true) ts -> words (Join " " ts) = ts.
Proof.
  induction ts as [|w [|w' ts] IH]; intros Hw; [done|by apply words_one; inversion Hw|].
  apply Forall_cons in Hw as [Hw Hs]. change (Join " " (w :: w' :: ts)) with (w +:+ String space (Join " " (w' :: ts))).
  by rewrite words_cons, IH.
Qed.

Lemma nochar_nospace w : nospace w = true -> nochar space w = true.
Proof. by apply nospace_nochar. Qed.

(** ** The meaning of a rule *)

(** A packet at the input hook: the interface it came in by, whether connection
    tracking knows its connection, and what is read of it. *)
Record hooked : Type := mkHooked { h_iif : string; h_tracked : bool; h_packet : parsed }.

Inductive clause : Type :=
| CNotIif (name : string)
| CTracked
| CSaddr (six : bool) (a : Addr)
| CProto (n : Z)
| CDport (n : Z) (ports : list (Z * Z)).

Definition protoNamed (name : string) : option Z :=
  if String.eqb name "tcp" then Some protoTCP
  else if String.eqb name "udp" then Some protoUDP
  else if String.eqb name "icmp" then Some protoICMP
  else if String.eqb name "icmpv6" then Some protoICMPv6 else None.

(** A name between double quotes. *)
Definition unquote (t : string) : option string :=
  match t with
  | String c t => if Ascii.eqb c (Ascii.ascii_of_nat 34) then (cutc (Ascii.ascii_of_nat 34) t) ≫= (fun p => if String.eqb p.2 "" then Some p.1 else None) else None
  | "" => None
  end.

(** An element of a set of ports; a range that goes down is refused. *)
Definition readRange (t : string) : option (Z * Z) :=
  let t := trim_right_char ","%char t in
  match cutc "-"%char t with
  | Some (a, b) => lo ← Atoi a; hi ← Atoi b; if lo <=? hi then Some (lo, hi) else None
  | None => p ← Atoi t; Some (p, p)
  end.

Fixpoint readSet (ts : list string) : option (list (Z * Z) * list string) :=
  match ts with
  | [] => None
  | t :: ts =>
      if String.eqb t "}" then Some ([], ts)
      else r ← readRange t; '(rs, rest) ← readSet ts; Some (r :: rs, rest)
  end.

Section Meaning.
Context (readAddr : string -> option Addr).

Definition readClause (ts : list string) : option (clause * list string) :=
  match ts with
  | t1 :: t2 :: t3 :: rest =>
      if String.eqb t1 "iifname" && String.eqb t2 "!=" then n ← unquote t3; Some (CNotIif n, rest)
      else if String.eqb t1 "ct" && String.eqb t2 "state" && String.eqb t3 "established,related" then Some (CTracked, rest)
      else if String.eqb t2 "saddr" && (String.eqb t1 "ip" || String.eqb t1 "ip6") then
        a ← readAddr t3; Some (CSaddr (String.eqb t1 "ip6") a, rest)
      else if String.eqb t1 "meta" && String.eqb t2 "l4proto" then n ← protoNamed t3; Some (CProto n, rest)
      else if String.eqb t2 "dport" && String.eqb t3 "{" then
        n ← protoNamed t1; '(ports, rest) ← readSet rest; Some (CDport n ports, rest)
      else None
  | _ => None
  end.

(** The clauses of a rule and its verdict, [true] for accept; every clause is
    three words at least, so as many rounds as words are enough. *)
Fixpoint readRule (fuel : nat) (ts : list string) : option (list clause * bool) :=
  match ts, fuel with
  | [v], _ => if String.eqb v "accept" then Some ([], true) else if String.eqb v "drop" then Some ([], false) else None
  | _, O => None
  | _, S fuel => '(c, rest) ← readClause ts; '(cs, v) ← readRule fuel rest; Some (c :: cs, v)
  end.

Definition holds (k : hooked) (c : clause) : bool :=
  let p := h_packet k in
  match c with
  | CNotIif n => negb (String.eqb (h_iif k) n)
  | CTracked => h_tracked k
  | CSaddr six a => Bool.eqb (Is6 (src p)) six && bool_decide (src p = a)
  | CProto n => proto p =? n
  | CDport n ports => (proto p =? n) && existsb (fun r => (r.1 <=? dstPort p) && (dstPort p <=? r.2)) ports
  end.

(** A chain whose policy is to accept; [None] is a text nft refuses. *)
Fixpoint chainVerdict (ls : list string) (k : hooked) : option bool :=
  match ls with
  | [] => Some true
  | l :: ls =>
      '(cs, v) ← readRule (length (words l)) (words l);
      rest ← chainVerdict ls k;
      Some (if forallb (holds k) cs then v else rest)
  end.

(** The rules of the input chain: the lines after its hook, up to its end. *)
Fixpoint upto (end_ : string) (ls : list string) : list string :=
  match ls with [] => [] | l :: ls => if String.eqb l end_ then [] else l :: upto end_ ls end.
Fixpoint after (line : string) (ls : list string) : list string :=
  match ls with [] => [] | l :: ls => if String.eqb l line then ls else after line ls end.
Definition inputChain (text : string) : list string :=
  upto "  }" (after "    type filter hook input priority filter; policy accept;" (splitc nl text)).

(** What a machine that loaded the text lets in. *)
Definition nftAdmits (text : string) (k : hooked) : option bool := chainVerdict (inputChain text) k.

End Meaning.

(** ** The words of the lines the agent writes *)

(** The ports of a set, separated by commas. *)
Fixpoint commaWords (ps : list string) : list string :=
  match ps with [] => [] | [p] => [p] | p :: ps => (p +:+ ",") :: commaWords ps end.

Definition familyWord (a : Addr) : string := if Is6 a then "ip6" else "ip".

(** The words and the clauses of the line of a rule, if it has one. *)
Definition ruleWords (a : Addr) (r : Rule) : list (list string) :=
  let start := [familyWord a; "saddr"; Addr_String a] in
  if String.eqb (Protocol r) All then [start ++ ["accept"]]
  else if String.eqb (Protocol r) ICMP then [start ++ ["meta"; "l4proto"; if Is6 a then "icmpv6" else "icmp"; "accept"]]
  else if String.eqb (Protocol r) TCP || String.eqb (Protocol r) UDP then
    if (length (Ports r) =? 0)%nat then [start ++ ["meta"; "l4proto"; Protocol r; "accept"]]
    else [start ++ [Protocol r; "dport"; "{"] ++ commaWords (map nftPort (Ports r)) ++ ["}"; "accept"]]
  else [].

Definition transport (name : string) : Z := if String.eqb name TCP then protoTCP else protoUDP.

Definition ruleClauses (a : Addr) (r : Rule) : list clause :=
  CSaddr (Is6 a) a ::
  if String.eqb (Protocol r) All then []
  else if String.eqb (Protocol r) ICMP then [CProto (if Is6 a then protoICMPv6 else protoICMP)]
  else if (length (Ports r) =? 0)%nat then [CProto (transport (Protocol r))]
  else [CDport (transport (Protocol r)) (map (fun q => (From q, To q)) (Ports r))].

Lemma Join_app sep ts ts' : ts <> [] -> ts' <> [] -> Join sep (ts ++ ts') = Join sep ts +:+ sep +:+ Join sep ts'.
Proof.
  intros H H'. induction ts as [|t [|t2 ts] IH]; [done| |].
  - by destruct ts'.
  - cbn [app]. change (Join sep (t :: t2 :: ts ++ ts')) with (t +:+ sep +:+ Join sep ((t2 :: ts) ++ ts')).
    rewrite IH by done. change (Join sep (t :: t2 :: ts)) with (t +:+ sep +:+ Join sep (t2 :: ts)).
    by rewrite !sapp_assoc.
Qed.

Lemma commaWords_ne ps : ps <> [] -> commaWords ps <> [].
Proof. by destruct ps as [|p [|p' ps]]. Qed.

Lemma Join_commaWords ps : Join " " (commaWords ps) = Join ", " ps.
Proof.
  induction ps as [|p [|p' ps] IH]; [done..|].
  change (commaWords (p :: p' :: ps)) with ((p +:+ ",") :: commaWords (p' :: ps)).
  change (Join ", " (p :: p' :: ps)) with (p +:+ ", " +:+ Join ", " (p' :: ps)). rewrite <- IH.
  pose proof (commaWords_ne (p' :: ps) ltac:(done)). destruct (commaWords (p' :: ps)); [done|].
  change (Join " " ((p +:+ ",") :: s :: l)) with ((p +:+ ",") +:+ " " +:+ Join " " (s :: l)). by rewrite sapp_assoc.
Qed.

Lemma ruleLine_words a r : ruleLine a r = map (fun ts => "    " +:+ Join " " ts) (ruleWords a r).
Proof.
  unfold ruleLine, ruleWords, familyWord.
  destruct (String.eqb (Protocol r) All); [by destruct (Is6 a)|].
  destruct (String.eqb (Protocol r) ICMP); [by destruct (Is6 a)|].
  destruct (_ || _); [|done]. destruct (Nat.eqb_spec (length (Ports r)) 0) as [|Hne]; [by destruct (Is6 a)|].
  assert (Hm : map nftPort (Ports r) <> []) by (by destruct (Ports r)).
  pose proof (commaWords_ne _ Hm) as Hc.
  assert (Ej : Join " " (["{"] ++ commaWords (map nftPort (Ports r)) ++ ["}"; "accept"]) = nftPorts (Ports r) +:+ " accept").
  { rewrite Join_app, Join_app, Join_commaWords by (try done; by destruct (commaWords _)).
    unfold nftPorts. change (Join " " ["}"; "accept"]) with ("}" +:+ " accept").
    by rewrite (sapp_assoc "{ "), (sapp_assoc (Join ", " _)). }
  change ([_; _; _] ++ _) with ([if Is6 a then "ip6" else "ip"; "saddr"; Addr_String a; Protocol r; "dport"] ++
    (["{"] ++ commaWords (map nftPort (Ports r)) ++ ["}"; "accept"])).
  cbn [map]. rewrite (Join_app " " [_; _; _; _; _]) by done. rewrite Ej. cbn [Join]. rewrite !sapp_assoc. by destruct (Is6 a).
Qed.

Lemma nospace_word w : nospace w = true -> w <> "" -> word w = true.
Proof.
  intros Hw Hne. unfold word. rewrite (nochar_nospace w Hw). by apply String.eqb_neq in Hne as ->.
Qed.

(** ** The lines of the rules, read back *)

Definition isDigit (c : ascii) : bool := match digit c with Some _ => true | None => false end.

Lemma digits_allc s : forall acc z, digits acc s = Some z -> allc isDigit s = true.
Proof.
  induction s as [|c s IH]; intros acc z; simpl; [done|]. unfold isDigit at 1.
  destruct (digit c); [|done]. intros Hd. by rewrite (IH _ _ Hd).
Qed.

Lemma itoa_isDigit z : 0 <= z -> allc isDigit (itoa z) = true.
Proof. intros Hz. destruct (itoa_digits z Hz) as (_ & c & q & E & _ & _ & Hd). by eapply digits_allc. Qed.

(** Digits are none of the characters that separate. *)
Lemma isDigit_nochar x s : isDigit x = false -> allc isDigit s = true -> nochar x s = true.
Proof.
  intros Hx. unfold nochar. apply allc_impl. intros c Hc. destruct (Ascii.eqb_spec c x) as [->|]; [congruence|done].
Qed.

Lemma itoa_ne z : 0 <= z -> itoa z <> "".
Proof. intros Hz. destruct (itoa_digits z Hz) as (_ & c & q & E & _). by rewrite E. Qed.

Lemma trim_right_char_nochar x s : nochar x s = true -> trim_right_char x s = s.
Proof.
  unfold nochar. induction s as [|c s IH]; simpl; [done|]. rewrite andb_true_iff, negb_true_iff. intros [Hc Hs].
  rewrite IH by done. destruct s; [by rewrite Hc|done].
Qed.

Lemma trim_right_char_one x s : nochar x s = true -> trim_right_char x (s +:+ String x "") = s.
Proof.
  unfold nochar. induction s as [|c s IH]; simpl; [by rewrite Ascii.eqb_refl|].
  rewrite andb_true_iff, negb_true_iff. intros [Hc Hs]. rewrite IH by done. destruct s; [by rewrite Hc|done].
Qed.

(** The ports of a rule are of sixteen bits, and a range goes up. *)
Definition goodRange (q : PortRange) : Prop := 0 <= From q <= To q /\ To q < 2 ^ 16.

Lemma Atoi_port z : 0 <= z < 2 ^ 16 -> Atoi (itoa z) = Some z.
Proof. intros Hz. apply Atoi_itoa. unfold int64_max. lia. Qed.

Lemma nochar_app x s t : nochar x (s +:+ t) = nochar x s && nochar x t.
Proof. apply allc_app. Qed.

Lemma nochar_nftPort x q : isDigit x = false -> x <> "-"%char -> goodRange q -> nochar x (nftPort q) = true.
Proof.
  intros Hx Hne [Hf Ht]. unfold nftPort.
  assert (Hd : forall z, 0 <= z -> nochar x (itoa z) = true) by (intros; by apply isDigit_nochar, itoa_isDigit).
  destruct (_ =? _); [apply Hd; lia|]. rewrite !nochar_app, !Hd by lia.
  unfold nochar. cbn [allc]. by destruct (Ascii.eqb_spec "-"%char x) as [<-|].
Qed.

Lemma nftPort_ne q : goodRange q -> nftPort q <> "".
Proof.
  intros [Hf Ht]. unfold nftPort. destruct (itoa_digits (From q)) as (_ & c & t & E & _); [lia|].
  rewrite E. by destruct (_ =? _).
Qed.

Lemma readRange_nftPort q sep : goodRange q -> sep = "" \/ sep = "," -> readRange (nftPort q +:+ sep) = Some (From q, To q).
Proof.
  intros Hq Hsep. unfold readRange.
  assert (Et : trim_right_char "," (nftPort q +:+ sep) = nftPort q).
  { destruct Hsep as [->| ->]; [rewrite sapp_nil_r; apply trim_right_char_nochar|apply trim_right_char_one];
      by apply nochar_nftPort. }
  rewrite Et. destruct Hq as [Hf Ht]. unfold nftPort. destruct (Z.eqb_spec (From q) (To q)) as [E|E].
  - rewrite cutc_None by (apply isDigit_nochar; [done|apply itoa_isDigit; lia]). rewrite Atoi_port by lia. simpl. by rewrite E.
  - change (itoa (From q) +:+ "-" +:+ itoa (To q)) with (itoa (From q) +:+ String "-" (itoa (To q))).
    rewrite cutc_app by (apply isDigit_nochar; [done|apply itoa_isDigit; lia]). rewrite !Atoi_port by lia. simpl.
    by destruct (Z.leb_spec (From q) (To q)); [|lia].
Qed.

Lemma readSet_commaWords qs rest :
  Forall goodRange qs -> readSet (commaWords (map nftPort qs) ++ "}" :: rest) = Some (map (fun q => (From q, To q)) qs, rest).
Proof.
  induction qs as [|q qs IH]; intros Hq; [done|]. apply Forall_cons in Hq as [Hq Hqs]. specialize (IH Hqs).
  assert (Hbrace : forall sep, sep = "" \/ sep = "," -> String.eqb (nftPort q +:+ sep) "}" = false).
  { intros sep Hsep. apply String.eqb_neq. intros E. pose proof (nochar_nftPort "}"%char q ltac:(done) ltac:(done) Hq) as Hn.
    pose proof (nftPort_ne q Hq) as Hne. destruct (nftPort q) as [|c t]; [done|]. rewrite sapp_cons in E. injection E as -> _. done. }
  cbn [map]. destruct qs as [|q' qs].
  - cbn [map commaWords app readSet]. pose proof (Hbrace "" (or_introl eq_refl)) as Hb.
    pose proof (readRange_nftPort q "" Hq (or_introl eq_refl)) as Hr. rewrite sapp_nil_r in Hb, Hr. by rewrite Hb, Hr.
  - change (commaWords (nftPort q :: map nftPort (q' :: qs))) with ((nftPort q +:+ ",") :: commaWords (map nftPort (q' :: qs))).
    cbn [app readSet]. rewrite Hbrace, readRange_nftPort by auto. cbn [mbind option_bind]. by rewrite IH.
Qed.

Section Agreement.
Context (readAddr : string -> option Addr).

(** The addresses of the rules are such as nft reads them, and their ports are
    of sixteen bits in ranges that go up. *)
Definition readable (rules : gmap Addr (list Rule)) : Prop :=
  forall a rs, rules !! a = Some rs ->
    a <> AddrZero /\ nospace (addr_zone a) = true /\ readAddr (Addr_String a) = Some a /\
    Forall (fun r => Forall goodRange (Ports r)) rs.

(** The words of the line of a rule are words, and read back as its clauses. *)
Lemma ruleWords_words a r ts :
  word (Addr_String a) = true -> Forall goodRange (Ports r) -> ts ∈ ruleWords a r -> Forall (fun w => word w = true) ts.
Proof.
  intros Ha Hq. unfold ruleWords, familyWord.
  assert (Hports : forall qs, Forall goodRange qs -> Forall (fun w => word w = true) (commaWords (map nftPort qs))).
  { assert (Hone : forall q, goodRange q -> word (nftPort q) = true /\ word (nftPort q +:+ ",") = true).
    { intros q Hg. pose proof (nochar_nftPort space q ltac:(done) ltac:(done) Hg) as Hn. pose proof (nftPort_ne q Hg) as Hne.
      unfold word. rewrite nochar_app, Hn. split.
      - by apply String.eqb_neq in Hne as ->.
      - destruct (nftPort q); done. }
    induction qs as [|q [|q' qs] IH]; intros Hqs; [constructor| |].
    - inversion Hqs; subst. constructor; [by apply Hone|constructor].
    - apply Forall_cons in Hqs as [Hg Hqs]. constructor; [by apply Hone|by apply IH]. }
  destruct (String.eqb (Protocol r) All); [|destruct (String.eqb (Protocol r) ICMP)].
  - intros ->%list_elem_of_singleton. repeat constructor; [by destruct (Is6 a)|done].
  - intros ->%list_elem_of_singleton. repeat constructor; [by destruct (Is6 a)|done|by destruct (Is6 a)].
  - destruct (_ || _) eqn:Ep; [|by intros ?%not_elem_of_nil].
    assert (Hp : word (Protocol r) = true).
    { apply orb_true_iff in Ep as [->%String.eqb_eq| ->%String.eqb_eq]; done. }
    destruct (_ =? _)%nat; intros ->%list_elem_of_singleton.
    + repeat constructor; [by destruct (Is6 a)|done|done].
    + repeat (apply Forall_cons; split; [first [done | by destruct (Is6 a)]|]). apply Forall_app. split; [by apply Hports|by repeat constructor].
Qed.

Lemma ruleWords_read a r ts :
  readAddr (Addr_String a) = Some a -> Forall goodRange (Ports r) -> ts ∈ ruleWords a r ->
  readRule readAddr (length ts) ts = Some (ruleClauses a r, true).
Proof.
  intros Ha Hq. unfold ruleWords, ruleClauses, familyWord.
  assert (Hstart : forall n rest cs, rest <> [] ->
    readRule readAddr n rest = Some (cs, true) ->
    readRule readAddr (S n) ([if Is6 a then "ip6" else "ip"; "saddr"; Addr_String a] ++ rest) = Some (CSaddr (Is6 a) a :: cs, true)).
  { intros n rest cs Hne Hr. cbn [app readRule]. unfold readClause. by destruct (Is6 a); simpl; rewrite Ha; simpl; rewrite Hr. }
  destruct (String.eqb (Protocol r) All); [|destruct (String.eqb (Protocol r) ICMP)].
  - intros ->%list_elem_of_singleton. by apply Hstart.
  - intros ->%list_elem_of_singleton. apply Hstart; [done|]. by destruct (Is6 a).
  - destruct (_ || _) eqn:Ep; [|by intros ?%not_elem_of_nil].
    assert (Hp : Protocol r = TCP \/ Protocol r = UDP).
    { apply orb_true_iff in Ep as [Ep%String.eqb_eq|Ep%String.eqb_eq]; auto. }
    destruct (_ =? _)%nat; intros ->%list_elem_of_singleton.
    + apply Hstart; [done|]. by destruct Hp as [-> | ->].
    + rewrite length_app. apply Hstart; [done|]. cbn [length app readRule Nat.add].
      assert (Hrest : readClause readAddr (Protocol r :: "dport" :: "{" :: commaWords (map nftPort (Ports r)) ++ ["}"; "accept"]) =
        Some (CDport (transport (Protocol r)) (map (fun q => (From q, To q)) (Ports r)), ["accept"])).
      { unfold readClause. destruct Hp as [-> | ->]; simpl; by rewrite readSet_commaWords. }
      by rewrite Hrest.
Qed.

(** The protocol of a packet goes with its family: what the kernel calls icmp is
    of IPv4, what it calls icmpv6 of IPv6. *)
Definition ofFamily (p : parsed) : Prop :=
  (proto p = protoICMP -> Is6 (src p) = false) /\ (proto p = protoICMPv6 -> Is6 (src p) = true).

(** The clauses of a rule hold of the packets of its peer that the rule allows. *)
Lemma ruleClauses_hold k a r :
  spoken r = true -> ofFamily (h_packet k) ->
  forallb (holds k) (ruleClauses a r) =
  bool_decide (src (h_packet k) = a) && allows r (proto (h_packet k)) (dstPort (h_packet k)).
Proof.
  intros Hs [H4 H6]. set (p := h_packet k) in *. unfold ruleClauses. cbn [forallb holds]. fold p.
  destruct (decide (src p = a)) as [<-|Hne]; [|rewrite !(bool_decide_eq_false_2 (src p = a)) by done; by rewrite andb_false_r].
  rewrite (bool_decide_eq_true_2 (src p = src p)), Bool.eqb_reflx by done. cbn [andb].
  unfold allows. destruct (String.eqb_spec (Protocol r) All) as [|N1]; [done|].
  destruct (String.eqb_spec (Protocol r) ICMP) as [|N2].
  { cbn [forallb holds]. fold p. rewrite andb_true_r.
    destruct (Is6 (src p)), (Z.eqb_spec (proto p) protoICMP), (Z.eqb_spec (proto p) protoICMPv6);
      try done; exfalso; naive_solver. }
  assert (Hrange : existsb (fun r => (r.1 <=? dstPort p) && (dstPort p <=? r.2)) (map (fun q => (From q, To q)) (Ports r)) =
    existsb (fun q => contains q (dstPort p)) (Ports r)).
  { induction (Ports r) as [|q qs IH]; [done|]. cbn [map existsb]. by rewrite IH. }
  assert (Hport : forall n, forallb (holds k) (if (length (Ports r) =? 0)%nat then [CProto n]
      else [CDport n (map (fun q => (From q, To q)) (Ports r))]) = if negb (proto p =? n) then false else portsAllow (Ports r) (dstPort p)).
  { intros n. unfold portsAllow. destruct (_ =? _)%nat; cbn [forallb holds]; fold p; rewrite andb_true_r, ?Hrange; by destruct (proto p =? n). }
  rewrite Hport. unfold transport. destruct (String.eqb_spec (Protocol r) TCP) as [E|N3]; [done|].
  destruct (String.eqb_spec (Protocol r) UDP) as [E|N4]; [done|]. exfalso. revert Hs. unfold spoken.
  apply String.eqb_neq in N1, N2, N3, N4. by rewrite N1, N2, N3, N4.
Qed.

Lemma ruleWords_spoken a r ts : ts ∈ ruleWords a r -> spoken r = true.
Proof.
  unfold ruleWords, spoken. destruct (String.eqb _ All); [done|]. destruct (String.eqb _ ICMP); [done|].
  destruct (_ || _) eqn:E; [|by intros ?%not_elem_of_nil]. done.
Qed.

(** The line of a rule, read as nft reads it. *)
Definition lineClauses (l : string) : option (list clause * bool) := readRule readAddr (length (words l)) (words l).

Lemma ruleLine_read a r l :
  a <> AddrZero -> nospace (addr_zone a) = true -> readAddr (Addr_String a) = Some a -> Forall goodRange (Ports r) ->
  l ∈ ruleLine a r -> lineClauses l = Some (ruleClauses a r, true) /\ spoken r = true.
Proof.
  intros Hne Hz Hr Hq. rewrite ruleLine_words. intros (ts & -> & Hts)%list_elem_of_fmap.
  assert (Ew : words ("    " +:+ Join " " ts) = ts).
  { change ("    " +:+ Join " " ts) with (String space (String space (String space (String space (Join " " ts))))).
    rewrite !words_skip. apply words_Join. eapply ruleWords_words; [|exact Hq|exact Hts].
    apply nospace_word; [by apply nospace_Addr_String|apply Addr_String_ne]. }
  unfold lineClauses. rewrite Ew. split; [by eapply ruleWords_read|by eapply ruleWords_spoken].
Qed.

(** Lines that all accept, before others. *)
Lemma chainVerdict_accepts ls rest k v :
  (forall l, l ∈ ls -> exists cs, lineClauses l = Some (cs, true)) -> chainVerdict readAddr rest k = Some v ->
  chainVerdict readAddr (ls ++ rest) k =
  Some (existsb (fun l => match lineClauses l with Some (cs, _) => forallb (holds k) cs | None => false end) ls || v).
Proof.
  intros Hls Hr. induction ls as [|l ls IH]; [done|]. cbn [app chainVerdict existsb]. fold (lineClauses l).
  destruct (Hls l ltac:(left)) as (cs & ->). cbn. rewrite IH by (intros; apply Hls; by right). cbn.
  by destruct (forallb (holds k) cs).
Qed.

(** Interface names as Linux allows them: no space and nothing that ends a
    quotation or a line. *)
Definition ifaceName (s : string) : bool := nospace s && nochar (Ascii.ascii_of_nat 34) s.

Definition ifaceLine (iface : string) : string := "    iifname != " +:+ dquote +:+ iface +:+ dquote +:+ " accept".

Lemma ifaceLine_read iface :
  ifaceName iface = true -> lineClauses (ifaceLine iface) = Some ([CNotIif iface], true).
Proof.
  unfold ifaceName. rewrite andb_true_iff. intros [Hs Hq].
  assert (Ew : words (ifaceLine iface) = ["iifname"; "!="; dquote +:+ iface +:+ dquote; "accept"]).
  { change (ifaceLine iface) with (String space (String space (String space (String space
      ("iifname" +:+ String space ("!=" +:+ String space (dquote +:+ iface +:+ dquote +:+ " accept"))))))).
    rewrite !words_skip, !words_cons by done.
    rewrite <- (sapp_assoc iface dquote), <- (sapp_assoc dquote).
    change (" accept") with (String space "accept"). rewrite words_cons; [done|].
    unfold word, dquote. rewrite !nochar_app, (nochar_nospace iface Hs). done. }
  unfold lineClauses. rewrite Ew. cbn [length readRule]. unfold readClause. cbn [String.eqb andb].
  assert (Eu : unquote (dquote +:+ iface +:+ dquote) = Some iface).
  { unfold dquote, unquote. rewrite sapp_cons, sapp_nil_l, Ascii.eqb_refl. rewrite cutc_app by done. done. }
  simpl. simpl in Eu. rewrite Eu. done.
Qed.

Lemma trackedLine_read : lineClauses "    ct state established,related accept" = Some ([CTracked], true).
Proof. vm_compute. reflexivity. Qed.

Lemma upto_app e ls rest : (forall l, l ∈ ls -> l <> e) -> upto e (ls ++ e :: rest) = ls.
Proof.
  intros Hls. induction ls as [|l ls IH]; simpl; [by rewrite String.eqb_refl|].
  destruct (String.eqb_spec l e); [by destruct (Hls l ltac:(left))|]. f_equal. apply IH. intros; apply Hls; by right.
Qed.

Lemma readable_zones rules : readable rules -> forall a, is_Some (rules !! a) -> nospace (addr_zone a) = true.
Proof. intros Hr a [rs E]. by destruct (Hr a rs E) as (_ & Hz & _). Qed.

(** The chain that is loaded. *)
Lemma inputChain_ruleset iface rules order :
  ifaceName iface = true -> readable rules ->
  inputChain (buildRuleset iface rules order) =
  ifaceLine iface :: "    ct state established,related accept" :: peerLines rules order ++ ["    drop"].
Proof.
  intros Hi Hr. unfold inputChain. rewrite buildRuleset_split; [|apply nospace_nonl; by apply andb_true_iff in Hi as [? _]|by apply readable_zones].
  unfold rulesetHead. cbn [app after String.eqb]. simpl after.
  change (["    drop"; "  }"; "}"; ""]) with (["    drop"] ++ "  }" :: ["}"; ""]).
  rewrite app_assoc, !app_comm_cons. apply upto_app.
  intros l Hl ->. rewrite elem_of_app, !elem_of_cons in Hl.
  destruct Hl as [[Hl|[Hl|(a & rs & r & _ & _ & _ & Hl)%elem_peerLines]]|[Hl|[]%not_elem_of_nil]]; try discriminate.
  rewrite ruleLine_words in Hl. apply list_elem_of_fmap in Hl as (ts & Hl & _). discriminate.
Qed.

Lemma nftAdmits_ruleset iface rules order k :
  ifaceName iface = true -> readable rules -> order ≡ₚ (map_to_list rules).*1 -> ofFamily (h_packet k) ->
  nftAdmits readAddr (buildRuleset iface rules order) k =
  Some (negb (String.eqb (h_iif k) iface) || h_tracked k || rulesAllow rules (h_packet k)).
Proof.
  intros Hi Hr Ho Hf. unfold nftAdmits. rewrite inputChain_ruleset by done.
  assert (Hread : forall l, l ∈ peerLines rules order -> exists a rs r, rules !! a = Some rs /\ r ∈ rs /\ l ∈ ruleLine a r /\
    lineClauses l = Some (ruleClauses a r, true) /\ spoken r = true).
  { intros l (a & rs & r & _ & E & Hin & Hl)%elem_peerLines. exists a, rs, r. destruct (Hr a rs E) as (Hne & Hz & Ha & Hq).
    rewrite Forall_forall in Hq. destruct (ruleLine_read a r l Hne Hz Ha (Hq r Hin) Hl). done. }
  assert (Hp : chainVerdict readAddr (peerLines rules order ++ ["    drop"]) k = Some (rulesAllow rules (h_packet k))).
  { rewrite (chainVerdict_accepts _ _ _ false); [|intros l Hl; destruct (Hread l Hl) as (a & rs & r & _ & _ & _ & E & _); eauto|reflexivity].
    f_equal. rewrite orb_false_r. apply eq_bool_prop_intro. rewrite !Is_true_true, rulesAllow_iff, existsb_exists. unfold mayStart. split.
    - intros (l & Hl & Hv). apply list_elem_of_In in Hl. destruct (Hread l Hl) as (a & rs & r & E & Hin & _ & El & Hs).
      rewrite El, ruleClauses_hold, andb_true_iff, bool_decide_eq_true in Hv by done. destruct Hv as [<- Hv].
      exists r. rewrite E. done.
    - intros (r & Hin & Hv). destruct (rules !! src (h_packet k)) as [rs|] eqn:E; [|by apply not_elem_of_nil in Hin]. simpl in Hin.
      assert (Hl : exists l, l ∈ ruleLine (src (h_packet k)) r).
      { assert (Hs : spoken r = true).
        { unfold allows, spoken in *. destruct (String.eqb (Protocol r) All), (String.eqb (Protocol r) ICMP),
            (String.eqb (Protocol r) TCP), (String.eqb (Protocol r) UDP); done. }
        pose proof (ruleLine_length (src (h_packet k)) r) as Hlen. rewrite Hs in Hlen.
        destruct (ruleLine (src (h_packet k)) r) as [|l ?]; [done|]. exists l. left. }
      destruct Hl as [l Hl].
      assert (Hpl : l ∈ peerLines rules order).
      { apply elem_peerLines. exists (src (h_packet k)), rs, r. split; [|done]. apply (order_dom rules order Ho). by exists rs. }
      exists l. split; [by apply list_elem_of_In|]. destruct (Hr _ rs E) as (Hne & Hz & Ha & Hq). rewrite Forall_forall in Hq.
      destruct (ruleLine_read _ r l Hne Hz Ha (Hq r Hin) Hl) as [El Hs].
      rewrite El, ruleClauses_hold, bool_decide_eq_true_2, Hv by done. done. }
  cbn [chainVerdict]. change (readRule readAddr (length (words (ifaceLine iface))) (words (ifaceLine iface))) with (lineClauses (ifaceLine iface)).
  match goal with |- context [readRule readAddr (length (words ?l)) (words ?l)] =>
    change (readRule readAddr (length (words l)) (words l)) with (lineClauses l) end.
  rewrite ifaceLine_read, trackedLine_read by done. cbn [mbind option_bind]. rewrite Hp. cbn.
  by destruct (String.eqb (h_iif k) iface), (h_tracked k).
Qed.

(** C32: a rule means the same whoever enforces it, and the two enforcers differ
    only in the conversations they remember.  Take rules nft can read, and a packet
    that comes in by the mesh, that the agent can parse, and in which ICMP is that
    of its own IP version.  The ruleset the agent gives to nft admits it exactly
    when connection tracking knows its conversation or the rules of its sender let
    it start one; the filter under the same rules exactly when it is a fresh reply
    by its own table or the same rules let it start one.  So the two agree on every
    packet the rules let in, and on the others exactly when connection tracking and
    the table agree about the conversation.  What comes in by another interface nft
    leaves alone. *)
Theorem nft_agrees_with_filter iface rules order k :
  ifaceName iface = true -> readable rules -> order ≡ₚ (map_to_list rules).*1 -> ofFamily (h_packet k) ->
  (h_iif k <> iface -> nftAdmits readAddr (buildRuleset iface rules order) k = Some true) /\
  (forall f now now' pkt,
     h_iif k = iface -> on f = true -> Filter.rules f = rules -> parse pkt = Ret (Some (h_packet k)) ->
     exists n b f', nftAdmits readAddr (buildRuleset iface rules order) k = Some n /\ Inbound f now now' pkt = Ret (b, f') /\
       (n = true <-> h_tracked k = true \/ mayStart rules (h_packet k)) /\
       (b = true <-> freshReply f now (h_packet k) \/ mayStart rules (h_packet k)) /\
       (n = b <-> mayStart rules (h_packet k) \/ (h_tracked k = true <-> freshReply f now (h_packet k)))).
Proof.
  intros Hi Hr Ho Hf. rewrite nftAdmits_ruleset by done. split.
  - intros Hne. apply String.eqb_neq in Hne as ->. done.
  - intros f now now' pkt Hif Hon Hrules Hp. rewrite Hif, String.eqb_refl. cbn [negb orb].
    destruct (Inbound_verdict f now now' pkt) as (b & f' & E & Hb). exists (h_tracked k || rulesAllow rules (h_packet k)), b, f'.
    assert (Hn : h_tracked k || rulesAllow rules (h_packet k) = true <-> h_tracked k = true \/ mayStart rules (h_packet k))
      by (by rewrite orb_true_iff, rulesAllow_iff).
    assert (Hb' : b = true <-> freshReply f now (h_packet k) \/ mayStart rules (h_packet k)).
    { rewrite Hb. unfold admitted. rewrite Hon, Hp, Hrules. split; [intros [|[|(p & [= <-] & Hv)]]; done|eauto]. }
    split; [done|]. split; [done|]. split; [done|]. split; [done|].
    destruct (h_tracked k || _), b; split; intros; try done; naive_solver.
Qed.

End Agreement.

(** ** Where they differ *)

(** Reads the addresses of the examples. *)
Definition exRead (t : string) : option Addr :=
  if String.eqb t (Addr_String (V4 7)) then Some (V4 7)
  else if String.eqb t (Addr_String (V6 1 "")) then Some (V6 1 "") else None.

(** A packet of GRE from a peer that may start nothing: the filter lets in what it
    cannot read, the ruleset drops it. *)
Definition gre : list byte := map Zbyte [69; 0; 0; 24; 0; 0; 0; 0; 64; 47; 0; 0; 0; 0; 0; 7; 0; 0; 0; 1; 0; 0; 0; 0].
Definition mute : gmap Addr (list Rule) := {[ V4 7 := [] ]}.

Lemma unread_differs :
  Inbound (SetRules New mute) 0 0 gre = Ret (true, SetRules New mute) /\
  nftAdmits exRead (buildRuleset "wg0" mute [V4 7]) (mkHooked "wg0" false (mkParsed 47 (V4 7) (V4 1) 0 0)) = Some false.
Proof. split; vm_compute; reflexivity. Qed.

(** One range that goes down covers nothing for the filter, and makes nft refuse
    the rules of everybody. *)
Definition ssh : Rule := mkRule TCP [mkPortRange 22 22].
Definition oneBad : gmap Addr (list Rule) := {[ V4 7 := [ssh]; V6 1 "" := [mkRule TCP [mkPortRange 90 80]] ]}.

Lemma reversed_range_refuses_all k :
  rulesAllow oneBad (mkParsed protoTCP (V4 7) (V4 1) 40000 22) = true /\
  nftAdmits exRead (buildRuleset "wg0" oneBad (map_to_list oneBad).*1) k = None.
Proof. split; vm_compute; reflexivity. Qed.

(** ** Witnesses *)

Definition exSafe : gmap Addr (list Rule) := {[ V4 7 := [ssh; mkRule UDP [mkPortRange 53 53; mkPortRange 5000 6000]]; V6 1 "" := [mkRule ICMP []] ]}.
Definition exSafe_order : list Addr := (map_to_list exSafe).*1.

(** A UDP packet from that peer to port 5353, of which nothing is known yet. *)
Definition mdns : list byte :=
  map Zbyte [69; 0; 0; 28; 0; 0; 0; 0; 64; 17; 0; 0; 0; 0; 0; 7; 0; 0; 0; 1; 20; 233; 20; 233; 0; 8; 0; 0].

Lemma exSafe_readable : readable exRead exSafe.
Proof.
  intros a rs E. apply elem_of_map_to_list in E.
  assert (Hl : map_to_list exSafe = [(V4 7, [ssh; mkRule UDP [mkPortRange 53 53; mkPortRange 5000 6000]]); (V6 1 "", [mkRule ICMP []])] \/
    map_to_list exSafe = [(V6 1 "", [mkRule ICMP []]); (V4 7, [ssh; mkRule UDP [mkPortRange 53 53; mkPortRange 5000 6000]])])
    by (vm_compute; auto).
  assert (Hin : (a, rs) = (V4 7, [ssh; mkRule UDP [mkPortRange 53 53; mkPortRange 5000 6000]]) \/ (a, rs) = (V6 1 "", [mkRule ICMP []])).
  { destruct Hl as [Hl|Hl]; rewrite Hl in E; set_solver. }
  destruct Hin as [[= -> ->]|[= -> ->]]; (split_and!; [done|done|vm_compute; reflexivity|]);
    repeat constructor; unfold goodRange; simpl; lia.
Qed.

Lemma nft_agrees_with_filter_witness :
  parse mdns = Ret (Some (mkParsed protoUDP (V4 7) (V4 1) 5353 5353)) /\
  exists n b f', nftAdmits exRead (buildRuleset "wg0" exSafe exSafe_order)
      (mkHooked "wg0" false (mkParsed protoUDP (V4 7) (V4 1) 5353 5353)) = Some n /\
    Inbound (SetRules New exSafe) 0 0 mdns = Ret (b, f') /\ (n = true <-> false = true \/ mayStart exSafe (mkParsed protoUDP (V4 7) (V4 1) 5353 5353)).
Proof.
  split; [vm_compute; reflexivity|].
  destruct (nft_agrees_with_filter exRead "wg0" exSafe exSafe_order
    (mkHooked "wg0" false (mkParsed protoUDP (V4 7) (V4 1) 5353 5353)) eq_refl exSafe_readable) as [_ H];
    [reflexivity|split; discriminate|].
  destruct (H (SetRules New exSafe) 0 0 mdns) as (n & b & f' & En & Eb & Hn & _);
    [reflexivity|reflexivity|reflexivity|vm_compute; reflexivity|].
  exists n, b, f'. split; [exact En|]. split; [exact Eb|exact Hn].
Defined.

End NFTMeaning.
