(* ===== verification/Tun.v ===== *)
(** * internal/tunnel/filtered.go: the filter between wireguard-go and the
    interface.

    [tun.Device] is wireguard-go's interface and is a parameter: what its
    [Read] returned, and the error its [Write] answers.  The slice tricks of
    the source are kept: [keep := bufs\[:0\]] shares the array of [bufs], so
    [Write] compacts the caller's slice in place while it ranges over it. *)
From S2P Require Import Prelude NetIP Filter.
Import Filter.

Module Tun.

(** The clock readings of the successive calls into the filter. *)
Definition clock : Type := nat -> Z * Z.

(** [Read], after the device filled [bufs] and [sizes] and returned [n]. *)
Fixpoint recordOut (f : Filter) (clk : clock) (bufs : list (list byte)) (sizes : list nat)
    (offset i n : nat) : go Filter :=
  match n with
  | O => Ret f
  | S n =>
      b ← index bufs i; sz ← index sizes i;
      pkt ← slice b offset (offset + sz);
      f' ← Outbound f (clk i).1 pkt;
      recordOut f' clk bufs sizes offset (S i) n
  end.

Definition Read {E} (f : Filter) (clk : clock) (bufs : list (list byte)) (sizes : list nat)
    (offset : nat) (devRead : nat * option E) : go (Filter * (nat * option E)) :=
  f' ← recordOut f clk bufs sizes offset 0 devRead.1; Ret (f', devRead).

(** The loop of [Write]: [arr] is the array behind both [bufs] and [keep], [k]
    the length of [keep], [i] the range index. *)
Fixpoint writeLoop (f : Filter) (clk : clock) (offset i n : nat)
    (arr : list (list byte)) (k : nat) : go (Filter * list (list byte) * nat) :=
  match n with
  | O => Ret (f, arr, k)
  | S n =>
      b ← index arr i;
      pkt ← slice b offset (length b);
      vf ← Inbound f (clk i).1 (clk i).2 pkt;
      if vf.1 : bool then writeLoop vf.2 clk offset (S i) n (<[k := b]> arr) (S k)
      else writeLoop vf.2 clk offset (S i) n arr k
  end.

(** What a call of [Write] did. *)
Record writeOutcome (E : Type) : Type := mkWriteOutcome {
  w_filter : Filter;
  w_bufs : list (list byte);            (* the caller's slice afterwards *)
  w_device : option (list (list byte)); (* what the device was handed, if called *)
  w_ret : nat * option E }.
Arguments mkWriteOutcome {E}. Arguments w_filter {E}. Arguments w_bufs {E}.
Arguments w_device {E}. Arguments w_ret {E}.

Definition Write {E} (devWrite : list (list byte) -> nat -> option E)
    (f : Filter) (clk : clock) (bufs : list (list byte)) (offset : nat) : go (writeOutcome E) :=
  '(f', arr, k) ← writeLoop f clk offset 0 (length bufs) bufs 0;
  if (k =? 0)%nat then Ret (mkWriteOutcome f' arr None (length bufs, None))
  else
    keep ← slice arr 0 k;
    match devWrite keep offset with
    | Some err => Ret (mkWriteOutcome f' arr (Some keep) (0%nat, Some err))
    | None => Ret (mkWriteOutcome f' arr (Some keep) (length bufs, None))
    end.

(** ** Specification: the verdicts of the packets taken one after another *)

Fixpoint verdicts (f : Filter) (clk : clock) (offset i : nat) (bufs : list (list byte)) :
    go (list bool * Filter) :=
  match bufs with
  | [] => Ret ([], f)
  | b :: bufs =>
      vf ← Inbound f (clk i).1 (clk i).2 (drop offset b);
      rest ← verdicts vf.2 clk offset (S i) bufs;
      Ret (vf.1 :: rest.1, rest.2)
  end.

(** The buffers whose verdict is true, in order. *)
Definition kept (vs : list bool) (bufs : list (list byte)) : list (list byte) :=
  omap (fun vb => if vb.1 : bool then Some vb.2 else None) (zip vs bufs).

Lemma slice_tail {A} (b : list A) off :
  (off <= length b)%nat -> slice b off (length b) = Ret (drop off b).
Proof. intros. rewrite slice_ret by lia. by rewrite take_ge by (rewrite length_drop; lia). Qed.

Lemma Inbound_total f now now' pkt : exists v f', Inbound f now now' pkt = Ret (v, f').
Proof. destruct (Inbound_verdict f now now' pkt) as (v & f' & E & _). eauto. Qed.

Lemma verdicts_total f clk offset i bufs : exists vs f', verdicts f clk offset i bufs = Ret (vs, f').
Proof.
  revert f i. induction bufs as [|b bufs IH]; intros f i; simpl; [by eauto|].
  destruct (Inbound_total f (clk i).1 (clk i).2 (drop offset b)) as (v & f1 & ->). simpl.
  destruct (IH f1 (S i)) as (vs & f2 & ->). simpl. by eauto.
Qed.

(** The array invariant of the compacting loop: the first [k] slots are what is
    kept so far, the slots from [i] on are still the caller's. *)
Lemma writeLoop_spec f clk offset i arr todo pre vs f' :
  Forall (fun b => offset <= length b)%nat todo ->
  verdicts f clk offset i todo = Ret (vs, f') ->
  drop i arr = todo -> take (length pre) arr = pre -> (length pre <= i)%nat ->
  writeLoop f clk offset i (length todo) arr (length pre) =
    Ret (f', (pre ++ kept vs todo) ++ drop (length (pre ++ kept vs todo)) arr,
         length (pre ++ kept vs todo)).
Proof.
  revert f i arr pre vs. induction todo as [|b todo IH]; intros f i arr pre vs Hall Hv Hd Ht Hi.
  - simpl in Hv. injection Hv as <- <-. change (kept [] []) with (@nil (list byte)).
    rewrite app_nil_r. simpl. do 3 f_equal. by rewrite <- Ht at 1; rewrite take_drop.
  - apply Forall_cons in Hall as [Hb Hall]. cbn [length writeLoop verdicts] in *.
    assert (Hlk : arr !! i = Some b) by (by rewrite <- (Nat.add_0_r i), <- lookup_drop, Hd).
    assert (Hlt : (i < length arr)%nat) by (by eapply lookup_lt_Some).
    assert (Hd' : drop (S i) arr = todo) by (by rewrite <- Nat.add_1_r, <- drop_drop, Hd).
    unfold index. rewrite Hlk. cbn [mbind go_bind].
    rewrite (slice_tail b offset Hb). cbn [mbind go_bind].
    destruct (Inbound f (clk i).1 (clk i).2 (drop offset b)) as [[v f1]|]; [|done].
    cbn [mbind go_bind fst snd] in *.
    destruct (verdicts f1 clk offset (S i) todo) as [[vs1 f2]|] eqn:Ev; [|done].
    cbn [mbind go_bind fst snd] in Hv. injection Hv as <- <-.
    destruct v; cbn [kept zip zip_with omap list_omap fst snd]; [|by apply IH; try lia].
    assert (Ht' : take (length (pre ++ [b])) (<[length pre := b]> arr) = pre ++ [b]).
    { rewrite length_app. simpl. rewrite Nat.add_1_r.
      rewrite (take_S_r _ _ b) by (rewrite list_lookup_insert_eq; [done|lia]).
      by rewrite take_insert_ge, Ht by lia. }
    specialize (IH f1 (S i) (<[length pre := b]> arr) (pre ++ [b]) vs1 Hall Ev).
    rewrite length_app in IH at 3. simpl in IH. rewrite Nat.add_1_r in IH.
    rewrite IH; [|by rewrite drop_insert_lt by lia|done|rewrite length_app; simpl; lia].
    rewrite drop_insert_lt by (rewrite !length_app; simpl; lia).
    rewrite <- !app_assoc. done.
Qed.

(** C31: a batch is delivered exactly as the filter decides, packet by packet and
    in order: the interface receives the admitted buffers and nothing else, is
    not called when there are none, the caller is told the whole batch was
    written unless the interface failed, and the caller's slice is left
    compacted with the delivered buffers first. *)
Theorem Write_delivers {E} (devWrite : list (list byte) -> nat -> option E) f clk bufs offset :
  Forall (fun b => offset <= length b)%nat bufs ->
  exists vs f', verdicts f clk offset 0 bufs = Ret (vs, f') /\
    let keep := kept vs bufs in
    Write devWrite f clk bufs offset = Ret (mkWriteOutcome f'
      (keep ++ drop (length keep) bufs)
      (if (length keep =? 0)%nat then None else Some keep)
      (if (length keep =? 0)%nat then (length bufs, None)
       else match devWrite keep offset with
            | Some err => (0%nat, Some err) | None => (length bufs, None) end)).
Proof.
  intros Hall. destruct (verdicts_total f clk offset 0 bufs) as (vs & f' & Hv).
  exists vs, f'. split; [done|]. intros keep. unfold Write.
  pose proof (writeLoop_spec f clk offset 0 bufs bufs [] vs f' Hall Hv eq_refl eq_refl
                (Nat.le_refl _)) as Hloop.
  change (length []) with 0%nat in Hloop. rewrite Hloop.
  change ([] ++ kept vs bufs) with keep. cbn [mbind go_bind].
  destruct (length keep =? 0)%nat; [done|].
  rewrite slice_ret by (rewrite ?length_app; lia). rewrite Nat.sub_0_r.
  cbn [mbind go_bind]. rewrite drop_0, take_app_length. by destruct (devWrite keep offset).
Qed.

(** every packet the device hands out is recorded as started by this
    machine before the caller sees it, so its answer finds the flow. *)
Theorem Read_records f clk bufs sizes offset n k f' (err : option unit) j b sz pkt p :
  Read f clk bufs sizes offset (n, err) = Ret (f', k) ->
  (j < n)%nat -> bufs !! j = Some b -> sizes !! j = Some sz ->
  slice b offset (offset + sz) = Ret pkt -> parse pkt = Ret (Some p) ->
  k = (n, err) /\ is_Some (flows f' !! outKey p).
Proof.
  unfold Read. simpl.
  destruct (recordOut f clk bufs sizes offset 0 n) as [f2|] eqn:E; [|done].
  simpl. intros [= <- <-] Hj Hb Hsz Hsl Hp. split; [done|].
  assert (Hgen : forall m i f f2, recordOut f clk bufs sizes offset i m = Ret f2 ->
            is_Some (flows f !! outKey p) \/ (i <= j < i + m)%nat -> is_Some (flows f2 !! outKey p)).
  { clear -Hb Hsz Hsl Hp. intros m. induction m as [|m IH]; intros i f f2; cbn [recordOut].
    - intros [= <-] [H|H]; [done|lia].
    - unfold index. destruct (bufs !! i) as [bi|] eqn:Ei; [|done].
      destruct (sizes !! i) as [si|] eqn:Esi; [|done]. cbn [mbind go_bind].
      destruct (slice bi offset (offset + si)) as [q|] eqn:Eq; [|done]. cbn [mbind go_bind].
      destruct (parse_total q) as [[pq|] Hpq].
      + rewrite (Outbound_parsed _ _ _ _ Hpq). cbn [mbind go_bind]. intros Hrec Hor.
        eapply IH; [exact Hrec|]. simpl. rewrite lookup_insert. case_decide; [eauto|].
        destruct Hor as [?|?]; [eauto|]. right. split; [|lia].
        destruct (decide (i = j)) as [->|]; [exfalso; simplify_eq; congruence|lia].
      + unfold Outbound. rewrite Hpq. cbn [mbind go_bind]. intros Hrec Hor.
        eapply IH; [exact Hrec|]. destruct Hor as [?|?]; [eauto|]. right. split; [|lia].
        destruct (decide (i = j)) as [->|]; [exfalso; simplify_eq; congruence|lia]. }
  eapply Hgen; [exact E|]. right. lia.
Qed.

(** ** Witnesses *)

Definition exClock : clock := fun i => (Z.of_nat i + 10, Z.of_nat i + 10).

Lemma Write_delivers_witness :
  exists vs f', verdicts exClosed exClock 0 0 [exAck; exSyn] = Ret (vs, f') /\
    let keep := kept vs [exAck; exSyn] in
    Write (E := unit) (fun _ _ => None) exClosed exClock [exAck; exSyn] 0 =
      Ret (mkWriteOutcome f' (keep ++ drop (length keep) [exAck; exSyn])
        (if (length keep =? 0)%nat then None else Some keep)
        (if (length keep =? 0)%nat then (2%nat, None) else (2%nat, None))).
Proof.
  apply (Write_delivers (E := unit) (fun _ _ => None) exClosed exClock [exAck; exSyn] 0).
  repeat constructor; lia.
Defined.

Lemma Read_records_witness :
  exists f', Read (E := unit) exClosed exClock [exSyn] [24%nat] 0 (1%nat, None) = Ret (f', (1%nat, None)) /\
    is_Some (flows f' !! outKey exParsedSyn).
Proof.
  exists (set_flows exClosed (<[outKey exParsedSyn := 10]> (flows exClosed))).
  split; [vm_compute; reflexivity|].
  apply (Read_records exClosed exClock [exSyn] [24%nat] 0 1 (1%nat, None) _ None 0
           exSyn 24 exSyn exParsedSyn); try (vm_compute; reflexivity); lia.
Defined.

End Tun.
