(* ===== verification/SignalProto.v ===== *)
(** * internal/signal/proto.go: envelopes, bodies, and the seal around a body.

    The server routes an [Envelope] by its [To] field and never reads [Body],
    which is sealed between two WireGuard keys with NaCl box. *)
From S2P Require Import Prelude GoStrings Keys.

Module SignalProto.

(** [Kind] is a string on the wire. *)
Definition KindHello : string := "hello".
Definition KindOffline : string := "offline".
Definition KindOffer : string := "offer".
Definition KindAnswer : string := "answer".
Definition KindCandidate : string := "candidate".
Definition KindBye : string := "bye".

Record Envelope : Type := mkEnvelope {
  e_kind : string; e_from : string; e_to : string; e_body : list byte }.

#[global] Instance Envelope_eq_dec : EqDecision Envelope.
Proof. solve_decision. Defined.

Record Body : Type := mkBody { UFrag : string; Pwd : string; Candidate : string }.

#[global] Instance Body_eq_dec : EqDecision Body.
Proof. solve_decision. Defined.

Definition emptyBody : Body := mkBody "" "" "".

Inductive sealError : Type := ErrEncoding | ErrNonce.
Inductive openError : Type := ErrNotSealed | ErrOpenFailed | ErrDecoding.

Definition nonceLen : nat := 24.

(** What the package uses of [nacl/box] and of [encoding/json] on [Body].
    [box_seal] is the ciphertext [box.Seal] appends; [encodable] the bodies
    whose strings [json.Marshal] keeps (valid UTF-8). *)
Class SealLib `{WGKeys} : Type := {
  marshal : Body -> option (list byte);
  unmarshal : list byte -> option Body;
  encodable : Body -> Prop;
  box_seal : forall (plain nonce : list byte) (peersPublic private : Key), list byte;
  box_open : forall (sealed nonce : list byte) (peersPublic private : Key), option (list byte);
  marshal_encodable : forall b, encodable b ->
    exists plain, marshal b = Some plain /\ unmarshal plain = Some b;
  box_overhead : forall m n pub priv, length (box_seal m n pub priv) = (length m + 16)%nat;
  box_open_seal : forall m n a b, length a = keyLen -> length b = keyLen ->
    box_open (box_seal m n (PublicKey b) a) n (PublicKey a) b = Some m }.

Section Seal.
Context `{SealLib}.

(** [Seal]; [nonce] is what [rand.Read] produced, [None] when it failed. *)
Definition Seal (b : Body) (ourPrivate theirPublic : Key) (nonce : option (list byte)) :
    result sealError (list byte) :=
  match marshal b with
  | None => Err ErrEncoding
  | Some plain =>
      match nonce with
      | None => Err ErrNonce
      | Some n => Ok (n ++ box_seal plain n theirPublic ourPrivate)
      end
  end.

(** [Open]. *)
Definition Open (sealed : list byte) (ourPrivate theirPublic : Key) : result openError Body :=
  if (length sealed <=? nonceLen)%nat then Err ErrNotSealed
  else
    let nonce := take nonceLen sealed in
    match box_open (drop nonceLen sealed) nonce theirPublic ourPrivate with
    | None => Err ErrOpenFailed
    | Some plain =>
        match unmarshal plain with
        | None => Err ErrDecoding
        | Some b => Ok b
        end
    end.

(** A body sealed by one machine for another opens on the other, with the
    sender's public key, to the same body. *)
Lemma Open_Seal b alice bob nonce sealed :
  encodable b -> length alice = keyLen -> length bob = keyLen -> length nonce = nonceLen ->
  Seal b alice (PublicKey bob) (Some nonce) = Ok sealed ->
  Open sealed bob (PublicKey alice) = Ok b.
Proof.
  intros Henc Ha Hb Hn. unfold Seal.
  destruct (marshal_encodable b Henc) as (plain & -> & Hu). intros [= <-].
  unfold Open. rewrite length_app, box_overhead, Hn.
  destruct (Nat.leb_spec (nonceLen + (length plain + 16)) nonceLen); [lia|].
  rewrite <- Hn, take_app_length, drop_app_length, box_open_seal by done. by rewrite Hu.
Qed.

End Seal.

(** ** A concrete library, for evaluating the model: fields separated by a newline,
    and a box that only prepends a constant authenticator. *)

Definition toyMarshal (b : Body) : list byte :=
  chars (Join NL [UFrag b; Pwd b; Candidate b]).
Definition toyUnmarshal (p : list byte) : option Body :=
  match splitc nl (unchars p) with
  | [u; p; c] => Some (mkBody u p c)
  | _ => None
  end.

(** The authenticator of the concrete box. *)
Definition toyTag : list byte := repeat Byte.x00 16.

#[export] Program Instance toySeal : SealLib := {|
  marshal b := Some (toyMarshal b);
  unmarshal := toyUnmarshal;
  encodable b := nochar nl (UFrag b) = true /\ nochar nl (Pwd b) = true /\
                 nochar nl (Candidate b) = true;
  box_seal m n pub priv := toyTag ++ m;
  box_open s n pub priv := if bool_decide (take 16 s = toyTag) then Some (drop 16 s) else None |}.
Next Obligation.
  intros [u p c] (Hu & Hp & Hc). simpl in *. eexists. split; [done|].
  unfold toyUnmarshal, toyMarshal. rewrite unchars_chars.
  change NL with (String nl ""). by rewrite splitc_Join by (try done; by repeat constructor).
Qed.
Next Obligation. intros m n pub priv. simpl. lia. Qed.
Next Obligation. intros m n a b Ha Hb. simpl. done. Qed.

End SignalProto.
