(* ===== verification/SignalServer.v ===== *)
(** * internal/signal/server.go: the switchboard.

    The state is the routing table and the sockets.  Each handler of the source
    is a function; the goroutines interleave at the points where they block, so
    a run is a sequence of events: a socket says hello, a frame is read, a
    blocked [enqueue] resumes, a queued envelope is written, a ping fails, a
    reader ends.  Where Go's [select] may pick any ready case the event carries
    the pick. *)
From S2P Require Import Prelude GoStrings Keys SignalProto.
Import SignalProto.

Module SignalServer.

Definition maxFrame : Z := Z.shiftl 8 10.
Definition sendQueue : nat := 1024.
Definition enqueueWait : Z := 2 * Second.
Definition writeWait : Z := 10 * Second.
Definition pingEvery : Z := 30 * Second.

(** One peer's socket.  [c_live] is whether its [serve] is still running;
    [c_written] what its writer has put on the socket. *)
Record conn : Type := mkConn {
  c_key : string; c_send : list Envelope; c_closed : bool; c_live : bool;
  c_written : list Envelope }.

(** [blocked] holds, for each reader parked in the second [select] of
    [enqueue], the socket it waits for and the envelope it holds. *)
Record Server : Type := mkServer {
  peers : gmap string nat; conns : gmap nat conn; nextId : nat;
  blocked : gmap nat (nat * Envelope) }.

Definition NewServer : Server := mkServer ∅ ∅ 0 ∅.

Definition Peers (s : Server) : nat := size (peers s).

Definition upd_conn (f : conn -> conn) (id : nat) (s : Server) : Server :=
  mkServer (peers s) (alter f id (conns s)) (nextId s) (blocked s).

(** [conn.close]: the [sync.Once] makes it idempotent. *)
Definition close_conn (c : conn) : conn :=
  mkConn (c_key c) (c_send c) true (c_live c) (c_written c).

Definition push (e : Envelope) (c : conn) : conn :=
  mkConn (c_key c) (c_send c ++ [e]) (c_closed c) (c_live c) (c_written c).

Definition retire_conn (c : conn) : conn :=
  mkConn (c_key c) (c_send c) true false (c_written c).

Section Handlers.
Context `{WGKeys}.

(** [awaitHello] on the first frame ([None]: the read or the decoding failed). *)
Definition awaitHello (frame : option Envelope) : option string :=
  match frame with
  | None => None
  | Some e =>
      if String.eqb (e_kind e) KindHello
      then match ParseKey (e_from e) with Some k => Some (KeyString k) | None => None end
      else None
  end.

(** [register]: the newest socket takes the key, the earlier one is closed. *)
Definition register (id : nat) (key : string) (s : Server) : Server :=
  let s' := mkServer (<[key := id]> (peers s)) (conns s) (nextId s) (blocked s) in
  match peers s !! key with
  | Some old => upd_conn close_conn old s'
  | None => s'
  end.

(** [serve] up to the start of its read loop. *)
Definition serve (frame : option Envelope) (s : Server) : Server :=
  match awaitHello frame with
  | None => s
  | Some key =>
      let id := nextId s in
      register id key
        (mkServer (peers s) (<[id := mkConn key [] false true []]> (conns s)) (S id) (blocked s))
  end.

(** [Handler]: a request that is no websocket gets no further. *)
Definition Handler (accepted : bool) (frame : option Envelope) (s : Server) : Server :=
  if accepted then serve frame s else s.

(** [short], for the log. *)
Definition short (key : string) : string :=
  if (String.length key <=? 8)%nat then key else String.substring 0 8 key.

(** [unregister]: the entry goes only if it is still this socket's. *)
Definition unregister (id : nat) (key : string) (s : Server) : Server :=
  let ps := if bool_decide (peers s !! key = Some id) then delete key (peers s) else peers s in
  upd_conn retire_conn id (mkServer ps (conns s) (nextId s) (blocked s)).

(** [route]: which socket is handed which envelope. *)
Definition route (s : Server) (e : Envelope) : option (nat * Envelope) :=
  match peers s !! e_to e with
  | Some dst => Some (dst, e)
  | None =>
      match peers s !! e_from e with
      | Some src => Some (src, mkEnvelope KindOffline (e_to e) (e_from e) [])
      | None => None
      end
  end.

(** The first [select] of [enqueue] on the socket [c]; [pick] chooses between a
    free slot and a closed socket when both are ready.  [None] falls through to
    the wait. *)
Definition enqueueNow (c : conn) (e : Envelope) (pick : bool) : option conn :=
  let room := (length (c_send c) <? sendQueue)%nat in
  match room, c_closed c with
  | true, true => Some (if pick then push e c else c)
  | true, false => Some (push e c)
  | false, true => Some c
  | false, false => None
  end.

(** How the second [select] ends. *)
Inductive wake : Type := WSpace | WClosed | WTimer.

Definition enqueueWake (c : conn) (e : Envelope) (w : wake) : option conn :=
  match w with
  | WSpace => if (length (c_send c) <? sendQueue)%nat then Some (push e c) else None
  | WClosed => if c_closed c then Some c else None
  | WTimer => Some (close_conn c)
  end.

(** What can happen next. *)
Inductive event : Type :=
| EConnect (hello : option Envelope)
| EFrame (id : nat) (frame : option Envelope) (pick : bool)
| EResume (id : nat) (w : wake)
| EWrite (id : nat) (ok : bool)
| EPingFailed (id : nat)
| EReadFailed (id : nat).

(** One turn of [readLoop]: the sender's name is the socket's, not the frame's.
    [route] looks the socket up under the lock of the server and [enqueue] tries it
    after; here nothing comes between the two. *)
Definition readFrame (id : nat) (c : conn) (e : Envelope) (pick : bool) (s : Server) : Server :=
  let e := mkEnvelope (e_kind e) (c_key c) (e_to e) (e_body e) in
  match route s e with
  | None => s
  | Some (dst, e') =>
      match conns s !! dst with
      | None => s
      | Some d =>
          match enqueueNow d e' pick with
          | Some d' => upd_conn (fun _ => d') dst s
          | None => mkServer (peers s) (conns s) (nextId s) (<[id := (dst, e')]> (blocked s))
          end
      end
  end.

(** One turn of [writeLoop] on a non-empty queue. *)
Definition writeOne (c : conn) (ok : bool) : option conn :=
  if c_closed c then None
  else match c_send c with
       | [] => None
       | e :: q => Some (if ok then mkConn (c_key c) q false (c_live c) (c_written c ++ [e])
                         else close_conn (mkConn (c_key c) q false (c_live c) (c_written c)))
       end.

(** One failed turn of [pingLoop], which has stopped if the socket is closed. *)
Definition pingFailed (c : conn) : option conn := if c_closed c then None else Some (close_conn c).

(** [None]: the event cannot happen in this state. *)
Definition step (s : Server) (ev : event) : option Server :=
  match ev with
  | EConnect hello => Some (serve hello s)
  | EFrame id frame pick =>
      c ← conns s !! id;
      if negb (c_live c) || bool_decide (is_Some (blocked s !! id)) then None
      else match frame with
           | None => Some s
           | Some e => Some (readFrame id c e pick s)
           end
  | EResume id w =>
      '(dst, e) ← blocked s !! id;
      d ← conns s !! dst;
      d' ← enqueueWake d e w;
      Some (upd_conn (fun _ => d') dst
             (mkServer (peers s) (conns s) (nextId s) (delete id (blocked s))))
  | EWrite id ok =>
      c ← conns s !! id; c' ← writeOne c ok; Some (upd_conn (fun _ => c') id s)
  | EPingFailed id =>
      c ← conns s !! id; c' ← pingFailed c; Some (upd_conn (fun _ => c') id s)
  | EReadFailed id =>
      c ← conns s !! id;
      if negb (c_live c) || bool_decide (is_Some (blocked s !! id)) then None
      else Some (unregister id (c_key c) s)
  end.

Inductive reachable : Server -> Prop :=
| reach_init : reachable NewServer
| reach_step s ev s' : reachable s -> step s ev = Some s' -> reachable s'.

(** ** The invariant *)

(** An envelope may sit in, or have left through, the socket of [key]: it is
    addressed to [key], and its sender is the name under which a socket said
    hello, or it is the server's own notice. *)
Definition genuine (s : Server) (key : string) (e : Envelope) : Prop :=
  e_to e = key /\
  ((exists id c, conns s !! id = Some c /\ c_key c = e_from e) \/
   (e_kind e = KindOffline /\ e_body e = [])).

Record conn_ok (s : Server) (id : nat) (c : conn) : Prop := {
  co_fresh : (id < nextId s)%nat;
  co_key : exists k, ParseKey (c_key c) = Some k /\ c_key c = KeyString k;
  co_queue : (length (c_send c) <= sendQueue)%nat;
  co_genuine : Forall (genuine s (c_key c)) (c_written c ++ c_send c) }.

Record Inv (s : Server) : Prop := {
  inv_conns : forall id c, conns s !! id = Some c -> conn_ok s id c;
  inv_peers : forall k id, peers s !! k = Some id ->
    exists c, conns s !! id = Some c /\ c_key c = k /\ c_live c = true;
  inv_blocked : forall i d e, blocked s !! i = Some (d, e) ->
    exists c, conns s !! d = Some c /\ genuine s (c_key c) e }.

(** [s'] still has every socket of [s], under the same name. *)
Definition names_kept (s s' : Server) : Prop :=
  forall id c, conns s !! id = Some c -> exists c', conns s' !! id = Some c' /\ c_key c' = c_key c.

Lemma genuine_mono s s' key e : names_kept s s' -> genuine s key e -> genuine s' key e.
Proof.
  intros Hk [Ht [(id & c & Hc & Hf)|?]]; split; auto. left.
  destruct (Hk id c Hc) as (c' & ? & ?). exists id, c'. split; congruence.
Qed.

Lemma names_kept_alter s f id :
  (forall c, conns s !! id = Some c -> c_key (f c) = c_key c) -> names_kept s (upd_conn f id s).
Proof.
  intros Hf i c Hc. simpl. rewrite lookup_alter. case_decide as E; [subst|eauto].
  rewrite Hc. simpl. eauto.
Qed.

(** Changing one socket keeps the invariant when the socket stays well formed
    and keeps its name and liveness. *)
Lemma Inv_upd s f id :
  Inv s ->
  (forall c, conns s !! id = Some c ->
     c_key (f c) = c_key c /\ c_live (f c) = c_live c /\
     (length (c_send (f c)) <= sendQueue)%nat /\
     Forall (genuine s (c_key c)) (c_written (f c) ++ c_send (f c))) ->
  Inv (upd_conn f id s).
Proof.
  intros [H1 H2 H3] Hf.
  assert (Hk : names_kept s (upd_conn f id s)) by (apply names_kept_alter; intros; by apply Hf).
  split; simpl.
  - intros i c. rewrite lookup_alter. case_decide as E; [subst i|].
    + destruct (conns s !! id) as [c0|] eqn:E0; [|done]. simpl. intros [= <-].
      destruct (Hf c0 eq_refl) as (Hkey & _ & Hq & Hg). destruct (H1 id c0 E0) as [? ? _ _].
      split; rewrite ?Hkey; auto. eapply Forall_impl; [exact Hg|]. intros. by eapply genuine_mono.
    + intros Hc. destruct (H1 i c Hc) as [? ? ? Hg]. split; auto.
      eapply Forall_impl; [exact Hg|]. intros. by eapply genuine_mono.
  - intros k i Hp. destruct (H2 k i Hp) as (c & Hc & Hck & Hcl). rewrite lookup_alter.
    case_decide as E; [subst i|eauto]. rewrite Hc. simpl. exists (f c).
    destruct (Hf c Hc) as (? & ? & _). split; [done|]. split; congruence.
  - intros i d e Hb. destruct (H3 i d e Hb) as (c & Hc & Hg).
    destruct (Hk d c Hc) as (c' & Hc' & E). exists c'. split; [done|].
    rewrite E. by eapply genuine_mono.
Qed.

(** The invariant does not depend on who is blocked, apart from its last
    clause. *)
Lemma Inv_blocked s b :
  Inv s -> (forall i d e, b !! i = Some (d, e) ->
    exists c, conns s !! d = Some c /\ genuine s (c_key c) e) ->
  Inv (mkServer (peers s) (conns s) (nextId s) b).
Proof.
  intros [H1 H2 H3] Hb. split; simpl; [|done|done].
  intros id c Hc. destruct (H1 id c Hc) as [? ? ? Hg]. by split.
Qed.

Lemma Inv_peers s ps :
  Inv s -> (forall k id, ps !! k = Some id ->
    exists c, conns s !! id = Some c /\ c_key c = k /\ c_live c = true) ->
  Inv (mkServer ps (conns s) (nextId s) (blocked s)).
Proof.
  intros [H1 H2 H3] Hp. split; simpl; [|done|done].
  intros id c Hc. destruct (H1 id c Hc) as [? ? ? Hg]. by split.
Qed.

Lemma Inv_init : Inv NewServer.
Proof. split; intros *; simpl; rewrite lookup_empty; done. Qed.

Lemma close_same s id : Inv s -> Inv (upd_conn close_conn id s).
Proof.
  intros HI. apply Inv_upd; [done|]. intros c Hc. simpl.
  destruct (inv_conns _ HI id c Hc). done.
Qed.

Lemma Inv_fresh s id : Inv s -> (nextId s <= id)%nat -> conns s !! id = None.
Proof.
  intros HI Hle. destruct (conns s !! id) as [c|] eqn:E; [|done].
  destruct (inv_conns _ HI id c E). lia.
Qed.

Lemma Inv_serve s frame : Inv s -> Inv (serve frame s).
Proof.
  intros HI. unfold serve. destruct (awaitHello frame) as [key|] eqn:Eh; [|done].
  set (id := nextId s). set (c0 := mkConn key [] false true []).
  set (s1 := mkServer (peers s) (<[id := c0]> (conns s)) (S id) (blocked s)).
  pose proof (Inv_fresh s id HI (Nat.le_refl _)) as Hfresh.
  assert (Hk : names_kept s s1).
  { intros i c Hc. exists c. split; [|done]. simpl. rewrite lookup_insert_ne; congruence. }
  assert (Hkey : exists k, ParseKey key = Some k /\ key = KeyString k).
  { unfold awaitHello in Eh. destruct frame as [e|]; [|done].
    destruct (String.eqb _ _); [|done]. destruct (ParseKey (e_from e)) as [k|] eqn:Ek; [|done].
    injection Eh as <-. exists k. split; [by eapply ParseKey_normal|done]. }
  assert (HI1 : Inv s1).
  { destruct HI as [H1 H2 H3]. split; simpl.
    - intros i c. rewrite lookup_insert. case_decide as E; [subst i; intros [= <-]|].
      + split; simpl; auto; unfold sendQueue; lia.
      + intros Hc. destruct (H1 i c Hc) as [? ? ? Hg]. split; simpl; auto; try lia.
        eapply Forall_impl; [exact Hg|]. intros. by eapply genuine_mono.
    - intros k i Hp. destruct (H2 k i Hp) as (c & Hc & ?). exists c.
      rewrite lookup_insert_ne; [done|congruence].
    - intros i d e Hb. destruct (H3 i d e Hb) as (c & Hc & Hg). exists c.
      split; [rewrite lookup_insert_ne; [done|congruence]|]. by eapply genuine_mono. }
  assert (HI2 : Inv (mkServer (<[key := id]> (peers s)) (conns s1) (S id) (blocked s))).
  { apply (Inv_peers s1 (<[key := id]> (peers s)) HI1). intros k i. rewrite lookup_insert.
    case_decide as E; [intros [= <-]|intros; by apply (inv_peers _ HI1)].
    exists c0. simpl. rewrite lookup_insert_eq. done. }
  unfold register. change (peers s1) with (peers s).
  destruct (peers s !! key); [by apply close_same|done].
Qed.

Lemma Inv_unregister s id c : Inv s -> conns s !! id = Some c -> Inv (unregister id (c_key c) s).
Proof.
  intros HI Hc. unfold unregister.
  assert (HI1 : Inv (mkServer
    (if bool_decide (peers s !! c_key c = Some id) then delete (c_key c) (peers s) else peers s)
    (conns s) (nextId s) (blocked s))).
  { apply Inv_peers; [done|]. intros k i Hp. apply (inv_peers _ HI).
    case_bool_decide; [|done]. by apply lookup_delete_Some in Hp as [_ ?]. }
  (* the retired socket is no longer anybody's entry *)
  assert (Hno : forall k, (if bool_decide (peers s !! c_key c = Some id)
             then delete (c_key c) (peers s) else peers s) !! k <> Some id).
  { intros k Hp. case_bool_decide as Hb.
    - apply lookup_delete_Some in Hp as [Hne Hp].
      destruct (inv_peers _ HI k id Hp) as (c' & Hc' & Hk' & _). congruence.
    - destruct (inv_peers _ HI k id Hp) as (c' & Hc' & Hk' & _). congruence. }
  destruct HI1 as [H1 H2 H3].
  set (s1 := mkServer _ _ _ _) in *.
  assert (Hk : names_kept s1 (upd_conn retire_conn id s1)) by (by apply names_kept_alter).
  split; simpl.
  - intros i c'. destruct (decide (id = i)) as [<-|E];
      [rewrite lookup_alter_eq, Hc; intros [= <-]|rewrite lookup_alter_ne by done].
    + destruct (H1 id c Hc) as [? ? ? Hg]. split; auto.
      eapply Forall_impl; [exact Hg|]. intros. by eapply genuine_mono.
    + intros Hc'. destruct (H1 i c' Hc') as [? ? ? Hg]. split; auto.
      eapply Forall_impl; [exact Hg|]. intros. by eapply genuine_mono.
  - intros k i Hp. destruct (H2 k i Hp) as (c' & Hc' & ? & ?). exists c'.
    rewrite lookup_alter_ne; [done|]. intros ->. by apply (Hno k).
  - intros i d e Hb. destruct (H3 i d e Hb) as (c' & Hc' & Hg).
    destruct (Hk d c' Hc') as (c2 & Hc2 & E). exists c2. split; [done|].
    rewrite E. by eapply genuine_mono.
Qed.

Lemma route_genuine s id c e dst e' :
  Inv s -> conns s !! id = Some c -> e_from e = c_key c -> route s e = Some (dst, e') ->
  exists d, conns s !! dst = Some d /\ genuine s (c_key d) e'.
Proof.
  intros HI Hc Hf. unfold route. destruct (peers s !! e_to e) as [x|] eqn:E1.
  - intros [= <- <-]. destruct (inv_peers _ HI _ _ E1) as (d & Hd & Hk & _).
    exists d. split; [done|]. split; [done|]. left. by exists id, c.
  - destruct (peers s !! e_from e) as [x|] eqn:E2; [|done]. intros [= <- <-].
    destruct (inv_peers _ HI _ _ E2) as (d & Hd & Hk & _).
    exists d. split; [done|]. split; [done|]. by right.
Qed.

Lemma push_ok s id d e d' :
  Inv s -> conns s !! id = Some d -> genuine s (c_key d) e ->
  (length (c_send d) < sendQueue)%nat -> d' = push e d ->
  c_key d' = c_key d /\ c_live d' = c_live d /\ (length (c_send d') <= sendQueue)%nat /\
  Forall (genuine s (c_key d)) (c_written d' ++ c_send d').
Proof.
  intros HI Hd Hg Hlt ->. destruct (inv_conns _ HI id d Hd) as [_ _ _ Hall]. simpl.
  splits; [rewrite length_app; simpl; lia|]. rewrite app_assoc. apply Forall_app. auto.
Qed.

Lemma same_ok s id d : Inv s -> conns s !! id = Some d ->
  c_key d = c_key d /\ c_live d = c_live d /\ (length (c_send d) <= sendQueue)%nat /\
  Forall (genuine s (c_key d)) (c_written d ++ c_send d).
Proof. intros HI Hd. by destruct (inv_conns _ HI id d Hd). Qed.

Lemma enqueueNow_ok s id d e pick d' :
  Inv s -> conns s !! id = Some d -> genuine s (c_key d) e ->
  enqueueNow d e pick = Some d' -> Inv (upd_conn (fun _ => d') id s).
Proof.
  intros HI Hd Hg Hq. apply Inv_upd; [done|]. intros c Hc. simplify_eq.
  unfold enqueueNow in Hq. destruct (Nat.ltb_spec (length (c_send d)) sendQueue);
    destruct (c_closed d); try destruct pick; simplify_eq;
    eauto using push_ok, same_ok.
Qed.

Lemma Inv_readFrame s id c e pick :
  Inv s -> conns s !! id = Some c -> Inv (readFrame id c e pick s).
Proof.
  intros HI Hc. unfold readFrame. set (e1 := mkEnvelope _ _ _ _).
  destruct (route s e1) as [[dst e']|] eqn:Er; [|done].
  destruct (route_genuine s id c e1 dst e' HI Hc eq_refl Er) as (d & Hd & Hg). rewrite Hd.
  destruct (enqueueNow d e' pick) as [d'|] eqn:Eq; [by eapply enqueueNow_ok|].
  apply Inv_blocked; [done|]. intros i x y. rewrite lookup_insert.
  case_decide; [intros [= <- <-]; eauto|apply (inv_blocked _ HI)].
Qed.

Lemma Inv_step s ev s' : Inv s -> step s ev = Some s' -> Inv s'.
Proof.
  intros HI. destruct ev as [hello|id frame pick|id w|id ok|id|id]; simpl.
  - intros [= <-]. by apply Inv_serve.
  - destruct (conns s !! id) as [c|] eqn:Hc; simpl; [|done]. destruct (_ || _); [done|].
    destruct frame; intros [= <-]; [by apply Inv_readFrame|done].
  - destruct (blocked s !! id) as [[dst e]|] eqn:Hb; simpl; [|done].
    destruct (conns s !! dst) as [d|] eqn:Hd; simpl; [|done].
    destruct (enqueueWake d e w) as [d'|] eqn:Ew; simpl; [|done]. intros [= <-].
    destruct (inv_blocked _ HI _ _ _ Hb) as (d0 & Hd0 & Hg).
    assert (d0 = d) as -> by congruence.
    set (s1 := mkServer _ _ _ _).
    assert (HI1 : Inv s1).
    { apply Inv_blocked; [done|]. intros i x y [_ Hx]%lookup_delete_Some.
      by eapply inv_blocked. }
    assert (Hg1 : genuine s1 (c_key d) e) by exact Hg.
    apply Inv_upd; [done|]. intros c Hc. assert (c = d) as -> by (simpl in Hc; congruence).
    destruct w; simpl in Ew.
    + destruct (Nat.ltb_spec (length (c_send d)) sendQueue); [|done].
      eapply push_ok; try done. by injection Ew.
    + destruct (c_closed d); [|done]. injection Ew as <-. by eapply same_ok.
    + injection Ew as <-. destruct (same_ok s1 dst d HI1 Hc) as (_ & _ & ? & ?). by splits.
  - destruct (conns s !! id) as [c|] eqn:Hc; simpl; [|done].
    destruct (writeOne c ok) as [c'|] eqn:Ew; simpl; [|done]. intros [= <-].
    apply Inv_upd; [done|]. intros c1 Hc1. simplify_eq.
    destruct (inv_conns _ HI id c Hc) as [_ _ Hq Hg]. unfold writeOne in Ew.
    destruct (c_closed c); [done|]. destruct (c_send c) as [|e q]; [done|].
    simpl in Hq. apply Forall_app in Hg as [Hg1 Hg2]. apply Forall_cons in Hg2 as [Hg2 Hg3].
    destruct ok; simplify_eq; simpl; splits; try lia; repeat (apply Forall_app; split); auto.
  - destruct (conns s !! id) as [c|] eqn:Hc; simpl; [|done]. unfold pingFailed.
    destruct (c_closed c); [done|]. intros [= <-]. apply Inv_upd; [done|]. intros c1 Hc1. simplify_eq.
    by destruct (inv_conns _ HI id c Hc).
  - destruct (conns s !! id) as [c|] eqn:Hc; simpl; [|done]. destruct (_ || _); [done|].
    intros [= <-]. by apply Inv_unregister.
Qed.

Lemma reachable_Inv s : reachable s -> Inv s.
Proof. induction 1; eauto using Inv_init, Inv_step. Qed.

(** ** Properties *)

(** C6: in every reachable state, whatever has been written to a socket or
    waits in its queue is addressed to the key that socket registered, and
    carries as its sender a name some socket said hello with — never one a
    frame made up — unless it is the server's own offline notice, whose body is
    empty; and no queue ever holds more than [sendQueue] envelopes. *)
Theorem queued_genuine s id c :
  reachable s -> conns s !! id = Some c ->
  Forall (genuine s (c_key c)) (c_written c ++ c_send c) /\
  (length (c_send c) <= sendQueue)%nat.
Proof. intros Hr Hc. by destruct (inv_conns _ (reachable_Inv _ Hr) _ _ Hc). Qed.

(** C9: the newest registration of a key owns it: the earlier socket is closed,
    and when the earlier socket's reader ends afterwards, unregistering it does
    not unregister the newer one. *)
Theorem newest_registration_wins s hello key old c s' s'' :
  reachable s -> awaitHello hello = Some key -> peers s !! key = Some old ->
  step s (EConnect hello) = Some s' ->
  step s' (EReadFailed old) = Some s'' ->
  conns s' !! old = Some c ->
  c_closed c = true /\ peers s' !! key = Some (nextId s) /\ peers s'' !! key = Some (nextId s).
Proof.
  intros Hr%reachable_Inv Hh Hold Hs1 Hs2 Hc. simpl in Hs1. unfold serve, register in Hs1.
  rewrite Hh in Hs1. simpl in Hs1. rewrite Hold in Hs1. injection Hs1 as <-.
  destruct (inv_peers _ Hr _ _ Hold) as (c0 & Hc0 & Hck & _).
  assert (Hne : old <> nextId s) by (pose proof (co_fresh _ _ _ (inv_conns _ Hr _ _ Hc0)); lia).
  simpl in *. rewrite lookup_alter_eq, lookup_insert_ne, Hc0 in * by done. simpl in *.
  injection Hc as <-. splits; [by rewrite lookup_insert_eq|].
  destruct (_ || _) in Hs2; [done|]. injection Hs2 as <-. unfold unregister. simpl.
  rewrite Hck, lookup_insert_eq.
  rewrite bool_decide_false by congruence. by rewrite lookup_insert_eq.
Qed.

(** no envelope for a registered, open socket is dropped in silence: when
    its frame is read it is appended to the socket's queue under the sender's
    registered name, or, the queue being full, its reader waits holding it; and
    every way that wait can end either appends the envelope or leaves the
    socket closed. *)
Theorem never_dropped_silently s :
  (forall id c e pick dst d s',
     conns s !! id = Some c -> peers s !! e_to e = Some dst -> conns s !! dst = Some d ->
     c_closed d = false -> step s (EFrame id (Some e) pick) = Some s' ->
     let e' := mkEnvelope (e_kind e) (c_key c) (e_to e) (e_body e) in
     conns s' !! dst = Some (push e' d) \/
     ((sendQueue <= length (c_send d))%nat /\ blocked s' !! id = Some (dst, e'))) /\
  (forall id w dst e d s',
     blocked s !! id = Some (dst, e) -> conns s !! dst = Some d ->
     step s (EResume id w) = Some s' ->
     blocked s' !! id = None /\
     (conns s' !! dst = Some (push e d) \/
      exists d', conns s' !! dst = Some d' /\ c_closed d' = true)).
Proof.
  split.
  - intros id c e pick dst d s' Hc Hp Hd Hopen Hs e'. simpl in Hs. rewrite Hc in Hs. simpl in Hs.
    destruct (_ || _); [done|]. injection Hs as <-. unfold readFrame, route. simpl. rewrite Hp, Hd.
    unfold enqueueNow. rewrite Hopen.
    destruct (Nat.ltb_spec (length (c_send d)) sendQueue); simpl.
    + left. by rewrite lookup_alter_eq, Hd.
    + right. by rewrite lookup_insert_eq.
  - intros id w dst e d s' Hb Hd Hs. simpl in Hs. rewrite Hb in Hs. simpl in Hs.
    rewrite Hd in Hs. simpl in Hs.
    destruct (enqueueWake d e w) as [d'|] eqn:Ew; simpl in Hs; [|done]. injection Hs as <-.
    simpl. rewrite lookup_delete_eq, lookup_alter_eq, Hd. simpl. split; [done|].
    destruct w; simpl in Ew.
    + destruct (_ <? _)%nat; [|done]. injection Ew as <-. by left.
    + destruct (c_closed d) eqn:E; [|done]. injection Ew as <-. right. eauto.
    + injection Ew as <-. right. eauto.
Qed.

(** an envelope for a key nobody holds is answered, to the sender it came
    from and to nobody else, with an offline notice naming the missing peer. *)
Theorem unknown_peer_answered s id c e pick s' :
  reachable s -> conns s !! id = Some c -> peers s !! c_key c = Some id ->
  peers s !! e_to e = None -> c_closed c = false -> (length (c_send c) < sendQueue)%nat ->
  step s (EFrame id (Some e) pick) = Some s' ->
  conns s' = <[id := push (mkEnvelope KindOffline (e_to e) (c_key c) []) c]> (conns s) /\
  peers s' = peers s.
Proof.
  intros Hr Hc Hp Hto Hopen Hroom Hs. simpl in Hs. rewrite Hc in Hs. simpl in Hs.
  destruct (_ || _); [done|]. injection Hs as <-.
  unfold readFrame, route. simpl. rewrite Hto, Hp, Hc. unfold enqueueNow. rewrite Hopen.
  destruct (Nat.ltb_spec (length (c_send c)) sendQueue); [|lia]. simpl. split; [|done].
  apply map_eq. intros i. rewrite lookup_insert, lookup_alter. case_decide; subst; [|done].
  by rewrite Hc.
Qed.

End Handlers.

(** ** Witnesses *)

Definition exHello (n : Z) : option Envelope :=
  Some (mkEnvelope KindHello (hexEncode (exKey n)) "" []).

(** Machines 1 and 2 connected, and machine 1's socket replaced by a newer one. *)
Definition exTwo : Server := serve (exHello 2) (serve (exHello 1) NewServer).
Definition exThree : Server := serve (exHello 1) exTwo.

Lemma exTwo_reachable : reachable exTwo.
Proof.
  apply (reach_step (serve (exHello 1) NewServer) (EConnect (exHello 2))); [|reflexivity].
  apply (reach_step NewServer (EConnect (exHello 1))); [constructor|reflexivity].
Qed.

Definition exOffer : Envelope :=
  mkEnvelope KindOffer (hexEncode (exKey 9)) (hexEncode (exKey 2)) [Byte.x01].
Definition exToNobody : Envelope :=
  mkEnvelope KindOffer (hexEncode (exKey 9)) (hexEncode (exKey 7)) [Byte.x01].

(** The frame claims to come from machine 9; what is queued comes from 1. *)
Definition exRouted : Server :=
  readFrame 0 (mkConn (hexEncode (exKey 1)) [] false true []) exOffer true exTwo.

Lemma queued_genuine_witness :
  exists c, conns exRouted !! 1%nat = Some c /\
    c_send c = [mkEnvelope KindOffer (hexEncode (exKey 1)) (hexEncode (exKey 2)) [Byte.x01]] /\
    Forall (genuine exRouted (c_key c)) (c_written c ++ c_send c).
Proof.
  eexists. split; [vm_compute; reflexivity|]. split; [vm_compute; reflexivity|].
  apply (queued_genuine exRouted 1); [|vm_compute; reflexivity].
  apply (reach_step exTwo (EFrame 0 (Some exOffer) true)); [exact exTwo_reachable|].
  vm_compute. reflexivity.
Defined.

Lemma newest_registration_wins_witness :
  exists s'', step exThree (EReadFailed 0) = Some s'' /\
    peers s'' !! hexEncode (exKey 1) = Some 2%nat.
Proof.
  eexists. split; [reflexivity|].
  refine (proj2 (proj2 (newest_registration_wins exTwo (exHello 1) (hexEncode (exKey 1)) 0
    (mkConn (hexEncode (exKey 1)) [] true true []) exThree _ exTwo_reachable _ _ _ _ _)));
    try (vm_compute; reflexivity).
Defined.

Lemma never_dropped_silently_witness :
  exists d', conns exRouted !! 1%nat = Some d' /\ length (c_send d') = 1%nat.
Proof.
  pose proof (proj1 (never_dropped_silently exTwo) 0%nat
    (mkConn (hexEncode (exKey 1)) [] false true []) exOffer true 1%nat
    (mkConn (hexEncode (exKey 2)) [] false true []) exRouted
    ltac:(vm_compute; reflexivity) ltac:(vm_compute; reflexivity)
    ltac:(vm_compute; reflexivity) eq_refl ltac:(vm_compute; reflexivity)) as [E|[E _]].
  - eexists. split; [exact E|reflexivity].
  - exfalso. revert E. simpl. unfold sendQueue. lia.
Defined.

Lemma unknown_peer_answered_witness :
  exists s', step exTwo (EFrame 0 (Some exToNobody) true) = Some s' /\ peers s' = peers exTwo.
Proof.
  eexists. split; [reflexivity|].
  refine (proj2 (unknown_peer_answered exTwo 0 (mkConn (hexEncode (exKey 1)) [] false true [])
    exToNobody true _ exTwo_reachable _ _ _ _ _ _)); try (vm_compute; reflexivity).
  simpl. unfold sendQueue. lia.
Defined.

End SignalServer.
