(* ===== verification/SignalOrder.v ===== *)
(** * The order of what the switchboard passes on (internal/signal/server.go).

    Readers, blocked enqueues and writers interleave as [SignalServer] says.
    Here a run is compared with what each reader decided to hand to each socket:
    between two sockets nothing is invented, repeated or reordered, and nothing
    is lost while the receiving socket is open. *)
From S2P Require Import Prelude GoStrings Keys SignalProto SignalServer.
Import SignalProto.SignalProto.

Module SignalOrder.
Import SignalServer.SignalServer.

Section Order.
Context `{WGKeys}.

Fixpoint serverSteps (s : Server) (es : list event) : option Server :=
  match es with [] => Some s | e :: es => s' ← step s e; serverSteps s' es end.

(** What a step decides to hand on: the reader, the socket it goes to, and the
    envelope under the reader's name. *)
Definition hands (s : Server) (ev : event) : option (nat * nat * Envelope) :=
  match ev with
  | EFrame i (Some e) _ =>
      c ← conns s !! i;
      '(j, e') ← route s (mkEnvelope (e_kind e) (c_key c) (e_to e) (e_body e));
      Some (i, j, e')
  | _ => None
  end.

(** Everything handed on in a run, oldest first. *)
Fixpoint handed (s : Server) (es : list event) : list (nat * nat * Envelope) :=
  match es with
  | [] => []
  | ev :: es =>
      match step s ev with
      | Some s' => match hands s ev with Some x => x :: handed s' es | None => handed s' es end
      | None => []
      end
  end.

(** What reader [i] handed to socket [j]; what of a tagged queue came from [i];
    what [i] still holds for [j]. *)
Definition sentTo (i j : nat) (h : list (nat * nat * Envelope)) : list Envelope :=
  omap (fun x => if decide (x.1 = (i, j)) then Some x.2 else None) h.
Definition from (i : nat) (q : list (nat * Envelope)) : list Envelope :=
  omap (fun x => if decide (x.1 = i) then Some x.2 else None) q.
Definition held (i j : nat) (s : Server) : list Envelope :=
  match blocked s !! i with Some (d, e) => if decide (d = j) then [e] else [] | None => [] end.

(** [q] is what the socket [j] was given, each envelope with its reader. *)
Record fits (s : Server) (h : list (nat * nat * Envelope)) (j : nat) (c : conn) (q : list (nat * Envelope)) : Prop := {
  ft_written : c_written c `prefix_of` q.*2;
  ft_order : forall i, from i q ++ held i j s `sublist_of` sentTo i j h;
  ft_open : c_closed c = false ->
    c_written c ++ c_send c = q.*2 /\ forall i, from i q ++ held i j s = sentTo i j h }.

Record Ordered (s : Server) (h : list (nat * nat * Envelope)) : Prop := {
  or_fits : forall j c, conns s !! j = Some c -> exists q, fits s h j c q;
  or_known : forall x, x ∈ h -> is_Some (conns s !! x.1.2) }.

(** ** Lists *)

Lemma from_app i q q' : from i (q ++ q') = from i q ++ from i q'.
Proof. apply omap_app. Qed.

Lemma from_one i i' e : from i [(i', e)] = if decide (i' = i) then [e] else [].
Proof. unfold from. simpl. by case_decide. Qed.

Lemma sentTo_app i j h h' : sentTo i j (h ++ h') = sentTo i j h ++ sentTo i j h'.
Proof. apply omap_app. Qed.

Lemma sentTo_one i j i' j' e : sentTo i j [(i', j', e)] = if decide ((i', j') = (i, j)) then [e] else [].
Proof. unfold sentTo. simpl. by case_decide. Qed.

Lemma sentTo_nil i j h : (forall x, x ∈ h -> x.1.2 <> j) -> sentTo i j h = [].
Proof.
  induction h as [|[[i' j'] e] h IH]; intros Hh; [done|]. change ((i', j', e) :: h) with ([(i', j', e)] ++ h).
  rewrite sentTo_app, sentTo_one, IH by (intros; apply Hh; set_solver). rewrite decide_False; [done|].
  intros [= _ ->]. by apply (Hh (i', j, e)); [set_solver|].
Qed.

(** A step that leaves a socket what it was, or closes it. *)
Lemma fits_same s s' h j c c' q :
  fits s h j c q -> c_written c' = c_written c -> c_send c' = c_send c -> (c_closed c' = false -> c_closed c = false) ->
  (forall i, held i j s' = held i j s) -> fits s' h j c' q.
Proof.
  intros [H1 H2 H3] Ew Es Ec Eh. split; rewrite ?Ew, ?Es; [done|intros i; by rewrite Eh|].
  intros Hc. destruct (H3 (Ec Hc)) as [? ?]. split; [done|]. intros i. by rewrite Eh.
Qed.

(** A socket that is closed, or in the middle of being closed, may lose what is
    still held for it. *)
Lemma fits_lose s s' h j c c' q :
  fits s h j c q -> c_written c' = c_written c -> c_closed c' = true ->
  (forall i, held i j s' `sublist_of` held i j s) -> fits s' h j c' q.
Proof.
  intros [H1 H2 H3] Ew Ec Eh. split; rewrite ?Ew; [done| |congruence].
  intros i. etransitivity; [|apply H2]. by apply sublist_app.
Qed.

(** What is handed to another socket does not concern this one. *)
Lemma fits_elsewhere s h j c q x : fits s h j c q -> x.1.2 <> j -> fits s (h ++ [x]) j c q.
Proof.
  destruct x as [[i' j'] e]. simpl. intros [H1 H2 H3] Hne.
  assert (E : forall i, sentTo i j (h ++ [(i', j', e)]) = sentTo i j h).
  { intros i. rewrite sentTo_app, sentTo_one, decide_False, app_nil_r; [done|]. intros [= _ ->]. done. }
  split; [done|intros i; by rewrite E|]. intros Hc. destruct (H3 Hc). split; [done|]. intros i. by rewrite E.
Qed.

(** ** Steps *)

Lemma held_None i j s : blocked s !! i = None -> held i j s = [].
Proof. unfold held. by intros ->. Qed.

(** A reader that holds nothing puts an envelope into the queue. *)
Lemma fits_push s h i j c q e :
  fits s h j c q -> held i j s = [] -> fits s (h ++ [(i, j, e)]) j (push e c) (q ++ [(i, e)]).
Proof.
  intros [H1 H2 H3] Hb.
  assert (Hi : forall k, sentTo k j (h ++ [(i, j, e)]) = sentTo k j h ++ from k [(i, e)]).
  { intros k. rewrite sentTo_app, sentTo_one, from_one. destruct (decide (i = k)) as [->|Hne].
    - by rewrite decide_True.
    - rewrite decide_False; [done|]. by intros [= ->]. }
  assert (Hk : forall k, from k (q ++ [(i, e)]) ++ held k j s = (from k q ++ held k j s) ++ from k [(i, e)]).
  { intros k. rewrite from_app, from_one. destruct (decide (i = k)) as [->|]; [by rewrite Hb, !app_nil_r|by rewrite !app_nil_r]. }
  split; simpl.
  - rewrite fmap_app. by apply prefix_app_r.
  - intros k. rewrite Hk, Hi. by apply sublist_app.
  - intros Hc. destruct (H3 Hc) as [E1 E2]. split; [by rewrite fmap_app, app_assoc, E1|]. intros k. by rewrite Hk, Hi, E2.
Qed.

(** A reader whose wait ended puts what it held into the queue. *)
Lemma fits_resume s s' h i j c q e :
  fits s h j c q -> blocked s !! i = Some (j, e) -> (forall k, held k j s' = if decide (k = i) then [] else held k j s) ->
  fits s' h j (push e c) (q ++ [(i, e)]).
Proof.
  intros [H1 H2 H3] Hb Eh.
  assert (Hk : forall k, from k (q ++ [(i, e)]) ++ held k j s' = from k q ++ held k j s).
  { intros k. rewrite from_app, from_one, Eh. destruct (decide (k = i)) as [->|Hne].
    - rewrite decide_True by done. unfold held. rewrite Hb, decide_True by done. by rewrite app_nil_r.
    - rewrite decide_False by done. by rewrite app_nil_r. }
  split; simpl.
  - rewrite fmap_app. by apply prefix_app_r.
  - intros k. by rewrite Hk.
  - intros Hc. destruct (H3 Hc) as [E1 E2]. split; [by rewrite fmap_app, app_assoc, E1|]. intros k. by rewrite Hk.
Qed.

(** A reader whose wait begins. *)
Lemma fits_block s h i j c q e :
  fits s h j c q -> held i j s = [] ->
  fits (mkServer (peers s) (conns s) (nextId s) (<[i := (j, e)]> (blocked s))) (h ++ [(i, j, e)]) j c q.
Proof.
  intros [H1 H2 H3] Hb. set (s' := mkServer _ _ _ _).
  assert (Hk : forall k, exists t, held k j s' = held k j s ++ t /\ sentTo k j (h ++ [(i, j, e)]) = sentTo k j h ++ t).
  { intros k. rewrite sentTo_app, sentTo_one. destruct (decide (i = k)) as [->|Hne].
    - exists [e]. rewrite Hb, decide_True by done. split; [|done]. unfold held, s'. simpl. by rewrite lookup_insert_eq, decide_True.
    - exists []. rewrite app_nil_r. split; [unfold held, s'; simpl; by rewrite lookup_insert_ne|]. rewrite decide_False; [done|]. by intros [= ->]. }
  split; [done| |].
  - intros k. destruct (Hk k) as (t & -> & ->). rewrite app_assoc. by apply sublist_app.
  - intros Hc. destruct (H3 Hc) as [E1 E2]. split; [done|]. intros k. destruct (Hk k) as (t & -> & ->). by rewrite app_assoc, E2.
Qed.

(** A closed socket takes nothing more: what is handed to it is dropped. *)
Lemma fits_drop s h i j c q e :
  fits s h j c q -> c_closed c = true -> fits s (h ++ [(i, j, e)]) j c q.
Proof.
  intros [H1 H2 H3] Hc. split; [done| |congruence].
  intros k. rewrite sentTo_app. apply sublist_inserts_r, H2.
Qed.

(** [s'] is [s] but for the socket [j0], and for what is held for it. *)
Record only_at (j0 : nat) (s s' : Server) : Prop := {
  oa_conns : forall j, j <> j0 -> conns s' !! j = conns s !! j;
  oa_held : forall i j, j <> j0 -> held i j s' = held i j s }.

Lemma fits_only_at s s' h j0 j c q :
  only_at j0 s s' -> j <> j0 -> fits s h j c q -> fits s' h j c q.
Proof. intros [_ Hh] Hne Hf. eapply fits_same; eauto. Qed.

(** The one way a run goes on: a step concerns one socket. *)
Lemma Ordered_at s s' h l j0 :
  Ordered s h -> only_at j0 s s' ->
  (forall x, x ∈ l -> x.1.2 = j0) -> (length l <= 1)%nat ->
  is_Some (conns s' !! j0) ->
  (forall c', conns s' !! j0 = Some c' -> exists q, fits s' (h ++ l) j0 c' q) ->
  Ordered s' (h ++ l).
Proof.
  intros HO Hat Hl Hlen Hsome Hj0. split.
  - intros j c Hc. destruct (decide (j = j0)) as [->|Hne]; [by apply Hj0|].
    rewrite (oa_conns _ _ _ Hat) in Hc by done. destruct (or_fits _ _ HO j c Hc) as [q Hq]. exists q.
    eapply fits_only_at; [done|done|].
    destruct l as [|x [|? ?]]; simpl in Hlen; [by rewrite app_nil_r| |lia].
    apply fits_elsewhere; [done|]. rewrite (Hl x) by set_solver. done.
  - intros x [Hx|Hx]%elem_of_app.
    + destruct (decide (x.1.2 = j0)) as [->|Hne]; [done|]. rewrite (oa_conns _ _ _ Hat) by done. by apply (or_known _ _ HO).
    + by rewrite (Hl x Hx).
Qed.

Lemma only_at_upd f j0 s : only_at j0 s (upd_conn f j0 s).
Proof. split; [|done]. intros j Hne. simpl. by rewrite lookup_alter_ne. Qed.

(** A step that hands nothing on and changes one socket. *)
Lemma Ordered_upd s h j0 f c :
  Ordered s h -> conns s !! j0 = Some c ->
  (forall q, fits s h j0 c q -> exists q', fits (upd_conn f j0 s) h j0 (f c) q') ->
  Ordered (upd_conn f j0 s) h.
Proof.
  intros HO Hc Hf. destruct (or_fits _ _ HO j0 c Hc) as [q Hq].
  rewrite <- (app_nil_r h). apply (Ordered_at s _ h [] j0); [done|apply only_at_upd|set_solver|simpl; lia| |].
  - simpl. rewrite lookup_alter_eq, Hc. by eexists.
  - intros c'. simpl. rewrite lookup_alter_eq, Hc, app_nil_r. simpl. intros [= <-]. eauto.
Qed.

(** Registering: the new socket has been handed nothing yet. *)
Lemma Ordered_serve s h frame : Ordered s h -> Inv s -> Ordered (serve frame s) h.
Proof.
  intros HO HI. unfold serve. destruct (awaitHello frame) as [key|]; [|done].
  pose proof (Inv_fresh s (nextId s) HI (Nat.le_refl _)) as Hfresh.
  set (s1 := mkServer (<[key := nextId s]> (peers s)) (<[nextId s := mkConn key [] false true []]> (conns s)) (S (nextId s)) (blocked s)).
  assert (HO1 : Ordered s1 h).
  { rewrite <- (app_nil_r h). apply (Ordered_at s _ h [] (nextId s)); [done| |set_solver|simpl; lia| |].
    - split; [|done]. intros j Hne. simpl. by rewrite lookup_insert_ne.
    - simpl. rewrite lookup_insert_eq. by eexists.
    - intros c'. simpl. rewrite lookup_insert_eq, app_nil_r. intros [= <-]. exists [].
      assert (Eh : forall i, held i (nextId s) s1 = []).
      { intros i. unfold held. simpl. destruct (blocked s !! i) as [[d e]|] eqn:Eb; [|done].
        destruct (inv_blocked _ HI _ _ _ Eb) as (c & Hc & _). rewrite decide_False; [done|]. intros ->. congruence. }
      assert (Es : forall i, sentTo i (nextId s) h = []).
      { intros i. apply sentTo_nil. intros x Hx Ex. destruct (or_known _ _ HO x Hx) as [c Hc]. congruence. }
      split; simpl; [done|intros i; by rewrite Eh, Es|]. intros _. split; [done|]. intros i. by rewrite Eh, Es. }
  unfold register. change (peers _ !! key) with (peers s !! key). simpl.
  destruct (peers s !! key) as [old|] eqn:Eold; [|done].
  destruct (inv_peers _ HI _ _ Eold) as (c0 & Hc0 & _).
  eapply (Ordered_upd s1 h old close_conn c0); [done| |].
  - simpl. rewrite lookup_insert_ne; [done|]. congruence.
  - intros q Hq. exists q. by eapply fits_same.
Qed.

(** One frame: handed on, dropped at a closed socket, or held. *)
Lemma Ordered_frame s h i c e pick :
  Ordered s h -> Inv s -> conns s !! i = Some c -> blocked s !! i = None ->
  Ordered (readFrame i c e pick s) (h ++ option_list (hands s (EFrame i (Some e) pick))).
Proof.
  intros HO HI Hc Hb. unfold readFrame, hands. rewrite Hc. simpl. set (e1 := mkEnvelope _ _ _ _).
  destruct (route s e1) as [[j e']|] eqn:Er; simpl; [|by rewrite app_nil_r].
  destruct (route_genuine s i c e1 j e' HI Hc eq_refl Er) as (d & Hd & _). rewrite Hd.
  destruct (or_fits _ _ HO j d Hd) as [q Hq]. pose proof (held_None i j s Hb) as Hh.
  assert (Hone : forall x, x ∈ [(i, j, e')] -> x.1.2 = j) by (intros x ->%list_elem_of_singleton; done).
  destruct (enqueueNow d e' pick) as [d'|] eqn:Eq.
  - eapply Ordered_at; [done|apply only_at_upd|exact Hone|done| |]; simpl; rewrite lookup_alter_eq, Hd; simpl; [by eexists|].
    intros c' [= <-]. unfold enqueueNow in Eq.
    destruct (_ <? _)%nat; destruct (c_closed d) eqn:Ecl; try destruct pick; simplify_eq;
      solve [eexists; eapply (fits_same s); [by eapply fits_push|done..]
            |exists q; eapply (fits_same s); [by apply fits_drop|done..]].
  - eapply Ordered_at; [done| |exact Hone|done|simpl; rewrite Hd; by eexists|].
    + split; [done|]. intros k j' Hne. unfold held. simpl. rewrite lookup_insert. case_decide as E; [subst k|done].
      by rewrite Hb, decide_False by done.
    + simpl. intros c' [= <-]%(eq_trans (eq_sym Hd)). exists q. by apply fits_block.
Qed.

Lemma Ordered_step s h ev s' :
  Ordered s h -> Inv s -> step s ev = Some s' -> Ordered s' (h ++ option_list (hands s ev)).
Proof.
  intros HO HI. destruct ev as [hello|i frame pick|i w|j ok|j|j]; simpl; rewrite ?app_nil_r.
  - intros [= <-]. by apply Ordered_serve.
  - destruct (conns s !! i) as [c|] eqn:Hc; simpl; [|done].
    destruct (_ || _) eqn:Eg; [done|]. apply orb_false_iff in Eg as [_ Hb%bool_decide_eq_false].
    apply eq_None_not_Some in Hb. destruct frame as [e|]; intros [= <-]; simpl; [|by rewrite app_nil_r].
    pose proof (Ordered_frame s h i c e pick HO HI Hc Hb) as HF. unfold hands in HF. by rewrite Hc in HF.
  - destruct (blocked s !! i) as [[j e]|] eqn:Hb; simpl; [|done].
    destruct (conns s !! j) as [d|] eqn:Hd; simpl; [|done].
    destruct (enqueueWake d e w) as [d'|] eqn:Ew; simpl; [|done]. intros [= <-].
    destruct (or_fits _ _ HO j d Hd) as [q Hq].
    set (s' := upd_conn _ _ _).
    assert (Eh : forall k, held k j s' = if decide (k = i) then [] else held k j s).
    { intros k. unfold held, s'. simpl. rewrite lookup_delete. case_decide as E; [by rewrite decide_True|by rewrite decide_False]. }
    rewrite <- (app_nil_r h). apply (Ordered_at s s' h [] j); [done| |set_solver|simpl; lia| |].
    + split; [intros j' Hne; simpl; by rewrite lookup_alter_ne|]. intros k j' Hne. unfold held, s'. simpl.
      rewrite lookup_delete. case_decide as E; [subst k|done]. by rewrite Hb, decide_False by done.
    + simpl. rewrite lookup_alter_eq, Hd. by eexists.
    + intros c'. simpl. rewrite lookup_alter_eq, Hd, app_nil_r. simpl. intros [= <-].
      destruct w; simpl in Ew.
      * destruct (_ <? _)%nat; [|done]. injection Ew as <-. exists (q ++ [(i, e)]). by eapply fits_resume.
      * destruct (c_closed d) eqn:Ecl; [|done]. injection Ew as <-. exists q. eapply fits_lose; [done..|].
        intros k. rewrite Eh. case_decide; [apply sublist_nil_l|done].
      * injection Ew as <-. exists q. eapply fits_lose; [done..|].
        intros k. rewrite Eh. case_decide; [apply sublist_nil_l|done].
  - destruct (conns s !! j) as [c|] eqn:Hc; simpl; [|done].
    destruct (writeOne c ok) as [c'|] eqn:Ew; simpl; [|done]. intros [= <-].
    apply (Ordered_upd s h j (fun _ => c') c HO Hc). intros q Hq. exists q. unfold writeOne in Ew.
    destruct (c_closed c) eqn:Ecl; [done|]. destruct (c_send c) as [|e l] eqn:Es; [done|].
    destruct Hq as [H1 H2 H3]. destruct (H3 Ecl) as [E1 E2]. rewrite Es in E1.
    destruct ok; injection Ew as <-; split; simpl; try done.
    + rewrite <- E1. by apply prefix_app, prefix_cons, prefix_nil.
    + intros _. split; [by rewrite <- app_assoc|done].
  - destruct (conns s !! j) as [c|] eqn:Hc; simpl; [|done].
    destruct (pingFailed c) as [c'|] eqn:Ew; simpl; [|done]. intros [= <-].
    apply (Ordered_upd s h j (fun _ => c') c HO Hc). intros q Hq. exists q. unfold pingFailed in Ew.
    destruct (c_closed c); [done|]. injection Ew as <-. by eapply fits_same.
  - destruct (conns s !! j) as [c|] eqn:Hc; simpl; [|done]. destruct (_ || _); [done|]. intros [= <-].
    unfold unregister. set (s1 := mkServer _ _ _ _).
    assert (HO1 : Ordered s1 h).
    { destruct HO as [HA HB]. split; [|done]. intros j' c' Hc'. destruct (HA j' c' Hc') as [q Hq]. exists q. by eapply fits_same. }
    apply (Ordered_upd s1 h j retire_conn c HO1 Hc). intros q Hq. exists q. by eapply fits_same.
Qed.

Lemma Ordered_run es s h s' :
  Ordered s h -> Inv s -> serverSteps s es = Some s' -> Ordered s' (h ++ handed s es).
Proof.
  revert s h. induction es as [|ev es IH]; intros s h HO HI; simpl; [intros [= <-]; by rewrite app_nil_r|].
  destruct (step s ev) as [s1|] eqn:Es; simpl; [|done]. intros Hr.
  pose proof (IH s1 _ (Ordered_step _ _ _ _ HO HI Es) (Inv_step _ _ _ HI Es) Hr) as HF. rewrite <- app_assoc in HF.
  destruct (hands s ev) as [x|]; exact HF.
Qed.

Lemma Ordered_init : Ordered NewServer [].
Proof. split; [intros j c; simpl; by rewrite lookup_empty|intros x ?; set_solver]. Qed.

(** C10: what one machine sends another through the switchboard arrives in order.
    Take any run of the server.  What a socket [j] was given is a sequence [q] of
    envelopes, each from one reader: what has been written to the socket is a
    prefix of it, and the part that came from reader [i], followed by the one
    envelope that reader may be waiting with, is a subsequence of what [i] decided
    to hand to [j] — nothing invented, repeated or reordered — and, while the
    socket is open, exactly that: nothing lost, everything not yet written still
    queued or held. *)
Theorem fifo_between_sockets es s j c :
  serverSteps NewServer es = Some s -> conns s !! j = Some c ->
  exists q, c_written c `prefix_of` q.*2 /\
    (forall i, from i q ++ held i j s `sublist_of` sentTo i j (handed NewServer es)) /\
    (c_closed c = false ->
       c_written c ++ c_send c = q.*2 /\
       forall i, from i q ++ held i j s = sentTo i j (handed NewServer es)).
Proof.
  intros Hr Hc. destruct (or_fits _ _ (Ordered_run es _ [] s Ordered_init Inv_init Hr) j c Hc) as [q [H1 H2 H3]].
  exists q. done.
Qed.

End Order.

(** Two machines; the first sends the second three envelopes, of which one is
    written and two wait. *)
Definition exPart (b : Byte.byte) : option Envelope :=
  Some (mkEnvelope KindOffer (hexEncode (exKey 9)) (hexEncode (exKey 2)) [b]).
Definition exRun : list event :=
  [EConnect (exHello 1); EConnect (exHello 2); EFrame 0 (exPart Byte.x01) true; EFrame 0 (exPart Byte.x02) true;
   EWrite 1 true; EFrame 0 (exPart Byte.x03) true].

Lemma fifo_between_sockets_witness :
  exists s c q, serverSteps NewServer exRun = Some s /\ conns s !! 1%nat = Some c /\
    map e_body (c_written c ++ c_send c) = [[Byte.x01]; [Byte.x02]; [Byte.x03]] /\
    map e_body (sentTo 0 1 (handed NewServer exRun)) = [[Byte.x01]; [Byte.x02]; [Byte.x03]] /\
    from 0 q ++ held 0 1 s = sentTo 0 1 (handed NewServer exRun).
Proof.
  destruct (serverSteps NewServer exRun) as [s|] eqn:Es; [|exfalso; revert Es; vm_compute; discriminate].
  destruct (conns s !! 1%nat) as [c|] eqn:Ec; [|exfalso; revert Ec; vm_compute in Es; injection Es as <-; vm_compute; discriminate].
  destruct (fifo_between_sockets exRun s 1 c Es Ec) as (q & _ & _ & H3). exists s, c, q.
  vm_compute in Es. injection Es as <-. vm_compute in Ec. injection Ec as <-.
  split; [done|]. split; [done|]. split; [vm_compute; reflexivity|]. split; [vm_compute; reflexivity|]. by apply H3.
Defined.

End SignalOrder.
