(* ===== verification/Backoff.v ===== *)
(** * The retry delays of the agent: the doubling that the signalling client
    ([internal/signal/client.go] [Run]), the engine ([engine.go]
    [keepPeerConnected]) and the map stream ([cmd/nfagent/register.go]
    [mapNudges]) each write out, and their [jitter].

    The three loops compute [delay = min(delay*2, max)] after a wait and put
    [delay] back to its minimum on some condition.  The facts shared by the
    three are stated once, over the minimum and the maximum. *)
From S2P Require Import Prelude.

Section Delay.
Context (dmin dmax : Z).

(** [delay = min(delay*2, max)], in 64-bit arithmetic. *)
Definition double (d : Z) : Z := Z.min (wrap64 (d * 2)) dmax.

(** The delay after [n] doublings from the minimum. *)
Definition climbed (n : nat) : Z := Nat.iter n double dmin.

Hypothesis Hmin : 0 < dmin <= dmax.
Hypothesis Hmax : dmax * 2 <= int64_max.

Lemma double_range d : dmin <= d <= dmax -> dmin <= double d <= dmax.
Proof.
  intros Hd. unfold double. rewrite wrap64_id; [lia|].
  unfold in_int64, int64_min. lia.
Qed.

Lemma climbed_eq n : climbed n = Z.min (dmin * 2 ^ Z.of_nat n) dmax.
Proof.
  induction n as [|n IH]; [unfold climbed; simpl; lia|].
  change (climbed (S n)) with (double (climbed n)). unfold double.
  rewrite IH, Nat2Z.inj_succ, Z.pow_succ_r by lia.
  assert (0 < dmin * 2 ^ Z.of_nat n) by nia.
  rewrite wrap64_id by (unfold in_int64, int64_min; lia). lia.
Qed.

End Delay.

(** [jitter(d) = d/2 + rand.Int64N(d)]: [r] is what [Int64N] drew; it panics
    when [d <= 0]. *)
Definition jitter (d r : Z) : go Z :=
  if d <=? 0 then Panic else Ret (wrap64 (Z.quot d 2 + r)).

(** The three copies agree except that the map stream's returns zero instead of
    panicking. *)
Definition jitterMap (d r : Z) : Z := if d <=? 0 then 0 else wrap64 (Z.quot d 2 + r).

(** What [rand.Int64N] promises. *)
Definition drawn (d r : Z) : Prop := 0 <= r < d.

Lemma jitter_bounds d r :
  0 < d -> d * 2 <= int64_max -> drawn d r ->
  exists j, jitter d r = Ret j /\ Z.quot d 2 <= j < Z.quot d 2 + d.
Proof.
  intros Hd Hm Hr. unfold jitter, drawn in *. destruct (Z.leb_spec d 0); [lia|].
  eexists. split; [done|]. rewrite Z.quot_div_nonneg by lia.
  assert (0 <= d / 2 <= d) by (split; [apply Z.div_pos; lia|apply Z.div_le_upper_bound; lia]).
  rewrite wrap64_id by (unfold in_int64, int64_min; lia). lia.
Qed.
