(* ===== verification/SignalClient.v ===== *)
(** * internal/signal/client.go: the agent's side of the signalling. *)
From S2P Require Import Prelude GoStrings Keys SignalProto Backoff.
Import SignalProto.

Module SignalClient.

Definition outQueue : nat := 128.
Definition backoffMin : Z := 500 * Millisecond.
Definition backoffMax : Z := 30 * Second.
Definition clientPingEvery : Z := 20 * Second.
Definition pingWait : Z := 10 * Second.

Record Message : Type := mkMessage { m_from : Key; m_kind : string; m_body : Body }.

(** An envelope on its way out; [o_written] names the channel somebody waits on,
    if anybody does. *)
Record outbound : Type := mkOutbound { o_env : Envelope; o_written : option nat }.

(** Errors of this file; [ELib] stands for whatever a library call returned. *)
Inductive cerr : Type :=
| ECtx | ESeal (e : sealError) | EQueueFull | ENotInTime | EMarshal | ELib (what : string).

(** The client.  [cl_drop] is whether [drop] holds a live session's cancel
    function, [cl_closed] the [written] channels closed so far. *)
Record Client : Type := mkClient {
  cl_priv : Key; cl_out : list outbound; cl_up : bool; cl_drop : bool; cl_closed : list nat }.

Definition NewClient (priv : Key) : Client := mkClient priv [] false false [].

Definition Connected (c : Client) : bool := cl_up c.

Definition set_out (c : Client) (q : list outbound) : Client :=
  mkClient (cl_priv c) q (cl_up c) (cl_drop c) (cl_closed c).
Definition setUp (c : Client) (v : bool) : Client :=
  mkClient (cl_priv c) (cl_out c) v (cl_drop c) (cl_closed c).
Definition setDrop (c : Client) (v : bool) : Client :=
  mkClient (cl_priv c) (cl_out c) (cl_up c) v (cl_closed c).

(** [closeIf]. *)
Definition closeIf (ch : option nat) (c : Client) : Client :=
  match ch with
  | None => c
  | Some i => mkClient (cl_priv c) (cl_out c) (cl_up c) (cl_drop c) (i :: cl_closed c)
  end.

Section Client.
Context `{SealLib}.

Definition envelope (c : Client) (to : Key) (kind : string) (sealed : list byte) : Envelope :=
  mkEnvelope kind (KeyString (PublicKey (cl_priv c))) (KeyString to) sealed.

Definition queue (c : Client) (o : outbound) : result cerr Client :=
  if (length (cl_out c) <? outQueue)%nat then Ok (set_out c (cl_out c ++ [o])) else Err EQueueFull.

Definition Send (c : Client) (to : Key) (kind : string) (b : Body) (nonce : option (list byte)) :
    result cerr Client :=
  match Seal b (cl_priv c) to nonce with
  | Err e => Err (ESeal e)
  | Ok sealed => queue c (mkOutbound (envelope c to kind sealed) None)
  end.

(** [SendNow]: [ch] is the channel it makes; [inTime] whether the writer closed
    it before the timer fired. *)
Definition SendNow (c : Client) (to : Key) (kind : string) (b : Body)
    (nonce : option (list byte)) (ch : nat) (inTime : bool) : result cerr Client :=
  match Seal b (cl_priv c) to nonce with
  | Err e => Err (ESeal e)
  | Ok sealed =>
      match queue c (mkOutbound (envelope c to kind sealed) (Some ch)) with
      | Err e => Err e
      | Ok c' => if inTime then Ok c' else Err ENotInTime
      end
  end.

(** [open]: the wire envelope as a message, or nothing. *)
Definition open (c : Client) (e : Envelope) : option Message :=
  match ParseKey (e_from e) with
  | None => None
  | Some from =>
      if String.eqb (e_kind e) KindOffline || (length (e_body e) =? 0)%nat
      then Some (mkMessage from (e_kind e) emptyBody)
      else match Open (e_body e) (cl_priv c) from with
           | Err _ => None
           | Ok body => Some (mkMessage from (e_kind e) body)
           end
  end.

(** ** The three loops of a session.

    A loop consumes what its blocking call returns.  [None]: still running;
    [Some None]: returned nil; [Some (Some e)]: returned the error [e]. *)

Inductive writeEvent : Type :=
| WCtxDone
| WTake (marshalErr : bool) (writeErr : option cerr).

Fixpoint writeLoop (c : Client) (evs : list writeEvent) (sent : list Envelope) :
    Client * list Envelope * option (option cerr) :=
  match evs with
  | [] => (c, sent, None)
  | WCtxDone :: _ => (c, sent, Some (Some ECtx))
  | WTake marshalErr writeErr :: evs =>
      match cl_out c with
      | [] => (c, sent, None)
      | o :: q =>
          let c := set_out c q in
          if marshalErr then writeLoop (closeIf (o_written o) c) evs sent
          else
            let c := closeIf (o_written o) c in
            match writeErr with
            | Some e => (c, sent, Some (Some e))
            | None => writeLoop c evs (sent ++ [o_env o])
            end
      end
  end.

Inductive pingEvent : Type := PCtxDone | PTick (pingErr : option cerr).

Fixpoint pingLoop (evs : list pingEvent) : option (option cerr) :=
  match evs with
  | [] => None
  | PCtxDone :: _ => Some (Some ECtx)
  | PTick (Some e) :: _ => Some (Some e)
  | PTick None :: evs => pingLoop evs
  end.

(** [readLoop]: a failed read ends it; an undecodable frame and an envelope
    that does not open are skipped; every opened message reaches the handler. *)
Inductive readEvent : Type := RErr (e : cerr) | RFrame (decoded : option Envelope).

Fixpoint readLoop (c : Client) (evs : list readEvent) : list Message * option (option cerr) :=
  match evs with
  | [] => ([], None)
  | RErr e :: _ => ([], Some (Some e))
  | RFrame None :: evs => readLoop c evs
  | RFrame (Some e) :: evs =>
      match open c e with
      | None => readLoop c evs
      | Some m => let r := readLoop c evs in (m :: r.1, r.2)
      end
  end.

(** What ends the [select] at the bottom of [session]. *)
Inductive ending : Type :=
| EndCtx
| EndWrite (evs : list writeEvent)
| EndPing (evs : list pingEvent)
| EndRead (evs : list readEvent).

(** What the libraries answered during one session. *)
Record sessionRun : Type := mkSessionRun {
  s_dial : option cerr; s_helloMarshal : option cerr; s_helloWrite : option cerr;
  s_end : ending }.

(** The value the winning goroutine put on [errCh]; [None] while it runs. *)
Definition endValue (c : Client) (e : ending) : option (option cerr) :=
  match e with
  | EndCtx => Some (Some ECtx)
  | EndWrite evs => (writeLoop c evs []).2
  | EndPing evs => pingLoop evs
  | EndRead evs => (readLoop c evs).2
  end.

(** [session] up to the point where it waits: the client as other goroutines
    see it meanwhile. *)
Definition sessionUp (c : Client) (r : sessionRun) : Client :=
  match s_dial r with
  | Some _ => c
  | None =>
      let c := setDrop c true in
      match s_helloMarshal r, s_helloWrite r with
      | None, None => setUp c true
      | _, _ => c
      end
  end.

(** [session]: the state its deferred calls leave and the error it returns;
    [None] when the session is still running. *)
Definition session (c : Client) (r : sessionRun) : option (Client * option cerr) :=
  match s_dial r with
  | Some e => Some (c, Some e)
  | None =>
      let c := setDrop c true in
      match s_helloMarshal r with
      | Some e => Some (setDrop c false, Some e)
      | None =>
          match s_helloWrite r with
          | Some e => Some (setDrop c false, Some e)
          | None =>
              let c := setUp c true in
              match endValue c (s_end r) with
              | None => None
              | Some err => Some (setDrop (setUp c false) false, err)
              end
          end
      end
  end.

(** [Run]: the waits (before jitter) between the sessions [runs]. *)
Fixpoint Run (c : Client) (delay : Z) (runs : list sessionRun) : list Z :=
  match runs with
  | [] => []
  | r :: runs =>
      match session c r with
      | None => []
      | Some (c', err) =>
          let d := double backoffMax delay in
          let d := match err with None => backoffMin | Some _ => d end in
          delay :: Run c' d runs
      end
  end.

(** [Reset]: whether a live session was cancelled. *)
Definition Reset (c : Client) : bool := cl_drop c.

(** ** Properties *)

Lemma writeLoop_never_nil c evs sent c' sent' r :
  writeLoop c evs sent = (c', sent', Some r) -> r <> None.
Proof.
  revert c sent. induction evs as [|[|me we] evs IH]; intros c sent; simpl; [done| |].
  - by intros [= <- <- <-].
  - destruct (cl_out c) as [|o q]; [done|]. destruct me; [apply IH|].
    destruct we; [by intros [= <- <- <-]|apply IH].
Qed.

Lemma pingLoop_never_nil evs r : pingLoop evs = Some r -> r <> None.
Proof.
  induction evs as [|[|[e|]] evs IH]; simpl; try done; by intros [= <-].
Qed.

Lemma readLoop_never_nil c evs r : (readLoop c evs).2 = Some r -> r <> None.
Proof.
  induction evs as [|[e|[e|]] evs IH]; simpl; try done; [by intros [= <-]|].
  destruct (open c e); simpl; done.
Qed.

Lemma session_never_nil c r c' err : session c r = Some (c', err) -> err <> None.
Proof.
  unfold session. destruct (s_dial r); [by intros [= <- <-]|].
  destruct (s_helloMarshal r); [by intros [= <- <-]|].
  destruct (s_helloWrite r); [by intros [= <- <-]|].
  destruct (endValue _ _) as [e|] eqn:E; [|done]. intros [= <- <-].
  destruct (s_end r) as [|evs|evs|evs]; simpl in E.
  - by injection E as <-.
  - destruct (writeLoop _ evs []) as [[c1 s1] o1] eqn:Ew. simpl in E. subst.
    by eapply writeLoop_never_nil.
  - by eapply pingLoop_never_nil.
  - by eapply readLoop_never_nil.
Qed.

Lemma backoff_range : 0 < backoffMin <= backoffMax /\ backoffMax * 2 <= int64_max.
Proof.
  unfold backoffMin, backoffMax, int64_max, Second, Millisecond. lia.
Qed.

(** no session ever ends with a nil error, so the branch of [Run] that puts
    the delay back to its minimum after a session that lasted is never taken:
    the wait before the [n]-th reconnection of a process is
    [min(backoffMin * 2^n, backoffMax)], however long the sessions in between
    were healthy. *)
Theorem Run_never_resets c runs n d :
  Run c backoffMin runs !! n = Some d -> d = Z.min (backoffMin * 2 ^ Z.of_nat n) backoffMax.
Proof.
  destruct backoff_range as [Hr Hm].
  intros Hd. rewrite <- (climbed_eq _ _ Hr Hm n).
  assert (Hgen : forall k c runs n d, Run c (climbed backoffMin backoffMax k) runs !! n = Some d ->
            d = climbed backoffMin backoffMax (k + n)).
  { clear. intros k c runs. revert k c. induction runs as [|r runs IH]; intros k c n d; simpl; [done|].
    destruct (session c r) as [[c' err]|] eqn:Es; [|done].
    apply session_never_nil in Es. destruct err as [e|]; [|done].
    destruct n as [|n]; simpl.
    - intros [= <-]. by rewrite Nat.add_0_r.
    - change (double backoffMax (climbed backoffMin backoffMax k))
        with (climbed backoffMin backoffMax (S k)).
      intros Hd%IH. by rewrite Nat.add_succ_r. }
  by apply (Hgen 0%nat) in Hd.
Qed.

(** between sessions the client does not claim to be connected and has
    nothing to reset; during one that said hello it is connected and can be. *)
Theorem session_flags c r c' err :
  cl_up c = false -> cl_drop c = false -> session c r = Some (c', err) ->
  Connected c' = false /\ Reset c' = false /\
  (s_dial r = None -> s_helloMarshal r = None -> s_helloWrite r = None ->
   Connected (sessionUp c r) = true /\ Reset (sessionUp c r) = true).
Proof.
  intros Hu Hdr. unfold session, sessionUp, Connected, Reset.
  destruct (s_dial r); [intros [= <- <-]; splits; done|].
  destruct (s_helloMarshal r); [intros [= <- <-]; splits; done|].
  destruct (s_helloWrite r); [intros [= <- <-]; splits; done|].
  destruct (endValue _ _); [|done]. intros [= <- <-]. by splits.
Qed.

(** end to end: what one machine sends is queued as an envelope that only
    names the two keys, and that envelope, carried by the server under the
    sender's registered name, opens at the other machine as the same message
    from the sender's key. *)
Theorem Send_open alice bob to kind b nonce c' :
  encodable b -> length (cl_priv alice) = keyLen -> length (cl_priv bob) = keyLen ->
  to = PublicKey (cl_priv bob) -> length nonce = nonceLen -> kind <> KindOffline ->
  Send alice to kind b (Some nonce) = Ok c' ->
  exists o, cl_out c' = cl_out alice ++ [o] /\
    e_to (o_env o) = KeyString to /\
    e_from (o_env o) = KeyString (PublicKey (cl_priv alice)) /\
    open bob (o_env o) = Some (mkMessage (PublicKey (cl_priv alice)) kind b).
Proof.
  intros Henc Ha Hb -> Hn Hk. unfold Send.
  destruct (Seal b (cl_priv alice) (PublicKey (cl_priv bob)) (Some nonce)) as [sealed|] eqn:Es; [|done].
  unfold queue. destruct (_ <? _)%nat; [|done]. intros [= <-].
  eexists. splits. unfold open, envelope. cbn [o_env e_from e_kind e_body].
  rewrite ParseKey_String by by apply PublicKey_length.
  destruct (String.eqb_spec kind KindOffline); [done|]. simpl.
  pose proof (Open_Seal _ _ _ _ _ Henc Ha Hb Hn Es) as Ho.
  destruct (Nat.eqb_spec (length sealed) 0) as [E|].
  - unfold Open in Ho. by rewrite E in Ho.
  - by rewrite Ho.
Qed.

(** a non-empty body that does not open with the key the envelope names is
    never delivered, but an envelope with an empty body is delivered under
    whatever parseable name it carries, with no seal behind it. *)
Theorem open_authenticity c e :
  (forall m, open c e = Some m -> e_kind e <> KindOffline -> e_body e <> [] ->
     exists from, ParseKey (e_from e) = Some from /\ m_from m = from /\
       Open (e_body e) (cl_priv c) from = Ok (m_body m)) /\
  (forall from, ParseKey (e_from e) = Some from -> e_body e = [] ->
     open c e = Some (mkMessage from (e_kind e) emptyBody)).
Proof.
  unfold open. split.
  - intros m Ho Hk Hb. destruct (ParseKey (e_from e)) as [from|]; [|done].
    exists from. split; [done|]. destruct (String.eqb_spec (e_kind e) KindOffline); [done|].
    destruct (e_body e) as [|x l] eqn:Eb; [done|]. cbn [length Nat.eqb orb] in Ho.
    destruct (Open _ _ _); [|done]. by injection Ho as <-.
  - intros from -> ->. simpl. by rewrite orb_true_r.
Qed.

End Client.

(** ** Witnesses *)

Definition exAlice : Client := NewClient (exKey 1).
Definition exBob : Client := NewClient (exKey 2).
Definition exRun (n : nat) : list sessionRun :=
  replicate n (mkSessionRun None None None (EndPing [PTick None; PTick (Some (ELib "no pong"))])).

Lemma Run_never_resets_witness :
  Run exAlice backoffMin (exRun 8) !! 7%nat = Some (30 * Second) /\
  30 * Second = Z.min (backoffMin * 2 ^ Z.of_nat 7) backoffMax.
Proof.
  split; [vm_compute; reflexivity|].
  apply (Run_never_resets exAlice (exRun 8) 7). vm_compute. reflexivity.
Defined.

Lemma session_flags_witness :
  exists c' err, session exAlice (mkSessionRun None None None EndCtx) = Some (c', err) /\
    Connected c' = false /\ Connected (sessionUp exAlice (mkSessionRun None None None EndCtx)) = true.
Proof.
  do 2 eexists. split; [reflexivity|].
  destruct (session_flags exAlice (mkSessionRun None None None EndCtx) _ _ eq_refl eq_refl eq_refl)
    as (H1 & _ & H2).
  split; [exact H1|]. by apply H2.
Defined.

Lemma Send_open_witness :
  exists c' o, Send exAlice (PublicKey (exKey 2)) KindOffer (mkBody "u" "p" "")
                 (Some (repeat Byte.x07 nonceLen)) = Ok c' /\
    cl_out c' = [o] /\
    open exBob (o_env o) = Some (mkMessage (PublicKey (exKey 1)) KindOffer (mkBody "u" "p" "")).
Proof.
  destruct (Send_open exAlice exBob (PublicKey (exKey 2)) KindOffer (mkBody "u" "p" "")
    (repeat Byte.x07 nonceLen)
    (set_out exAlice [mkOutbound (envelope exAlice (PublicKey (exKey 2)) KindOffer
       (repeat Byte.x07 nonceLen ++ toyTag ++ toyMarshal (mkBody "u" "p" ""))) None]))
    as (o & H1 & _ & _ & H2); try reflexivity; try discriminate.
  - repeat split.
  - do 2 eexists. split; [reflexivity|]. split; [exact H1|exact H2].
Defined.

(** A goodbye nobody sealed, under machine 1's name. *)
Definition exForgedBye : Envelope :=
  mkEnvelope KindBye (KeyString (PublicKey (exKey 1))) (KeyString (PublicKey (exKey 2))) [].

Lemma open_authenticity_witness :
  open exBob exForgedBye = Some (mkMessage (PublicKey (exKey 1)) KindBye emptyBody).
Proof.
  apply (proj2 (open_authenticity exBob exForgedBye)); vm_compute; reflexivity.
Defined.

End SignalClient.
