(* ===== verification/ClientRace.v ===== *)
(** * internal/signal/client.go: the queue of the client and the writers of its
    sessions.

    [session] returns as soon as one of its three loops does and does not wait for
    the others: the writer of a session that is over may still be in its [select]
    or in a write when [Run] has dialled the next one, and both take from the same
    queue.  [SignalClient.writeLoop] is one writer left alone; here they
    interleave, with [Send] and [SendNow] in between. *)
From S2P Require Import Prelude GoStrings Keys SignalProto SignalClient.

Module ClientRace.
Import SignalProto.SignalProto SignalClient.SignalClient.

(** A writer: in its [select], with an envelope in hand, gone.  [w_dead] is
    whether its session has returned: the context is done, the socket closed. *)
Inductive wpc : Type := AtSelect | InWrite (o : outbound) | Gone.
Record writer : Type := mkWriter { w_dead : bool; w_pc : wpc }.

(** [n_writers] by session, oldest first.  [n_accepted] is what [queue] took,
    [n_taken] what writers took of it; [n_log] what went out, and on the socket of
    which session; [n_lost] what a failed write lost; [n_bad] what did not encode;
    [n_told] the channels closed for whoever waits in [SendNow]. *)
Record net : Type := mkNet {
  n_out : list outbound; n_writers : list writer; n_accepted : list outbound; n_taken : list outbound;
  n_log : list (nat * outbound); n_lost : list (nat * outbound); n_bad : list outbound; n_told : list nat }.

Definition start : net := mkNet [] [] [] [] [] [] [] [].

Inductive event : Type :=
| EQueue (o : outbound)                  (* [queue] *)
| EDialled                               (* a session is up, and starts its writer *)
| EOver (i : nat)                        (* [session] returns *)
| ETake (i : nat)                        (* the [select] took the queue *)
| EWritten (i : nat) (ok : bool)         (* [ws.Write] returned *)
| EUnencoded (i : nat)                   (* [json.Marshal] failed *)
| EQuit (i : nat).                       (* the [select] took the context *)

Definition tell (o : outbound) (l : list nat) : list nat := match o_written o with Some ch => ch :: l | None => l end.

Definition set_writer (i : nat) (w : writer) (s : net) : net :=
  mkNet (n_out s) (<[i := w]> (n_writers s)) (n_accepted s) (n_taken s) (n_log s) (n_lost s) (n_bad s) (n_told s).

(** [None]: it cannot happen now.  [Run] dials only when the session before has
    returned.  [EWritten] is the whole of a write, the channel it closes included;
    a write in progress when its session returns may have gone out or not. *)
Definition step (s : net) (e : event) : option net :=
  match e with
  | EQueue o =>
      Some (if (length (n_out s) <? outQueue)%nat
            then mkNet (n_out s ++ [o]) (n_writers s) (n_accepted s ++ [o]) (n_taken s) (n_log s) (n_lost s) (n_bad s) (n_told s)
            else s)
  | EDialled =>
      if forallb w_dead (n_writers s)
      then Some (mkNet (n_out s) (n_writers s ++ [mkWriter false AtSelect]) (n_accepted s) (n_taken s) (n_log s) (n_lost s) (n_bad s) (n_told s))
      else None
  | EOver i => w ← n_writers s !! i; Some (set_writer i (mkWriter true (w_pc w)) s)
  | ETake i =>
      w ← n_writers s !! i;
      match w_pc w, n_out s with
      | AtSelect, o :: q =>
          Some (mkNet q (<[i := mkWriter (w_dead w) (InWrite o)]> (n_writers s)) (n_accepted s) (n_taken s ++ [o])
                  (n_log s) (n_lost s) (n_bad s) (n_told s))
      | _, _ => None
      end
  | EWritten i ok =>
      w ← n_writers s !! i;
      match w_pc w with
      | InWrite o =>
          if ok then Some (mkNet (n_out s) (<[i := mkWriter (w_dead w) AtSelect]> (n_writers s)) (n_accepted s) (n_taken s)
                       (n_log s ++ [(i, o)]) (n_lost s) (n_bad s) (tell o (n_told s)))
          else Some (mkNet (n_out s) (<[i := mkWriter (w_dead w) Gone]> (n_writers s)) (n_accepted s) (n_taken s)
                       (n_log s) (n_lost s ++ [(i, o)]) (n_bad s) (tell o (n_told s)))
      | _ => None
      end
  | EUnencoded i =>
      w ← n_writers s !! i;
      match w_pc w with
      | InWrite o => Some (mkNet (n_out s) (<[i := mkWriter (w_dead w) AtSelect]> (n_writers s)) (n_accepted s) (n_taken s)
                             (n_log s) (n_lost s) (n_bad s ++ [o]) (tell o (n_told s)))
      | _ => None
      end
  | EQuit i =>
      w ← n_writers s !! i;
      match w_pc w with
      | AtSelect => if w_dead w then Some (set_writer i (mkWriter true Gone) s) else None
      | _ => None
      end
  end.

Fixpoint steps (s : net) (es : list event) : option net :=
  match es with [] => Some s | e :: es => s' ← step s e; steps s' es end.

(** ** What is where *)

Definition hand (w : writer) : list outbound := match w_pc w with InWrite o => [o] | _ => [] end.
Definition hands (ws : list writer) : list outbound := concat (map hand ws).
Definition handOf (i : nat) (s : net) : list outbound := match n_writers s !! i with Some w => hand w | None => [] end.

(** What of a log is of session [i]. *)
Definition ofSession (i : nat) (l : list (nat * outbound)) : list outbound :=
  omap (fun x => if decide (x.1 = i) then Some x.2 else None) l.

Lemma ofSession_snoc i l j o : ofSession i (l ++ [(j, o)]) = ofSession i l ++ if decide (j = i) then [o] else [].
Proof. unfold ofSession. rewrite omap_app. cbn. by case_decide. Qed.

#[local] Arguments ofSession : simpl never.
#[local] Arguments hands : simpl never.

Lemma hands_at ws i w : ws !! i = Some w -> hands ws ≡ₚ hand w ++ hands (delete i ws).
Proof. intros Hi. unfold hands. rewrite (delete_Permutation ws i w Hi) at 1. done. Qed.

Lemma hands_insert ws i w w' : ws !! i = Some w -> hand w ++ hands (<[i := w']> ws) ≡ₚ hand w' ++ hands ws.
Proof.
  intros Hi. rewrite (hands_at ws i w Hi), (hands_at (<[i := w']> ws) i w').
  - replace (delete i (<[i := w']> ws)) with (delete i ws); [by rewrite Permutation_app_swap_app|].
    clear. revert i. induction ws as [|x ws IH]; intros [|i]; [done..|]. cbn. by f_equal.
  - apply list_lookup_insert_eq. by eapply lookup_lt_Some.
Qed.

Lemma handOf_insert i j w w' s ws :
  n_writers s !! j = Some w -> ws = <[j := w']> (n_writers s) ->
  (match ws !! i with Some w => hand w | None => [] end) = if decide (j = i) then hand w' else handOf i s.
Proof.
  intros Hj ->. case_decide as E; [subst i|].
  - by rewrite list_lookup_insert_eq by (by eapply lookup_lt_Some).
  - by rewrite list_lookup_insert_ne.
Qed.

Record Inv (s : net) : Prop := {
  iv_queue : n_accepted s = n_taken s ++ n_out s;
  iv_where : n_taken s ≡ₚ (n_log s).*2 ++ (n_lost s).*2 ++ n_bad s ++ hands (n_writers s);
  iv_order : forall i, ofSession i (n_log s) ++ handOf i s `sublist_of` n_taken s;
  iv_lost : forall i, (length (ofSession i (n_lost s)) <= 1)%nat /\
    (ofSession i (n_lost s) <> [] -> exists d, n_writers s !! i = Some (mkWriter d Gone));
  iv_one : forall i j wi wj, n_writers s !! i = Some wi -> n_writers s !! j = Some wj ->
    w_dead wi = false -> w_dead wj = false -> i = j }.

Lemma net_start_Inv : Inv start.
Proof. split; cbn; try done. intros i. unfold ofSession. cbn. split; [lia|done]. Qed.

(** Writers whose lives are as before, apart from one that lives on or dies. *)
Lemma writer_one_alive (ws : list writer) (i : nat) w w' :
  ws !! i = Some w -> (w_dead w = true -> w_dead w' = true) ->
  (forall a b wa wb, ws !! a = Some wa -> ws !! b = Some wb -> w_dead wa = false -> w_dead wb = false -> a = b) ->
  forall a b wa wb, <[i := w']> ws !! a = Some wa -> <[i := w']> ws !! b = Some wb ->
    w_dead wa = false -> w_dead wb = false -> a = b.
Proof.
  intros Hi Hd H a b wa wb Ha Hb Da Db.
  assert (Hold : forall c wc, <[i := w']> ws !! c = Some wc -> w_dead wc = false ->
                   exists v, ws !! c = Some v /\ w_dead v = false).
  { intros c wc [(<- & -> & _)|(_ & Hc)]%list_lookup_insert_Some Dc; [|eauto].
    exists w. split; [done|]. destruct (w_dead w); [|done]. by rewrite Hd in Dc. }
  destruct (Hold a wa Ha Da) as (va & ? & ?), (Hold b wb Hb Db) as (vb & ? & ?). by eapply H.
Qed.

(** The writers that are gone stay gone, whatever writer [i] does. *)
Lemma writer_gone_stays (ws : list writer) (i j : nat) w w' :
  ws !! i = Some w -> (w_pc w = Gone -> w_pc w' = Gone) ->
  (exists d, ws !! j = Some (mkWriter d Gone)) -> exists d, <[i := w']> ws !! j = Some (mkWriter d Gone).
Proof.
  intros Hi Hw [d Hj]. destruct (decide (i = j)) as [<-|Hne].
  - rewrite Hi in Hj. injection Hj as ->. exists (w_dead w'). rewrite list_lookup_insert_eq by (by eapply lookup_lt_Some).
    specialize (Hw eq_refl). by destruct w' as [d' p]; cbn in *; subst.
  - exists d. by rewrite list_lookup_insert_ne.
Qed.

Lemma Inv_queue s o s' : Inv s -> step s (EQueue o) = Some s' -> Inv s'.
Proof.
  intros [Hq Hw Ho Hl H1]. cbn. intros [= <-]. case_match; [|by split].
  split; cbn; [by rewrite Hq, <- app_assoc|done..].
Qed.

Lemma Inv_dialled s s' : Inv s -> step s EDialled = Some s' -> Inv s'.
Proof.
  intros [Hq Hw Ho Hl H1]. cbn. destruct (forallb _ _) eqn:Hd; [|done]. intros [= <-].
  assert (Hnew : forall i w, (n_writers s ++ [mkWriter false AtSelect]) !! i = Some w ->
            n_writers s !! i = Some w \/ i = length (n_writers s) /\ w = mkWriter false AtSelect).
  { intros i w [|[Hge Hi]]%lookup_app_Some; [by left|right].
    apply list_lookup_singleton_Some in Hi as [? <-]. split; [lia|done]. }
  split; cbn; [done|..].
  - unfold hands. rewrite map_app, concat_app. cbn. by rewrite app_nil_r.
  - intros i. specialize (Ho i). unfold handOf in *. cbn.
    destruct ((_ ++ _) !! i) as [w|] eqn:E.
    + destruct (Hnew i w E) as [Ei|[-> ->]]; [by rewrite Ei in Ho|].
      by rewrite (lookup_ge_None_2 _ _ (le_n _)) in Ho.
    + apply lookup_ge_None in E. rewrite length_app in E. by rewrite lookup_ge_None_2 in Ho by lia.
  - intros i. destruct (Hl i) as [Hn Hg]. split; [done|]. intros Hne. destruct (Hg Hne) as [d Hd'].
    exists d. by apply lookup_app_l_Some.
  - rewrite forallb_forall in Hd.
    assert (Halive : forall i w, n_writers s !! i = Some w -> w_dead w = true).
    { intros i w Hi. apply Hd. apply list_elem_of_In. by eapply list_elem_of_lookup_2. }
    intros i j wi wj Hi Hj Di Dj.
    destruct (Hnew i wi Hi) as [Hi'|[-> _]]; [by rewrite (Halive _ _ Hi') in Di|].
    destruct (Hnew j wj Hj) as [Hj'|[-> _]]; [by rewrite (Halive _ _ Hj') in Dj|done].
Qed.

(** A writer that moves: what every such event has to show of itself. *)
Lemma net_move s i w w' out taken log lost bad told :
  Inv s -> n_writers s !! i = Some w -> (w_dead w = true -> w_dead w' = true) -> (w_pc w = Gone -> w_pc w' = Gone) ->
  n_accepted s = taken ++ out ->
  (exists new, taken = n_taken s ++ new /\
     (log.*2 ++ lost.*2 ++ bad) ++ hand w' ≡ₚ (n_log s).*2 ++ (n_lost s).*2 ++ n_bad s ++ hand w ++ new /\
     (forall j, j <> i -> ofSession j log = ofSession j (n_log s) /\ ofSession j lost = ofSession j (n_lost s)) /\
     ofSession i log ++ hand w' `sublist_of` ofSession i (n_log s) ++ hand w ++ new) ->
  (lost = n_lost s \/ exists o, w_pc w = InWrite o /\ w_pc w' = Gone /\ lost = n_lost s ++ [(i, o)]) ->
  Inv (mkNet out (<[i := w']> (n_writers s)) (n_accepted s) taken log lost bad told).
Proof.
  intros [Hq Hw Ho Hl H1] Hi Hd Hg Ha (new & -> & Hp & Hoth & Hsub) Hlost. split; cbn; [done|..].
  - pose proof (hands_insert _ _ _ w' Hi) as Hh.
    apply (Permutation_app_inv_l (hand w)). rewrite Hw.
    transitivity (((n_log s).*2 ++ (n_lost s).*2 ++ n_bad s ++ hand w ++ new) ++ hands (n_writers s)); [solve_Permutation|].
    rewrite <- Hp. transitivity ((log.*2 ++ lost.*2 ++ bad) ++ hand w' ++ hands (n_writers s)); [solve_Permutation|].
    rewrite <- Hh. solve_Permutation.
  - intros j. specialize (Ho j). unfold handOf in *. cbn. destruct (decide (j = i)) as [->|Hne].
    + rewrite list_lookup_insert_eq by (by eapply lookup_lt_Some). rewrite Hi in Ho.
      etransitivity; [exact Hsub|]. rewrite app_assoc. by apply sublist_app.
    + rewrite list_lookup_insert_ne by done. destruct (Hoth j Hne) as [-> _].
      etransitivity; [exact Ho|]. by apply sublist_inserts_r.
  - intros j. destruct (Hl j) as [Hn Hgone]. destruct Hlost as [->|(o & Hpc & Hpc' & ->)].
    + split; [done|]. intros Hne. eapply writer_gone_stays; eauto.
    + rewrite ofSession_snoc. case_decide as E; [subst j|].
      * assert (ofSession i (n_lost s) = []) as ->.
        { destruct (ofSession i (n_lost s)) eqn:El; [done|]. destruct Hgone as [d Hd']; [done|].
          rewrite Hi in Hd'. injection Hd' as ->. done. }
        split; [cbn; lia|]. intros _. exists (w_dead w'). rewrite list_lookup_insert_eq by (by eapply lookup_lt_Some).
        by destruct w'; cbn in *; subst.
      * rewrite app_nil_r. split; [done|]. intros Hne. eapply writer_gone_stays; eauto.
  - by eapply writer_one_alive.
Qed.

Lemma net_step s e s' : Inv s -> step s e = Some s' -> Inv s'.
Proof.
  intros HI. destruct e as [o| |i|i|i ok|i|i]; [by apply Inv_queue|by apply Inv_dialled|..]; cbn;
    destruct (n_writers s !! i) as [w|] eqn:Hi; cbn; try done.
  - intros [= <-]. eapply net_move; eauto; cbn; [apply HI|].
    exists []. rewrite !app_nil_r. repeat split; auto. rewrite <- !app_assoc. done.
  - destruct (w_pc w) eqn:Hp; [|done..]. destruct (n_out s) as [|o q] eqn:Ho; [done|]. intros [= <-].
    eapply net_move; eauto; cbn; [by rewrite Hp|rewrite <- app_assoc; cbn; rewrite <- Ho; apply HI|].
    exists [o]. repeat split; auto; unfold hand; rewrite Hp; cbn; [by rewrite <- !app_assoc|done].
  - destruct (w_pc w) as [|o|] eqn:Hp; [done| |done]. destruct ok; intros [= <-].
    + eapply net_move; eauto; cbn; [by rewrite Hp|apply HI|].
      exists []. rewrite !app_nil_r. split; [done|]. unfold hand. rewrite Hp. cbn. rewrite fmap_app, ofSession_snoc.
      split; [cbn; solve_Permutation|]. split; [|by rewrite decide_True by done].
      intros j Hne. rewrite ofSession_snoc, decide_False by done. by rewrite app_nil_r.
    + eapply net_move; eauto; cbn; [apply HI|].
      exists []. rewrite !app_nil_r. split; [done|]. unfold hand. rewrite Hp. cbn. rewrite fmap_app.
      split; [cbn; solve_Permutation|]. split; [|by apply sublist_inserts_r].
      intros j Hne. rewrite ofSession_snoc, decide_False by done. by rewrite app_nil_r.
  - destruct (w_pc w) as [|o|] eqn:Hp; [done| |done]. intros [= <-].
    eapply net_move; eauto; cbn; [by rewrite Hp|apply HI|].
    exists []. rewrite !app_nil_r. split; [done|]. unfold hand. rewrite Hp. cbn.
    split; [solve_Permutation|]. split; [done|by apply sublist_inserts_r].
  - destruct (w_pc w) eqn:Hp; [|done..]. destruct (w_dead w) eqn:Hd; [|done]. intros [= <-].
    eapply net_move; eauto; cbn; [apply HI|].
    exists []. unfold hand. rewrite Hp. cbn. rewrite !app_nil_r. repeat split; auto.
Qed.

Lemma net_run es : forall s s', Inv s -> steps s es = Some s' -> Inv s'.
Proof.
  induction es as [|e es IH]; cbn; intros s s' HI; [by intros [= <-]|].
  destruct (step s e) as [s1|] eqn:E; [|done]. apply IH. by eapply net_step.
Qed.

(** The channels closed are those of the envelopes a writer is done with. *)
Definition Told (s : net) : Prop := n_told s ≡ₚ omap o_written ((n_log s).*2 ++ (n_lost s).*2 ++ n_bad s).

Lemma tell_omap o l : tell o l = omap o_written [o] ++ l.
Proof. unfold tell. cbn. by destruct (o_written o). Qed.

Lemma Told_step s e s' : Told s -> step s e = Some s' -> Told s'.
Proof.
  unfold Told. intros HT. destruct e as [o| |i|i|i ok|i|i]; cbn.
  1, 2: intros Hs; repeat case_match; by simplify_eq/=.
  all: destruct (n_writers s !! i) as [w|]; cbn; [|done].
  all: intros Hs; repeat case_match; simplify_eq/=; try done.
  all: rewrite tell_omap, HT, ?fmap_app, !omap_app; cbn; solve_Permutation.
Qed.

Lemma Told_run es : forall s s', Told s -> steps s es = Some s' -> Told s'.
Proof.
  induction es as [|e es IH]; cbn; intros s s' HI; [by intros [= <-]|].
  destruct (step s e) as [s1|] eqn:E; [|done]. apply IH. by eapply Told_step.
Qed.

(** C19: what the queue of the client took is conserved, however the writers of
    its sessions interleave: every accepted envelope is still queued, in the hand
    of one writer, on the socket of one session, lost by a failed write or
    dropped because it did not encode, and is only one of these; each socket
    carries its envelopes in the order they were accepted; no session loses more
    than one; whoever waits in [SendNow] is told exactly when a writer is done
    with the envelope. *)
Theorem outbound_conserved es s :
  steps start es = Some s ->
  n_accepted s ≡ₚ (n_log s).*2 ++ (n_lost s).*2 ++ n_bad s ++ hands (n_writers s) ++ n_out s /\
  (forall i, ofSession i (n_log s) `sublist_of` n_accepted s) /\
  (forall i, length (ofSession i (n_lost s)) <= 1)%nat /\
  n_told s ≡ₚ omap o_written ((n_log s).*2 ++ (n_lost s).*2 ++ n_bad s).
Proof.
  intros Hs. destruct (net_run es start s net_start_Inv Hs) as [Hq Hw Ho Hl _].
  split; [by rewrite Hq, Hw, <- !app_assoc|]. split; [|split; [apply Hl|]].
  - intros i. rewrite Hq. apply sublist_inserts_r. transitivity (ofSession i (n_log s) ++ handOf i s); [by apply sublist_inserts_r|apply Ho].
  - refine (Told_run es start s _ Hs). by unfold Told.
Qed.

(** The writer of a session that is over takes, and loses, an envelope accepted
    while the next session is up, and whoever waits for it is told. *)
Definition aWord (ch : option nat) : outbound := mkOutbound (mkEnvelope "offer" "a" "b" []) ch.
Definition stale : list event := [EDialled; EOver 0; EDialled; EQueue (aWord (Some 7%nat)); EQueue (aWord None); ETake 0; ETake 1; EWritten 0 false; EWritten 1 true].

Lemma outbound_conserved_witness :
  exists s, steps start stale = Some s /\ n_told s = [7%nat] /\ (n_log s).*2 = [aWord None] /\
    n_accepted s ≡ₚ (n_log s).*2 ++ (n_lost s).*2 ++ n_bad s ++ hands (n_writers s) ++ n_out s.
Proof.
  eexists. split; [vm_compute; reflexivity|]. split; [reflexivity|]. split; [reflexivity|].
  apply (outbound_conserved stale). vm_compute. reflexivity.
Defined.

End ClientRace.
