(* ===== verification/P2P.v ===== *)
(** * internal/p2p/p2p.go: configuration of a negotiation and its tie-break. *)
From S2P Require Import Prelude GoStrings Keys.

Module P2P.

Definition DefaultSTUN : list string :=
  ["stun:stun.cloudflare.com:3478"; "stun:stun.l.google.com:19302"].

Definition defaultDisconnectedTimeout : Z := 8 * Second.
Definition defaultFailedTimeout : Z := 60 * Second.
Definition defaultRelayWait : Z := 8 * Second.

Record TURNServer : Type := mkTURN { t_url : string; t_user : string; t_pass : string }.

#[global] Instance TURNServer_eq_dec : EqDecision TURNServer.
Proof. solve_decision. Defined.

(** [Config].  The filters are functions, [None] when the field is nil; the
    logger factory is carried untouched by the source and left out. *)
Record Config : Type := mkConfig {
  c_private : Key; c_stun : list string; c_turn : list TURNServer;
  c_noHost : bool; c_noSTUN : bool; c_noIPv6 : bool;
  c_ipFilter : option (list byte -> bool); c_ifFilter : option (string -> bool);
  c_loopback : bool; c_failed : Z; c_relayWait : Z; c_disconnected : Z }.

Definition set_turn (l : list TURNServer) (c : Config) : Config :=
  mkConfig (c_private c) (c_stun c) l (c_noHost c) (c_noSTUN c) (c_noIPv6 c) (c_ipFilter c) (c_ifFilter c)
    (c_loopback c) (c_failed c) (c_relayWait c) (c_disconnected c).
Definition set_private (k : Key) (c : Config) : Config :=
  mkConfig k (c_stun c) (c_turn c) (c_noHost c) (c_noSTUN c) (c_noIPv6 c) (c_ipFilter c) (c_ifFilter c)
    (c_loopback c) (c_failed c) (c_relayWait c) (c_disconnected c).

(** [State] of a session. *)
Inductive State : Type :=
| StateIdle | StateNegotiating | StateConnected | StateFailed | StateClosed.

#[global] Instance State_eq_dec : EqDecision State.
Proof. solve_decision. Defined.

Definition State_string (s : State) : string :=
  match s with
  | StateIdle => "idle" | StateNegotiating => "negotiating" | StateConnected => "connected"
  | StateFailed => "failed" | StateClosed => "closed"
  end.

Definition virtualPrefixes : list string :=
  ["docker"; "br-"; "veth"; "virbr"; "vmnet"; "vboxnet";
   "wg"; "netflow"; "utun"; "tun"; "tap";
   "awdl"; "llw"; "anpi"; "ap1"; "bridge"].

Definition DefaultInterfaceFilter (name : string) : bool :=
  let lower := ToLower name in
  negb (existsb (fun p => HasPrefix lower p) virtualPrefixes).

(** [net.IP.To4] on the slices the package holds: four bytes, or sixteen with
    the IPv4-mapped prefix. *)
Definition To4 (ip : list byte) : option (list byte) :=
  if (length ip =? 4)%nat then Some ip
  else if (length ip =? 16)%nat &&
          bool_decide (take 12 ip = repeat Byte.x00 10 ++ [Byte.xff; Byte.xff])
  then Some (drop 12 ip) else None.

Definition byteAt (ip : list byte) (i : nat) : Z := default 0 (byteZ <$> ip !! i).

Definition IsLinkLocalUnicast (ip : list byte) : bool :=
  match To4 ip with
  | Some ip4 => (byteAt ip4 0 =? 169) && (byteAt ip4 1 =? 254)
  | None => (length ip =? 16)%nat && (byteAt ip 0 =? 254) && (Z.land (byteAt ip 1) 192 =? 128)
  end.

Definition IsLinkLocalMulticast (ip : list byte) : bool :=
  match To4 ip with
  | Some ip4 => (byteAt ip4 0 =? 224) && (byteAt ip4 1 =? 0) && (byteAt ip4 2 =? 0)
  | None => (length ip =? 16)%nat && (byteAt ip 0 =? 255) && (Z.land (byteAt ip 1) 15 =? 2)
  end.

Definition DefaultIPFilter (ip : list byte) : bool :=
  negb (IsLinkLocalUnicast ip) && negb (IsLinkLocalMulticast ip).

Inductive CandidateType : Type := Host | ServerReflexive | Relay.

#[global] Instance CandidateType_eq_dec : EqDecision CandidateType.
Proof. solve_decision. Defined.

Definition candidateTypes (c : Config) : list CandidateType :=
  let types := [ServerReflexive; Relay] in
  if negb (c_noHost c) then Host :: types else types.

Inductive NetworkType : Type := UDP4 | UDP6.

Section Config.
(** [stun.ParseURI] is pion's: a parsed address is what it returns. *)
Context {URI : Type} (ParseURI : string -> option URI) (withCredential : URI -> string -> string -> URI).

(** [ice.AgentConfig], as far as it is filled in. *)
Record AgentConfig : Type := mkAgentConfig {
  a_urls : list URI; a_networks : list NetworkType;
  a_ifFilter : string -> bool; a_ipFilter : list byte -> bool; a_loopback : bool;
  a_types : list CandidateType; a_failed : Z; a_disconnected : Z;
  a_relayMinWait : option Z; a_mdnsDisabled : bool }.

(** Parsing a list of addresses, stopping at the first that does not parse. *)
Fixpoint parseURIs (l : list string) : option (list URI) :=
  match l with
  | [] => Some []
  | raw :: l => u ← ParseURI raw; us ← parseURIs l; Some (u :: us)
  end.

Fixpoint parseTURNs (l : list TURNServer) : option (list URI) :=
  match l with
  | [] => Some []
  | t :: l =>
      u ← ParseURI (t_url t); us ← parseTURNs l;
      Some (withCredential u (t_user t) (t_pass t) :: us)
  end.

Definition orDefault (d dflt : Z) : Z := if d <=? 0 then dflt else d.

Definition agentConfig (c : Config) : option AgentConfig :=
  stuns ← (if negb (c_noSTUN c)
           then parseURIs (if (length (c_stun c) =? 0)%nat then DefaultSTUN else c_stun c)
           else Some []);
  turns ← parseTURNs (c_turn c);
  Some (mkAgentConfig (stuns ++ turns)
    (if negb (c_noIPv6 c) then [UDP4; UDP6] else [UDP4])
    (default DefaultInterfaceFilter (c_ifFilter c))
    (default DefaultIPFilter (c_ipFilter c))
    (c_loopback c) (candidateTypes c)
    (orDefault (c_failed c) defaultFailedTimeout)
    (orDefault (c_disconnected c) defaultDisconnectedTimeout)
    (if (0 <? length (c_turn c))%nat then Some (orDefault (c_relayWait c) defaultRelayWait) else None)
    true).

(** what an agent is built with: positive timeouts; a relay hold-back exactly
    when there is a relay to hold back; the relay among the gathered types
    always and the machine's own addresses unless refused; and one address per
    configured server, the relays after the reflexive ones. *)
Theorem agentConfig_sound c a :
  agentConfig c = Some a ->
  0 < a_failed a /\ 0 < a_disconnected a /\
  (c_turn c = [] <-> a_relayMinWait a = None) /\
  (forall w, a_relayMinWait a = Some w -> 0 < w) /\
  Relay ∈ a_types a /\ (Host ∈ a_types a <-> c_noHost c = false) /\
  length (a_urls a) =
    ((if c_noSTUN c then 0 else if (length (c_stun c) =? 0)%nat then 2 else length (c_stun c))
     + length (c_turn c))%nat.
Proof.
  assert (Hlen : forall l us, parseURIs l = Some us -> length us = length l).
  { induction l as [|x l IH]; intros us; simpl; [by intros [= <-]|].
    destruct (ParseURI x); simpl; [|done]. destruct (parseURIs l) as [us'|]; simpl; [|done].
    intros Hus. injection Hus as <-. simpl. f_equal. by apply IH. }
  assert (Hlen' : forall l us, parseTURNs l = Some us -> length us = length l).
  { induction l as [|x l IH]; intros us; simpl; [by intros [= <-]|].
    destruct (ParseURI (t_url x)); simpl; [|done]. destruct (parseTURNs l) as [us'|]; simpl; [|done].
    intros Hus. injection Hus as <-. simpl. f_equal. by apply IH. }
  assert (Hpos : forall d dflt, 0 < dflt -> 0 < orDefault d dflt).
  { intros d dflt Hd. unfold orDefault. destruct (Z.leb_spec d 0); lia. }
  unfold agentConfig. destruct (if negb (c_noSTUN c) then _ else _) as [stuns|] eqn:Es; simpl; [|done].
  destruct (parseTURNs (c_turn c)) as [turns|] eqn:Et; simpl; [|done]. intros [= <-]. simpl.
  splits; try (apply Hpos; vm_compute; reflexivity).
  - destruct (c_turn c); simpl; split; done.
  - intros w. destruct (_ <? _)%nat; [intros [= <-]|done]. apply Hpos. vm_compute. reflexivity.
  - unfold candidateTypes. rewrite list_elem_of_In. destruct (c_noHost c); simpl; tauto.
  - unfold candidateTypes. rewrite list_elem_of_In. destruct (c_noHost c); simpl; split; try tauto.
    all: intros; naive_solver.
  - rewrite length_app, (Hlen' _ _ Et). f_equal.
    destruct (c_noSTUN c); simpl in Es; [by injection Es as <-|].
    rewrite (Hlen _ _ Es). by destruct (_ =? _)%nat.
Qed.

End Config.

Section Controls.
Context `{WGKeys}.

(** [controls]: the greater key offers. *)
Definition controls (local remote : Key) : bool :=
  match String.compare (KeyString local) (KeyString remote) with Gt => true | _ => false end.

Lemma controls_exclusive a b :
  length a = keyLen -> length b = keyLen -> a <> b -> controls a b = negb (controls b a).
Proof.
  intros Ha Hb Hne. unfold controls. rewrite (String.compare_antisym (KeyString a) (KeyString b)).
  destruct (String.compare (KeyString b) (KeyString a)) eqn:E; simpl; [|done..].
  apply String.compare_eq_iff in E. exfalso. apply Hne. symmetry. by apply KeyString_inj.
Qed.
End Controls.

(** ** Witnesses *)

Definition exConfig : Config :=
  mkConfig (exKey 1) [] [mkTURN "turn:relay" "u" "p"] true false false None None false 0 0 0.

Lemma agentConfig_sound_witness :
  exists a, agentConfig (URI := string) Some (fun u _ _ => u) exConfig = Some a /\
    a_relayMinWait a = Some (8 * Second) /\ length (a_urls a) = 3%nat.
Proof.
  eexists. split; [reflexivity|]. split; [reflexivity|].
  pose proof (agentConfig_sound (URI := string) Some (fun u _ _ => u) exConfig _ eq_refl) as H.
  exact (proj2 (proj2 (proj2 (proj2 (proj2 (proj2 H)))))).
Defined.

End P2P.
