(* ===== verification/Session.v ===== *)
(** * internal/p2p/session.go: one attempt to reach one peer.

    A [Session] is the fields its lock protects.  [exec] runs it: [Start] is cut
    at its lock sections and at every call that blocks or can fail, so that the
    events of the other goroutines (credentials and candidates arriving, the ICE
    agent reporting, [Close]) fall between any two of them. *)
From S2P Require Import Prelude GoStrings Keys P2P.

Module Session.
Import P2P.P2P.

(** What the code closes over but never closes twice without panicking are the
    two channels [credsReady] and [settled]: here, whether each is closed. *)
Record Session : Type := mkSession {
  s_remote : Key; s_controlling : bool; s_cfg : Config; s_onState : bool;
  s_agent : option nat; s_conn : option nat; s_state : State;
  s_ufrag : string; s_pwd : string; s_credsReady : bool; s_settled : bool;
  s_pending : list string; s_closed : bool }.

Definition announceEvery : Z := 2 * Second.

(** Field updates. *)
Definition set_agent (a : option nat) (p : list string) (s : Session) : Session :=
  mkSession (s_remote s) (s_controlling s) (s_cfg s) (s_onState s) a (s_conn s) (s_state s)
    (s_ufrag s) (s_pwd s) (s_credsReady s) (s_settled s) p (s_closed s).
Definition set_state (st : State) (s : Session) : Session :=
  mkSession (s_remote s) (s_controlling s) (s_cfg s) (s_onState s) (s_agent s) (s_conn s) st
    (s_ufrag s) (s_pwd s) (s_credsReady s) (s_settled s) (s_pending s) (s_closed s).
Definition set_creds (u p : string) (s : Session) : Session :=
  mkSession (s_remote s) (s_controlling s) (s_cfg s) (s_onState s) (s_agent s) (s_conn s) (s_state s)
    u p true (s_settled s) (s_pending s) (s_closed s).
Definition set_conn (c : option nat) (s : Session) : Session :=
  mkSession (s_remote s) (s_controlling s) (s_cfg s) (s_onState s) (s_agent s) c (s_state s)
    (s_ufrag s) (s_pwd s) (s_credsReady s) (s_settled s) (s_pending s) (s_closed s).
Definition set_settled (s : Session) : Session :=
  mkSession (s_remote s) (s_controlling s) (s_cfg s) (s_onState s) (s_agent s) (s_conn s) (s_state s)
    (s_ufrag s) (s_pwd s) (s_credsReady s) true (s_pending s) (s_closed s).
Definition set_closed (s : Session) : Session :=
  mkSession (s_remote s) (s_controlling s) (s_cfg s) (s_onState s) None None (s_state s)
    (s_ufrag s) (s_pwd s) (s_credsReady s) (s_settled s) (s_pending s) true.

(** What a session does to the world: notifications, candidates given to an
    agent, things closed, messages for the peer. *)
Inductive out : Type :=
| ONotify (st : State)
| OFeed (agent : nat) (raw : string)
| OCloseConn (conn : nat)
| OCloseAgent (agent : nat)
| OOffer (ufrag pwd : string)
| OAnswer (ufrag pwd : string).

Section Operations.
Context `{WGKeys}.
Context {URI : Type} (ParseURI : string -> option URI) (withCredential : URI -> string -> string -> URI).
(** [ice.UnmarshalCandidate]: whether the line decodes. *)
Context (decodes : string -> bool).

Definition NewSession (local remote : Key) (cfg : Config) (handler : bool) : Session :=
  mkSession remote (controls local remote) cfg handler None None StateIdle "" "" false false [] false.

Definition setState (st : State) (s : Session) : Session * list out :=
  if bool_decide (s_state s = st) || bool_decide (s_state s = StateClosed) then (s, [])
  else (set_state st s, if s_onState s then [ONotify st] else []).

Definition addCandidate (agent : nat) (raw : string) : list out :=
  if decodes raw then [OFeed agent raw] else [].

Definition AddRemoteCandidate (raw : string) (s : Session) : Session * list out :=
  match s_agent s with
  | None => (set_agent None (s_pending s ++ [raw]) s, [])
  | Some agent => (s, addCandidate agent raw)
  end.

(** [SetRemoteCredentials]; closing a closed channel panics. *)
Definition SetRemoteCredentials (ufrag pwd : string) (s : Session) : go (Session * bool) :=
  if bool_decide (s_ufrag s = "") then
    if s_credsReady s then Panic else Ret (set_creds ufrag pwd s, true)
  else Ret (s, bool_decide (s_ufrag s = ufrag) && bool_decide (s_pwd s = pwd)).

Definition Close (s : Session) : Session * list out :=
  if s_closed s then (s, [])
  else
    let '(s', o) := setState StateClosed (set_closed s) in
    (s', match s_conn s with Some c => [OCloseConn c] | None => [] end ++
         match s_agent s with Some a => [OCloseAgent a] | None => [] end ++ o).

Definition announce (ufrag pwd : string) (s : Session) : out :=
  if s_controlling s then OOffer ufrag pwd else OAnswer ufrag pwd.

(** [Path().Kind], from the types of the selected pair's two ends. *)
Definition pathKind (s : Session) (pair : option (CandidateType * CandidateType)) : string :=
  match s_agent s, s_conn s, pair with
  | Some _, Some _, Some (l, r) =>
      if bool_decide (l = Relay) || bool_decide (r = Relay) then "relay" else "direct"
  | _, _, _ => ""
  end.

Definition shortKey (k : Key) : string :=
  let s := KeyString k in
  if (String.length s <=? 8)%nat then s else String.substring 0 8 s.

(** ** Start, with the world around it *)

(** Where [Start] stands. *)
Inductive pc : Type :=
| PNew
| PLock (agent : nat)                           (* in newAgent, agent built *)
| PHeld (agent : nat) (held : list string)      (* delivering what was held *)
| PGather
| PWait
| PDial
| PConn (conn : nat)                            (* Dial returned a path *)
| PSettle
| PReturned (ok : bool).

Record machine : Type := mkMachine {
  m_s : Session; m_pc : pc;
  m_out : list out;                             (* oldest first *)
  m_received : list string;                     (* AddRemoteCandidate's arguments *)
  m_handed : list string;                       (* addCandidate's arguments *)
  m_dialed : option (string * string);          (* what Dial or Accept was given *)
  m_repeat : option (string * string) }.        (* what a live reannounce repeats *)

Inductive event : Type :=
| EvNewAgent (agent : option nat)   (* ice.NewAgent and its callbacks *)
| EvLock                            (* newAgent's lock section *)
| EvDeliver                         (* one held candidate *)
| EvAnnounce (creds : option (string * string)) (sent : bool)
| EvGather (ok : bool)
| EvCancelled                       (* ctx.Done() chosen by the select *)
| EvReady                           (* credsReady chosen by the select *)
| EvDialed (conn : option nat)
| EvConn
| EvSettle
| EvTick (cancelled : bool)         (* reannounce's ticker *)
| EvIceFailed                       (* the agent reports failure *)
| EvCreds (ufrag pwd : string)
| EvCandidate (raw : string)
| EvClose.

Definition put (m : machine) (so : Session * list out) (p : pc) : machine :=
  mkMachine so.1 p (m_out m ++ so.2) (m_received m) (m_handed m) (m_dialed m) (m_repeat m).

(** One round of [reannounce]'s loop, if it still runs. *)
Definition reannounce (cancelled : bool) (m : machine) : machine :=
  let s := m_s m in
  match m_repeat m with
  | None => m
  | Some (u, p) =>
      if cancelled || s_settled s
      then mkMachine s (m_pc m) (m_out m) (m_received m) (m_handed m) (m_dialed m) None
      else put m (s, [announce u p s]) (m_pc m)
  end.

Definition exec (m : machine) (e : event) : go machine :=
  let s := m_s m in
  match e, m_pc m with
  | EvNewAgent a, PNew =>
      Ret (match agentConfig ParseURI withCredential (s_cfg s), a with
           | Some _, Some a => put m (s, []) (PLock a)
           | _, _ => put m (s, []) (PReturned false)
           end)
  | EvLock, PLock a =>
      Ret (if s_closed s then put m (s, [OCloseAgent a]) (PReturned false)
           else put m (set_agent (Some a) [] s, []) (PHeld a (s_pending s)))
  | EvDeliver, PHeld a (raw :: held) =>
      Ret (mkMachine s (PHeld a held) (m_out m ++ addCandidate a raw) (m_received m)
             (m_handed m ++ [raw]) (m_dialed m) (m_repeat m))
  | EvAnnounce creds sent, PHeld a [] =>
      let '(s1, o1) := setState StateNegotiating s in
      Ret (match creds with
           | None => put m (s1, o1) (PReturned false)
           | Some (u, p) =>
               if sent
               then mkMachine s1 PGather (m_out m ++ o1 ++ [announce u p s1]) (m_received m)
                      (m_handed m) (m_dialed m) (Some (u, p))
               else put m (s1, o1) (PReturned false)
           end)
  | EvGather ok, PGather => Ret (put m (s, []) (if ok then PWait else PReturned false))
  | EvCancelled, PWait => Ret (put m (s, []) (PReturned false))
  | EvReady, PWait =>
      Ret (if s_credsReady s
           then mkMachine s PDial (m_out m) (m_received m) (m_handed m)
                  (Some (s_ufrag s, s_pwd s)) (m_repeat m)
           else m)
  | EvDialed None, PDial => Ret (put m (setState StateFailed s) (PReturned false))
  | EvDialed (Some c), PDial => Ret (put m (s, []) (PConn c))
  | EvConn, PConn c => Ret (put m (set_conn (Some c) s, []) PSettle)
  | EvSettle, PSettle =>
      if s_settled s then Panic
      else Ret (put m (setState StateConnected (set_settled s)) (PReturned true))
  | EvTick cancelled, _ => Ret (reannounce cancelled m)
  | EvIceFailed, _ => Ret (put m (setState StateFailed s) (m_pc m))
  | EvCreds u p, _ => '(s', _) ← SetRemoteCredentials u p s; Ret (put m (s', []) (m_pc m))
  | EvCandidate raw, _ =>
      let '(s', o) := AddRemoteCandidate raw s in
      Ret (mkMachine s' (m_pc m) (m_out m ++ o) (m_received m ++ [raw])
             (m_handed m ++ match s_agent s with Some _ => [raw] | None => [] end)
             (m_dialed m) (m_repeat m))
  | EvClose, _ => Ret (put m (Close s) (m_pc m))
  | _, _ => Ret m
  end.

Fixpoint execs (m : machine) (es : list event) : go machine :=
  match es with [] => Ret m | e :: es => m' ← exec m e; execs m' es end.

Definition start (s : Session) : machine := mkMachine s PNew [] [] [] None None.

(** ** The invariant *)

Definition inflight (p : pc) : list string := match p with PHeld _ held => held | _ => [] end.

(** The state the notifications so far leave a listener in. *)
Fixpoint heard (st : State) (o : list out) : State :=
  match o with
  | [] => st
  | ONotify st' :: o => heard st' o
  | _ :: o => heard st o
  end.

(** Notifications that each change the state, and none after [StateClosed]. *)
Fixpoint coherent (st : State) (o : list out) : Prop :=
  match o with
  | [] => True
  | ONotify st' :: o => st <> st' /\ st <> StateClosed /\ coherent st' o
  | _ :: o => coherent st o
  end.

(** No agent yet. *)
Definition early (p : pc) : bool := match p with PNew | PLock _ => true | _ => false end.

(** What a listener that heard [o] knows of a session in state [st]. *)
Definition told (s : Session) (o : list out) : Prop :=
  s_onState s = true -> coherent StateIdle o /\ heard StateIdle o = s_state s.

Record Inv (m : machine) : Prop := {
  inv_kept : m_received m ≡ₚ m_handed m ++ inflight (m_pc m) ++ s_pending (m_s m);
  inv_early : early (m_pc m) = true -> s_agent (m_s m) = None /\ m_handed m = [] /\
    m_received m = s_pending (m_s m);
  inv_told : told (m_s m) (m_out m);
  inv_settled : s_settled (m_s m) = true -> m_pc m = PReturned true;
  inv_creds : s_ufrag (m_s m) = "" <-> s_credsReady (m_s m) = false;
  inv_dialed : forall c, m_dialed m = Some c ->
    c = (s_ufrag (m_s m), s_pwd (m_s m)) /\ s_ufrag (m_s m) <> "" }.

(** Credentials as the peer's agent makes them: pion never produces an empty
    [ufrag]. *)
Definition sound (e : event) : Prop := match e with EvCreds u _ => u <> "" | _ => True end.

(** ** Lemmas *)

Lemma heard_app st o1 o2 : heard st (o1 ++ o2) = heard (heard st o1) o2.
Proof. revert st. induction o1 as [|[] o1 IH]; intros; simpl; auto. Qed.

Lemma coherent_app st o1 o2 :
  coherent st (o1 ++ o2) <-> coherent st o1 /\ coherent (heard st o1) o2.
Proof. revert st. induction o1 as [|[] o1 IH]; intros; simpl; rewrite ?IH; tauto. Qed.

(** Outputs that notify nobody. *)
Definition quiet (o : list out) : Prop := forall st, heard st o = st /\ coherent st o.

Lemma quiet_nil : quiet [].
Proof. done. Qed.

Lemma quiet_cons x o : (forall st, x <> ONotify st) -> quiet o -> quiet (x :: o).
Proof. intros Hx Ho st. destruct x; simpl; try apply Ho. by destruct (Hx st0). Qed.

Lemma quiet_app o1 o2 : quiet o1 -> quiet o2 -> quiet (o1 ++ o2).
Proof.
  intros H1 H2 st. rewrite heard_app, coherent_app. destruct (H1 st) as [-> ?].
  destruct (H2 st). done.
Qed.

Lemma quiet_announce u p s : quiet [announce u p s].
Proof. unfold announce. destruct (s_controlling s); done. Qed.

Lemma quiet_addCandidate a raw : quiet (addCandidate a raw).
Proof. unfold addCandidate. destruct (decodes raw); done. Qed.

Lemma quiet_opt {A} (f : A -> out) (x : option A) :
  (forall a st, f a <> ONotify st) -> quiet (match x with Some a => [f a] | None => [] end).
Proof. intros Hf. destruct x; [|apply quiet_nil]. by apply quiet_cons. Qed.

Lemma told_quiet s s' o o' :
  told s o -> quiet o' -> s_onState s' = s_onState s -> s_state s' = s_state s -> told s' (o ++ o').
Proof.
  unfold told. intros Ht Hq E1 E2 Hs. rewrite E1 in Hs. destruct (Ht Hs) as [Hc Hh].
  rewrite coherent_app, heard_app, E2, Hh. destruct (Hq (s_state s)). done.
Qed.

Lemma told_setState s o o0 st :
  told s (o ++ o0) -> told (setState st s).1 (o ++ o0 ++ (setState st s).2).
Proof.
  unfold told, setState. rewrite app_assoc. generalize (o ++ o0). clear o o0. intros o Ht.
  case_bool_decide as E1; simpl; [by rewrite app_nil_r|].
  case_bool_decide as E2; simpl; [by rewrite app_nil_r|].
  intros Hs. rewrite Hs. destruct (Ht Hs) as [Hc Hh]. rewrite coherent_app, heard_app, Hh.
  simpl. done.
Qed.

Lemma told_setState' s o st : told s o -> told (setState st s).1 (o ++ (setState st s).2).
Proof. intros Ht. apply (told_setState s o []). by rewrite app_nil_r. Qed.

(** What [setState] leaves alone. *)
Lemma setState_frame st s :
  let s' := (setState st s).1 in
  s_agent s' = s_agent s /\ s_pending s' = s_pending s /\ s_settled s' = s_settled s /\
  s_ufrag s' = s_ufrag s /\ s_pwd s' = s_pwd s /\ s_credsReady s' = s_credsReady s /\
  s_controlling s' = s_controlling s /\ s_onState s' = s_onState s.
Proof. unfold setState. destruct (_ || _); done. Qed.

Lemma Close_frame s :
  let s' := (Close s).1 in
  s_pending s' = s_pending s /\ s_settled s' = s_settled s /\
  s_ufrag s' = s_ufrag s /\ s_pwd s' = s_pwd s /\ s_credsReady s' = s_credsReady s /\
  (s_agent s = None -> s_agent s' = None).
Proof.
  unfold Close. destruct (s_closed s); [done|].
  destruct (setState StateClosed (set_closed s)) as [s' o] eqn:E.
  pose proof (setState_frame StateClosed (set_closed s)) as Hf. rewrite E in Hf. simpl in *.
  naive_solver.
Qed.

Lemma told_Close s o : told s o -> told (Close s).1 (o ++ (Close s).2).
Proof.
  intros Ht. unfold Close. destruct (s_closed s); [simpl; by rewrite app_nil_r|].
  destruct (setState StateClosed (set_closed s)) as [s' o'] eqn:E. simpl.
  pose proof (told_setState (set_closed s) o
    (match s_conn s with Some c => [OCloseConn c] | None => [] end ++
     match s_agent s with Some a => [OCloseAgent a] | None => [] end) StateClosed) as H'.
  rewrite E in H'. simpl in H'. rewrite <- app_assoc in H'. apply H'.
  eapply told_quiet; eauto. apply quiet_app; apply quiet_opt; done.
Qed.

(** The invariant of a step whose session keeps what the invariant reads, up to
    [SetRemoteCredentials]' fields. *)
Lemma put_inv m s' o p :
  Inv m -> told s' (m_out m ++ o) ->
  s_ufrag s' = s_ufrag (m_s m) -> s_pwd s' = s_pwd (m_s m) -> s_credsReady s' = s_credsReady (m_s m) ->
  inflight p ++ s_pending s' ≡ₚ inflight (m_pc m) ++ s_pending (m_s m) ->
  (early p = true -> early (m_pc m) = true /\ s_agent s' = s_agent (m_s m) /\
    s_pending s' = s_pending (m_s m)) ->
  (s_settled s' = true -> p = PReturned true) ->
  Inv (put m (s', o) p).
Proof.
  intros [Hk He Ht Hs Hc Hd] Ht' Eu Ew Er Ep Hearly Hset.
  constructor; simpl; rewrite ?Eu, ?Ew, ?Er; auto.
  - by rewrite Ep.
  - intros Hp. destruct (Hearly Hp) as (Hm & -> & ->). auto.
Qed.

Lemma put_quiet_inv m o p :
  Inv m -> quiet o -> inflight p = inflight (m_pc m) -> (early p = true -> early (m_pc m) = true) ->
  (s_settled (m_s m) = true -> p = PReturned true) ->
  Inv (put m (m_s m, o) p).
Proof.
  intros HI Hq Ei Hearly Hset. apply put_inv; auto; [|by rewrite Ei].
  eapply told_quiet; eauto. apply HI.
Qed.

Lemma put_setState_inv m st p :
  Inv m -> inflight p = inflight (m_pc m) -> (early p = true -> early (m_pc m) = true) ->
  (s_settled (m_s m) = true -> p = PReturned true) ->
  Inv (put m (setState st (m_s m)) p).
Proof.
  intros HI Ei Hearly Hset. destruct (setState_frame st (m_s m)) as (Ea & Ep & Es & Eu & Ew & Er & _).
  rewrite (surjective_pairing (setState st (m_s m))). apply put_inv; auto.
  - apply told_setState', HI.
  - by rewrite Ei, Ep.
  - by rewrite Es.
Qed.

Lemma exec_start_inv m e :
  Inv m -> (exists a, e = EvNewAgent a) \/ e = EvLock \/ e = EvDeliver \/
    (exists c b, e = EvAnnounce c b) \/ (exists b, e = EvGather b) ->
  exists m', exec m e = Ret m' /\ Inv m'.
Proof.
  intros HI He. pose proof HI as [Hk Hearly Ht Hs Hc Hd].
  assert (Hns : forall p, m_pc m = p -> p <> PReturned true -> s_settled (m_s m) = true -> False).
  { intros p Ep Hne Hst. apply Hne. rewrite <- Ep. auto. }
  destruct He as [[a ->]|[->|[->|[(c & b & ->)|[b ->]]]]]; unfold exec;
    destruct (m_pc m) as [|a0|a0 held|  | | | | |ok] eqn:Ep; try (by exists m);
    try (destruct held as [|raw held]); try (by exists m); specialize (Hns _ eq_refl ltac:(done)).
  - eexists. split; [done|]. destruct (agentConfig _ _ _) as [|]; [destruct a|];
      apply put_quiet_inv; rewrite ?Ep; simpl; auto using quiet_nil; tauto.
  - eexists. split; [done|]. destruct (s_closed (m_s m)).
    + apply put_quiet_inv; rewrite ?Ep; simpl; [auto|by apply quiet_cons|done..|tauto].
    + apply put_inv; rewrite ?Ep; simpl; auto; try done; [|by rewrite app_nil_r].
      eapply told_quiet; eauto using quiet_nil.
  - eexists. split; [done|]. constructor; simpl; auto; try done; [|by eapply told_quiet; eauto using quiet_addCandidate].
    rewrite Hk. simpl. by rewrite <- app_assoc.
  - destruct (setState_frame StateNegotiating (m_s m)) as (Ea & Ep' & Es & Eu & Ew & Er & _).
    pose proof (put_setState_inv m StateNegotiating (PReturned false) HI) as Hput.
    pose proof (told_setState' (m_s m) (m_out m) StateNegotiating Ht) as Ht'.
    destruct (setState StateNegotiating (m_s m)) as [s1 o1]. simpl in *. eexists. split; [done|].
    destruct c as [[u p]|]; [destruct b|]; try (apply Hput; rewrite ?Ep; done || tauto).
    constructor; simpl; rewrite ?Ep', ?Eu, ?Er, ?Ew, ?Es; auto; try done; try tauto.
    rewrite app_assoc. eapply told_quiet; eauto using quiet_announce.
  - eexists. split; [done|]. destruct b; apply put_quiet_inv; rewrite ?Ep; simpl; auto using quiet_nil; tauto.
Qed.

Lemma exec_dial_inv m e :
  Inv m -> e = EvCancelled \/ e = EvReady \/ (exists c, e = EvDialed c) \/ e = EvConn \/ e = EvSettle ->
  exists m', exec m e = Ret m' /\ Inv m'.
Proof.
  intros HI He. pose proof HI as [Hk Hearly Ht Hs Hc Hd].
  assert (Hns : forall p, m_pc m = p -> p <> PReturned true -> s_settled (m_s m) = true -> False).
  { intros p Ep Hne Hst. apply Hne. rewrite <- Ep. auto. }
  destruct He as [->|[->|[[c ->]|[->| ->]]]]; unfold exec;
    try (destruct c as [c|]);
    destruct (m_pc m) as [|a0|a0 held|  | | | | |ok] eqn:Ep; try (by exists m);
    specialize (Hns _ eq_refl ltac:(done)).
  - eexists. split; [done|]. apply put_quiet_inv; rewrite ?Ep; simpl; auto using quiet_nil; tauto.
  - destruct (s_credsReady (m_s m)) eqn:Er; [|exists m; split; [done|exact HI]].
    eexists. split; [done|]. constructor; simpl; auto; try done; [by rewrite Er|].
    intros c [= <-]. split; [done|]. intros E. by apply Hc in E.
  - eexists. split; [done|]. apply put_quiet_inv; rewrite ?Ep; simpl; auto using quiet_nil; tauto.
  - eexists. split; [done|]. apply put_setState_inv; rewrite ?Ep; simpl; auto; tauto.
  - eexists. split; [done|]. apply put_inv; rewrite ?Ep; simpl; auto; try done.
    eapply told_quiet; eauto using quiet_nil.
  - destruct (s_settled (m_s m)); [exfalso; by apply Hns|]. eexists. split; [done|].
    destruct (setState_frame StateConnected (set_settled (m_s m))) as (Ea & Epd & Es & Eu & Ew & Er & _).
    rewrite (surjective_pairing (setState _ _)). apply put_inv; rewrite ?Ep, ?Epd; simpl; auto; try done.
    apply told_setState'. unfold told. simpl. exact Ht.
Qed.

Lemma exec_world_inv m e :
  Inv m -> sound e -> (exists b, e = EvTick b) \/ e = EvIceFailed \/ (exists u p, e = EvCreds u p) \/
    (exists raw, e = EvCandidate raw) \/ e = EvClose ->
  exists m', exec m e = Ret m' /\ Inv m'.
Proof.
  intros HI Hsound He. pose proof HI as [Hk Hearly Ht Hs Hc Hd].
  destruct He as [[b ->]|[->|[(u & p & ->)|[[raw ->]| ->]]]]; unfold exec.
  - eexists. split; [done|]. unfold reannounce. cbn zeta. destruct (m_repeat m) as [[u p]|]; [|done].
    destruct (b || s_settled (m_s m)); [by constructor|].
    apply put_quiet_inv; auto using quiet_announce.
  - eexists. split; [done|]. by apply put_setState_inv.
  - unfold SetRemoteCredentials. case_bool_decide as Eu; simpl.
    + destruct (s_credsReady (m_s m)) eqn:Er; [by apply Hc in Eu|]. eexists. split; [done|].
      constructor; simpl; auto; [by eapply told_quiet; eauto using quiet_nil|done|].
      intros c Hdc. by destruct (Hd c Hdc) as [_ []].
    + eexists. split; [done|]. apply put_quiet_inv; auto using quiet_nil.
  - unfold AddRemoteCandidate. destruct (s_agent (m_s m)) as [a|] eqn:Ea; eexists; (split; [done|]).
    + constructor; simpl; auto.
      * rewrite Hk, <- !app_assoc. apply Permutation_app_head.
        by rewrite (Permutation_app_comm [raw]), <- app_assoc.
      * intros Hp. by destruct (Hearly Hp) as [? _].
      * by eapply told_quiet; eauto using quiet_addCandidate.
    + constructor; simpl; auto.
      * rewrite Hk, app_nil_r, <- !app_assoc. done.
      * intros Hp. destruct (Hearly Hp) as (_ & -> & ->). done.
      * by eapply told_quiet; eauto using quiet_nil.
  - eexists. split; [done|]. destruct (Close_frame (m_s m)) as (Epd & Es & Eu & Ew & Er & Ea).
    constructor; simpl; rewrite ?Epd, ?Es, ?Eu, ?Ew, ?Er; auto.
    + intros Hp. destruct (Hearly Hp) as (? & ? & ?). auto.
    + by apply told_Close.
Qed.

Lemma exec_inv m e : Inv m -> sound e -> exists m', exec m e = Ret m' /\ Inv m'.
Proof.
  intros HI Hs. destruct e; first
    [ apply exec_start_inv; [exact HI|oneway]
    | apply exec_dial_inv; [exact HI|oneway]
    | apply exec_world_inv; [exact HI|exact Hs|oneway] ].
Qed.

Lemma execs_inv es m : Inv m -> Forall sound es -> exists m', execs m es = Ret m' /\ Inv m'.
Proof.
  intros HI Hs. revert m HI. induction Hs as [|e es He _ IH]; intros m HI; simpl; [by exists m|].
  destruct (exec_inv m e HI He) as (m' & -> & HI'). simpl. by apply IH.
Qed.

Lemma session_start_inv local remote cfg handler : Inv (start (NewSession local remote cfg handler)).
Proof. constructor; simpl; done. Qed.


(** The credentials a run of events offers first. *)
Fixpoint firstCreds (es : list event) : option (string * string) :=
  match es with
  | [] => None
  | EvCreds u p :: _ => Some (u, p)
  | _ :: es => firstCreds es
  end.

(** What only [SetRemoteCredentials] changes. *)
Definition sameCreds (s s' : Session) : Prop := s_ufrag s' = s_ufrag s /\ s_pwd s' = s_pwd s.

Lemma exec_creds m e m' :
  exec m e = Ret m' ->
  s_onState (m_s m') = s_onState (m_s m) /\
  ((forall u p, e <> EvCreds u p) -> sameCreds (m_s m) (m_s m')).
Proof.
  assert (HS : forall st s, sameCreds s (setState st s).1 /\ s_onState (setState st s).1 = s_onState s).
  { intros st s. destruct (setState_frame st s) as (_ & _ & _ & ? & ? & _ & _ & ?). done. }
  assert (HC : forall s, sameCreds s (Close s).1 /\ s_onState (Close s).1 = s_onState s).
  { intros s. destruct (Close_frame s) as (_ & _ & ? & ? & _). split; [done|].
    unfold Close. destruct (s_closed s); [done|].
    destruct (HS StateClosed (set_closed s)) as [_ E]. by destruct (setState _ _). }
  assert (HA : forall raw s, sameCreds s (AddRemoteCandidate raw s).1 /\
                 s_onState (AddRemoteCandidate raw s).1 = s_onState s).
  { intros raw s. unfold AddRemoteCandidate. by destruct (s_agent s). }
  assert (Hsame : m' = m -> s_onState (m_s m') = s_onState (m_s m) /\
                   ((forall u p, e <> EvCreds u p) -> sameCreds (m_s m) (m_s m'))) by (by intros ->).
  destruct (HS StateNegotiating (m_s m)), (HS StateFailed (m_s m)), (HC (m_s m)),
    (HS StateConnected (set_settled (m_s m))).
  intros E. destruct e; unfold exec, reannounce in E; cbn zeta in E.
  13: { unfold SetRemoteCredentials in E. repeat case_on_match; simplify_eq; simpl in *; simplify_eq;
        simpl; (split; [done|]); intros Hn; by destruct (Hn ufrag pwd). }
  13: { destruct (HA raw (m_s m)) as [? ?]. destruct (AddRemoteCandidate raw (m_s m)). by simplify_eq. }
  all: repeat (case_on_match; try discriminate E); try (injection E as <-; simpl in *; by auto).
  all: repeat case_on_match; simplify_eq; simpl in *; auto.
Qed.

Lemma execs_onState es m m' : execs m es = Ret m' -> s_onState (m_s m') = s_onState (m_s m).
Proof.
  revert m. induction es as [|e es IH]; intros m E; simpl in E; [by injection E as <-|].
  destruct (exec m e) as [m1|] eqn:E1; [|done]. simpl in E. rewrite (IH _ E).
  apply (exec_creds _ _ _ E1).
Qed.

Lemma execs_creds es m m' :
  execs m es = Ret m' -> Forall sound es ->
  (s_ufrag (m_s m) <> "" -> s_ufrag (m_s m') = s_ufrag (m_s m) /\ s_pwd (m_s m') = s_pwd (m_s m)) /\
  (s_ufrag (m_s m) = "" -> s_pwd (m_s m) = "" ->
    (s_ufrag (m_s m'), s_pwd (m_s m')) = default ("", "") (firstCreds es)).
Proof.
  intros E Hs. revert m E. induction Hs as [|e es He Hs IH]; intros m E; simpl in E.
  { injection E as <-. split; [done|]. by intros -> ->. }
  destruct (exec m e) as [m1|] eqn:E1; [|done]. simpl in E. specialize (IH m1 E) as [IH1 IH2].
  assert (Hother : (forall u p, e <> EvCreds u p) -> firstCreds (e :: es) = firstCreds es).
  { intros Hn. destruct e; try done. by destruct (Hn ufrag pwd). }
  destruct e as [ | | | | | | | | | | | |u p| | ];
    try (destruct (proj2 (exec_creds _ _ _ E1) ltac:(done)) as [Eu Ep]; rewrite Hother by done;
         rewrite <- Eu, <- Ep; by auto).
  clear Hother. unfold exec, SetRemoteCredentials in E1. simpl in He. split.
  - intros Hne. rewrite bool_decide_false in E1 by done. injection E1 as <-. by apply IH1.
  - intros Eu _. rewrite bool_decide_true in E1 by done.
    destruct (s_credsReady (m_s m)); [done|]. injection E1 as <-. simpl in *.
    by destruct (IH1 He) as [-> ->].
Qed.

(** C13: whatever the order in which credentials, candidates, failures and [Close]
    arrive, an attempt never panics, and it dials with the first credentials the
    peer sent and no others. *)
Theorem Start_never_panics local remote cfg handler es :
  Forall sound es ->
  exists m, execs (start (NewSession local remote cfg handler)) es = Ret m /\
    (s_settled (m_s m) = true -> m_pc m = PReturned true) /\
    (forall c, m_dialed m = Some c -> firstCreds es = Some c).
Proof.
  intros Hs. destruct (execs_inv es _ (session_start_inv local remote cfg handler) Hs) as (m & E & HI).
  exists m. split; [done|]. split; [apply HI|]. intros c Hc.
  destruct (inv_dialed m HI c Hc) as [-> Hne].
  destruct (execs_creds _ _ _ E Hs) as [_ H2]. specialize (H2 eq_refl eq_refl).
  destruct (firstCreds es) as [[u p]|]; simpl in H2; [by rewrite H2|]. by injection H2 as ? ?.
Qed.

(** C12: no candidate is lost or duplicated: what arrived is what was given to the
    agent, what [newAgent] is delivering, and what waits for an agent; before
    there is one, it waits in the order it came in. *)
Theorem candidates_kept local remote cfg handler es m :
  Forall sound es ->
  execs (start (NewSession local remote cfg handler)) es = Ret m ->
  m_received m ≡ₚ m_handed m ++ inflight (m_pc m) ++ s_pending (m_s m) /\
  (early (m_pc m) = true -> m_handed m = [] /\ s_pending (m_s m) = m_received m).
Proof.
  intros Hs E. destruct (execs_inv es _ (session_start_inv local remote cfg handler) Hs) as (m' & E' & HI).
  rewrite E in E'. injection E' as <-. split; [apply HI|]. intros Hp.
  destruct (inv_early m HI Hp) as (_ & ? & ?). done.
Qed.

(** a listener hears each state once, always a different one, knows the
    session's current state from what it heard, and hears nothing after
    [StateClosed]. *)
Theorem notifications_coherent local remote cfg es m :
  Forall sound es ->
  execs (start (NewSession local remote cfg true)) es = Ret m ->
  coherent StateIdle (m_out m) /\ heard StateIdle (m_out m) = s_state (m_s m).
Proof.
  intros Hs E. pose proof (execs_onState _ _ _ E) as Hh. destruct (execs_inv es _ (session_start_inv local remote cfg true) Hs) as (m' & E' & HI).
  rewrite E in E'. injection E' as <-. by apply (inv_told m HI).
Qed.

(** an empty [ufrag], which a message with no sealed body carries, is adopted
    without marking the credentials as present: the second one closes
    [credsReady] again and panics. *)
Theorem empty_ufrag_panics local remote cfg handler pwd1 pwd2 :
  exists s, SetRemoteCredentials "" pwd1 (NewSession local remote cfg handler) = Ret (s, true) /\
    SetRemoteCredentials "" pwd2 s = Panic.
Proof. eexists. split; reflexivity. Qed.


End Operations.

(** ** Witnesses *)

Definition exEvents : list event :=
  [EvCandidate "a"; EvNewAgent (Some 7%nat); EvCandidate "b"; EvLock; EvDeliver; EvDeliver;
   EvAnnounce (Some ("uf", "pw")) true; EvGather true; EvCandidate "c"; EvCreds "ru" "rp";
   EvReady; EvTick false; EvDialed (Some 3%nat); EvConn; EvSettle; EvClose].

Definition exRun : go machine :=
  execs (URI := string) Some (fun u _ _ => u) (fun _ => true)
    (start (NewSession (exKey 2) (exKey 1) exConfig true)) exEvents.

Definition exMachine : machine :=
  match exRun with Ret m => m | Panic => start (NewSession (exKey 2) (exKey 1) exConfig true) end.

Example exMachine_out : m_out exMachine =
  [OFeed 7 "a"; OFeed 7 "b"; ONotify StateNegotiating; OOffer "uf" "pw"; OFeed 7 "c"; OOffer "uf" "pw";
   ONotify StateConnected; OCloseConn 3; OCloseAgent 7; ONotify StateClosed].
Proof. vm_compute. reflexivity. Qed.

Lemma Start_never_panics_witness :
  exists m, exRun = Ret m /\
    (s_settled (m_s m) = true -> m_pc m = PReturned true) /\
    (forall c, m_dialed m = Some c -> firstCreds exEvents = Some c).
Proof.
  apply (Start_never_panics (URI := string) Some (fun u _ _ => u) (fun _ => true)
    (exKey 2) (exKey 1) exConfig true exEvents).
  repeat constructor; discriminate.
Defined.

Lemma candidates_kept_witness :
  m_received exMachine ≡ₚ m_handed exMachine ++ inflight (m_pc exMachine) ++ s_pending (m_s exMachine) /\
  (early (m_pc exMachine) = true -> m_handed exMachine = [] /\
     s_pending (m_s exMachine) = m_received exMachine).
Proof.
  apply (candidates_kept (URI := string) Some (fun u _ _ => u) (fun _ => true)
    (exKey 2) (exKey 1) exConfig true exEvents); [repeat constructor; discriminate|].
  vm_compute. reflexivity.
Defined.

Lemma notifications_coherent_witness :
  coherent StateIdle (m_out exMachine) /\
  heard StateIdle (m_out exMachine) = s_state (m_s exMachine).
Proof.
  apply (notifications_coherent (URI := string) Some (fun u _ _ => u) (fun _ => true)
    (exKey 2) (exKey 1) exConfig exEvents); [repeat constructor; discriminate|vm_compute; reflexivity].
Defined.


End Session.
