(* ===== verification/SessionEnd.v ===== *)
(** * How an attempt ends and what it leaves (internal/p2p/session.go).

    [connectOnce] calls [Start] and, whatever it returned, [Close].  Here [Start]
    is shown to come to its end once its context has ended, and the two together to
    give back what they took: the agent and the path are closed, once each. *)
From S2P Require Import Prelude GoStrings Keys P2P Session.

Module SessionEnd.
Import P2P.P2P Session.Session.

Section SessionEnd.
Context `{WGKeys}.
Context {URI : Type} (ParseURI : string -> option URI) (withCredential : URI -> string -> string -> URI).
Context (decodes : string -> bool).
Notation exec := (exec ParseURI withCredential decodes).
Notation execs := (execs ParseURI withCredential decodes).

(** ** The moves of Start *)

Definition own (m : machine) (e : event) : bool :=
  match e, m_pc m with
  | EvNewAgent _, PNew | EvLock, PLock _ | EvDeliver, PHeld _ (_ :: _) | EvAnnounce _ _, PHeld _ [] | EvGather _, PGather
  | EvCancelled, PWait | EvDialed _, PDial | EvConn, PConn _ | EvSettle, PSettle => true
  | EvReady, PWait => s_credsReady (m_s m)
  | _, _ => false
  end.

(** What is left of [Start]: its own moves, and one for each candidate it will
    deliver. *)
Definition todo (m : machine) : nat :=
  match m_pc m with
  | PNew => 8 + length (s_pending (m_s m))
  | PLock _ => 7 + length (s_pending (m_s m))
  | PHeld _ held => 6 + length held
  | PGather => 5 | PWait => 4 | PDial => 3 | PConn _ => 2 | PSettle => 1
  | PReturned _ => 0
  end.

Definition isCandidate (e : event) : bool := match e with EvCandidate _ => true | _ => false end.

Fixpoint moves (m : machine) (es : list event) : nat :=
  match es with
  | [] => 0
  | e :: es => match exec m e with Ret m' => (if own m e then 1 else 0) + moves m' es | Panic => 0 end
  end.

(** ** What a run takes, and what it gives back *)

(** The agents that were made and the paths that were found, in a run. *)
Fixpoint agents (m : machine) (es : list event) : list nat :=
  match es with
  | [] => []
  | e :: es =>
      match exec m e with
      | Ret m' => match m_pc m, m_pc m' with PNew, PLock a => a :: agents m' es | _, _ => agents m' es end
      | Panic => []
      end
  end.
Fixpoint paths (m : machine) (es : list event) : list nat :=
  match es with
  | [] => []
  | e :: es =>
      match exec m e with
      | Ret m' => match m_pc m, m_pc m' with PDial, PConn c => c :: paths m' es | _, _ => paths m' es end
      | Panic => []
      end
  end.

Definition closedAgents (o : list out) : list nat := omap (fun x => match x with OCloseAgent a => Some a | _ => None end) o.
Definition closedPaths (o : list out) : list nat := omap (fun x => match x with OCloseConn c => Some c | _ => None end) o.

(** Who holds the agents [as_] that were made so far: the session, or nobody any
    more. *)
Record heldAgents (as_ : list nat) (m : machine) : Prop := {
  ha_owned : match m_pc m with
    | PNew => as_ = [] /\ s_agent (m_s m) = None /\ closedAgents (m_out m) = []
    | PLock a => as_ = [a] /\ s_agent (m_s m) = None /\ closedAgents (m_out m) = []
    | _ => (as_ = option_list (s_agent (m_s m)) /\ closedAgents (m_out m) = []) \/
           (s_agent (m_s m) = None /\ closedAgents (m_out m) = as_)
    end;
  ha_closed : s_closed (m_s m) = true -> s_agent (m_s m) = None }.

(** The same of the paths, while nobody has closed the session. *)
Record heldPaths (cs : list nat) (m : machine) : Prop := {
  hp_open : s_closed (m_s m) = false;
  hp_none : closedPaths (m_out m) = [];
  hp_owned : match m_pc m with
    | PConn c => cs = [c] /\ s_conn (m_s m) = None
    | PSettle | PReturned _ => cs = option_list (s_conn (m_s m))
    | _ => cs = [] /\ s_conn (m_s m) = None
    end }.

(** ** Lemmas *)

Lemma closedAgents_app o o' : closedAgents (o ++ o') = closedAgents o ++ closedAgents o'.
Proof. apply omap_app. Qed.
Lemma closedPaths_app o o' : closedPaths (o ++ o') = closedPaths o ++ closedPaths o'.
Proof. apply omap_app. Qed.

(** [setState], the announcements and the candidates close nothing. *)
Definition closesNothing (o : list out) : Prop := closedAgents o = [] /\ closedPaths o = [].

Lemma setState_closes st s : closesNothing (setState st s).2.
Proof. unfold setState. destruct (_ || _); [done|]. by destruct (s_onState s). Qed.
Lemma announce_closes u p s : closesNothing [announce u p s].
Proof. unfold announce. by destruct (s_controlling s). Qed.
Lemma addCandidate_closes a raw : closesNothing (addCandidate decodes a raw).
Proof. unfold addCandidate. by destruct (decodes raw). Qed.

Lemma setState_held st s :
  s_agent (setState st s).1 = s_agent s /\ s_conn (setState st s).1 = s_conn s /\ s_closed (setState st s).1 = s_closed s /\
  s_pending (setState st s).1 = s_pending s.
Proof. unfold setState. by destruct (_ || _). Qed.

Lemma Close_held s :
  s_agent (Close s).1 = (if s_closed s then s_agent s else None) /\ s_closed (Close s).1 = true /\
  closedAgents (Close s).2 = (if s_closed s then [] else option_list (s_agent s)) /\
  closedPaths (Close s).2 = (if s_closed s then [] else option_list (s_conn s)) /\
  s_pending (Close s).1 = s_pending s.
Proof.
  unfold Close. destruct (s_closed s) eqn:Ec; [done|].
  destruct (setState_held StateClosed (set_closed s)) as (Ea & _ & Ecl & Ep).
  destruct (setState_closes StateClosed (set_closed s)) as [C1 C2].
  destruct (setState StateClosed (set_closed s)) as [s' o]. cbn [fst snd] in *.
  rewrite !closedAgents_app, !closedPaths_app, C1, C2, !app_nil_r, Ea, Ecl, Ep. cbn.
  by destruct (s_conn s), (s_agent s).
Qed.

(** What a step takes. *)
Definition takenAgent (m m' : machine) : list nat := match m_pc m, m_pc m' with PNew, PLock a => [a] | _, _ => [] end.
Definition takenPath (m m' : machine) : list nat := match m_pc m, m_pc m' with PDial, PConn c => [c] | _, _ => [] end.

Definition late (p : pc) : bool := match p with PNew | PLock _ => false | _ => true end.

(** A step that takes and closes nothing, and leaves the session the path [c]. *)
Record harmless (c : option nat) (m m' : machine) : Prop := {
  hl_out : exists o, m_out m' = m_out m ++ o /\ closesNothing o;
  hl_agent : s_agent (m_s m') = s_agent (m_s m);
  hl_closed : s_closed (m_s m') = s_closed (m_s m);
  hl_conn : s_conn (m_s m') = c;
  hl_pc : m_pc m' = m_pc m \/ (late (m_pc m') = true /\ late (m_pc m) = true) }.

Lemma harmless_refl m : harmless (s_conn (m_s m)) m m.
Proof. split; try done; [|by left]. exists []. by rewrite app_nil_r. Qed.

(** The next step of a machine whose session kept its agent. *)
Lemma harmless_make c m s o p rec hand dial rep :
  closesNothing o -> s_agent s = s_agent (m_s m) -> s_closed s = s_closed (m_s m) -> s_conn s = c ->
  p = m_pc m \/ (late p = true /\ late (m_pc m) = true) ->
  harmless c m (mkMachine s p (m_out m ++ o) rec hand dial rep).
Proof. intros. split; cbn; auto. by exists o. Qed.

Lemma harmless_put c m s o p :
  closesNothing o -> s_agent s = s_agent (m_s m) -> s_closed s = s_closed (m_s m) -> s_conn s = c ->
  p = m_pc m \/ (late p = true /\ late (m_pc m) = true) -> harmless c m (put m (s, o) p).
Proof. apply harmless_make. Qed.

Lemma harmless_setState c m st s p :
  s_agent s = s_agent (m_s m) -> s_closed s = s_closed (m_s m) -> s_conn s = c ->
  p = m_pc m \/ (late p = true /\ late (m_pc m) = true) -> harmless c m (put m (setState st s) p).
Proof.
  intros E1 E2 E3 Hp. rewrite (surjective_pairing (setState st s)). destruct (setState_held st s) as (Ea & Ecn & Ec & _).
  apply harmless_put; rewrite ?Ea, ?Ecn, ?Ec; auto. apply setState_closes.
Qed.

Lemma nothing_closed : closesNothing [].
Proof. done. Qed.

(** Everything [Start] does after [newAgent], and everything the world does but
    [Close], is of that kind. *)
Definition plain (m : machine) (e : event) : bool :=
  match e, m_pc m with EvNewAgent _, PNew | EvLock, PLock _ | EvClose, _ => false | _, _ => true end.
Definition connAfter (m : machine) (e : event) : option nat :=
  match e, m_pc m with EvConn, PConn c => Some c | _, _ => s_conn (m_s m) end.

Lemma plain_announce m creds sent m' :
  exec m (EvAnnounce creds sent) = Ret m' -> harmless (s_conn (m_s m)) m m'.
Proof.
  unfold exec. cbn zeta. destruct (m_pc m) as [|a0|a0 [|x held]|  | | | | |ok0] eqn:Ep; try (intros [= <-]; apply harmless_refl).
  pose proof (setState_held StateNegotiating (m_s m)) as (Ea & Ecn & Ec & _).
  pose proof (setState_closes StateNegotiating (m_s m)) as Ho.
  destruct (setState StateNegotiating (m_s m)) as [s1 o1]. cbn [fst snd] in *. intros [= <-].
  assert (Hp : forall p, late p = true -> p = m_pc m \/ (late p = true /\ late (m_pc m) = true)) by (intros; rewrite Ep; by right).
  destruct creds as [[u p]|]; [destruct sent|]; try (apply harmless_put; auto; done).
  apply harmless_make; auto. destruct Ho as [H1 H2], (announce_closes u p s1) as [H3 H4].
  split; [by rewrite closedAgents_app, H1, H3|by rewrite closedPaths_app, H2, H4].
Qed.

Lemma plain_world m e m' :
  (exists b, e = EvTick b) \/ e = EvIceFailed \/ (exists u p, e = EvCreds u p) \/ (exists raw, e = EvCandidate raw) ->
  exec m e = Ret m' -> harmless (s_conn (m_s m)) m m'.
Proof.
  intros [[b ->]|[->|[(u & p & ->)|[raw ->]]]]; unfold exec; cbn zeta.
  - intros [= <-]. unfold reannounce. destruct (m_repeat m) as [[u p]|]; [|apply harmless_refl].
    destruct (b || _); [|by apply harmless_put; auto using announce_closes].
    split; cbn; auto. exists []. by rewrite app_nil_r.
  - intros [= <-]. apply harmless_setState; auto.
  - unfold SetRemoteCredentials. case_bool_decide; [destruct (s_credsReady (m_s m)); [done|]|]; intros [= <-];
      apply harmless_put; auto using nothing_closed.
  - unfold AddRemoteCandidate. destruct (s_agent (m_s m)) as [a|] eqn:Ea; intros [= <-];
      apply harmless_make; auto using nothing_closed, addCandidate_closes.
Qed.

Lemma plain_step m e m' : plain m e = true -> exec m e = Ret m' -> harmless (connAfter m e) m m'.
Proof.
  intros Hp E. unfold connAfter. destruct e as [a| | |creds sent|ok| | |[c|]| | |b| |u p|raw| ].
  4: by eapply plain_announce.
  11-14: eapply plain_world; [|exact E]; oneway.
  all: unfold exec, plain in *; cbn zeta in *;
    destruct (m_pc m) as [|a0|a0 [|x held]|  | | | | |ok0] eqn:Ep; try done; try (injection E as <-; by apply harmless_refl).
  all: assert (Hl : forall p, late p = true -> p = m_pc m \/ (late p = true /\ late (m_pc m) = true)) by (intros; rewrite Ep; by right).
  - injection E as <-. apply harmless_make; auto using addCandidate_closes.
  - injection E as <-. apply harmless_put; auto using nothing_closed. apply Hl. by destruct ok.
  - injection E as <-. apply harmless_put; auto using nothing_closed.
  - destruct (s_credsReady (m_s m)); injection E as <-; [|by apply harmless_refl].
    split; cbn; auto. exists []. by rewrite app_nil_r.
  - injection E as <-. apply harmless_put; auto using nothing_closed.
  - injection E as <-. apply harmless_setState; auto.
  - injection E as <-. apply harmless_put; auto using nothing_closed.
  - destruct (s_settled (m_s m)); [done|]. injection E as <-. apply harmless_setState; auto.
Qed.

Lemma agents_harmless as_ c m m' : heldAgents as_ m -> harmless c m m' -> heldAgents (as_ ++ takenAgent m m') m'.
Proof.
  intros [Ho Hc] [(o & Eo & E0 & _) Ea Ec _ Hp].
  assert (Et : takenAgent m m' = []) by (unfold takenAgent; destruct Hp as [->|[Hp _]]; [by destruct (m_pc m)|by destruct (m_pc m), (m_pc m')]).
  rewrite Et, app_nil_r. split; rewrite ?Eo, ?Ea, ?Ec, ?closedAgents_app, ?E0, ?app_nil_r; [|done].
  destruct Hp as [->|[Hp Hm]]; [done|]. by destruct (m_pc m'), (m_pc m).
Qed.

Lemma agents_Close as_ m :
  heldAgents as_ m -> heldAgents as_ (put m (Close (m_s m)) (m_pc m)).
Proof.
  intros [Ho Hc]. destruct (Close_held (m_s m)) as (Ea & Ecl & Ca & _).
  split; cbn; rewrite ?Ea, ?Ecl, ?closedAgents_app, ?Ca; destruct (s_closed (m_s m)) eqn:E;
    rewrite ?app_nil_r; auto.
  destruct (m_pc m); try (destruct Ho as (? & Hn & ->); rewrite ?Hn; cbn; by auto);
    destruct Ho as [[-> ->]|[-> <-]]; cbn; rewrite ?app_nil_r; auto.
Qed.

Lemma agents_step as_ m e m' : heldAgents as_ m -> exec m e = Ret m' -> heldAgents (as_ ++ takenAgent m m') m'.
Proof.
  intros Hh E. destruct (plain m e) eqn:Hp; [eapply agents_harmless; [done|by eapply plain_step]|].
  pose proof Hh as [Ho Hc]. unfold plain in Hp.
  destruct e as [a| | |creds sent|ok| | |[c|]| | |b| |u p|raw| ]; try done; unfold exec in E; cbn zeta in E.
  3: { injection E as <-. unfold takenAgent. cbn. replace (match m_pc m with PNew => _ | _ => [] end) with (@nil nat) by (by destruct (m_pc m)).
       rewrite app_nil_r. by apply agents_Close. }
  all: destruct (m_pc m) as [|a0|a0 [|x held]|  | | | | |ok0] eqn:Ep; try done; destruct Ho as (-> & Hn & Hcl).
  - injection E as <-. unfold takenAgent. rewrite Ep. destruct (agentConfig _ _ _); [destruct a|]; split; cbn; rewrite ?app_nil_r, ?Hn; auto.
  - injection E as <-. unfold takenAgent. rewrite Ep. destruct (s_closed (m_s m)) eqn:Ec; (split; cbn; rewrite ?closedAgents_app, ?Hcl, ?Ec; cbn; auto; done).
Qed.

(** Where [Start] goes, and who moves it. *)
Lemma pc_step m e m' : exec m e = Ret m' -> m_pc m' = m_pc m \/ own m e = true.
Proof.
  intros E. destruct e as [a| | |creds sent|ok| | |[c|]| | |b| |u p|raw| ]; unfold exec, own in *; cbn zeta in *.
  12: { left. injection E as <-. unfold reannounce. by repeat case_match. }
  12: { left. by injection E as <-. }
  12: { left. destruct (SetRemoteCredentials u p (m_s m)) as [[s' b]|]; [|done]. cbn in E. by injection E as <-. }
  12: { left. destruct (AddRemoteCandidate decodes raw (m_s m)) as [s' o]. by injection E as <-. }
  12: { left. by injection E as <-. }
  all: destruct (m_pc m) as [|a0|a0 [|x held]|  | | | | |ok0] eqn:Ep; auto; try (left; injection E as <-; by rewrite Ep).
  destruct (s_credsReady (m_s m)); [by right|]. left. injection E as <-. by rewrite Ep.
Qed.

(** A step that gives and takes no path. *)
Lemma heldPaths_keep cs m m' :
  heldPaths cs m -> s_closed (m_s m') = s_closed (m_s m) -> s_conn (m_s m') = s_conn (m_s m) ->
  closedPaths (m_out m') = closedPaths (m_out m) ->
  (m_pc m' = m_pc m \/
   (match m_pc m with PConn _ | PSettle | PReturned _ => false | _ => true end = true /\
    match m_pc m' with PConn _ => false | _ => true end = true) \/
   (m_pc m = PSettle /\ m_pc m' = PReturned true)) ->
  heldPaths (cs ++ takenPath m m') m'.
Proof.
  intros [Hop Hno Ho] Ec Ecn Ecl Hp.
  assert (Et : takenPath m m' = []) by (unfold takenPath; destruct Hp as [->|[[_ Hp]|[-> _]]]; [by destruct (m_pc m)|by destruct (m_pc m), (m_pc m')|done]).
  rewrite Et, app_nil_r. split; [by rewrite Ec|by rewrite Ecl|]. rewrite Ecn.
  destruct Hp as [->|[[Hp Hp']|[Hp ->]]]; [done| |by rewrite Hp in Ho].
  destruct (m_pc m); try done; destruct Ho as [-> ->]; destruct (m_pc m'); done.
Qed.

Lemma paths_step cs m e m' : heldPaths cs m -> e <> EvClose -> exec m e = Ret m' -> heldPaths (cs ++ takenPath m m') m'.
Proof.
  intros Hh Hne E. pose proof Hh as [Hop Hno Ho]. destruct (plain m e) eqn:Hp.
  - destruct (plain_step m e m' Hp E) as [(o & Eo & _ & E0) _ Ec Ecn Hpc].
    assert (Ecl : closedPaths (m_out m') = closedPaths (m_out m)) by (by rewrite Eo, closedPaths_app, E0, app_nil_r).
    destruct (own m e) eqn:Hw.
    2: { destruct (pc_step m e m' E) as [Epc|]; [|congruence].
         apply heldPaths_keep; auto. rewrite Ecn. unfold connAfter, own in *. destruct e; try done; by destruct (m_pc m). }
    unfold own, connAfter, plain in *. destruct e as [a| | |creds sent|ok| | |c| | |b| |u p|raw| ]; try done;
      destruct (m_pc m) as [|a0|a0 [|x held]|  | | | | |ok0] eqn:Ep; try done; unfold exec in E; cbn zeta in E; rewrite Ep in E;
      try (destruct c as [c|]); try (destruct (s_settled (m_s m)); [done|]).
    all: assert (Hk : s_conn (m_s m') = s_conn (m_s m) -> match m_pc m with PConn _ | PSettle | PReturned _ => false | _ => true end = true ->
           match m_pc m' with PConn _ => false | _ => true end = true -> heldPaths (cs ++ takenPath m m') m')
           by (intros; apply heldPaths_keep; auto); rewrite Ep in Hk.
    + apply Hk; [done|done|]. by injection E as <-.
    + apply Hk; [done|done|]. destruct (setState StateNegotiating (m_s m)). destruct creds as [[? ?]|]; [destruct sent|]; by injection E as <-.
    + apply Hk; [done|done|]. injection E as <-. by destruct ok.
    + apply Hk; [done|done|]. by injection E as <-.
    + apply Hk; [done|done|]. rewrite Hw in E. by injection E as <-.
    + injection E as <-. destruct Ho as [-> Hcn]. unfold takenPath. rewrite Ep. split; cbn; rewrite ?app_nil_r; auto.
    + apply Hk; [done|done|]. injection E as <-. by rewrite (surjective_pairing (setState _ _)).
    + injection E as <-. destruct Ho as [-> Hcn]. unfold takenPath. rewrite Ep. split; cbn; rewrite ?app_nil_r; auto.
    + apply heldPaths_keep; auto. right. right. split; [done|]. by injection E as <-.
  - unfold plain in Hp. destruct e; try done; destruct (m_pc m) as [|a0|a0 [|x held]|  | | | | |ok0] eqn:Ep; try done;
      unfold exec in E; cbn zeta in E; rewrite Ep in E; rewrite ?Hop in E; injection E as <-.
    + destruct (agentConfig _ _ _); [destruct agent|]; apply heldPaths_keep; rewrite ?Ep; cbn; rewrite ?app_nil_r; auto.
    + apply heldPaths_keep; rewrite ?Ep; cbn; rewrite ?app_nil_r; auto.
Qed.

(** ** Start comes to its end *)

Lemma todo_same m m' : m_pc m' = m_pc m -> s_pending (m_s m') = s_pending (m_s m) -> todo m' = todo m.
Proof. unfold todo. by intros -> ->. Qed.

Lemma todo_step m e m' :
  exec m e = Ret m' -> ((if own m e then 1 else 0) + todo m' <= todo m + (if isCandidate e then 1 else 0))%nat.
Proof.
  intros E. destruct (own m e) eqn:Hw.
  - unfold own in Hw. destruct e as [a| | |creds sent|ok| | |[c|]| | |b| |u p|raw| ]; try done;
      destruct (m_pc m) as [|a0|a0 [|x held]|  | | | | |ok0] eqn:Ep; try done; unfold exec in E; cbn zeta in E; rewrite Ep in E;
      unfold todo; rewrite Ep; cbn [isCandidate]; try (injection E as <-; cbn; lia).
    + injection E as <-. destruct (agentConfig _ _ _); [destruct a|]; cbn; lia.
    + injection E as <-. destruct (s_closed (m_s m)); cbn; lia.
    + destruct (setState StateNegotiating (m_s m)). injection E as <-. destruct creds as [[? ?]|]; [destruct sent|]; cbn; lia.
    + injection E as <-. destruct ok; cbn; lia.
    + rewrite Hw in E. injection E as <-. cbn. lia.
    + destruct (s_settled (m_s m)); [done|]. injection E as <-. cbn. lia.
  - destruct (pc_step m e m' E) as [Epc|]; [|congruence].
    assert (Hp : s_pending (m_s m') = s_pending (m_s m) \/ (isCandidate e = true /\ length (s_pending (m_s m')) = S (length (s_pending (m_s m))))).
    { destruct (setState_held StateFailed (m_s m)) as (_ & _ & _ & Epf), (Close_held (m_s m)) as (_ & _ & _ & _ & Epcl).
      unfold own in Hw. destruct e as [a| | |creds sent|ok| | |[c|]| | |b| |u p|raw| ]; unfold exec in E; cbn zeta in E.
      12: { left. injection E as <-. unfold reannounce. by repeat case_match. }
      12: { left. by injection E as <-. }
      12: { left. unfold SetRemoteCredentials in E. repeat (case_match; try done); cbn in E; by injection E as <-. }
      12: { unfold AddRemoteCandidate in E. destruct (s_agent (m_s m)); injection E as <-; [by left|right]. cbn. rewrite length_app. cbn. split; [done|lia]. }
      12: { left. by injection E as <-. }
      all: left; destruct (m_pc m) as [|a0|a0 [|x held]|  | | | | |ok0] eqn:Ep; try done; try (by injection E as <-).
      rewrite Hw in E. by injection E as <-. }
    destruct Hp as [Hp|[-> Hp]]; [rewrite (todo_same m m') by done; lia|].
    unfold todo. rewrite Epc. destruct (m_pc m); lia.
Qed.

Lemma todo_steps es : forall m m', execs m es = Ret m' -> (moves m es + todo m' <= todo m + length (List.filter isCandidate es))%nat.
Proof.
  induction es as [|e es IH]; intros m m' E; cbn in E |- *; [injection E as <-; lia|].
  destruct (exec m e) as [m1|] eqn:E1; cbn in E; [|done]. specialize (IH _ _ E). pose proof (todo_step _ _ _ E1).
  destruct (isCandidate e); cbn [length]; lia.
Qed.

(** Under a context that has ended, whatever [Start] waits for comes. *)
Lemma not_returned_moves m :
  (forall ok, m_pc m <> PReturned ok) -> exists e, own m e = true /\ sound e /\ e <> EvClose.
Proof.
  intros Hn. unfold own. destruct (m_pc m) as [|a|a [|x held]|  | | | | |ok] eqn:Ep; [..|by destruct (Hn ok)].
  - by exists (EvNewAgent None).
  - by exists EvLock.
  - by exists (EvAnnounce None false).
  - by exists EvDeliver.
  - by exists (EvGather false).
  - by exists EvCancelled.
  - by exists (EvDialed None).
  - by exists EvConn.
  - by exists EvSettle.
Qed.

Lemma agents_run es : forall as_ m m', heldAgents as_ m -> execs m es = Ret m' -> heldAgents (as_ ++ agents m es) m'.
Proof.
  induction es as [|e es IH]; intros as_ m m' Hh E; cbn in E |- *; [injection E as <-; by rewrite app_nil_r|].
  destruct (exec m e) as [m1|] eqn:E1; cbn in E; [|done]. pose proof (agents_step _ _ _ _ Hh E1) as Hh1.
  specialize (IH _ _ _ Hh1 E). rewrite <- app_assoc in IH. unfold takenAgent in IH. destruct (m_pc m), (m_pc m1); exact IH.
Qed.

Lemma paths_run es : forall cs m m',
  heldPaths cs m -> Forall (fun e => e <> EvClose) es -> execs m es = Ret m' -> heldPaths (cs ++ paths m es) m'.
Proof.
  induction es as [|e es IH]; intros cs m m' Hh Hn E; cbn in E |- *; [injection E as <-; by rewrite app_nil_r|].
  apply Forall_cons in Hn as [Hne Hn]. destruct (exec m e) as [m1|] eqn:E1; cbn in E; [|done].
  pose proof (paths_step _ _ _ _ Hh Hne E1) as Hh1.
  specialize (IH _ _ _ Hh1 Hn E). rewrite <- app_assoc in IH. unfold takenPath in IH. destruct (m_pc m), (m_pc m1); exact IH.
Qed.

(** C14: an attempt comes to an end and gives back what it took.  This is of
    attempts whose peer sends no empty fragment (a second one is a panic,
    [Session.empty_ufrag_panics]), and that nobody closes while [Start] runs:
    [connectOnce] closes its session when [Start] has returned.  Whatever else the
    world does meanwhile, [Start] does not panic, it makes at most eight moves of
    its own and one for each candidate it is sent, and until it has returned there
    is one it can make even when its context has ended.  When it has returned,
    whatever it returned, the [Close] that follows leaves the agent and the path
    closed, if there were any, and each of them once. *)
Theorem attempt_releases local remote cfg handler es :
  Forall sound es -> Forall (fun e => e <> EvClose) es ->
  let m0 := start (NewSession local remote cfg handler) in
  exists m m', execs m0 es = Ret m /\ exec m EvClose = Ret m' /\
    (moves m0 es + todo m <= 8 + length (List.filter isCandidate es))%nat /\
    ((forall ok, m_pc m <> PReturned ok) -> exists e m2, own m e = true /\ exec m e = Ret m2) /\
    (forall ok, m_pc m = PReturned ok ->
       closedAgents (m_out m') = agents m0 es /\ closedPaths (m_out m') = paths m0 es).
Proof.
  intros Hs Hn m0. destruct (execs_inv ParseURI withCredential decodes es m0 (session_start_inv local remote cfg handler) Hs) as (m & E & HI).
  exists m, (put m (Close (m_s m)) (m_pc m)). split; [done|]. split; [done|]. split; [|split].
  - apply (todo_steps es m0 m E).
  - intros Hr. destruct (not_returned_moves m Hr) as (e & Ho & Hse & _). exists e.
    destruct (exec_inv ParseURI withCredential decodes m e HI Hse) as (m2 & E2 & _). by exists m2.
  - intros ok Hr. assert (Ha : heldAgents [] m0) by (by split). assert (Hp : heldPaths [] m0) by (by split).
    pose proof (agents_run es [] m0 m Ha E) as Ha'. pose proof (paths_run es [] m0 m Hp Hn E) as [Hop Hno Ho].
    destruct (Close_held (m_s m)) as (Ea & Ecl & Ca & Cp & _). rewrite Hop in *. cbn [app] in *.
    pose proof (ha_owned _ _ Ha') as Hw. rewrite Hr in Hw, Ho.
    cbn. rewrite closedAgents_app, closedPaths_app, Ca, Cp, Hno. cbn. split; [|done].
    destruct Hw as [[-> ->]|[-> ->]]; cbn; by rewrite ?app_nil_r.
Qed.

End SessionEnd.

(** An attempt that found a path, and one that was cancelled while it waited. *)
Definition exFound : list event :=
  [EvCandidate "a"; EvNewAgent (Some 7%nat); EvLock; EvDeliver; EvAnnounce (Some ("uf", "pw")) true; EvGather true;
   EvCreds "ru" "rp"; EvReady; EvDialed (Some 3%nat); EvConn; EvSettle].

Lemma attempt_releases_witness :
  exists m m', execs (URI := string) Some (fun u _ _ => u) (fun _ => true) (start (NewSession (exKey 2) (exKey 1) exConfig true)) exFound = Ret m /\
    exec (URI := string) Some (fun u _ _ => u) (fun _ => true) m EvClose = Ret m' /\
    closedAgents (m_out m') = [7%nat] /\ closedPaths (m_out m') = [3%nat].
Proof.
  destruct (attempt_releases (URI := string) Some (fun u _ _ => u) (fun _ => true) (exKey 2) (exKey 1) exConfig true exFound)
    as (m & m' & E & E' & _ & _ & Hc).
  - repeat constructor; discriminate.
  - repeat constructor; discriminate.
  - exists m, m'. split; [exact E|]. split; [exact E'|].
    assert (Hr : m_pc m = PReturned true) by (vm_compute in E; injection E as <-; reflexivity).
    destruct (Hc true Hr) as [-> ->]. split; vm_compute; reflexivity.
Defined.

End SessionEnd.
