(* ===== verification/Handshake.v ===== *)
(** * Two ends of one negotiation (internal/p2p/session.go on both machines, with
    what the signalling of internal/signal carries between them).

    Each end is a machine of [Session].  Between them is a network that may lose,
    repeat, delay and reorder: whatever one end ever announced may be delivered
    to the other at any later moment, any number of times or never.  Candidates
    and everything else that reaches an end are events of that end. *)
From S2P Require Import Prelude GoStrings Keys P2P Session.

Module Handshake.
Import P2P.P2P Session.Session.

(** The credentials an output carries to the peer. *)
Definition said (o : out) : option (string * string) :=
  match o with OOffer u p | OAnswer u p => Some (u, p) | _ => None end.

Definition announced (m : machine) : list (string * string) := omap said (m_out m).

Record pair : Type := mkPair { w_l : machine; w_r : machine }.

Inductive move : Type :=
| MoveL (e : event) | MoveR (e : event)   (* an end goes on *)
| ToL (i : nat) | ToR (i : nat).          (* the other end's [i]-th announcement arrives *)

Section Handshake.
Context `{WGKeys}.
Context {URI : Type} (ParseURI : string -> option URI) (withCredential : URI -> string -> string -> URI).
Context (decodes : string -> bool).

Notation exec := (exec ParseURI withCredential decodes).

(** Credentials come by the network only. *)
Definition isCreds (e : event) : bool := match e with EvCreds _ _ => true | _ => false end.

Definition pairStep (w : pair) (mv : move) : go pair :=
  match mv with
  | MoveL e => if isCreds e then Ret w else l ← exec (w_l w) e; Ret (mkPair l (w_r w))
  | MoveR e => if isCreds e then Ret w else r ← exec (w_r w) e; Ret (mkPair (w_l w) r)
  | ToL i => match announced (w_r w) !! i with
             | Some (u, p) => l ← exec (w_l w) (EvCreds u p); Ret (mkPair l (w_r w))
             | None => Ret w
             end
  | ToR i => match announced (w_l w) !! i with
             | Some (u, p) => r ← exec (w_r w) (EvCreds u p); Ret (mkPair (w_l w) r)
             | None => Ret w
             end
  end.

Fixpoint pairSteps (w : pair) (mvs : list move) : go pair :=
  match mvs with [] => Ret w | mv :: mvs => w' ← pairStep w mv; pairSteps w' mvs end.

Definition begin (kl kr : Key) (cl cr : Config) (hl hr : bool) : pair :=
  mkPair (start (NewSession kl kr cl hl)) (start (NewSession kr kl cr hr)).

(** The credentials an agent makes have a fragment. *)
Definition good (e : event) : Prop := match e with EvAnnounce (Some (u, _)) _ => u <> "" | _ => True end.
Definition goodMove (mv : move) : Prop := match mv with MoveL e | MoveR e => good e | _ => True end.

(** ** One end *)

(** An end that has not announced yet. *)
Definition unsaid (p : pc) : bool := match p with PNew | PLock _ | PHeld _ _ => true | _ => false end.

Record Said (m : machine) : Prop := {
  sd_one : forall c d, c ∈ announced m -> d ∈ announced m -> c = d;
  sd_unsaid : unsaid (m_pc m) = true -> announced m = [] /\ m_repeat m = None;
  sd_repeat : forall c, m_repeat m = Some c -> c ∈ announced m;
  sd_ufrag : forall c, c ∈ announced m -> c.1 <> "" }.

(** Outputs that announce nothing. *)
Definition silent (o : list out) : Prop := omap said o = [].

Lemma silent_setState st s : silent (setState st s).2.
Proof. unfold setState. destruct (_ || _); [done|]. simpl. by destruct (s_onState s). Qed.

Lemma silent_app o o' : silent o -> silent o' -> silent (o ++ o').
Proof. unfold silent. intros E E'. by rewrite omap_app, E, E'. Qed.

Lemma silent_Close s : silent (Close s).2.
Proof.
  unfold Close. destruct (s_closed s); [done|]. pose proof (silent_setState StateClosed (set_closed s)) as Hs.
  destruct (setState _ _) as [s' o]. simpl in *. repeat apply silent_app; [by destruct (s_conn s)|by destruct (s_agent s)|done].
Qed.

Lemma silent_addCandidate a raw : silent (addCandidate decodes a raw).
Proof. unfold addCandidate. by destruct (decodes raw). Qed.

Lemma said_announce u p s : omap said [announce u p s] = [(u, p)].
Proof. unfold announce. by destruct (s_controlling s). Qed.

Lemma announced_app m s p o rc hd dl rp :
  announced (mkMachine s p (m_out m ++ o) rc hd dl rp) = announced m ++ omap said o.
Proof. apply omap_app. Qed.

(** An event after which an end has announced what it had. *)
Definition quietStep (m m' : machine) : Prop :=
  (exists o, m_out m' = m_out m ++ o /\ silent o) /\ (m_repeat m' = m_repeat m \/ m_repeat m' = None) /\
  (unsaid (m_pc m') = true -> unsaid (m_pc m) = true).

Lemma keep_quiet m m' :
  m_out m' = m_out m -> m_repeat m' = m_repeat m \/ m_repeat m' = None ->
  (unsaid (m_pc m') = true -> unsaid (m_pc m) = true) -> quietStep m m'.
Proof. intros Eo Er Ep. split; [exists []; by rewrite app_nil_r|done]. Qed.

Lemma put_quiet m so p : silent so.2 -> (unsaid p = true -> unsaid (m_pc m) = true) -> quietStep m (put m so p).
Proof. intros Hs Hp. split; [by exists so.2|]. split; [by left|done]. Qed.

(** Steps that change nothing the peer could notice, and steps that only put out. *)
Ltac same Ep := try (left; match goal with E : Ret _ = Ret _ |- _ => injection E as <- end; apply keep_quiet; rewrite ?Ep; by auto).
Ltac puts Ep := left; match goal with E : Ret _ = Ret _ |- _ => injection E as <- end; apply put_quiet; rewrite ?Ep; by auto.

(** What one event adds to what an end announced: nothing, the first time its
    credentials, or those again. *)
Lemma exec_said m e m' :
  exec m e = Ret m' ->
  quietStep m m' \/
  (exists c o sent, e = EvAnnounce (Some c) sent /\ unsaid (m_pc m) = true /\ m_out m' = m_out m ++ o /\
     omap said o = [c] /\ m_repeat m' = Some c /\ unsaid (m_pc m') = false) \/
  (exists c o, e = EvTick false /\ m_repeat m = Some c /\ m_out m' = m_out m ++ o /\ omap said o = [c] /\
     m_repeat m' = Some c /\ m_pc m' = m_pc m).
Proof.
  pose proof (silent_setState StateNegotiating (m_s m)) as Hneg. pose proof (silent_setState StateFailed (m_s m)).
  pose proof (silent_setState StateConnected (set_settled (m_s m))). pose proof (silent_Close (m_s m)).
  intros E. destruct e; unfold Session.exec in E; cbn zeta in E.
  - destruct (m_pc m) eqn:Ep; same Ep. destruct (agentConfig _ _ _); [destruct agent|]; puts Ep.
  - destruct (m_pc m) eqn:Ep; same Ep. destruct (s_closed (m_s m)); puts Ep.
  - destruct (m_pc m) as [| |a [|raw held]| | | | | |] eqn:Ep; same Ep.
    left. injection E as <-. split; [eexists; split; [reflexivity|apply silent_addCandidate]|]. rewrite Ep. by auto.
  - destruct (m_pc m) as [| |a [|raw held]| | | | | |] eqn:Ep; same Ep.
    destruct (setState StateNegotiating (m_s m)) as [s1 o1] eqn:Es. cbn [snd] in Hneg. unfold silent in Hneg.
    destruct creds as [[u p]|]; [destruct sent|]; [|puts Ep..]. injection E as <-. right; left.
    exists (u, p), (o1 ++ [announce u p s1]), true. simpl. split_and!; try done.
    rewrite omap_app, Hneg. exact (said_announce u p s1).
  - destruct (m_pc m) eqn:Ep; same Ep. destruct ok; puts Ep.
  - destruct (m_pc m) eqn:Ep; same Ep. puts Ep.
  - destruct (m_pc m) eqn:Ep; same Ep. destruct (s_credsReady (m_s m)); same Ep.
  - destruct conn as [c|]; destruct (m_pc m) eqn:Ep; same Ep; puts Ep.
  - destruct (m_pc m) eqn:Ep; same Ep. puts Ep.
  - destruct (m_pc m) eqn:Ep; same Ep. destruct (s_settled (m_s m)); [done|]. puts Ep.
  - unfold reannounce in E. cbn zeta in E. destruct (m_repeat m) as [[u p]|] eqn:Er; [|same Er].
    destruct cancelled; simpl in E; [same Er|]. destruct (s_settled (m_s m)); [same Er|].
    injection E as <-. right; right. exists (u, p), [announce u p (m_s m)]. cbn [m_out m_repeat m_pc put fst snd]. split_and!; try done. exact (said_announce u p (m_s m)).
  - puts E.
  - destruct (SetRemoteCredentials ufrag pwd (m_s m)) as [[s' b]|]; [|done]. simpl in E. puts E.
  - unfold AddRemoteCandidate in E. destruct (s_agent (m_s m)) as [a|]; left; injection E as <-.
    + split; [eexists; split; [reflexivity|apply silent_addCandidate]|]. by auto.
    + split; [exists []; done|]. by auto.
  - puts E.
Qed.

Lemma exec_announced m e m' : exec m e = Ret m' -> exists l, announced m' = announced m ++ l.
Proof.
  unfold announced. intros [[(o & -> & _) _]|[(c & o & b & _ & _ & -> & _)|(c & o & _ & _ & -> & _)]]%exec_said; rewrite omap_app; eauto.
Qed.

Lemma exec_Said m e m' : exec m e = Ret m' -> good e -> Said m -> Said m'.
Proof.
  intros E Hg [H1 Hu Hr Hf]. unfold announced in *.
  destruct (exec_said m e m' E) as [((o & Eo & Hs) & Er & Ep)|[(c & o & b & -> & Hun & Eo & Es & Er & Ep)|(c & o & -> & Em & Eo & Es & Er & Ep)]];
    unfold silent in *; split; unfold announced; rewrite Eo, omap_app, ?Hs, ?Es, ?app_nil_r; try done.
  - intros Hun. destruct (Hu (Ep Hun)) as [Ha Hn]. split; [done|]. by destruct Er as [-> | ->].
  - intros c Hc. destruct Er as [Er|Er]; rewrite Er in Hc; [by apply Hr|done].
  - destruct (Hu Hun) as [-> _]. set_solver.
  - by rewrite Ep.
  - rewrite Er. set_solver.
  - destruct (Hu Hun) as [-> _]. intros d Hd%list_elem_of_singleton. subst d. by destruct c.
  - pose proof (Hr c Em). intros a d Ha Hd. apply H1; set_solver.
  - intros Hun. rewrite Ep in Hun. destruct (Hu Hun) as [_ Hn]. congruence.
  - rewrite Er. set_solver.
  - pose proof (Hr c Em). intros d Hd. apply Hf. set_solver.
Qed.

(** ** The two of them *)

(** What an end knows of the other's credentials is what the other announced. *)
Definition knows (m other : machine) : Prop :=
  s_ufrag (m_s m) <> "" -> (s_ufrag (m_s m), s_pwd (m_s m)) ∈ announced other.

Record PairInv (w : pair) : Prop := {
  pi_l : Inv (w_l w); pi_r : Inv (w_r w); pi_saidl : Said (w_l w); pi_saidr : Said (w_r w);
  pi_knowsl : knows (w_l w) (w_r w); pi_knowsr : knows (w_r w) (w_l w) }.

Lemma exec_controlling m e m' : exec m e = Ret m' -> s_controlling (m_s m') = s_controlling (m_s m).
Proof.
  assert (HS : forall st s, s_controlling (setState st s).1 = s_controlling s) by (intros st s; apply (setState_frame st s)).
  assert (HC : forall s, s_controlling (Close s).1 = s_controlling s).
  { intros s. unfold Close. destruct (s_closed s); [done|]. pose proof (HS StateClosed (set_closed s)). by destruct (setState _ _). }
  intros E. destruct e; unfold Session.exec in E; cbn zeta in E.
  11: { injection E as <-. unfold reannounce. cbn zeta. destruct (m_repeat m) as [[u p]|]; [|done]. by destruct (_ || _). }
  11: { injection E as <-. apply HS. }
  11: { unfold SetRemoteCredentials in E. case_bool_decide; [destruct (s_credsReady (m_s m)); [done|]|]; by injection E as <-. }
  11: { unfold AddRemoteCandidate in E. destruct (s_agent (m_s m)); by injection E as <-. }
  11: { injection E as <-. apply HC. }
  8: { destruct conn, (m_pc m); injection E as <-; first [done|apply HS]. }
  all: destruct (m_pc m) as [| |a [|raw held]| | | | | |]; try (by injection E as <-).
  - injection E as <-. destruct (agentConfig _ _ _); [by destruct agent|done].
  - injection E as <-. by destruct (s_closed (m_s m)).
  - pose proof (HS StateNegotiating (m_s m)). destruct (setState _ _) as [s1 o1].
    destruct creds as [[u p]|]; [destruct sent|]; by injection E as <-.
  - injection E as <-. by destruct (s_credsReady (m_s m)).
  - destruct (s_settled (m_s m)); [done|]. injection E as <-. exact (HS StateConnected (set_settled (m_s m))).
Qed.

Lemma knows_grows m other other' l : announced other' = announced other ++ l -> knows m other -> knows m other'.
Proof. unfold knows. intros -> Hk Hne. apply elem_of_app. left. by apply Hk. Qed.

Lemma local_sound e : isCreds e = false -> sound e.
Proof. by destruct e. Qed.

(** An end goes on: it still knows what it knew. *)
Lemma local_step m e other :
  Inv m -> Said m -> knows m other -> isCreds e = false -> good e ->
  exists m', exec m e = Ret m' /\ Inv m' /\ Said m' /\ knows m' other /\ exists l, announced m' = announced m ++ l.
Proof.
  intros HI HS Hk He Hg. destruct (exec_inv ParseURI withCredential decodes m e HI (local_sound e He)) as (m' & E & HI').
  exists m'. split; [done|]. split; [done|]. split; [by eapply exec_Said|]. split; [|by eapply exec_announced].
  destruct (exec_creds _ _ _ _ _ _ E) as [_ Hc]. destruct Hc as [Eu Ep]; [by intros u p ->|]. unfold knows. by rewrite Eu, Ep.
Qed.

(** An announcement arrives. *)
Lemma credit_step m other u p :
  Inv m -> Said m -> knows m other -> (u, p) ∈ announced other -> u <> "" ->
  exists m', exec m (EvCreds u p) = Ret m' /\ Inv m' /\ Said m' /\ knows m' other /\ (exists l, announced m' = announced m ++ l) /\
    s_ufrag (m_s m') <> "" /\ m_pc m' = m_pc m.
Proof.
  intros HI HS Hk Hin Hne. destruct (exec_inv ParseURI withCredential decodes m (EvCreds u p) HI Hne) as (m' & E & HI').
  exists m'. split; [done|]. split; [done|]. split; [by eapply exec_Said|].
  assert (Hs : (s_ufrag (m_s m'), s_pwd (m_s m')) = (u, p) \/ s_ufrag (m_s m) <> "" /\ s_ufrag (m_s m') = s_ufrag (m_s m) /\ s_pwd (m_s m') = s_pwd (m_s m)).
  { unfold Session.exec, SetRemoteCredentials in E. case_bool_decide; [destruct (s_credsReady (m_s m)); [done|]|]; injection E as <-; auto. }
  assert (Hpc : m_pc m' = m_pc m).
  { unfold Session.exec in E. destruct (SetRemoteCredentials u p (m_s m)) as [[s' b]|]; [|done]. by injection E as <-. }
  split; [|split; [by eapply exec_announced|split; [|done]]].
  - intros Hn. destruct Hs as [Hs|(Hu & Eu & Ep)]; [by rewrite Hs|]. rewrite Eu, Ep. by apply Hk.
  - destruct Hs as [Hs|(Hu & Eu & _)]; [|by rewrite Eu]. injection Hs as Eu _. by rewrite Eu.
Qed.

Lemma pairStep_inv w mv : PairInv w -> goodMove mv -> exists w', pairStep w mv = Ret w' /\ PairInv w'.
Proof.
  intros HP Hg. pose proof HP as [HIl HIr HSl HSr Hkl Hkr]. destruct mv as [e|e|i|i]; cbn [goodMove] in Hg; cbn [pairStep].
  - destruct (isCreds e) eqn:Ee; [by exists w|].
    destruct (local_step _ e (w_r w) HIl HSl Hkl Ee Hg) as (m' & -> & ? & ? & ? & l & El). simpl. eexists. split; [done|].
    split; simpl; try done. by eapply knows_grows.
  - destruct (isCreds e) eqn:Ee; [by exists w|].
    destruct (local_step _ e (w_l w) HIr HSr Hkr Ee Hg) as (m' & -> & ? & ? & ? & l & El). simpl. eexists. split; [done|].
    split; simpl; try done. by eapply knows_grows.
  - destruct (announced (w_r w) !! i) as [[u p]|] eqn:Ei; [|by exists w]. apply list_elem_of_lookup_2 in Ei.
    destruct (credit_step _ (w_r w) u p HIl HSl Hkl Ei (sd_ufrag _ HSr _ Ei)) as (m' & -> & ? & ? & ? & [l El] & _). simpl.
    eexists. split; [done|]. split; simpl; try done. by eapply knows_grows.
  - destruct (announced (w_l w) !! i) as [[u p]|] eqn:Ei; [|by exists w]. apply list_elem_of_lookup_2 in Ei.
    destruct (credit_step _ (w_l w) u p HIr HSr Hkr Ei (sd_ufrag _ HSl _ Ei)) as (m' & -> & ? & ? & ? & [l El] & _). simpl.
    eexists. split; [done|]. split; simpl; try done. by eapply knows_grows.
Qed.

Lemma pairSteps_inv mvs w : PairInv w -> Forall goodMove mvs -> exists w', pairSteps w mvs = Ret w' /\ PairInv w'.
Proof.
  intros HP Hg. revert w HP. induction Hg as [|mv mvs Hm _ IH]; intros w HP; [by exists w|].
  destruct (pairStep_inv w mv HP Hm) as (w1 & E & HP1). simpl. rewrite E. by apply IH.
Qed.

Lemma begin_inv kl kr cl cr hl hr : PairInv (begin kl kr cl cr hl hr).
Proof.
  assert (HS : forall s, Said (start s)) by (intros s; split; unfold announced; simpl; [set_solver|done|done|set_solver]).
  split; [apply session_start_inv|apply session_start_inv|apply HS|apply HS|by intros []|by intros []].
Qed.

Lemma pairSteps_roles mvs : forall w w', pairSteps w mvs = Ret w' ->
  s_controlling (m_s (w_l w')) = s_controlling (m_s (w_l w)) /\ s_controlling (m_s (w_r w')) = s_controlling (m_s (w_r w)).
Proof.
  induction mvs as [|mv mvs IH]; intros w w'; simpl; [by intros [= <-]|].
  destruct (pairStep w mv) as [w1|] eqn:E; [|done]. simpl. intros [-> ->]%IH. clear IH.
  assert (Hex : forall m e m', exec m e = Ret m' -> s_controlling (m_s m') = s_controlling (m_s m)) by apply exec_controlling.
  destruct mv as [e|e|i|i]; cbn [pairStep] in E.
  - destruct (isCreds e); [by injection E as <-|]. destruct (exec (w_l w) e) as [m'|] eqn:Em; [|done]. injection E as <-. split; [by eapply Hex|done].
  - destruct (isCreds e); [by injection E as <-|]. destruct (exec (w_r w) e) as [m'|] eqn:Em; [|done]. injection E as <-. split; [done|by eapply Hex].
  - destruct (announced (w_r w) !! i) as [[u p]|]; [|by injection E as <-].
    destruct (exec (w_l w) (EvCreds u p)) as [m'|] eqn:Em; [|done]. injection E as <-. split; [by eapply Hex|done].
  - destruct (announced (w_l w) !! i) as [[u p]|]; [|by injection E as <-].
    destruct (exec (w_r w) (EvCreds u p)) as [m'|] eqn:Em; [|done]. injection E as <-. split; [done|by eapply Hex].
Qed.

(** C30: whatever the network loses, repeats or reorders, and whatever else
    reaches the two ends meanwhile, neither panics, exactly one of them is the
    one that dials, and an end that goes on to connect does so with the
    credentials of the other's agent: the only ones that one ever announced. *)
Theorem ends_agree kl kr cl cr hl hr mvs :
  length kl = keyLen -> length kr = keyLen -> kl <> kr -> Forall goodMove mvs ->
  exists w, pairSteps (begin kl kr cl cr hl hr) mvs = Ret w /\
    s_controlling (m_s (w_l w)) = negb (s_controlling (m_s (w_r w))) /\
    (forall c, m_dialed (w_l w) = Some c -> c ∈ announced (w_r w) /\ forall d, d ∈ announced (w_r w) -> d = c) /\
    (forall c, m_dialed (w_r w) = Some c -> c ∈ announced (w_l w) /\ forall d, d ∈ announced (w_l w) -> d = c).
Proof.
  intros Hl Hr Hne Hg. destruct (pairSteps_inv mvs _ (begin_inv kl kr cl cr hl hr) Hg) as (w & E & HP).
  exists w. split; [done|]. destruct HP as [HIl HIr HSl HSr Hkl Hkr]. split.
  - destruct (pairSteps_roles _ _ _ E) as [-> ->]. by apply controls_exclusive.
  - split; intros c Hc.
    + destruct (inv_dialed _ HIl c Hc) as [-> Hn]. specialize (Hkl Hn). split; [done|]. intros d Hd. by apply (sd_one _ HSr).
    + destruct (inv_dialed _ HIr c Hc) as [-> Hn]. specialize (Hkr Hn). split; [done|]. intros d Hd. by apply (sd_one _ HSl).
Qed.

(** ** What was lost is said again *)

Notation execs := (execs ParseURI withCredential decodes).

Lemma pairSteps_app mvs1 mvs2 w : pairSteps w (mvs1 ++ mvs2) = (w' ← pairSteps w mvs1; pairSteps w' mvs2).
Proof.
  revert w. induction mvs1 as [|mv mvs1 IH]; intros w; [done|]. simpl. destruct (pairStep w mv); [|done]. apply IH.
Qed.

Lemma movesL es : forall w l, Forall (fun e => isCreds e = false) es -> execs (w_l w) es = Ret l ->
  pairSteps w (map MoveL es) = Ret (mkPair l (w_r w)).
Proof.
  induction es as [|e es IH]; intros [l0 r0] l He E; [by injection E as <-|]. apply Forall_cons in He as [He Hes].
  cbn [map pairSteps pairStep w_l]. rewrite He. cbn [Session.execs w_l] in E.
  destruct (exec l0 e) as [l1|]; [|done]. cbn [mbind go_bind] in E |- *. by apply (IH (mkPair l1 r0) l).
Qed.

Lemma movesR es : forall w r, Forall (fun e => isCreds e = false) es -> execs (w_r w) es = Ret r ->
  pairSteps w (map MoveR es) = Ret (mkPair (w_l w) r).
Proof.
  induction es as [|e es IH]; intros [l0 r0] r He E; [by injection E as <-|]. apply Forall_cons in He as [He Hes].
  cbn [map pairSteps pairStep w_r]. rewrite He. cbn [Session.execs w_r] in E.
  destruct (exec r0 e) as [r1|]; [|done]. cbn [mbind go_bind] in E |- *. by apply (IH (mkPair l0 r1) r).
Qed.

(** An end that waits, and still repeats itself. *)
Definition waiting (m : machine) : Prop := m_pc m = PWait /\ m_repeat m <> None.

Lemma tick_says m : Inv m -> waiting m -> exists m' c, exec m (EvTick false) = Ret m' /\
  announced m' = announced m ++ [c] /\ m_s m' = m_s m /\ m_pc m' = PWait.
Proof.
  intros HI [Hp Hr]. destruct (m_repeat m) as [[u p]|] eqn:Er; [|done].
  assert (Hs : s_settled (m_s m) = false).
  { destruct (s_settled (m_s m)) eqn:Es; [|done]. pose proof (inv_settled m HI Es). congruence. }
  eexists _, (u, p). split; [reflexivity|]. unfold reannounce. rewrite Er, Hs. cbn [orb]. split; [|done].
  unfold put, announced. cbn [m_out fst snd]. rewrite omap_app. f_equal. apply said_announce.
Qed.

(** An end that waits and knows the other's credentials goes through, if ICE
    does. *)
Definition through (conn : nat) : list event := [EvReady; EvDialed (Some conn); EvConn; EvSettle].

Lemma goes_through m conn : Inv m -> m_pc m = PWait -> s_ufrag (m_s m) <> "" ->
  exists m', execs m (through conn) = Ret m' /\ m_pc m' = PReturned true /\ m_dialed m' = Some (s_ufrag (m_s m), s_pwd (m_s m)).
Proof.
  intros HI Hp Hu.
  assert (Hs : s_settled (m_s m) = false).
  { destruct (s_settled (m_s m)) eqn:Es; [|done]. pose proof (inv_settled m HI Es). congruence. }
  assert (Hc : s_credsReady (m_s m) = true).
  { destruct (s_credsReady (m_s m)) eqn:Es; [done|]. by destruct Hu; apply (inv_creds m HI). }
  destruct m as [s p o rc hd dl rp]. cbn [m_s m_pc] in *. subst p. unfold through. simpl. rewrite Hc. simpl. rewrite Hs. simpl.
  eexists. split; [reflexivity|]. done.
Qed.

(** Each end says its credentials again, that one message arrives, and each goes
    through. *)
Definition repair (w : pair) (connL connR : nat) : list move :=
  [MoveL (EvTick false); MoveR (EvTick false); ToL (length (announced (w_r w))); ToR (length (announced (w_l w)))] ++
  map MoveL (through connL) ++ map MoveR (through connR).

(** C27: no loss is final: from any state the two ends can be in with both still
    waiting for the other and repeating themselves, one more announcement of each
    that arrives is enough for both to connect, each with what the other
    announced, if ICE finds a path. *)
Theorem lost_announcements_repaired kl kr cl cr hl hr mvs w connL connR :
  Forall goodMove mvs -> pairSteps (begin kl kr cl cr hl hr) mvs = Ret w -> waiting (w_l w) -> waiting (w_r w) ->
  exists w', pairSteps w (repair w connL connR) = Ret w' /\
    m_pc (w_l w') = PReturned true /\ m_pc (w_r w') = PReturned true /\
    (exists c, m_dialed (w_l w') = Some c /\ c ∈ announced (w_r w)) /\
    (exists c, m_dialed (w_r w') = Some c /\ c ∈ announced (w_l w)).
Proof.
  intros Hg E Hwl Hwr. destruct (pairSteps_inv mvs _ (begin_inv kl kr cl cr hl hr) Hg) as (w0 & E0 & HP).
  rewrite E in E0. injection E0 as <-. destruct w as [l r]. cbn [w_l w_r] in *. clear E Hg mvs.
  pose proof HP as [HIl HIr HSl HSr Hkl Hkr]. cbn [w_l w_r] in *.
  destruct (tick_says l HIl Hwl) as (l1 & cl1 & El1 & Al1 & Sl1 & Pl1). destruct (tick_says r HIr Hwr) as (r1 & cr1 & Er1 & Ar1 & Sr1 & Pr1).
  assert (Hin : forall m c m1, waiting m -> Said m -> exec m (EvTick false) = Ret m1 -> announced m1 = announced m ++ [c] -> c ∈ announced m).
  { intros m c m1 [Hp Hr] HS Ex Ea. destruct (m_repeat m) as [d|] eqn:Er; [|done]. pose proof (sd_repeat _ HS d Er) as Hd.
    pose proof (exec_Said m (EvTick false) m1 Ex I HS) as [H1 _ _ _]. rewrite <- (H1 d c); [done|..]; rewrite Ea; set_solver. }
  pose proof (Hin l cl1 l1 Hwl HSl El1 Al1) as Hcl. pose proof (Hin r cr1 r1 Hwr HSr Er1 Ar1) as Hcr. clear Hin.
  destruct (local_step l (EvTick false) r HIl HSl Hkl eq_refl I) as (l1' & El1' & HIl1 & HSl1 & Hkl1 & _). rewrite El1 in El1'. injection El1' as <-.
  destruct (local_step r (EvTick false) l HIr HSr Hkr eq_refl I) as (r1' & Er1' & HIr1 & HSr1 & Hkr1 & _). rewrite Er1 in Er1'. injection Er1' as <-.
  destruct cl1 as [ul pl], cr1 as [ur pr].
  destruct (credit_step l1 r ur pr HIl1 HSl1 Hkl1 Hcr (sd_ufrag _ HSr _ Hcr)) as (l2 & El2 & HIl2 & _ & Hkl2 & [gl Gl] & Nl2 & Pl2).
  destruct (credit_step r1 l ul pl HIr1 HSr1 Hkr1 Hcl (sd_ufrag _ HSl _ Hcl)) as (r2 & Er2 & HIr2 & _ & Hkr2 & _ & Nr2 & Pr2).
  rewrite Pl1 in Pl2. rewrite Pr1 in Pr2.
  destruct (goes_through l2 connL HIl2 Pl2 Nl2) as (l3 & El3 & Pl3 & Dl3). destruct (goes_through r2 connR HIr2 Pr2 Nr2) as (r3 & Er3 & Pr3 & Dr3).
  exists (mkPair l3 r3). unfold repair. rewrite pairSteps_app. cbn [pairSteps pairStep isCreds w_l w_r].
  rewrite El1. cbn [mbind go_bind w_l w_r]. rewrite Er1. cbn [mbind go_bind w_l w_r].
  rewrite Ar1, list_lookup_middle by done. rewrite El2. cbn [mbind go_bind w_l w_r].
  rewrite Gl, Al1, <- app_assoc. cbn [app]. rewrite list_lookup_middle by done. rewrite Er2. cbn [mbind go_bind w_l w_r].
  rewrite pairSteps_app, (movesL (through connL) _ l3) by (done || by repeat constructor). cbn [mbind go_bind].
  rewrite (movesR (through connR) _ r3) by (done || by repeat constructor). split; [done|]. split; [done|]. split; [done|]. cbn [w_l w_r].
  split; [exists (s_ufrag (m_s l2), s_pwd (m_s l2)); split; [done|by apply Hkl2]|].
  exists (s_ufrag (m_s r2), s_pwd (m_s r2)). split; [done|by apply Hkr2].
Qed.

End Handshake.
(** ** Witnesses *)

(** Both ends come to wait, and everything they said is lost. *)
Definition toWait (u p : string) : list event :=
  [EvNewAgent (Some 1%nat); EvLock; EvAnnounce (Some (u, p)) true; EvGather true].
Definition exMoves : list move := map MoveL (toWait "lu" "lp") ++ map MoveR (toWait "ru" "rp").

Notation exPairSteps := (pairSteps (URI := string) Some (fun u _ _ => u) (fun _ => true)).
Definition exBegin : pair := begin (exKey 2) (exKey 1) exConfig exConfig true true.

Definition exPair : pair := match exPairSteps exBegin exMoves with Ret w => w | Panic => exBegin end.

Lemma exMoves_good : Forall goodMove exMoves.
Proof. repeat constructor; discriminate. Qed.

Lemma lost_announcements_repaired_witness :
  m_dialed (w_l exPair) = None /\
  exists w', exPairSteps exPair (repair exPair 5 6) = Ret w' /\ m_pc (w_l w') = PReturned true /\ m_pc (w_r w') = PReturned true /\
    (exists c, m_dialed (w_l w') = Some c /\ c ∈ announced (w_r exPair)) /\
    (exists c, m_dialed (w_r w') = Some c /\ c ∈ announced (w_l exPair)).
Proof.
  split; [vm_compute; reflexivity|].
  apply (lost_announcements_repaired (URI := string) Some (fun u _ _ => u) (fun _ => true)
    (exKey 2) (exKey 1) exConfig exConfig true true exMoves exPair 5 6 exMoves_good).
  - vm_compute. reflexivity.
  - split; [vm_compute; reflexivity|vm_compute; discriminate].
  - split; [vm_compute; reflexivity|vm_compute; discriminate].
Defined.

Lemma ends_agree_witness :
  exists w, exPairSteps exBegin (exMoves ++ [ToL 0; MoveL EvReady]) = Ret w /\
    m_dialed (w_l w) = Some ("ru", "rp") /\ ("ru", "rp") ∈ announced (w_r w).
Proof.
  destruct (ends_agree (URI := string) Some (fun u _ _ => u) (fun _ => true) (exKey 2) (exKey 1) exConfig exConfig true true
    (exMoves ++ [ToL 0; MoveL EvReady])) as (w & E & _ & Hl & _); [reflexivity|reflexivity|discriminate|repeat constructor; discriminate|].
  exists w. split; [exact E|]. assert (Hd : m_dialed (w_l w) = Some ("ru", "rp")).
  { vm_compute in E. injection E as <-. reflexivity. }
  split; [exact Hd|]. by apply Hl.
Defined.

End Handshake.
