(* ===== verification/UAPI.v ===== *)
(** * The configuration text between the tunnel and WireGuard:
    internal/tunnel/device.go (what [Configure], [SetPeer], [SetPeerEndpoint]
    and [RemovePeer] write, what [ListenPort] and [Status] read) and
    device_kernel_linux.go (the kernel side: [parseUAPI] and [dump]). *)
From S2P Require Import Prelude GoStrings NetIP NetText Keys.
From Stdlib Require Import Ascii.

Module UAPI.
Import NetText.NetText.

(** ** What is configured *)

(** [tunnel.Peer]. *)
Record Peer : Type := mkPeer {
  p_public : Key; p_preshared : Key; p_endpoint : AddrPort;
  p_allowedIPs : list Prefix; p_keepalive : Z }.

(** [wgtypes.PeerConfig] and [wgtypes.Config], the fields the text can set. *)
Record PeerConfig : Type := mkPeerConfig {
  pc_public : Key; pc_remove : bool; pc_updateOnly : bool; pc_preshared : option Key;
  pc_endpoint : option AddrPort; pc_keepalive : option Z;
  pc_replaceIPs : bool; pc_allowedIPs : list Prefix }.

Record WGConfig : Type := mkWGConfig {
  cfg_private : option Key; cfg_port : option Z; cfg_peers : list PeerConfig }.

Definition emptyConfig : WGConfig := mkWGConfig None None [].
Definition newPeerConfig (k : Key) : PeerConfig := mkPeerConfig k false false None None None false [].

(** ** Writing *)

Definition eqc : Ascii.ascii := "="%char.

(** One "key=value" line. *)
Definition line (key value : string) : string := key +:+ String eqc value.

Definition configureText (private : Key) (listenPort : Z) : string :=
  unlines [line "private_key" (hexEncode private); line "listen_port" (itoa listenPort)].

Definition setPeerLines (p : Peer) : list string :=
  [line "public_key" (hexEncode (p_public p)); line "replace_allowed_ips" "true"] ++
  (if bool_decide (p_preshared p = zeroKey) then [] else [line "preshared_key" (hexEncode (p_preshared p))]) ++
  (if AddrPort_IsValid (p_endpoint p) then [line "endpoint" (AddrPort_String (p_endpoint p))] else []) ++
  map (fun a => line "allowed_ip" (Prefix_String a)) (p_allowedIPs p) ++
  (if 0 <? p_keepalive p then [line "persistent_keepalive_interval" (itoa (p_keepalive p))] else []).

Definition setPeerText (p : Peer) : string := unlines (setPeerLines p).

Definition setPeerEndpointText (pub : Key) (ep : AddrPort) : string :=
  unlines [line "public_key" (hexEncode pub); line "update_only" "true";
           line "endpoint" (AddrPort_String ep)].

Definition removePeerText (pub : Key) : string :=
  unlines [line "public_key" (hexEncode pub); line "remove" "true"].

(** ** Reading, on the kernel side *)

Inductive uapiError : Type :=
| ENoValue (line : string)
| EKey (text : string)
| ENumber (key text : string)
| EOutside (key : string)
| EEndpoint (text : string)
| EAllowedIP (text : string)
| EUnhandled (key : string).

(** [keyFromHex]: [wgtypes.NewKey] wants exactly 32 bytes. *)
Definition keyFromHex (s : string) : result uapiError Key :=
  match hexDecode s with
  | Some b => if (length b =? keyLen)%nat then Ok b else Err (EKey s)
  | None => Err (EKey s)
  end.

Section Parse.
(** [net.ResolveUDPAddr] on a literal address, and [net.ParseCIDR], which keeps
    the network (the address with the bits below the length cleared). *)
Context (ResolveUDPAddr : string -> option AddrPort) (ParseCIDR : string -> option Prefix).

(** What the loop keeps: the configuration so far and the open peer. *)
Definition pstate : Type := WGConfig * option PeerConfig.

Definition flush (st : pstate) : pstate :=
  match st with
  | (cfg, Some p) => (mkWGConfig (cfg_private cfg) (cfg_port cfg) (cfg_peers cfg ++ [p]), None)
  | (cfg, None) => (cfg, None)
  end.

(** A key that belongs to a peer. *)
Definition inPeer (key : string) (st : pstate) (f : PeerConfig -> result uapiError PeerConfig) :
    result uapiError pstate :=
  match st with
  | (cfg, None) => Err (EOutside key)
  | (cfg, Some p) => p' ← f p; Ok (cfg, Some p')
  end.

Definition number (key value : string) : result uapiError Z :=
  match Atoi value with Some n => Ok n | None => Err (ENumber key value) end.

(** The [switch]. *)
Definition parseKey (st : pstate) (key value : string) : result uapiError pstate :=
    if String.eqb key "private_key" then
      k ← keyFromHex value;
      Ok (mkWGConfig (Some k) (cfg_port st.1) (cfg_peers st.1), st.2)
    else if String.eqb key "listen_port" then
      n ← number key value;
      Ok (mkWGConfig (cfg_private st.1) (Some n) (cfg_peers st.1), st.2)
    else if String.eqb key "public_key" then
      let st := flush st in
      k ← keyFromHex value; Ok (st.1, Some (newPeerConfig k))
    else if String.eqb key "preshared_key" then
      inPeer key st (fun p => k ← keyFromHex value;
        Ok (mkPeerConfig (pc_public p) (pc_remove p) (pc_updateOnly p) (Some k) (pc_endpoint p)
              (pc_keepalive p) (pc_replaceIPs p) (pc_allowedIPs p)))
    else if String.eqb key "endpoint" then
      inPeer key st (fun p =>
        match ResolveUDPAddr value with
        | None => Err (EEndpoint value)
        | Some a => Ok (mkPeerConfig (pc_public p) (pc_remove p) (pc_updateOnly p) (pc_preshared p) (Some a)
              (pc_keepalive p) (pc_replaceIPs p) (pc_allowedIPs p))
        end)
    else if String.eqb key "allowed_ip" then
      inPeer key st (fun p =>
        match ParseCIDR value with
        | None => Err (EAllowedIP value)
        | Some n => Ok (mkPeerConfig (pc_public p) (pc_remove p) (pc_updateOnly p) (pc_preshared p) (pc_endpoint p)
              (pc_keepalive p) (pc_replaceIPs p) (pc_allowedIPs p ++ [n]))
        end)
    else if String.eqb key "persistent_keepalive_interval" then
      inPeer key st (fun p => n ← number key value;
        Ok (mkPeerConfig (pc_public p) (pc_remove p) (pc_updateOnly p) (pc_preshared p) (pc_endpoint p)
              (Some (wrap64 (n * Second))) (pc_replaceIPs p) (pc_allowedIPs p)))
    else if String.eqb key "replace_allowed_ips" then
      inPeer key st (fun p =>
        Ok (mkPeerConfig (pc_public p) (pc_remove p) (pc_updateOnly p) (pc_preshared p) (pc_endpoint p)
              (pc_keepalive p) (String.eqb value "true") (pc_allowedIPs p)))
    else if String.eqb key "update_only" then
      inPeer key st (fun p =>
        Ok (mkPeerConfig (pc_public p) (pc_remove p) (String.eqb value "true") (pc_preshared p) (pc_endpoint p)
              (pc_keepalive p) (pc_replaceIPs p) (pc_allowedIPs p)))
    else if String.eqb key "remove" then
      inPeer key st (fun p =>
        Ok (mkPeerConfig (pc_public p) (String.eqb value "true") (pc_updateOnly p) (pc_preshared p) (pc_endpoint p)
              (pc_keepalive p) (pc_replaceIPs p) (pc_allowedIPs p)))
    else Err (EUnhandled key).

Definition parseLine (st : pstate) (l : string) : result uapiError pstate :=
  if String.eqb l "" then Ok st
  else match cutc eqc l with
       | None => Err (ENoValue l)
       | Some (key, value) => parseKey st key value
       end.

Fixpoint parseLines (st : pstate) (ls : list string) : result uapiError pstate :=
  match ls with
  | [] => Ok st
  | l :: ls => st' ← parseLine st l; parseLines st' ls
  end.

Definition parseUAPI (uapi : string) : result uapiError WGConfig :=
  st ← parseLines (emptyConfig, None) (splitc nl (TrimSpace uapi));
  Ok (flush st).1.

(** ** Round trips *)

Lemma parseLines_app st l1 l2 :
  parseLines st (l1 ++ l2) = (st' ← parseLines st l1; parseLines st' l2).
Proof.
  revert st. induction l1 as [|l l1 IH]; intros st; [done|]. cbn [parseLines app].
  destruct (parseLine st l); simpl; [apply IH|done].
Qed.

Lemma keyFromHex_encode k : length k = keyLen -> keyFromHex (hexEncode k) = Ok k.
Proof. intros Hk. unfold keyFromHex. rewrite hexDecode_encode, Hk. done. Qed.

(** A line reads back as its key and its value. *)
Lemma cut_line key value : nochar eqc key = true -> cutc eqc (line key value) = Some (key, value).
Proof. apply cutc_app. Qed.

Lemma line_not_empty key value : String.eqb (line key value) "" = false.
Proof. by destruct key. Qed.

Lemma parseLine_line st key value :
  nochar eqc key = true -> parseLine st (line key value) = parseKey st key value.
Proof. intros Hk. unfold parseLine. by rewrite line_not_empty, cut_line. Qed.

(** A text of one-word lines reads as its lines. *)
Lemma parseUAPI_unlines ls :
  ls <> [] -> Forall (fun l => l <> "" /\ nospace l = true) ls ->
  parseUAPI (unlines ls) = (st ← parseLines (emptyConfig, None) ls; Ok (flush st).1).
Proof. intros Hne Hall. unfold parseUAPI. by rewrite splitc_trim_unlines. Qed.

Lemma line_ok key value :
  nospace key = true -> nospace value = true -> line key value <> "" /\ nospace (line key value) = true.
Proof.
  intros Hk Hv. split; [by destruct key|]. unfold line. rewrite nospace_app, Hk. simpl. exact Hv.
Qed.

#[local] Hint Resolve line_ok hexEncode_nospace nospace_itoa : core.
#[local] Hint Extern 0 (nospace _ = true) => reflexivity : core.

(** The peer the text of [SetPeer] describes. *)
Definition peerConfigOf (p : Peer) : PeerConfig :=
  mkPeerConfig (p_public p) false false
    (if bool_decide (p_preshared p = zeroKey) then None else Some (p_preshared p))
    (if AddrPort_IsValid (p_endpoint p) then Some (p_endpoint p) else None)
    (if 0 <? p_keepalive p then Some (wrap64 (p_keepalive p * Second)) else None)
    true (map Masked (p_allowedIPs p)).

(** What a caller hands over: whole keys, addresses without zones, an [int]. *)
Record peer_ok (p : Peer) : Prop := {
  ok_public : length (p_public p) = keyLen;
  ok_preshared : length (p_preshared p) = keyLen;
  ok_zone : addr_zone (ap_addr (p_endpoint p)) = "";
  ok_ips : Forall (fun a => Prefix_IsValid a = true /\ pfx_addr a <> AddrZero /\
                            addr_zone (pfx_addr a) = "") (p_allowedIPs p);
  ok_keepalive : p_keepalive p <= int64_max }.

Ltac lines_ok :=
  repeat match goal with
         | |- Forall _ (_ :: _) => apply Forall_cons; split; [apply line_ok; auto|]
         | |- Forall _ [] => apply Forall_nil_2
         end.

Lemma setPeerLines_ok p : peer_ok p -> Forall (fun l => l <> "" /\ nospace l = true) (setPeerLines p).
Proof.
  intros [Hpub Hpsk Hz Hips Hka]. unfold setPeerLines. rewrite !Forall_app. splits.
  - destruct (bool_decide _); lines_ok.
  - destruct (AddrPort_IsValid _) eqn:E; lines_ok.
    apply nospace_AddrPort_String; [done|]. by rewrite Hz.
  - apply Forall_map. eapply Forall_impl; [exact Hips|]. intros a (Hv & Hne & Hza).
    apply line_ok; [done|]. apply nospace_Prefix_String; [done..|]. by rewrite Hza.
  - destruct (0 <? p_keepalive p); lines_ok.
Qed.

(** Read one line of a known key. *)
Ltac parse_line :=
  cbn [parseLines]; rewrite parseLine_line by reflexivity;
  cbn -[Z.mul wrap64 keyFromHex number map app line zeroKey bool_decide parseLines];
  rewrite ?keyFromHex_encode by done;
  cbn -[Z.mul wrap64 keyFromHex number map app line zeroKey bool_decide parseLines].

Lemma parseLines_allowed cfg p ips :
  Forall (fun a => ParseCIDR (Prefix_String a) = Some (Masked a)) ips ->
  parseLines (cfg, Some p) (map (fun a => line "allowed_ip" (Prefix_String a)) ips) =
  Ok (cfg, Some (mkPeerConfig (pc_public p) (pc_remove p) (pc_updateOnly p) (pc_preshared p)
     (pc_endpoint p) (pc_keepalive p) (pc_replaceIPs p) (pc_allowedIPs p ++ map Masked ips))).
Proof.
  intros Hips. revert p. induction Hips as [|a ips Ha _ IH]; intros p; simpl.
  - rewrite app_nil_r. by destruct p.
  - parse_line. rewrite Ha. simpl. rewrite IH. simpl. by rewrite <- app_assoc.
Qed.

(** C28: the kernel side reads back from the text of [SetPeer] exactly the peer it
    was written for: its keys, its endpoint when there is one, its networks
    with their host bits cleared, its keepalive in nanoseconds, and the order
    to replace what was allowed before. *)
Theorem parseUAPI_setPeer p :
  peer_ok p ->
  (AddrPort_IsValid (p_endpoint p) = true ->
    ResolveUDPAddr (AddrPort_String (p_endpoint p)) = Some (p_endpoint p)) ->
  Forall (fun a => ParseCIDR (Prefix_String a) = Some (Masked a)) (p_allowedIPs p) ->
  parseUAPI (setPeerText p) = Ok (mkWGConfig None None [peerConfigOf p]).
Proof.
  intros Hok Hep Hips. unfold setPeerText. rewrite parseUAPI_unlines; [|done|by apply setPeerLines_ok].
  destruct Hok as [Hpub Hpsk _ _ Hka]. unfold setPeerLines. rewrite parseLines_app.
  parse_line. parse_line. cbn [parseLines mbind result_bind]. unfold peerConfigOf.
  assert (Hka' : 0 < p_keepalive p -> number "persistent_keepalive_interval" (itoa (p_keepalive p)) = Ok (p_keepalive p)).
  { intros. unfold number. rewrite Atoi_itoa; [done|lia]. }
  destruct (bool_decide (p_preshared p = zeroKey)); rewrite parseLines_app; [|parse_line]; cbn [parseLines mbind result_bind];
    rewrite parseLines_app;
    (destruct (AddrPort_IsValid (p_endpoint p)); [parse_line; rewrite (Hep eq_refl)|]); cbn [parseLines mbind result_bind];
    rewrite parseLines_app, parseLines_allowed by done; cbn [mbind result_bind];
    (destruct (Z.ltb_spec 0 (p_keepalive p)) as [Hlt|]; [parse_line; rewrite (Hka' Hlt)|]); reflexivity.
Qed.

(** The three other texts. *)
Lemma parseUAPI_configure private port :
  length private = keyLen -> 0 <= port <= int64_max ->
  parseUAPI (configureText private port) = Ok (mkWGConfig (Some private) (Some port) []).
Proof.
  intros Hk Hp. unfold configureText. rewrite parseUAPI_unlines; [|done|lines_ok].
  parse_line. parse_line.
  unfold number. by rewrite Atoi_itoa.
Qed.

Lemma parseUAPI_setPeerEndpoint pub ep :
  length pub = keyLen -> AddrPort_IsValid ep = true -> addr_zone (ap_addr ep) = "" ->
  ResolveUDPAddr (AddrPort_String ep) = Some ep ->
  parseUAPI (setPeerEndpointText pub ep) =
    Ok (mkWGConfig None None [mkPeerConfig pub false true None (Some ep) None false []]).
Proof.
  intros Hk Hv Hz Hr. unfold setPeerEndpointText.
  assert (nospace (AddrPort_String ep) = true) by (apply nospace_AddrPort_String; [done|by rewrite Hz]).
  rewrite parseUAPI_unlines; [|done|lines_ok].
  parse_line. parse_line. parse_line.
  by rewrite Hr.
Qed.

Lemma parseUAPI_removePeer pub :
  length pub = keyLen ->
  parseUAPI (removePeerText pub) =
    Ok (mkWGConfig None None [mkPeerConfig pub true false None None None false []]).
Proof.
  intros Hk. unfold removePeerText.
  rewrite parseUAPI_unlines; [|done|lines_ok].
  parse_line. by parse_line.
Qed.

(** A key the text does not know is refused, wherever it stands. *)
Lemma parseLine_unknown st key value :
  nochar eqc key = true ->
  key ∉ ["private_key"; "listen_port"; "public_key"; "preshared_key"; "endpoint"; "allowed_ip";
         "persistent_keepalive_interval"; "replace_allowed_ips"; "update_only"; "remove"] ->
  parseLine st (line key value) = Err (EUnhandled key).
Proof.
  intros Hk Hnot. rewrite parseLine_line by done. unfold parseKey.
  repeat (match goal with |- context [String.eqb key ?k] =>
    destruct (String.eqb_spec key k) as [->|]; [exfalso; apply Hnot; set_solver|] end). done.
Qed.

End Parse.

(** ** The device's state, written by [dump] and read by [Status] *)

(** [wgtypes.Device] and [wgtypes.Peer], as far as [dump] reads them; a peer that
    never completed a handshake has the zero time. *)
Record WGPeer : Type := mkWGPeer {
  w_public : Key; w_endpoint : option AddrPort; w_handshake : option Z;
  w_rx : Z; w_tx : Z; w_allowedIPs : list Prefix }.

Record WGDevice : Type := mkWGDevice { w_port : Z; w_peers : list WGPeer }.

Definition handshakeSeconds (t : option Z) : Z := default 0 t.

Definition dumpPeer (p : WGPeer) : list string :=
  line "public_key" (hexEncode (w_public p)) ::
  match w_endpoint p with Some e => [line "endpoint" (AddrPort_String e)] | None => [] end ++
  [line "last_handshake_time_sec" (itoa (handshakeSeconds (w_handshake p)));
   line "rx_bytes" (itoa (w_rx p)); line "tx_bytes" (itoa (w_tx p))].

Definition dump (dev : WGDevice) : string :=
  unlines (line "listen_port" (itoa (w_port dev)) :: concat (map dumpPeer (w_peers dev))).

(** [fmt.Sscanf(s, "%d", &n)]: leading spaces, a sign where the target is signed,
    the digits that follow, and a value that fits; what comes after is not
    looked at.  [None] leaves the target alone. *)
Fixpoint digitPrefix (s : string) : string :=
  match s with
  | "" => ""
  | String c s => if digit c then String c (digitPrefix s) else ""
  end.

Definition Sscanf (signed : bool) (s : string) : option Z :=
  let s := trim_left s in
  let '(neg, s) := match s with
    | String "-" s' => if signed then (true, s') else (false, s)
    | String "+" s' => if signed then (false, s') else (false, s)
    | _ => (false, s)
    end in
  let ds := digitPrefix s in
  if String.eqb ds "" then None
  else match digits 0 ds with
       | None => None
       | Some z =>
           let z := if neg then - z else z in
           if signed then if bool_decide (in_int64 z) then Some z else None
           else if z <? 2 ^ 64 then Some z else None
       end.

Record PeerStatus : Type := mkPeerStatus {
  ps_endpoint : string; ps_handshake : Z; ps_rx : Z; ps_tx : Z; ps_allowedIPs : list Prefix }.

Definition zeroStatus : PeerStatus := mkPeerStatus "" 0 0 0 [].

Section Status.
Context `{WGKeys}.
(** [netip.ParsePrefix]. *)
Context (ParsePrefix : string -> option Prefix).

(** What [Status]' loop keeps: the map so far, the current key's text and its
    status. *)
Definition sstate : Type := gmap string PeerStatus * string * PeerStatus.

Definition flushStatus (x : sstate) : sstate :=
  let '(out, cur, st) := x in
  (if String.eqb cur "" then out else <[cur := st]> out, cur, zeroStatus).

Definition statusKey (x : sstate) (k v : string) : sstate :=
  let '(out, cur, st) := x in
  if String.eqb k "public_key" then
    let '(out, _, st) := flushStatus x in
    match hexDecode v with
    | Some b => if (length b =? keyLen)%nat then (out, KeyString b, st) else (out, "", st)
    | None => (out, "", st)
    end
  else if String.eqb k "endpoint" then
    (out, cur, mkPeerStatus v (ps_handshake st) (ps_rx st) (ps_tx st) (ps_allowedIPs st))
  else if String.eqb k "last_handshake_time_sec" then
    (out, cur, mkPeerStatus (ps_endpoint st) (default (ps_handshake st) (Sscanf true v))
                 (ps_rx st) (ps_tx st) (ps_allowedIPs st))
  else if String.eqb k "rx_bytes" then
    (out, cur, mkPeerStatus (ps_endpoint st) (ps_handshake st) (default (ps_rx st) (Sscanf false v))
                 (ps_tx st) (ps_allowedIPs st))
  else if String.eqb k "tx_bytes" then
    (out, cur, mkPeerStatus (ps_endpoint st) (ps_handshake st) (ps_rx st)
                 (default (ps_tx st) (Sscanf false v)) (ps_allowedIPs st))
  else if String.eqb k "allowed_ip" then
    match ParsePrefix v with
    | Some p => (out, cur, mkPeerStatus (ps_endpoint st) (ps_handshake st) (ps_rx st) (ps_tx st)
                             (ps_allowedIPs st ++ [p]))
    | None => x
    end
  else x.

Definition statusLine (x : sstate) (l : string) : sstate :=
  match cutc eqc l with None => x | Some (k, v) => statusKey x k v end.

(** [Status] on what [dump] returned. *)
Definition Status (raw : string) : gmap string PeerStatus :=
  let '(out, _, _) := flushStatus (fold_left statusLine (splitc nl raw) (∅, "", zeroStatus)) in out.

(** [ListenPort]: the first line that gives it, if it reads as a number. *)
Fixpoint ListenPort_go (ls : list string) : option Z :=
  match ls with
  | [] => None
  | l :: ls =>
      let '(port, ok) := CutPrefix l "listen_port=" in
      if ok then Sscanf true port else ListenPort_go ls
  end.
Definition ListenPort (raw : string) : option Z := ListenPort_go (splitc nl raw).

(** ** Reading back what the kernel side wrote *)

Lemma digitPrefix_digits acc s z : digits acc s = Some z -> digitPrefix s = s.
Proof.
  revert acc. induction s as [|c s IH]; intros acc; simpl; [done|].
  destruct (digit c); [|done]. intros Hz. by rewrite (IH _ Hz).
Qed.

Lemma Sscanf_itoa signed z : 0 <= z <= int64_max -> Sscanf signed (itoa z) = Some z.
Proof.
  intros Hz. destruct (itoa_digits z) as (Hs & c & q & E & Hm & Hp & Hd); [lia|].
  unfold Sscanf. rewrite trim_left_nospace by done.
  assert (Hsign : match itoa z with
    | String "-" s' => if signed then (true, s') else (false, itoa z)
    | String "+" s' => if signed then (false, s') else (false, itoa z)
    | _ => (false, itoa z) end = (false, itoa z)).
  { rewrite E. destruct c as [[] [] [] [] [] [] [] []]; done. }
  rewrite Hsign, (digitPrefix_digits _ _ _ Hd). replace (String.eqb (itoa z) "") with false by (by rewrite E).
  rewrite Hd. destruct signed.
  - rewrite bool_decide_true; [done|]. unfold in_int64, int64_min. lia.
  - destruct (Z.ltb_spec z (2 ^ 64)); [done|]. unfold int64_max in Hz. lia.
Qed.

Lemma ListenPort_go_first port ls :
  0 <= port <= int64_max -> ListenPort_go (line "listen_port" (itoa port) :: ls) = Some port.
Proof.
  intros Hp. change (line "listen_port" (itoa port)) with ("listen_port=" +:+ itoa port).
  cbn [ListenPort_go]. replace (CutPrefix ("listen_port=" +:+ itoa port) "listen_port=") with (itoa port, true).
  - by apply Sscanf_itoa.
  - clear. generalize (itoa port). intros s. unfold CutPrefix, HasPrefix. cbn. by destruct s.
Qed.

(** What [Status] makes of a peer the kernel reports. *)
Definition statusOf (p : WGPeer) : PeerStatus :=
  mkPeerStatus (match w_endpoint p with Some e => AddrPort_String e | None => "" end)
    (handshakeSeconds (w_handshake p)) (w_rx p) (w_tx p) [].

(** What the kernel reports: whole keys, valid endpoints, counters and times
    that an [int64] holds. *)
Record wg_ok (p : WGPeer) : Prop := {
  wg_key : length (w_public p) = keyLen;
  wg_endpoint : forall e, w_endpoint p = Some e -> AddrPort_IsValid e = true /\ addr_zone (ap_addr e) = "";
  wg_time : 0 <= handshakeSeconds (w_handshake p) <= int64_max;
  wg_rx : 0 <= w_rx p <= int64_max;
  wg_tx : 0 <= w_tx p <= int64_max }.

Lemma statusLine_line x key value :
  nochar eqc key = true -> statusLine x (line key value) = statusKey x key value.
Proof. intros Hk. unfold statusLine. by rewrite cut_line. Qed.

(** One peer's lines: the peer before is stored, this one is open. *)
Lemma statusLine_dumpPeer p x :
  wg_ok p ->
  fold_left statusLine (dumpPeer p) x =
  ((if String.eqb x.1.2 "" then x.1.1 else <[x.1.2 := x.2]> x.1.1), KeyString (w_public p), statusOf p).
Proof.
  intros [Hk He Ht Hr Hx]. destruct x as [[out cur] st]. unfold dumpPeer. cbn [fst snd fold_left].
  rewrite statusLine_line by done. unfold statusKey at 1. cbn [String.eqb flushStatus].
  simpl (String.eqb _ _). cbn iota. rewrite hexDecode_encode, Hk. simpl (_ =? _)%nat. cbn iota.
  rewrite fold_left_app. cbn [fold_left].
  rewrite !statusLine_line by done. unfold statusOf, handshakeSeconds in *.
  destruct (w_endpoint p); cbn [fold_left]; rewrite ?statusLine_line by done; cbn -[Sscanf itoa];
    rewrite !Sscanf_itoa by done; done.
Qed.

Lemma statusLine_dump ps x :
  Forall wg_ok ps ->
  flushStatus (fold_left statusLine (concat (map dumpPeer ps)) x) =
  ((fold_left (fun m p => <[KeyString (w_public p) := statusOf p]> m) ps (flushStatus x).1.1,
    (fold_left statusLine (concat (map dumpPeer ps)) x).1.2), zeroStatus).
Proof.
  intros Hps. revert x. induction Hps as [|p ps Hp _ IH]; intros [[out cur] st]; [done|].
  cbn [map concat]. rewrite fold_left_app, statusLine_dumpPeer, IH by done. cbn [fst snd fold_left].
  unfold flushStatus at 1. cbn [fst snd].
  destruct (String.eqb_spec (KeyString (w_public p)) "") as [E|_];
    [by apply KeyString_ne in E; [|apply Hp]|].
  unfold flushStatus. cbn [fst snd]. by destruct (String.eqb cur "").
Qed.

Lemma dump_lines_ok dev :
  Forall wg_ok (w_peers dev) ->
  Forall (fun l => nochar nl l = true)
    (line "listen_port" (itoa (w_port dev)) :: concat (map dumpPeer (w_peers dev))).
Proof.
  intros Hps.
  assert (Hline : forall k v, nospace k = true -> nospace v = true -> nochar nl (line k v) = true).
  { intros k v Hk Hv. by apply nospace_nonl, line_ok. }
  constructor; [by apply Hline; [|apply nospace_itoa]|].
  induction Hps as [|p ps Hp _ IH]; [constructor|]. cbn [map concat]. apply Forall_app. split; [|exact IH].
  unfold dumpPeer. constructor; [by apply Hline; [|apply hexEncode_nospace]|].
  apply Forall_app. split.
  - destruct (w_endpoint p) as [e|] eqn:E; [|constructor]. destruct (wg_endpoint p Hp e E) as [Hv Hz].
    constructor; [|constructor]. apply Hline; [done|]. apply nospace_AddrPort_String; [done|]. by rewrite Hz.
  - repeat (constructor; [by apply Hline; [|apply nospace_itoa]|]). constructor.
Qed.

(** The map the peers of a device make. *)
Definition statusMap (ps : list WGPeer) (m : gmap string PeerStatus) : gmap string PeerStatus :=
  fold_left (fun m p => <[KeyString (w_public p) := statusOf p]> m) ps m.

Lemma Status_statusMap dev :
  Forall wg_ok (w_peers dev) -> Status (dump dev) = statusMap (w_peers dev) ∅.
Proof.
  intros Hps. unfold Status, dump. rewrite splitc_unlines by (by apply dump_lines_ok).
  rewrite fold_left_app. cbn [fold_left]. rewrite statusLine_line by done.
  change (statusKey (∅, "", zeroStatus) "listen_port" (itoa (w_port dev))) with
    ((∅ : gmap string PeerStatus, "", zeroStatus) : sstate).
  match goal with |- context [statusLine ?x ""] => change (statusLine x "") with x end.
  by rewrite statusLine_dump.
Qed.

Lemma statusMap_other ps m k :
  (forall p, p ∈ ps -> KeyString (w_public p) <> k) -> statusMap ps m !! k = m !! k.
Proof.
  unfold statusMap. revert m. induction ps as [|p ps IH]; intros m Hk; cbn [fold_left]; [done|].
  rewrite IH by set_solver. apply lookup_insert_ne. set_solver.
Qed.

Lemma statusMap_elem ps m p :
  Forall wg_ok ps -> NoDup (map w_public ps) -> p ∈ ps ->
  statusMap ps m !! KeyString (w_public p) = Some (statusOf p).
Proof.
  intros Hok. revert m. induction Hok as [|q ps Hq Hok IH]; intros m Hn Hin; [by apply not_elem_of_nil in Hin|].
  cbn [map] in Hn. apply NoDup_cons in Hn as [Hnin Hn].
  unfold statusMap. cbn [fold_left]. fold (statusMap ps (<[KeyString (w_public q):=statusOf q]> m)).
  apply elem_of_cons in Hin as [->|Hin]; [|by apply IH].
  rewrite statusMap_other, lookup_insert_eq; [done|].
  intros p' Hin E. apply Hnin. apply list_elem_of_fmap. exists p'. split; [|done].
  symmetry. apply KeyString_inj; [|apply Hq|done].
  apply (wg_key p'), (proj1 (Forall_forall _ _) Hok p' Hin).
Qed.

Lemma statusMap_inv ps m k st :
  statusMap ps m !! k = Some st ->
  m !! k = Some st \/ exists p, p ∈ ps /\ k = KeyString (w_public p) /\ st = statusOf p.
Proof.
  unfold statusMap. revert m. induction ps as [|q ps IH]; intros m; cbn [fold_left]; [auto|].
  intros [Hm|(p & ? & ?)]%IH; [|right; exists p; set_solver].
  destruct (decide (k = KeyString (w_public q))) as [->|Hne].
  - rewrite lookup_insert_eq in Hm. injection Hm as <-. right. exists q. set_solver.
  - rewrite lookup_insert_ne in Hm by congruence. by left.
Qed.

(** C29: [ListenPort] and [Status] read back from the kernel's [dump] the port and,
    for every peer of the device and for no other key, its endpoint, its last
    handshake (zero when there has been none) and its counters; never an
    allowed network, since [dump] writes none. *)
Theorem Status_dump dev :
  0 <= w_port dev <= int64_max -> Forall wg_ok (w_peers dev) -> NoDup (map w_public (w_peers dev)) ->
  ListenPort (dump dev) = Some (w_port dev) /\
  (forall p, p ∈ w_peers dev -> Status (dump dev) !! KeyString (w_public p) = Some (statusOf p)) /\
  (forall k st, Status (dump dev) !! k = Some st ->
    exists p, p ∈ w_peers dev /\ k = KeyString (w_public p) /\ ps_allowedIPs st = []).
Proof.
  intros Hport Hps Hnd. rewrite Status_statusMap by done. splits.
  - unfold ListenPort, dump. rewrite splitc_unlines by (by apply dump_lines_ok).
    by apply ListenPort_go_first.
  - intros p Hp. by apply statusMap_elem.
  - intros k st [Hm|(p & ? & ? & ->)]%statusMap_inv; [by rewrite lookup_empty in Hm|eauto].
Qed.

End Status.

(** ** Witnesses *)

(** A reader of dotted addresses, for evaluating the model: "a.b.c.d" followed by
    the separator and a number. *)
Definition readV4 (sep : Ascii.ascii) (s : string) : option (Z * Z) :=
  match cutc sep s with
  | None => None
  | Some (a, n) =>
      match map Atoi (splitc "." a), Atoi n with
      | [Some b1; Some b2; Some b3; Some b4], Some n => Some (((b1 * 256 + b2) * 256 + b3) * 256 + b4, n)
      | _, _ => None
      end
  end.
Definition exResolve (s : string) : option AddrPort :=
  '(v, n) ← readV4 ":" s; Some (mkAddrPort (V4 v) n).
Definition exCIDR (s : string) : option Prefix :=
  '(v, n) ← readV4 "/" s; Some (Masked (mkPrefix (V4 v) n)).

Definition exPeer : Peer :=
  mkPeer (exKey 7) zeroKey (mkAddrPort (V4 (127 * 2 ^ 24 + 1)) 4242)
    [mkPrefix (V4 (10 * 2 ^ 24 + 7)) 32; mkPrefix (V4 (192 * 2 ^ 24 + 168 * 2 ^ 16 + 9)) 16] 25.

Lemma parseUAPI_setPeer_witness :
  parseUAPI exResolve exCIDR (setPeerText exPeer) = Ok (mkWGConfig None None [peerConfigOf exPeer]).
Proof.
  apply parseUAPI_setPeer.
  - constructor; try (vm_compute; done). repeat (constructor; [vm_compute; done|]). constructor.
  - intros _. vm_compute. reflexivity.
  - repeat (constructor; [vm_compute; reflexivity|]). constructor.
Defined.

Definition exWG : WGDevice :=
  mkWGDevice 51820
    [mkWGPeer (exKey 1) (Some (mkAddrPort (V4 (127 * 2 ^ 24 + 1)) 4242)) None 10 20 [];
     mkWGPeer (exKey 2) None (Some 1700000000) 0 0 [mkPrefix (V4 7) 32]].

Lemma Status_dump_witness :
  ListenPort (dump exWG) = Some 51820 /\
  (forall p, p ∈ w_peers exWG -> Status exCIDR (dump exWG) !! KeyString (w_public p) = Some (statusOf p)) /\
  (forall k st, Status exCIDR (dump exWG) !! k = Some st ->
    exists p, p ∈ w_peers exWG /\ k = KeyString (w_public p) /\ ps_allowedIPs st = []).
Proof.
  apply (Status_dump exCIDR exWG).
  - vm_compute. split; discriminate.
  - repeat (constructor; [constructor; [reflexivity| |vm_compute; split; discriminate..]|]); [..|constructor].
    + intros e [= <-]. split; reflexivity.
    + intros e [=].
  - apply (bool_decide_unpack _). vm_compute. exact I.
Defined.

End UAPI.
