(* ===== verification/Device.v ===== *)
(** * internal/tunnel: the WireGuard device and the interface under it.

    device.go over whatever controls the device (the class [WGControl], the
    source's [wgControl] interface, with the kernel implementation of
    device_kernel_linux.go), the creation of the interface
    (device_kernel_linux.go, device_tun.go, choose_linux.go) and the commands
    that configure it (netcfg_linux.go, netcfg_darwin.go).

    A command is its argument vector; a run of one appends it to a history, and
    whether it succeeds is a function of the history and the command. *)
From S2P Require Import Prelude GoStrings NetIP NetText Keys Filter NFT UAPI.

Module Device.
Import NetText.NetText UAPI.UAPI.

(** ** The control half *)

Inductive ctlError : Type := ECtlText (e : uapiError) | ECtl (msg : string).

(** A command and its arguments. *)
Definition cmd : Type := list string.
Definition linkDel (name : string) : cmd := ["ip"; "link"; "del"; "dev"; name].

(** [wgControl]; closing says which commands it runs. *)
Class WGControl (C : Type) : Type := {
  apply : C -> string -> result ctlError C;
  ctl_dump : C -> result ctlError string;
  ctl_close : C -> C * list cmd }.

(** [kernelControl] of the interface [iface]: [wgctrl.Client] is a library, so what
    it does with a configuration, reports and does on closing are parameters; the
    link goes when it is closed. *)
Definition kernelControl {K : Type} (iface : string) (ResolveUDPAddr : string -> option AddrPort)
    (ParseCIDR : string -> option Prefix)
    (ConfigureDevice : K -> WGConfig -> result ctlError K) (Dev : K -> result ctlError WGDevice)
    (CloseClient : K -> K) : WGControl K := {|
  apply k uapi :=
    match parseUAPI ResolveUDPAddr ParseCIDR uapi with
    | Err e => Err (ECtlText e)
    | Ok cfg => ConfigureDevice k cfg
    end;
  ctl_dump k := dev ← Dev k; Ok (dump dev);
  ctl_close k := (CloseClient k, [linkDel iface]) |}.

(** ** The device *)

Record Device (C : Type) : Type := mkDevice {
  d_ctrl : C; d_name : string; d_addrs : list Addr; d_filter : option Filter.Filter.Filter;
  d_peers : gmap string AddrPort; d_closed : bool }.
Arguments mkDevice {C}. Arguments d_ctrl {C}. Arguments d_name {C}. Arguments d_addrs {C}.
Arguments d_filter {C}. Arguments d_peers {C}. Arguments d_closed {C}.

Inductive devError : Type :=
| ENoAllowedIPs (peer : string)
| EApply (e : ctlError)
| ENoListenPort
| ENoFirewall
| ENFT (stderr : string).

Section Operations.
Context `{WGKeys} {C : Type} `{!WGControl C}.
Implicit Types (d : Device C).

Definition set_ctrl (c : C) (ps : gmap string AddrPort) d : Device C :=
  mkDevice c (d_name d) (d_addrs d) (d_filter d) ps (d_closed d).

(** Apply a text and, once it is accepted, change the table. *)
Definition applied d (text : string) (ps : gmap string AddrPort) : Device C * result devError unit :=
  match apply (d_ctrl d) text with
  | Ok c => (set_ctrl c ps d, Ok tt)
  | Err e => (d, Err (EApply e))
  end.

Definition Configure (private : Key) (listenPort : Z) d : Device C * result devError unit :=
  applied d (configureText private listenPort) (d_peers d).

Definition SetPeer (p : Peer) d : Device C * result devError unit :=
  if (length (p_allowedIPs p) =? 0)%nat then (d, Err (ENoAllowedIPs (KeyString (p_public p))))
  else applied d (setPeerText p) (<[KeyString (p_public p) := p_endpoint p]> (d_peers d)).

Definition SetPeerEndpoint (pub : Key) (ep : AddrPort) d : Device C * result devError unit :=
  applied d (setPeerEndpointText pub ep) (<[KeyString pub := ep]> (d_peers d)).

Definition RemovePeer (pub : Key) d : Device C * result devError unit :=
  applied d (removePeerText pub) (delete (KeyString pub) (d_peers d)).

Definition PeerEndpoint (pub : Key) d : option AddrPort := d_peers d !! KeyString pub.

Definition devListenPort d : result devError Z :=
  match ctl_dump (d_ctrl d) with
  | Err e => Err (EApply e)
  | Ok raw => match ListenPort raw with Some n => Ok n | None => Err ENoListenPort end
  end.

Definition devStatus (ParsePrefix : string -> option Prefix) d : result devError (gmap string PeerStatus) :=
  match ctl_dump (d_ctrl d) with
  | Err e => Err (EApply e)
  | Ok raw => Ok (Status ParsePrefix raw)
  end.

(** [SetAccessRules]: in Go where there is a filter, in the kernel's firewall
    where there is none. *)
Definition SetAccessRules (nftAvailable : bool) (nft : string -> option string) (order : list Addr)
    (rules : gmap Addr (list Filter.Filter.Rule)) d : Device C * result devError unit :=
  match d_filter d with
  | Some f => (mkDevice (d_ctrl d) (d_name d) (d_addrs d) (Some (Filter.Filter.SetRules f rules))
                 (d_peers d) (d_closed d), Ok tt)
  | None =>
      if negb nftAvailable then (d, Err ENoFirewall)
      else match NFT.NFT.ApplyNFTables nft (d_name d) rules order with
           | Ok _ => (d, Ok tt)
           | Err e => (d, Err (ENFT e))
           end
  end.

Definition EnforcesAccessRules (nftAvailable : bool) d : bool :=
  match d_filter d with Some _ => true | None => nftAvailable end.

(** [Up]: only a device of this process has a state of its own to bring up. *)
Definition Up (ofProcess : bool) (bring : C -> result ctlError C) d : Device C * result devError unit :=
  if negb ofProcess then (d, Ok tt)
  else match bring (d_ctrl d) with
       | Ok c => (set_ctrl c (d_peers d) d, Ok tt)
       | Err e => (d, Err (EApply e))
       end.

(** [NewUserspaceDevice]: a network stack inside this process, or nothing. *)
Definition NewUserspaceDevice (created : option C) : option (Device C) :=
  match created with Some c => Some (mkDevice c "" [] None ∅ false) | None => None end.

(** The device of a stack inside this process has no filter, so the rules it is
    given go to the kernel's firewall, under the name of no interface, and it says
    that it enforces them. *)
Lemma userspace_unfiltered c nft order rules :
  nft (NFT.NFT.buildRuleset "" rules order) = None ->
  exists d, NewUserspaceDevice (Some c) = Some d /\ EnforcesAccessRules true d = true /\
    SetAccessRules true nft order rules d = (d, Ok tt) /\ d_filter d = None.
Proof.
  intros Hn. eexists. split; [done|]. split; [done|]. split; [|done]. unfold SetAccessRules. simpl.
  unfold NFT.NFT.ApplyNFTables, NFT.NFT.nftRun. by rewrite Hn.
Qed.

(** *** The table follows what the device accepted *)

Inductive op : Type :=
| OpConfigure (private : Key) (port : Z)
| OpSet (p : Peer)
| OpMove (pub : Key) (ep : AddrPort)
| OpRemove (pub : Key).

Definition doOp (o : op) d : Device C * result devError unit :=
  match o with
  | OpConfigure k n => Configure k n d
  | OpSet p => SetPeer p d
  | OpMove k ep => SetPeerEndpoint k ep d
  | OpRemove k => RemovePeer k d
  end.

(** What an operation the device accepted means for one key. *)
Definition means (o : op) (k : Key) (was : option AddrPort) : option AddrPort :=
  match o with
  | OpConfigure _ _ => was
  | OpSet p => if bool_decide (p_public p = k) then Some (p_endpoint p) else was
  | OpMove k' ep => if bool_decide (k' = k) then Some ep else was
  | OpRemove k' => if bool_decide (k' = k) then None else was
  end.

Definition op_key (o : op) : option Key :=
  match o with
  | OpConfigure _ _ => None | OpSet p => Some (p_public p) | OpMove k _ => Some k | OpRemove k => Some k
  end.

Fixpoint doOps (os : list op) d : Device C * list (op * bool) :=
  match os with
  | [] => (d, [])
  | o :: os =>
      let '(d1, r) := doOp o d in
      let '(d2, rs) := doOps os d1 in
      (d2, (o, is_ok r) :: rs)
  end.

Lemma doOp_table o d k :
  length k = keyLen -> (forall k', op_key o = Some k' -> length k' = keyLen) ->
  PeerEndpoint k (doOp o d).1 =
    if is_ok (doOp o d).2 then means o k (PeerEndpoint k d) else PeerEndpoint k d.
Proof.
  intros Hk Hok. unfold PeerEndpoint.
  assert (Hins : forall k' ep, length k' = keyLen ->
    <[KeyString k' := ep]> (d_peers d) !! KeyString k =
      if bool_decide (k' = k) then Some ep else d_peers d !! KeyString k).
  { intros k' ep Hk'. case_bool_decide as E; [subst; apply lookup_insert_eq|].
    apply lookup_insert_ne. intros E'. by apply E, KeyString_inj. }
  destruct o as [pk n|p|k' ep|k']; simpl in *; unfold Configure, SetPeer, SetPeerEndpoint, RemovePeer, applied.
  - by destruct (apply _ _).
  - destruct (_ =? _)%nat; [done|]. destruct (apply _ _); [|done]. simpl. by apply Hins, Hok.
  - destruct (apply _ _); [|done]. simpl. by apply Hins, Hok.
  - destruct (apply _ _); [|done]. simpl. case_bool_decide as E; [subst; apply lookup_delete_eq|].
    apply lookup_delete_ne. intros E'. apply E, KeyString_inj; auto.
Qed.

(** the endpoint the device answers for a key is the one of the last operation
    on that key that WireGuard accepted, none after an accepted removal; an
    operation it refused, or a peer with no allowed networks, leaves no trace. *)
Theorem PeerEndpoint_last_accepted os d k :
  length k = keyLen ->
  (forall o k', o ∈ os -> op_key o = Some k' -> length k' = keyLen) ->
  PeerEndpoint k (doOps os d).1 =
    fold_left (fun was (x : op * bool) => if x.2 then means x.1 k was else was)
      (doOps os d).2 (PeerEndpoint k d).
Proof.
  intros Hk. revert d. induction os as [|o os IH]; intros d Hok; [done|]. cbn [doOps].
  pose proof (doOp_table o d k Hk ltac:(intros; eapply Hok; [|done]; set_solver)) as Ho.
  destruct (doOp o d) as [d1 r]. simpl in Ho.
  specialize (IH d1 ltac:(intros o' k' Hin; apply Hok; set_solver)).
  destruct (doOps os d1) as [d2 rs]. simpl in *. by rewrite IH, Ho.
Qed.

End Operations.

(** ** The interface *)

Definition DefaultTUNName : string := "netflow0".

(** *** netcfg_linux.go *)

Definition familyFlag (a : Addr) : string := if Is6 a then "-6" else "-4".

Definition linuxConfigure (name : string) (addrs : list Addr) (mtu : Z) : list cmd :=
  ["ip"; "link"; "set"; "dev"; name; "mtu"; itoa mtu] ::
  map (fun a => ["ip"; familyFlag a; "addr"; "add";
                 Addr_String a +:+ "/" +:+ itoa (if Is6 a then 128 else 32); "dev"; name]) addrs ++
  [["ip"; "link"; "set"; "dev"; name; "up"]].

Definition linuxAddRoute (name : string) (p : Prefix) : cmd :=
  ["ip"; familyFlag (pfx_addr p); "route"; "replace"; Prefix_String p; "dev"; name].
Definition linuxDelRoute (name : string) (p : Prefix) : cmd :=
  ["ip"; familyFlag (pfx_addr p); "route"; "del"; Prefix_String p; "dev"; name].

(** *** netcfg_darwin.go; the flag is whether a failure stops the sequence. *)

Definition darwinFamily (a : Addr) : string := if Is6 a then "inet6" else "inet".

Definition loopbackSelf (a : Addr) : list (cmd * bool) :=
  [(["ifconfig"; "lo0"; darwinFamily a; Addr_String a; "-alias"], false);
   (if Is6 a then ["ifconfig"; "lo0"; "inet6"; Addr_String a; "prefixlen"; "128"; "alias"]
    else ["ifconfig"; "lo0"; "inet"; Addr_String a; "netmask"; "255.255.255.255"; "alias"], true)].

Definition darwinConfigure (name : string) (addrs : list Addr) (mtu : Z) : list (cmd * bool) :=
  concat (map (fun a =>
    (if Is6 a then ["ifconfig"; name; "inet6"; Addr_String a; "prefixlen"; "128"; "alias"]
     else ["ifconfig"; name; "inet"; Addr_String a; Addr_String a; "netmask"; "255.255.255.255"], true)
    :: loopbackSelf a) addrs) ++
  [(["ifconfig"; name; "mtu"; itoa mtu], true); (["ifconfig"; name; "up"], true)].

Definition routeFamily (p : Prefix) : string := if Is6 (pfx_addr p) then "-inet6" else "-inet".

Definition darwinAddRoute (name : string) (p : Prefix) : list (cmd * bool) :=
  [(["route"; "-n"; "delete"; routeFamily p; Prefix_String p], false);
   (["route"; "-n"; "add"; routeFamily p; Prefix_String p; "-interface"; name], true)].
Definition darwinDelRoute (p : Prefix) : cmd := ["route"; "-n"; "delete"; routeFamily p; Prefix_String p].

Definition darwinUnconfigure (addrs : list Addr) : list cmd :=
  map (fun a => ["ifconfig"; "lo0"; darwinFamily a; Addr_String a; "-alias"]) addrs.

Section Commands.
(** Whether a command succeeds, after the commands already run. *)
Context (succeeds : list cmd -> cmd -> bool).

(** [run]: the history grows; the answer is whether it worked. *)
Definition run (h : list cmd) (c : cmd) : list cmd * bool := (h ++ [c], succeeds h c).

(** A sequence in which a checked failure stops everything after it. *)
Fixpoint runAll (h : list cmd) (cs : list (cmd * bool)) : list cmd * bool :=
  match cs with
  | [] => (h, true)
  | (c, checked) :: cs =>
      let '(h, ok) := run h c in
      if checked && negb ok then (h, false) else runAll h cs
  end.

Definition checkedAll (cs : list cmd) : list (cmd * bool) := map (fun c => (c, true)) cs.

Definition linkAdd (name : string) : cmd := ["ip"; "link"; "add"; "dev"; name; "type"; "wireguard"].

Inductive kernelError : Type := EModule | EConfigure | EControl.

(** [NewKernelDevice]; [control] is whether [wgctrl.New] opens.  The result is
    the name of the interface. *)
Definition NewKernelDevice (control : bool) (h : list cmd) (name : string) (addrs : list Addr) (mtu : Z) :
    list cmd * result kernelError string :=
  let name := if String.eqb name "" then DefaultTUNName else name in
  let '(h, _) := run h (linkDel name) in
  let '(h, added) := run h (linkAdd name) in
  if negb added then (h, Err EModule)
  else
    let '(h, configured) := runAll h (checkedAll (linuxConfigure name addrs mtu)) in
    if negb configured then ((run h (linkDel name)).1, Err EConfigure)
    else if negb control then ((run h (linkDel name)).1, Err EControl)
    else (h, Ok name).

(** [AddRoute] and [DelRoute]: nothing on a device with no interface. *)
Definition AddRoute (h : list cmd) (name : string) (p : Prefix) : list cmd * bool :=
  if String.eqb name "" then (h, true) else run h (linuxAddRoute name p).
Definition DelRoute (h : list cmd) (name : string) (p : Prefix) : list cmd * bool :=
  if String.eqb name "" then (h, true) else run h (linuxDelRoute name p).

(** [NewTUNDevice] on Linux: [tun.CreateTUN] and [Name] answer; the flag of the
    result says whether the interface was closed again. *)
Inductive tunError : Type := ECreate | EName | EConfigureTUN.

Definition NewTUNDevice (create : string -> bool) (realName : string -> option string)
    (configure : string -> list (cmd * bool)) (darwin : bool) (h : list cmd) (name : string) :
    list cmd * bool * result tunError string :=
  let name := if String.eqb name "" then DefaultTUNName else name in
  let name := if darwin then "utun" else name in
  if negb (create name) then (h, false, Err ECreate)
  else match realName name with
       | None => (h, true, Err EName)
       | Some real =>
           let '(h, ok) := runAll h (configure real) in
           if negb ok then (h, true, Err EConfigureTUN) else (h, false, Ok real)
       end.

(** [NewSystemDevice] on Linux: the kernel's first, then the process's own; both
    reasons when neither works.  [inl] is a kernel device. *)
Definition NewSystemDevice (control : bool) (create : string -> bool) (realName : string -> option string)
    (h : list cmd) (name : string) (addrs : list Addr) (mtu : Z) :
    list cmd * result (kernelError * tunError) (string + string) :=
  match NewKernelDevice control h name addrs mtu with
  | (h, Ok n) => (h, Ok (inl n))
  | (h, Err kerr) =>
      match NewTUNDevice create realName
              (fun real => checkedAll (linuxConfigure real addrs mtu)) false h name with
      | (h, _, Ok n) => (h, Ok (inr n))
      | (h, _, Err uerr) => (h, Err (kerr, uerr))
      end
  end.

Lemma runAll_ok h cs h' :
  runAll h cs = (h', true) -> h' = h ++ map fst cs.
Proof.
  revert h. induction cs as [|[c b] cs IH]; intros h; simpl; [intros [= <-]; by rewrite app_nil_r|].
  destruct (b && negb (succeeds h c)); [done|]. intros ->%IH. by rewrite <- app_assoc.
Qed.

Lemma runAll_prefix h cs : exists t, (runAll h cs).1 = h ++ t.
Proof.
  revert h. induction cs as [|[c b] cs IH]; intros h; simpl; [exists []; by rewrite app_nil_r|].
  destruct (b && negb (succeeds h c)); [by eexists|].
  destruct (IH (h ++ [c])) as [t ->]. exists ([c] ++ t). by rewrite <- app_assoc.
Qed.

Lemma map_fst_checkedAll cs : map fst (checkedAll cs) = cs.
Proof. unfold checkedAll. rewrite map_map. apply map_id. Qed.

(** Whether the link is there after the commands of a history, when every
    deletion and every successful creation does what it says. *)
Definition present (name : string) (h : list cmd) : bool :=
  fold_left (fun b c => if bool_decide (c = linkDel name) then false
                        else if bool_decide (c = linkAdd name) then true else b) h false.

Lemma present_snoc name h c :
  present name (h ++ [c]) = if bool_decide (c = linkDel name) then false
                            else if bool_decide (c = linkAdd name) then true else present name h.
Proof. unfold present. by rewrite fold_left_app. Qed.

(** an interface is never left half made: when a kernel device cannot be
    built, either the kernel refused to create the link or the last command
    took it away again; when it can, what ran is the deletion, the creation and
    the whole configuration, in order. *)
Theorem NewKernelDevice_all_or_nothing control h name addrs mtu :
  match NewKernelDevice control h name addrs mtu with
  | (h', Err EModule) =>
      exists n, h' = h ++ [linkDel n; linkAdd n] /\ succeeds (h ++ [linkDel n]) (linkAdd n) = false
  | (h', Err _) => exists n h'', h' = h'' ++ [linkDel n] /\ present n h' = false
  | (h', Ok n) =>
      control = true /\ n <> "" /\ h' = h ++ linkDel n :: linkAdd n :: linuxConfigure n addrs mtu
  end.
Proof.
  unfold NewKernelDevice. cbn [run].
  set (n := if String.eqb name "" then DefaultTUNName else name).
  assert (Hn : n <> "") by (unfold n; destruct (String.eqb_spec name ""); done).
  assert (Hdel : forall h0, present n (h0 ++ [linkDel n]) = false).
  { intros h0. by rewrite present_snoc, bool_decide_true. }
  destruct (succeeds (h ++ [linkDel n]) (linkAdd n)) eqn:Ea; cbn [negb].
  - destruct (runAll _ _) as [h' ok] eqn:Er. destruct ok; cbn [negb]; [|exists n, h'; split; [done|apply Hdel]].
    destruct control; cbn [negb]; [|exists n, h'; split; [done|apply Hdel]].
    apply runAll_ok in Er as ->. rewrite map_fst_checkedAll. splits. by rewrite <- !app_assoc.
  - exists n. split; [by rewrite <- app_assoc|done].
Qed.

End Commands.

(** ** Closing, and what a failure says *)

(** [Close]: the first call closes the control half and undoes the addresses,
    the others do nothing. *)
Definition Close {C : Type} `{!WGControl C} (unconfigure : list Addr -> list cmd) (d : Device C) :
    Device C * list cmd :=
  if d_closed d then (d, [])
  else let '(c, ran) := ctl_close (d_ctrl d) in
       (mkDevice c (d_name d) (d_addrs d) (d_filter d) (d_peers d) true, ran ++ unconfigure (d_addrs d)).

Lemma Close_idempotent {C : Type} `{!WGControl C} unconfigure (d : Device C) :
  Close unconfigure (Close unconfigure d).1 = ((Close unconfigure d).1, []).
Proof. unfold Close. destruct (d_closed d) eqn:E; [by simpl; rewrite E|]. by destruct (ctl_close (d_ctrl d)). Qed.

Inductive tunAdvice : Type := NeedsRoot | ContainerNeedsDevice | ModuleNotLoaded | PlainFailure.

(** [inContainer], from what the three files hold. *)
Definition inContainer (dockerenv : bool) (environ cgroup : option string) : bool :=
  dockerenv ||
  match environ with Some b => GoStrings.Contains b "container=" | None => false end ||
  match cgroup with
  | Some b => GoStrings.Contains b "/docker/" || GoStrings.Contains b "/lxc/"
  | None => false
  end.

Definition explainTUNFailure (euid : Z) (tunMissing container : bool) : tunAdvice :=
  if negb (euid =? 0) then NeedsRoot
  else if tunMissing then if container then ContainerNeedsDevice else ModuleNotLoaded
  else PlainFailure.

(** macOS has no [/dev/net/tun], so whatever went wrong there is taken for a module
    that is not loaded. *)
Lemma macos_sent_to_modprobe : explainTUNFailure 0 true false = ModuleNotLoaded.
Proof. done. Qed.

(** ** Witnesses *)

(** A control half that refuses the text of one peer. *)
Definition exControl : WGControl (list string) := {|
  apply log text := if GoStrings.Contains text (hexEncode (exKey 9)) then Err (ECtl "refused") else Ok (log ++ [text]);
  ctl_dump log := Ok (String.concat "" log);
  ctl_close _ := ([], []) |}.

Definition exEp (port : Z) : AddrPort := mkAddrPort (V4 (127 * 2 ^ 24 + 1)) port.
Definition exOps : list op :=
  [OpSet exPeer; OpSet (mkPeer (exKey 9) zeroKey (exEp 1) [mkPrefix (V4 9) 32] 0);
   OpMove (exKey 7) (exEp 5); OpRemove (exKey 9)].
Definition exDevice : Device (list string) := mkDevice [] "wg0" [] None ∅ false.

Lemma PeerEndpoint_last_accepted_witness :
  PeerEndpoint (exKey 7) (doOps (WGControl0 := exControl) exOps exDevice).1 = Some (exEp 5) /\
  PeerEndpoint (exKey 7) (doOps (WGControl0 := exControl) exOps exDevice).1 =
    fold_left (fun was (x : op * bool) => if x.2 then means x.1 (exKey 7) was else was)
      (doOps (WGControl0 := exControl) exOps exDevice).2 (PeerEndpoint (exKey 7) exDevice).
Proof.
  split; [vm_compute; reflexivity|].
  apply (PeerEndpoint_last_accepted (WGControl0 := exControl) exOps exDevice (exKey 7)); [reflexivity|].
  intros o k' Ho. rewrite list_elem_of_In in Ho. simpl in Ho.
  destruct Ho as [<-|[<-|[<-|[<-|[]]]]]; intros [= <-]; reflexivity.
Defined.

End Device.
