(* ===== verification/Relay.v ===== *)
(** * internal/engine/engine.go: getting pairs off the relay
    ([pickRelayToRetry], the rounds of [escapeRelay], [ProbeRelay]), and the
    probe of internal/p2p/relayprobe.go.

    Times are nanoseconds of a monotonic clock.  Go ranges over a map in an order
    of its own: [order] lists the keys of [paths] in that order. *)
From S2P Require Import Prelude GoStrings Backoff P2P.

Module Relay.
Import P2P.P2P.

Definition relayCheckEvery : Z := 2 * Minute.
Definition relaySettledFor : Z := 10 * Minute.
Definition relayRetryMin : Z := 15 * Minute.
Definition relayRetryMax : Z := 4 * Hour.

Record relayWatch : Type := mkWatch { rw_since : Z; rw_next : Z; rw_wait : Z }.

Definition newWatch (now : Z) : relayWatch := mkWatch now (now + relaySettledFor) relayRetryMin.

(** The loop over [paths]: the record of each pair and the pair picked so far. *)
Fixpoint pickLoop (paths : gmap string string) (now : Z) (order : list string)
    (seen : gmap string relayWatch) (picked : option (string * relayWatch)) :
    gmap string relayWatch * option (string * relayWatch) :=
  match order with
  | [] => (seen, picked)
  | key :: order =>
      let kind := default "" (paths !! key) in
      if String.eqb kind "direct" then pickLoop paths now order (delete key seen) picked
      else if String.eqb kind "relay" then
        match seen !! key with
        | None => pickLoop paths now order (<[key := newWatch now]> seen) picked
        | Some st =>
            if now <? rw_next st then pickLoop paths now order seen picked
            else
              let picked := match picked with
                            | None => Some (key, st)
                            | Some (_, p) => if rw_since st <? rw_since p then Some (key, st) else picked
                            end in
              pickLoop paths now order seen picked
        end
      else pickLoop paths now order seen picked
  end.

(** [pickRelayToRetry]: the records after, and the key picked. *)
Definition pickRelayToRetry (paths : gmap string string) (seen : gmap string relayWatch) (now : Z)
    (order : list string) : gmap string relayWatch * option string :=
  let '(seen, picked) := pickLoop paths now order seen None in
  let seen := filter (fun x => is_Some (paths !! x.1)) seen in
  match picked with
  | None => (seen, None)
  | Some (key, st) =>
      (<[key := mkWatch (rw_since st) (now + rw_wait st) (double relayRetryMax (rw_wait st))]> seen, Some key)
  end.

(** One round of [escapeRelay] after the other; what each picked, with its time. *)
Record round : Type := mkRound { r_paths : gmap string string; r_now : Z; r_order : list string }.

Fixpoint rounds (seen : gmap string relayWatch) (rs : list round) : list (Z * string) :=
  match rs with
  | [] => []
  | r :: rs =>
      let '(seen, picked) := pickRelayToRetry (r_paths r) seen (r_now r) (r_order r) in
      match picked with Some key => [(r_now r, key)] | None => [] end ++ rounds seen rs
  end.

(** [escapeRelay] returns at once when no relay is configured. *)
Definition escapeRelay (turn : list TURNServer) (rs : list round) : list (Z * string) :=
  if (length turn =? 0)%nat then [] else rounds ∅ rs.

(** ** The probe *)

Inductive probeError : Type :=
| ENotConfigured | EParse | ESocket | EClient | EListen | ERefused | ECancelled | ETimeout.

Definition probeTimeout : Z := 10 * Second.

(** What the probe finds: the libraries' answers, and which of the three ends of
    the [select] came first. *)
Inductive probeEnd : Type := EndCancelled | EndAllocated (ok : bool) | EndTimeout.
Record probeWorld : Type := mkProbe {
  pw_parses : string -> bool; pw_socket : bool; pw_client : bool; pw_listens : bool; pw_end : probeEnd }.

Definition probeRelay (w : probeWorld) (server : TURNServer) : result probeError unit :=
  if String.eqb (t_url server) "" then Err ENotConfigured
  else if negb (pw_parses w (t_url server)) then Err EParse
  else if negb (pw_socket w) then Err ESocket
  else if negb (pw_client w) then Err EClient
  else if negb (pw_listens w) then Err EListen
  else match pw_end w with
       | EndCancelled => Err ECancelled
       | EndAllocated true => Ok tt
       | EndAllocated false => Err ERefused
       | EndTimeout => Err ETimeout
       end.

(** [Engine.ProbeRelay]: any server that works is enough; otherwise the last
    error, and nil when there is no server. *)
Fixpoint probeAll (probe : TURNServer -> result probeError unit) (servers : list TURNServer)
    (last : result probeError unit) : result probeError unit :=
  match servers with
  | [] => last
  | s :: servers => if is_ok (probe s) then Ok tt else probeAll probe servers (probe s)
  end.
Definition ProbeRelay (probe : TURNServer -> result probeError unit) (servers : list TURNServer) :
    result probeError unit := probeAll probe servers (Ok tt).

Lemma ProbeRelay_ok probe servers :
  is_ok (ProbeRelay probe servers) = true <-> servers = [] \/ exists s, s ∈ servers /\ is_ok (probe s) = true.
Proof.
  unfold ProbeRelay. destruct servers as [|s servers]; [simpl; tauto|].
  generalize (Ok tt : result probeError unit). revert s.
  induction servers as [|s' servers IH]; intros s last; simpl.
  - destruct (probe s) eqn:E; simpl; split; intros H; try done.
    + right. exists s. rewrite E. split; [set_solver|done].
    + destruct H as [|(s0 & Hin & Hs)]; [done|]. apply list_elem_of_singleton in Hin as ->. by rewrite E in Hs.
  - destruct (probe s) eqn:E; simpl; [split; [|done]; intros _; right; exists s; rewrite E; split; [set_solver|done]|].
    specialize (IH s' (Err e)). simpl in IH. rewrite IH. split.
    + intros [|(s0 & ? & ?)]; [done|]. right. exists s0. set_solver.
    + intros [|(s0 & [->|Hin]%elem_of_cons & Hs)]; [done| |eauto]. by rewrite E in Hs.
Qed.

(** ** What a round does *)

(** A pair a round may disturb: on the relay, noticed before, and past its time. *)
Definition due (paths : gmap string string) (seen : gmap string relayWatch) (now : Z) (k : string)
    (st : relayWatch) : Prop :=
  paths !! k = Some "relay" /\ seen !! k = Some st /\ rw_next st <= now.

(** The record the loop leaves of one key. *)
Definition watched (paths : gmap string string) (seen : gmap string relayWatch) (now : Z) (k : string) :
    option relayWatch :=
  match paths !! k with
  | Some kind =>
      if String.eqb kind "direct" then None
      else if String.eqb kind "relay"
      then Some (default (newWatch now) (seen !! k)) else seen !! k
  | None => seen !! k
  end.

Lemma pickLoop_seen paths now order seen picked k :
  NoDup order -> (pickLoop paths now order seen picked).1 !! k =
    if bool_decide (k ∈ order) then watched paths seen now k else seen !! k.
Proof.
  intros Hnd. revert seen picked. induction Hnd as [|key order Hnin _ IH]; intros seen picked; cbn [pickLoop].
  { by rewrite bool_decide_false by set_solver. }
  assert (Hext : forall s1 p, (forall k', k' <> key -> s1 !! k' = seen !! k') ->
    s1 !! key = watched paths seen now key ->
    (pickLoop paths now order s1 p).1 !! k =
      if bool_decide (k ∈ key :: order) then watched paths seen now k else seen !! k).
  { intros s1 p Hother Hkey. rewrite IH. destruct (decide (k = key)) as [->|Hne].
    - by rewrite (bool_decide_false (key ∈ order)), (bool_decide_true (key ∈ key :: order)) by set_solver.
    - rewrite (bool_decide_ext (k ∈ key :: order) (k ∈ order)) by set_solver.
      unfold watched. by rewrite !Hother. }
  unfold watched in Hext at 1. destruct (paths !! key) as [kind|] eqn:Ek; simpl.
  2: by apply Hext.
  destruct (String.eqb kind "direct"); [apply Hext; [intros; by apply lookup_delete_ne|by rewrite lookup_delete_eq]|].
  destruct (String.eqb kind "relay"); [|by apply Hext].
  destruct (seen !! key) as [st|] eqn:Es; simpl in *.
  - destruct (now <? rw_next st); apply Hext; rewrite ?Es; done.
  - apply Hext; [intros; by apply lookup_insert_ne|by rewrite lookup_insert_eq].
Qed.

(** The pair picked is due, and has been on the relay for as long as any other
    that is due. *)
Definition best (paths : gmap string string) (seen : gmap string relayWatch) (now : Z)
    (done : list string) (picked : option (string * relayWatch)) : Prop :=
  match picked with
  | None => forall k st, k ∈ done -> ~ due paths seen now k st
  | Some (k0, st0) => k0 ∈ done /\ due paths seen now k0 st0 /\
      forall k st, k ∈ done -> due paths seen now k st -> rw_since st0 <= rw_since st
  end.

Lemma best_skip paths seen now dn picked key :
  best paths seen now dn picked -> (forall st, ~ due paths seen now key st) ->
  best paths seen now (dn ++ [key]) picked.
Proof.
  intros Hb Hno. destruct picked as [[k0 st0]|]; simpl in *.
  - destruct Hb as (? & ? & Hle). split; [set_solver|]. split; [done|].
    intros k st [Hin| ->%list_elem_of_singleton]%elem_of_app Hdue; [by eapply Hle|by destruct (Hno st)].
  - intros k st [Hin| ->%list_elem_of_singleton]%elem_of_app; [by apply Hb|apply Hno].
Qed.

Lemma pickLoop_best paths now seen0 order : forall dn seen picked,
  NoDup order -> (forall k, k ∈ order -> k ∉ dn) ->
  (forall k, k ∈ order -> seen !! k = seen0 !! k) ->
  best paths seen0 now dn picked ->
  best paths seen0 now (dn ++ order) (pickLoop paths now order seen picked).2.
Proof.
  induction order as [|key order IH]; intros dn seen picked Hnd Hdisj Heq Hb; cbn [pickLoop]; [by rewrite app_nil_r|].
  apply NoDup_cons in Hnd as [Hnin Hnd].
  assert (Hstep : forall s1 p, (forall k', k' <> key -> s1 !! k' = seen !! k') ->
    best paths seen0 now (dn ++ [key]) p ->
    best paths seen0 now (dn ++ key :: order) (pickLoop paths now order s1 p).2).
  { intros s1 p Hother Hp. replace (dn ++ key :: order) with ((dn ++ [key]) ++ order) by (by rewrite <- app_assoc).
    apply IH; [done| | |done].
    - intros k Hk. apply not_elem_of_app. split; [apply Hdisj; set_solver|]. set_solver.
    - intros k Hk. rewrite Hother by set_solver. apply Heq. set_solver. }
  assert (Hkey : seen !! key = seen0 !! key) by (apply Heq; set_solver).
  destruct (paths !! key) as [kind|] eqn:Ek; simpl.
  2: { apply Hstep; [done|]. apply best_skip; [done|]. intros st (Hp & _). congruence. }
  destruct (String.eqb_spec kind "direct") as [->|Hnd'].
  { apply Hstep; [intros; by apply lookup_delete_ne|]. apply best_skip; [done|].
    intros st (Hp & _). congruence. }
  destruct (String.eqb_spec kind "relay") as [->|Hnr].
  2: { apply Hstep; [done|]. apply best_skip; [done|]. intros st (Hp & _). congruence. }
  destruct (seen !! key) as [st|] eqn:Es.
  2: { apply Hstep; [intros; by apply lookup_insert_ne|]. apply best_skip; [done|].
       intros st (_ & Hs & _). congruence. }
  destruct (Z.ltb_spec now (rw_next st)) as [Hlt|Hge].
  { apply Hstep; [done|]. apply best_skip; [done|]. intros st' (_ & Hs & ?).
    assert (st' = st) as -> by congruence. lia. }
  assert (Hdue : due paths seen0 now key st) by (split; [done|]; by rewrite <- Hkey).
  assert (Hall : forall k st', k ∈ dn ++ [key] -> due paths seen0 now k st' -> k ∈ dn \/ st' = st).
  { intros k st' [Hin| ->%list_elem_of_singleton]%elem_of_app (_ & Hs & _); [by left|right; congruence]. }
  apply Hstep; [done|]. destruct picked as [[k0 st0]|]; simpl in *.
  - destruct Hb as (Hin & Hd0 & Hle). destruct (Z.ltb_spec (rw_since st) (rw_since st0)); simpl.
    + split; [set_solver|]. split; [done|]. intros k st' Hk Hd.
      destruct (Hall k st' Hk Hd) as [Hk'| ->]; [specialize (Hle k st' Hk' Hd)|]; lia.
    + split; [set_solver|]. split; [done|]. intros k st' Hk Hd.
      destruct (Hall k st' Hk Hd) as [Hk'| ->]; [by eapply Hle|lia].
  - split; [set_solver|]. split; [done|]. intros k st' Hk Hd.
    destruct (Hall k st' Hk Hd) as [Hk'| ->]; [by destruct (Hb k st' Hk')|lia].
Qed.

Lemma pickRelay_best paths seen now order :
  NoDup order -> (forall k, k ∈ order <-> is_Some (paths !! k)) ->
  best paths seen now order (pickLoop paths now order seen None).2.
Proof.
  intros Hnd Hdom. apply (pickLoop_best paths now seen order []); [done|set_solver|done|].
  intros k st Hk. set_solver.
Qed.

(** a round disturbs at most one pair, the one that has been on the relay the
    longest among those whose time has come, and none when no time has come;
    it puts that pair off by its wait, which doubles up to four hours, and it
    leaves alone the record of a pair that is not on the relay at this instant,
    of which only a direct path is taken as success. *)
Theorem pickRelayToRetry_spec paths seen now order :
  NoDup order -> (forall k, k ∈ order <-> is_Some (paths !! k)) ->
  let seen' := (pickRelayToRetry paths seen now order).1 in
  match (pickRelayToRetry paths seen now order).2 with
  | None => forall k st, ~ due paths seen now k st
  | Some k0 => exists st0, due paths seen now k0 st0 /\
      (forall k st, due paths seen now k st -> rw_since st0 <= rw_since st) /\
      seen' !! k0 = Some (mkWatch (rw_since st0) (now + rw_wait st0) (double relayRetryMax (rw_wait st0)))
  end /\
  (forall k, (pickRelayToRetry paths seen now order).2 <> Some k ->
    seen' !! k = if decide (is_Some (paths !! k)) then watched paths seen now k else None).
Proof.
  intros Hnd Hdom. pose proof (pickRelay_best paths seen now order Hnd Hdom) as Hb.
  pose proof (fun k => pickLoop_seen paths now order seen None k Hnd) as Hs.
  unfold pickRelayToRetry. destruct (pickLoop _ _ _ _ _) as [seen1 picked]. simpl in *.
  assert (Hin : forall k st, due paths seen now k st -> k ∈ order).
  { intros k st (Hp & _). apply Hdom. by exists "relay". }
  assert (Hfilter : forall k, filter (fun x : string * relayWatch => is_Some (paths !! x.1)) seen1 !! k =
    if decide (is_Some (paths !! k)) then watched paths seen now k else None).
  { intros k. destruct (decide (is_Some (paths !! k))) as [Hk|Hk].
    - assert (Hw : seen1 !! k = watched paths seen now k).
      { rewrite Hs, bool_decide_true; [done|]. by apply Hdom. }
      rewrite <- Hw. destruct (seen1 !! k) eqn:E.
      + by apply map_lookup_filter_Some.
      + apply map_lookup_filter_None. by left.
    - apply map_lookup_filter_None. right. by intros. }
  destruct picked as [[k0 st0]|]; simpl in *.
  - destruct Hb as (_ & Hdue & Hle). split.
    + exists st0. splits; [|by rewrite lookup_insert_eq]. eauto.
    + intros k Hne. rewrite lookup_insert_ne by congruence. apply Hfilter.
  - split; [|intros; apply Hfilter]. intros k st Hdue. by eapply Hb; eauto.
Qed.

(** ** Across rounds *)

(** No record is due before [t] for a pair disturbed at [t - relaySettledFor] or
    later. *)
Definition notBefore (k : string) (t : Z) (seen : gmap string relayWatch) : Prop :=
  forall st, seen !! k = Some st -> t <= rw_next st.

Definition waits_ok (seen : gmap string relayWatch) : Prop :=
  forall k st, seen !! k = Some st -> relayRetryMin <= rw_wait st <= relayRetryMax.

Definition round_ok (r : round) : Prop :=
  NoDup (r_order r) /\ forall k, k ∈ r_order r <-> is_Some (r_paths r !! k).

Lemma watched_wait paths seen now k st :
  waits_ok seen -> watched paths seen now k = Some st -> relayRetryMin <= rw_wait st <= relayRetryMax.
Proof.
  intros Hw. unfold watched. destruct (paths !! k) as [kind|]; [|apply Hw].
  destruct (String.eqb kind "direct"); [done|]. destruct (String.eqb kind "relay"); [|apply Hw].
  intros [= <-]. destruct (seen !! k) eqn:E; simpl; [by apply (Hw k)|]. split; reflexivity || done.
Qed.

Lemma waits_facts : 0 < relayRetryMin <= relayRetryMax /\ relayRetryMax * 2 <= int64_max /\
  relaySettledFor <= relayRetryMin.
Proof. vm_compute. repeat split; discriminate. Qed.

Lemma round_step r seen seen' picked :
  round_ok r -> waits_ok seen ->
  pickRelayToRetry (r_paths r) seen (r_now r) (r_order r) = (seen', picked) ->
  waits_ok seen' /\
  (forall k, picked = Some k -> notBefore k (r_now r + relaySettledFor) seen') /\
  (forall k t, notBefore k t seen -> t <= r_now r + relaySettledFor -> notBefore k t seen') /\
  (forall k t, notBefore k t seen -> picked = Some k -> t <= r_now r).
Proof.
  intros [Hnd Hdom] Hw E. destruct waits_facts as (Hmin & Hmax & Hset).
  pose proof (pickRelayToRetry_spec (r_paths r) seen (r_now r) (r_order r) Hnd Hdom) as Hspec.
  rewrite E in Hspec. cbn [fst snd] in Hspec. destruct Hspec as [Hp Hr].
  assert (Hother : forall k st, picked <> Some k -> seen' !! k = Some st ->
    watched (r_paths r) seen (r_now r) k = Some st).
  { intros k st Hne Hk. rewrite Hr in Hk by done. by destruct (decide _). }
  assert (Hpick : forall k, picked = Some k -> exists st0, due (r_paths r) seen (r_now r) k st0 /\
    seen' !! k = Some (mkWatch (rw_since st0) (r_now r + rw_wait st0) (double relayRetryMax (rw_wait st0)))).
  { intros k ->. destruct Hp as (st0 & ? & _ & ?). eauto. }
  splits.
  - intros k st Hk. destruct (decide (picked = Some k)) as [Ek|Hne].
    + destruct (Hpick k Ek) as (st0 & (_ & Hs & _) & Hk'). rewrite Hk' in Hk. injection Hk as <-. simpl.
      apply double_range; [done..|]. by apply (Hw k).
    + eapply watched_wait; eauto.
  - intros k Ek st Hk. destruct (Hpick k Ek) as (st0 & (_ & Hs & _) & Hk'). rewrite Hk' in Hk.
    injection Hk as <-. simpl. destruct (Hw k st0 Hs). lia.
  - intros k t Ht Hle st Hk. destruct (decide (picked = Some k)) as [Ek|Hne].
    + destruct (Hpick k Ek) as (st0 & (_ & Hs & _) & Hk'). rewrite Hk' in Hk. injection Hk as <-. simpl.
      destruct (Hw k st0 Hs). lia.
    + specialize (Hother k st Hne Hk). unfold watched in Hother.
      destruct (r_paths r !! k) as [kind|]; [|by apply Ht].
      destruct (String.eqb kind "direct"); [done|]. destruct (String.eqb kind "relay"); [|by apply Ht].
      injection Hother as <-. destruct (seen !! k) eqn:Es; simpl; [by apply Ht|lia].
  - intros k t Ht Ek. destruct (Hpick k Ek) as (st0 & (_ & Hs & Hn) & _). specialize (Ht st0 Hs). lia.
Qed.

Lemma rounds_notBefore rs : forall seen k t,
  waits_ok seen -> notBefore k t seen -> Forall round_ok rs ->
  Forall (fun r => t <= r_now r + relaySettledFor) rs ->
  forall t2, (t2, k) ∈ rounds seen rs -> t <= t2.
Proof.
  induction rs as [|r rs IH]; intros seen k t Hw Hn Hok Hle t2 Hin; simpl in Hin; [by apply not_elem_of_nil in Hin|].
  apply Forall_cons in Hok as [Hr Hok]. apply Forall_cons in Hle as [Ht Hle].
  destruct (pickRelayToRetry (r_paths r) seen (r_now r) (r_order r)) as [seen' picked] eqn:E.
  destruct (round_step r seen seen' picked Hr Hw E) as (Hw' & _ & Hkeep & Hpick).
  apply elem_of_app in Hin as [Hin|Hin]; [|by eapply (IH seen'); eauto].
  destruct picked as [k'|]; [|by apply not_elem_of_nil in Hin].
  apply list_elem_of_singleton in Hin as [= -> ->]. by apply (Hpick k').
Qed.

(** the same pair is never disturbed twice within ten minutes, whatever the
    paths did in between: a pair that found a direct path and lost it again
    starts a new wait, and one that never did waits at least fifteen. *)
Theorem escapeRelay_spacing turn rs l1 l2 l3 t1 t2 k :
  Forall round_ok rs -> StronglySorted (fun r1 r2 => r_now r1 <= r_now r2) rs ->
  escapeRelay turn rs = l1 ++ (t1, k) :: l2 ++ (t2, k) :: l3 ->
  t1 + relaySettledFor <= t2.
Proof.
  unfold escapeRelay. destruct (_ =? _)%nat; [by destruct l1|].
  assert (Hw : waits_ok ∅) by (intros k' st; by rewrite lookup_empty).
  revert Hw. generalize (∅ : gmap string relayWatch). revert l1.
  induction rs as [|r rs IH]; intros l1 seen Hw Hok Hsort E; simpl in E; [by destruct l1|].
  apply Forall_cons in Hok as [Hr Hok]. apply StronglySorted_inv in Hsort as [Hsort Hle].
  destruct (pickRelayToRetry (r_paths r) seen (r_now r) (r_order r)) as [seen' picked] eqn:Ep.
  destruct (round_step r seen seen' picked Hr Hw Ep) as (Hw' & Hnext & _ & _).
  destruct picked as [k'|]; [|by apply (IH l1 seen')]. simpl in E.
  destruct l1 as [|x l1]; [injection E as Et Ek E; subst t1 k'|injection E as _ E].
  - apply (rounds_notBefore rs seen' k); auto.
    + eapply Forall_impl; [exact Hle|]. intros r' ?. simpl in *. vm_compute (relaySettledFor). lia.
    + rewrite E. set_solver.
  - by apply (IH l1 seen').
Qed.

(** ** Witnesses *)

Definition exPaths (a b : string) : gmap string string := {[ "a" := a; "b" := b ]}.
Definition exRound (n : Z) (a b : string) : round := mkRound (exPaths a b) (n * Minute) ["b"; "a"].
Definition exRounds : list round :=
  [exRound 0 "relay" "direct"; exRound 2 "relay" "relay"; exRound 10 "relay" "relay";
   exRound 12 "" "relay"; exRound 14 "relay" "relay"; exRound 25 "relay" "relay"; exRound 56 "relay" ""].
Definition exTURN : list TURNServer := [mkTURN "turn:relay" "u" "p"].

Example exRounds_picks :
  escapeRelay exTURN exRounds =
  [(10 * Minute, "a"); (12 * Minute, "b"); (25 * Minute, "a"); (56 * Minute, "a")].
Proof. vm_compute. reflexivity. Qed.

Lemma exRound_ok n a b : round_ok (exRound n a b).
Proof.
  split; [apply (bool_decide_unpack _); vm_compute; exact I|].
  intros k. simpl. unfold exPaths.
  destruct (decide (k = "a")) as [->|Ha]; [split; [intros; by eexists|set_solver]|].
  destruct (decide (k = "b")) as [->|Hb]; [split; [intros; by eexists|set_solver]|].
  replace ({["a" := a; "b" := b]} !! k) with (None : option string); [split; [set_solver|by intros []]|].
  symmetry. rewrite lookup_insert_ne, lookup_singleton_ne; done.
Qed.

Lemma escapeRelay_spacing_witness : 10 * Minute + relaySettledFor <= 25 * Minute.
Proof.
  apply (escapeRelay_spacing exTURN exRounds [] [(12 * Minute, "b")] [(56 * Minute, "a")] _ _ "a").
  - repeat (constructor; [apply exRound_ok|]). constructor.
  - repeat (constructor; [|repeat (constructor; [vm_compute; discriminate|]); constructor]). constructor.
  - vm_compute. reflexivity.
Defined.

Definition exSeen : gmap string relayWatch :=
  {[ "a" := mkWatch 5 10 relayRetryMin; "b" := mkWatch 3 10 relayRetryMin ]}.

Lemma pickRelayToRetry_spec_witness :
  exists st0, due (exPaths "relay" "relay") exSeen 20 "b" st0 /\
    forall k st, due (exPaths "relay" "relay") exSeen 20 k st -> rw_since st0 <= rw_since st.
Proof.
  pose proof (proj1 (pickRelayToRetry_spec (exPaths "relay" "relay") exSeen 20 ["b"; "a"]
    (proj1 (exRound_ok 0 "relay" "relay")) (proj2 (exRound_ok 0 "relay" "relay")))) as H.
  replace ((pickRelayToRetry (exPaths "relay" "relay") exSeen 20 ["b"; "a"]).2) with (Some "b") in H
    by (vm_compute; reflexivity).
  destruct H as (st0 & ? & ? & _). exists st0. split; assumption.
Defined.

End Relay.
