(* ===== verification/Watchdog.v ===== *)
(** * internal/engine/engine.go: the watchdog ([watchdog], [peerStates],
    [carrying]).

    A tick sees the time, which peers are carrying, the order in which Go ranges
    over them, whether somebody takes [giveUp], and how a rebuild ends.  The
    shares are compared in integers: [stuck/len >= 0.5] as [2*stuck >= len] and
    [>= 0.8] as [5*stuck >= 4*len], which the correctly rounded quotients of the
    source decide the same way for any number of peers a machine can hold. *)
From S2P Require Import Prelude GoStrings Keys P2P UAPI.

Module Watchdog.
Import P2P.P2P UAPI.UAPI.

Definition watchdogEvery : Z := 30 * Second.
Definition handshakeStale : Z := 3 * Minute.
Definition stuckAfter : Z := 3 * Minute.
Definition resetEvery : Z := 15 * Minute.
Definition giveUpAfter : Z := 20 * Minute.
Definition rebuildAfter : Z := 5 * Minute.
Definition restartEvery : Z := Hour.

Definition resetShare (stuck total : nat) : bool := (0 <? total)%nat && (total <=? 2 * stuck)%nat.
Definition restartShare (stuck total : nat) : bool := (0 <? total)%nat && (4 * total <=? 5 * stuck)%nat.

(** ** Who is carrying *)

Definition carrying (known : bool) (lastHandshake now : Z) : bool :=
  if negb known then true
  else if lastHandshake =? 0 then false
  else wrap64 (now - lastHandshake) <? handshakeStale / Second.

(** [peerStates]: [links] is each peer's state, [wg] what [Status] answered. *)
Definition peerStates (links : gmap string State) (wg : option (gmap string PeerStatus)) (now : Z) :
    gmap string bool :=
  map_imap (fun key st =>
      let connected := bool_decide (st = StateConnected) in
      Some (match wg with
            | Some wg =>
                if connected
                then carrying (bool_decide (is_Some (wg !! key)))
                       (match wg !! key with Some s => ps_handshake s | None => 0 end) now
                else connected
            | None => connected
            end)) links.

(** ** One tick *)

Record wstate : Type := mkW {
  w_lastGood : gmap string Z; w_lastRebuild : gmap string Z;
  w_lastReset : option Z; w_lastRestart : option Z }.

Definition w0 : wstate := mkW ∅ ∅ None None.

Record tick : Type := mkTick {
  tk_now : Z; tk_states : gmap string bool; tk_order : list string;
  tk_giveUp : bool; tk_rebuilt : bool }.

Inductive act : Type := ARebuild (peer : string) | AReset | AGiveUp.

#[global] Instance act_eq_dec : EqDecision act.
Proof. solve_decision. Defined.

(** The first loop: the peer that has been down the longest. *)
Fixpoint scan (states : gmap string bool) (now : Z) (order : list string)
    (good : gmap string Z) (worst : Z * string) : gmap string Z * (Z * string) :=
  match order with
  | [] => (good, worst)
  | key :: order =>
      if default false (states !! key) then scan states now order (<[key := now]> good) worst
      else match good !! key with
           | None => scan states now order (<[key := now]> good) worst
           | Some since =>
               scan states now order good (if worst.1 <? now - since then (now - since, key) else worst)
           end
  end.

(** Whether a peer counts as stuck. *)
Definition isStuck (states : gmap string bool) (good : gmap string Z) (now : Z) (key : string) : bool :=
  negb (default false (states !! key)) &&
  match good !! key with Some since => stuckAfter <=? now - since | None => false end.

(** The clocks, of the peers that are still there, and the worst of them. *)
Definition measure (w : wstate) (t : tick) : gmap string Z * (Z * string) :=
  let '(good, worst) := scan (tk_states t) (tk_now t) (tk_order t) (w_lastGood w) (0, "") in
  (filter (fun x => is_Some (tk_states t !! x.1)) good, worst).

Definition stuckPeers (t : tick) (good : gmap string Z) : list string :=
  List.filter (isStuck (tk_states t) good (tk_now t)) (tk_order t).

(** What is done about it: one link, the signalling, the process. *)
Definition escalate (w : wstate) (t : tick) (good : gmap string Z) (worst : Z) (worstPeer : string) :
    wstate * list act :=
  let now := tk_now t in
  let rebuilds := filter (fun x => is_Some (tk_states t !! x.1)) (w_lastRebuild w) in
  let stuck := length (stuckPeers t good) in
  let total := length (tk_order t) in
  let due := (rebuildAfter <? worst) && negb (String.eqb worstPeer "") &&
             match rebuilds !! worstPeer with Some last => rebuildAfter <? now - last | None => true end in
  let rebuilds := if due then <[worstPeer := now]> rebuilds else rebuilds in
  let acts := if due then [ARebuild worstPeer] else [] in
  let same := mkW good rebuilds (w_lastReset w) (w_lastRestart w) in
  if due && tk_rebuilt t then (same, acts)
  else if (worst <? stuckAfter) || negb (resetShare stuck total) then (same, acts)
  else if match w_lastReset w with Some last => now - last <? resetEvery | None => false end then (same, acts)
  else if (giveUpAfter <? worst) && restartShare stuck total && tk_giveUp t &&
          match w_lastRestart w with Some last => restartEvery <? now - last | None => true end
  then (mkW good rebuilds (w_lastReset w) (Some now), acts ++ [AGiveUp])
  else (mkW good rebuilds (Some now) (w_lastRestart w), acts ++ [AReset]).

Definition watchdogTick (w : wstate) (t : tick) : wstate * list act :=
  let '(good, (worst, worstPeer)) := measure w t in escalate w t good worst worstPeer.

(** The loop, which [giveUp] ends. *)
Fixpoint watchdog (w : wstate) (ts : list tick) : list (Z * act) :=
  match ts with
  | [] => []
  | t :: ts =>
      let '(w', acts) := watchdogTick w t in
      map (fun a => (tk_now t, a)) acts ++
      (if bool_decide (AGiveUp ∈ acts) then [] else watchdog w' ts)
  end.

(** ** Lemmas *)

Definition tick_ok (t : tick) : Prop :=
  NoDup (tk_order t) /\ forall k, k ∈ tk_order t <-> is_Some (tk_states t !! k).

(** What the scan leaves of one key's clock. *)
Definition clock (states : gmap string bool) (now : Z) (good : gmap string Z) (k : string) : option Z :=
  if default false (states !! k) then Some now else Some (default now (good !! k)).

Lemma scan_good states now order good worst k :
  NoDup order -> (scan states now order good worst).1 !! k =
    if bool_decide (k ∈ order) then clock states now good k else good !! k.
Proof.
  intros Hnd. revert good worst. induction Hnd as [|key order Hnin _ IH]; intros good worst; cbn [scan].
  { by rewrite bool_decide_false by set_solver. }
  assert (Hext : forall g1 w1, (forall k', k' <> key -> g1 !! k' = good !! k') ->
    g1 !! key = clock states now good key ->
    (scan states now order g1 w1).1 !! k =
      if bool_decide (k ∈ key :: order) then clock states now good k else good !! k).
  { intros g1 w1 Hother Hkey. rewrite IH. destruct (decide (k = key)) as [->|Hne].
    - by rewrite (bool_decide_false (key ∈ order)), (bool_decide_true (key ∈ key :: order)) by set_solver.
    - rewrite (bool_decide_ext (k ∈ key :: order) (k ∈ order)) by set_solver.
      unfold clock. by rewrite !Hother. }
  destruct (default false (states !! key)) eqn:Ek.
  { apply Hext; [intros; by apply lookup_insert_ne|]. unfold clock. by rewrite Ek, lookup_insert_eq. }
  destruct (good !! key) as [since|] eqn:Es.
  - apply Hext; [done|]. unfold clock. by rewrite Ek, Es.
  - apply Hext; [intros; by apply lookup_insert_ne|]. unfold clock. by rewrite Ek, Es, lookup_insert_eq.
Qed.

(** The clocks after a tick: of the peers of the map, and of no other. *)
Lemma measure_good w t k :
  tick_ok t ->
  (measure w t).1 !! k =
    if decide (is_Some (tk_states t !! k)) then clock (tk_states t) (tk_now t) (w_lastGood w) k else None.
Proof.
  intros [Hnd Hdom]. pose proof (scan_good (tk_states t) (tk_now t) (tk_order t) (w_lastGood w) (0, "") k Hnd) as Hs.
  unfold measure. destruct (scan _ _ _ _ _) as [good worst]. simpl in *.
  destruct (decide (is_Some (tk_states t !! k))) as [Hk|Hk].
  - rewrite bool_decide_true in Hs by (by apply Hdom). rewrite <- Hs.
    destruct (good !! k) eqn:E; [by apply map_lookup_filter_Some|apply map_lookup_filter_None; by left].
  - apply map_lookup_filter_None. right. by intros.
Qed.

(** The worst is a peer, down for that long. *)
Lemma scan_worst states now order : forall good worst,
  NoDup order ->
  let r := (scan states now order good worst).2 in
  r = worst \/ exists since, r.2 ∈ order /\ default false (states !! r.2) = false /\
    good !! r.2 = Some since /\ r.1 = now - since.
Proof.
  induction order as [|key order IH]; intros good worst Hnd; cbn [scan]; [by left|].
  apply NoDup_cons in Hnd as [Hnin Hnd].
  assert (Hstep : forall g1 w1, (forall k', k' <> key -> g1 !! k' = good !! k') ->
    (w1 = worst \/ exists since, w1.2 = key /\ default false (states !! key) = false /\
       good !! key = Some since /\ w1.1 = now - since) ->
    let r := (scan states now order g1 w1).2 in
    r = worst \/ exists since, r.2 ∈ key :: order /\ default false (states !! r.2) = false /\
      good !! r.2 = Some since /\ r.1 = now - since).
  { intros g1 w1 Hother Hw1. destruct (IH g1 w1 Hnd) as [Hr|(since & Hin & Hf & Hg & Hr)].
    - rewrite Hr. destruct Hw1 as [->|(since & E & ? & ? & ?)]; [by left|].
      right. exists since. rewrite E. split; [set_solver|done].
    - right. exists since. rewrite <- Hother by (intros E; rewrite E in Hin; by apply Hnin).
      split; [set_solver|done]. }
  destruct (default false (states !! key)) eqn:Ek.
  { apply Hstep; [intros; by apply lookup_insert_ne|by left]. }
  destruct (good !! key) as [since|] eqn:Es.
  - apply Hstep; [done|]. destruct (_ <? _); [right; exists since; done|by left].
  - apply Hstep; [intros; by apply lookup_insert_ne|by left].
Qed.

Definition downFor (t : tick) (good : gmap string Z) (d : Z) (k : string) : Prop :=
  tk_states t !! k = Some false /\ exists since, good !! k = Some since /\ d <= tk_now t - since.

Lemma measure_worst w t d :
  tick_ok t -> 0 <= d -> d < (measure w t).2.1 -> downFor t (measure w t).1 (d + 1) (measure w t).2.2.
Proof.
  intros Hok Hd Hlt. pose proof (fun k => measure_good w t k Hok) as Hg. destruct Hok as [Hnd Hdom].
  pose proof (scan_worst (tk_states t) (tk_now t) (tk_order t) (w_lastGood w) (0, "") Hnd) as Hworst.
  unfold measure in *. destruct (scan _ _ _ _ _) as [good [worst peer]]. simpl in *.
  destruct Hworst as [[= -> ->]|(since & Hin & Hf & Hs & ->)]; [lia|].
  apply Hdom in Hin as [b Hb]. rewrite Hb in Hf. simpl in Hf. subst b. split; [done|].
  exists since. rewrite Hg, decide_True by (by eexists). unfold clock. rewrite Hb, Hs. simpl. split; [done|lia].
Qed.

(** An action says what was measured. *)
Lemma escalate_good w t good worst peer : w_lastGood (escalate w t good worst peer).1 = good.
Proof.
  unfold escalate. cbn zeta.
  repeat match goal with |- context [if ?b then _ else _] => destruct b; try reflexivity end.
Qed.

Lemma escalate_acts w t good worst peer a :
  a ∈ (escalate w t good worst peer).2 ->
  match a with
  | ARebuild k => k = peer /\ rebuildAfter < worst
  | AReset => resetShare (length (stuckPeers t good)) (length (tk_order t)) = true /\
      (forall last, w_lastReset w = Some last -> resetEvery <= tk_now t - last) /\
      w_lastReset (escalate w t good worst peer).1 = Some (tk_now t)
  | AGiveUp => restartShare (length (stuckPeers t good)) (length (tk_order t)) = true /\ giveUpAfter < worst
  end.
Proof.
  unfold escalate. cbn zeta.
  set (due := (rebuildAfter <? worst) && _ && _).
  assert (Hacts : forall x, x ∈ (if due then [ARebuild peer] else []) -> x = ARebuild peer /\ rebuildAfter < worst).
  { intros x Hx. destruct due eqn:Ed; [|by apply not_elem_of_nil in Hx].
    apply list_elem_of_singleton in Hx. split; [done|].
    unfold due in Ed. rewrite !andb_true_iff, Z.ltb_lt in Ed. tauto. }
  assert (Hre : a ∈ (if due then [ARebuild peer] else []) -> match a with ARebuild k => k = peer /\ rebuildAfter < worst | _ => False end).
  { intros Ha. by destruct (Hacts a Ha) as [-> ?]. }
  destruct (due && tk_rebuilt t); [intros Ha%Hre; by destruct a|].
  destruct (resetShare _ _); [|rewrite orb_true_r; intros Ha%Hre; by destruct a].
  destruct (worst <? stuckAfter); [intros Ha%Hre; by destruct a|]. cbn [orb negb].
  destruct (w_lastReset w) as [last|] eqn:El; [destruct (Z.ltb_spec (tk_now t - last) resetEvery); [intros Ha%Hre; by destruct a|]|];
  (destruct ((giveUpAfter <? worst) && _ && _ && _) eqn:Eg; cbn [fst snd w_lastReset];
    intros [Ha%Hre|Ha%list_elem_of_singleton]%elem_of_app; [by destruct a| subst a|by destruct a|subst a]);
  try (rewrite !andb_true_iff, Z.ltb_lt in Eg; tauto); split; [done| |done|]; split; try done; by intros ? [= <-].
Qed.

Lemma escalate_reset w t good worst peer :
  AReset ∉ (escalate w t good worst peer).2 ->
  w_lastReset (escalate w t good worst peer).1 = w_lastReset w.
Proof.
  unfold escalate. cbn zeta.
  repeat match goal with |- context [if ?b then _ else _] => destruct b; try reflexivity end.
  all: cbn [fst snd]; intros Hn; exfalso; apply Hn; set_solver.
Qed.

(** ** Over the ticks so far *)

Definition after (ts : list tick) : wstate := fold_left (fun w t => (watchdogTick w t).1) ts w0.

(** Every tick of [ts] later than [since] saw the peer, and saw it down. *)
Definition downSince (ts : list tick) (k : string) (since : Z) : Prop :=
  forall t, t ∈ ts -> since < tk_now t -> tk_states t !! k = Some false.

Definition clocked (ts : list tick) : Prop :=
  Forall tick_ok ts /\ StronglySorted (fun t1 t2 => tk_now t1 <= tk_now t2) ts.

Lemma clocked_snoc ts t :
  clocked (ts ++ [t]) -> clocked ts /\ tick_ok t /\ forall t', t' ∈ ts -> tk_now t' <= tk_now t.
Proof.
  intros [Hok Hs]. apply Forall_app in Hok as [Hok Ht]. rewrite Forall_singleton in Ht.
  apply StronglySorted_app in Hs as (Hle & Hs & _). split; [by split|]. split; [exact Ht|].
  intros t' Hin. apply (Hle t' t); set_solver.
Qed.

Lemma watchdogTick_good w t k :
  tick_ok t -> w_lastGood (watchdogTick w t).1 !! k =
    if decide (is_Some (tk_states t !! k)) then clock (tk_states t) (tk_now t) (w_lastGood w) k else None.
Proof.
  intros Hok. rewrite <- measure_good by done. unfold watchdogTick.
  destruct (measure w t) as [good [worst peer]]. by rewrite escalate_good.
Qed.

Lemma after_good ts : clocked ts ->
  forall k since, w_lastGood (after ts) !! k = Some since -> downSince ts k since.
Proof.
  induction ts as [|t ts IH] using rev_ind; intros Hc k since Hk; [by intros t ?%not_elem_of_nil|].
  apply clocked_snoc in Hc as (Hc & Hok & Hle). unfold after in Hk. rewrite fold_left_app in Hk.
  cbn [fold_left] in Hk. fold (after ts) in Hk. rewrite watchdogTick_good in Hk by done.
  destruct (decide (is_Some (tk_states t !! k))) as [[b Hb]|]; [|done].
  unfold clock in Hk. rewrite Hb in Hk. simpl in Hk.
  assert (Hnow : since = tk_now t -> downSince (ts ++ [t]) k since).
  { intros -> t' [Hin| ->%list_elem_of_singleton]%elem_of_app Hlt; [specialize (Hle t' Hin)|]; lia. }
  destruct b; injection Hk as Hk; [by apply Hnow|].
  destruct (w_lastGood (after ts) !! k) as [s|] eqn:Es; simpl in Hk; [|by apply Hnow].
  subst s. intros t' [Hin| ->%list_elem_of_singleton]%elem_of_app Hlt; [|done]. by eapply IH.
Qed.

(** Down at every tick of the last [d]. *)
Definition downThrough (ts : list tick) (now d : Z) (k : string) : Prop := downSince ts k (now - d).

Lemma downFor_through ts t d k :
  clocked (ts ++ [t]) -> downFor t (w_lastGood (after (ts ++ [t]))) d k ->
  downThrough (ts ++ [t]) (tk_now t) d k.
Proof.
  intros Hc (_ & since & Hs & Hd) t' Hin Hlt. eapply after_good; [done..|lia].
Qed.

Lemma after_snoc ts t : after (ts ++ [t]) = (watchdogTick (after ts) t).1.
Proof. unfold after. by rewrite fold_left_app. Qed.

Lemma stuckPeers_down t good k : k ∈ stuckPeers t good -> tick_ok t -> downFor t good stuckAfter k.
Proof.
  unfold stuckPeers, isStuck. rewrite list_elem_of_In, filter_In, <- list_elem_of_In, andb_true_iff, negb_true_iff.
  intros (Hin & Hf & Hg) [_ Hdom]. apply Hdom in Hin as [b Hb]. rewrite Hb in Hf. simpl in Hf. subst b.
  split; [done|]. destruct (good !! k) as [since|]; [|done]. exists since. split; [done|]. lia.
Qed.

(** C36: the watchdog acts on what the machine has seen: it rebuilds a link only
    of a peer that was down at every tick of the last five minutes, reconnects
    the signalling only when at least half of the peers were down at every tick
    of the last three, and asks to be replaced only when at least four fifths
    were, and one of them for twenty: one machine that is switched off costs the
    others nothing. *)
Theorem watchdog_justified ts t a :
  clocked (ts ++ [t]) -> a ∈ (watchdogTick (after ts) t).2 ->
  match a with
  | ARebuild k => downThrough (ts ++ [t]) (tk_now t) rebuildAfter k
  | AReset => exists ks, NoDup ks /\ (0 < length (tk_order t) <= 2 * length ks)%nat /\
      forall k, k ∈ ks -> downThrough (ts ++ [t]) (tk_now t) stuckAfter k
  | AGiveUp => (exists ks, NoDup ks /\ (0 < length (tk_order t))%nat /\
        (4 * length (tk_order t) <= 5 * length ks)%nat /\
        forall k, k ∈ ks -> downThrough (ts ++ [t]) (tk_now t) stuckAfter k) /\
      exists k, downThrough (ts ++ [t]) (tk_now t) giveUpAfter k
  end.
Proof.
  intros Hc Ha. pose proof (clocked_snoc ts t Hc) as (_ & Hok & _).
  pose proof (downFor_through ts t) as Hdown. rewrite after_snoc in Hdown.
  pose proof (measure_worst (after ts) t) as Hworst.
  unfold watchdogTick in *. destruct (measure (after ts) t) as [good [worst peer]]. cbn [fst snd] in Hworst.
  rewrite escalate_good in Hdown. pose proof (escalate_acts _ _ _ _ _ _ Ha) as Hacts.
  assert (Hnd : NoDup (stuckPeers t good)) by (apply NoDup_ListNoDup; unfold stuckPeers; apply Stdlib.Lists.List.NoDup_filter; apply NoDup_ListNoDup, Hok).
  assert (Hstuck : forall k, k ∈ stuckPeers t good -> downThrough (ts ++ [t]) (tk_now t) stuckAfter k).
  { intros k Hk. apply Hdown; [done|]. by apply stuckPeers_down. }
  assert (Hlong : forall d, 0 <= d -> d < worst -> downThrough (ts ++ [t]) (tk_now t) d peer).
  { intros d Hd Hlt t' Hin Hlt'. apply (Hdown (d + 1) peer Hc (Hworst d Hok Hd Hlt) t' Hin). lia. }
  destruct a as [k| |].
  - destruct Hacts as [-> Hlt]. by apply Hlong.
  - destruct Hacts as (Hs & _). exists (stuckPeers t good). unfold resetShare in Hs.
    apply andb_true_iff in Hs as [H1%Nat.ltb_lt H2%Nat.leb_le]. split; [done|]. split; [lia|done].
  - destruct Hacts as (Hs & Hlt). unfold restartShare in Hs. apply andb_true_iff in Hs as [H1%Nat.ltb_lt H2%Nat.leb_le].
    split; [exists (stuckPeers t good); split; [done|]; split; [done|]; split; [lia|done]|].
    exists peer. by apply Hlong.
Qed.

Lemma watchdog_noReset_before ts : forall w s t0,
  w_lastReset w = Some t0 -> s <= t0 -> Forall (fun t => s <= tk_now t) ts ->
  forall t2, (t2, AReset) ∈ watchdog w ts -> s + resetEvery <= t2.
Proof.
  induction ts as [|t ts IH]; intros w s t0 Hw Hs0 Hle t2 Hin; cbn [watchdog] in Hin; [by apply not_elem_of_nil in Hin|].
  apply Forall_cons in Hle as [Ht Hle].
  unfold watchdogTick in Hin. destruct (measure w t) as [good [worst peer]].
  pose proof (escalate_reset w t good worst peer) as Hkeep.
  pose proof (fun Ha => escalate_acts w t good worst peer AReset Ha) as Hacts.
  destruct (escalate w t good worst peer) as [w' acts]. cbn [fst snd] in *.
  apply elem_of_app in Hin as [(a & [= -> <-] & Ha)%list_elem_of_fmap|Hin].
  - destruct (Hacts Ha) as (_ & Hl & _). specialize (Hl t0 Hw). lia.
  - case_bool_decide; [by apply not_elem_of_nil in Hin|].
    destruct (decide (AReset ∈ acts)) as [Ha|Ha].
    + destruct (Hacts Ha) as (_ & _ & Hw'). by apply (IH w' s (tk_now t)).
    + apply (IH w' s t0); [by rewrite Hkeep|done..].
Qed.

(** A tick rebuilds at most one link, then reconnects or asks to be replaced. *)
Lemma escalate_shape w t good worst peer :
  exists r b, (escalate w t good worst peer).2 = r ++ b /\
    (r = [] \/ r = [ARebuild peer]) /\ (b = [] \/ b = [AReset] \/ b = [AGiveUp]).
Proof.
  unfold escalate. cbn zeta. set (due := (rebuildAfter <? worst) && _ && _).
  exists (if due then [ARebuild peer] else []).
  assert (Hr : (if due then [ARebuild peer] else []) = [] \/ (if due then [ARebuild peer] else []) = [ARebuild peer])
    by (destruct due; auto).
  destruct (due && tk_rebuilt t); [exists []; rewrite app_nil_r; auto|].
  destruct ((worst <? stuckAfter) || _); [exists []; rewrite app_nil_r; auto|].
  destruct (match w_lastReset w with Some _ => _ | None => _ end); [exists []; rewrite app_nil_r; auto|].
  destruct (_ && _ && _ && _); [exists [AGiveUp]|exists [AReset]]; (split; [reflexivity|auto]).
Qed.

(** two reconnections of the signalling are never less than a quarter of an
    hour apart, and nothing follows the request to be replaced. *)
Theorem watchdog_spacing ts l1 l2 t1 a1 :
  StronglySorted (fun t1 t2 => tk_now t1 <= tk_now t2) ts -> watchdog w0 ts = l1 ++ (t1, a1) :: l2 ->
  match a1 with
  | AReset => forall t2, (t2, AReset) ∈ l2 -> t1 + resetEvery <= t2
  | AGiveUp => l2 = []
  | ARebuild _ => True
  end.
Proof.
  intros Hs. generalize w0. revert l1. induction ts as [|t ts IH]; intros l1 w E; cbn [watchdog] in E; [by destruct l1|].
  apply StronglySorted_inv in Hs as [Hs Hle]. specialize (IH Hs).
  unfold watchdogTick in E. destruct (measure w t) as [good [worst peer]].
  destruct (escalate_shape w t good worst peer) as (r & b & Eacts & Hr & Hb).
  pose proof (fun Ha => escalate_acts w t good worst peer AReset Ha) as Hacts.
  destruct (escalate w t good worst peer) as [w' acts]. cbn [fst snd] in *. subst acts.
  set (rest := if bool_decide (AGiveUp ∈ r ++ b) then [] else watchdog w' ts) in *.
  assert (Hrest : forall l1', rest = l1' ++ (t1, a1) :: l2 -> match a1 with
    | AReset => forall t2, (t2, AReset) ∈ l2 -> t1 + resetEvery <= t2
    | AGiveUp => l2 = [] | ARebuild _ => True end).
  { intros l1' E'. unfold rest in E'. case_bool_decide; [by destruct l1'|]. by eapply IH. }
  rewrite map_app, <- app_assoc in E.
  assert (Hb' : forall l1', map (fun x => (tk_now t, x)) b ++ rest = l1' ++ (t1, a1) :: l2 -> match a1 with
    | AReset => forall t2, (t2, AReset) ∈ l2 -> t1 + resetEvery <= t2
    | AGiveUp => l2 = [] | ARebuild _ => True end).
  { intros l1' E'. destruct Hb as [->|[->| ->]]; cbn [map app] in E'; [by eapply Hrest| |];
      (destruct l1' as [|x l1']; [injection E' as <- <- <-|injection E' as _ E'; by eapply Hrest]).
    - unfold rest. case_bool_decide; [by intros ? ?%not_elem_of_nil|].
      destruct (Hacts ltac:(set_solver)) as (_ & _ & Hw'). intros t2.
      apply (watchdog_noReset_before ts w' (tk_now t) (tk_now t)); done.
    - unfold rest. rewrite bool_decide_true by set_solver. done. }
  destruct Hr as [->| ->]; cbn [map app] in E; [by eapply Hb'|].
  destruct l1 as [|x l1]; [injection E as <- <- E; done|injection E as _ E; by eapply Hb'].
Qed.

(** ** Witnesses *)

Definition exTick (n : Z) (states : list (string * bool)) : tick :=
  mkTick (n * Minute) (list_to_map states) (map fst states) true false.

Definition exDown (n : Z) : tick := exTick n [("a", false); ("b", false)].
Definition exUp (n : Z) : tick := exTick n [("a", true); ("b", true)].
Definition exTicks : list tick := map exDown [0; 1; 2; 3; 4; 5; 6].

Lemma exTick_ok n sts : NoDup (map fst sts) -> tick_ok (exTick n sts).
Proof.
  intros Hnd. split; [exact Hnd|]. intros k. simpl. rewrite list_elem_of_fmap. split.
  - intros ([k' b] & -> & Hin). exists b. by apply elem_of_list_to_map_1.
  - intros [b Hb]. apply elem_of_list_to_map_2 in Hb. by exists (k, b).
Qed.

Lemma exTicks_clocked : clocked exTicks.
Proof.
  split.
  - repeat (constructor; [apply exTick_ok, (bool_decide_unpack _); vm_compute; exact I|]). constructor.
  - repeat (constructor; [|repeat (constructor; [vm_compute; discriminate|]); constructor]). constructor.
Qed.

Example exTicks_acts : watchdog w0 exTicks = [(3 * Minute, AReset); (6 * Minute, ARebuild "a")].
Proof. vm_compute. reflexivity. Qed.

Definition exLong : list tick := map exDown (seqZ 0 20).

Lemma exLong_clocked : StronglySorted (fun t1 t2 => tk_now t1 <= tk_now t2) exLong.
Proof. repeat (constructor; [|repeat (constructor; [vm_compute; discriminate|]); constructor]). constructor. Qed.

Lemma watchdog_spacing_witness : 3 * Minute + resetEvery <= 18 * Minute.
Proof.
  apply (watchdog_spacing exLong []
           [(6 * Minute, ARebuild "a"); (12 * Minute, ARebuild "a"); (18 * Minute, ARebuild "a"); (18 * Minute, AReset)]
           (3 * Minute) AReset).
  - exact exLong_clocked.
  - vm_compute. reflexivity.
  - set_solver.
Defined.

Lemma watchdog_justified_witness :
  exists ks, NoDup ks /\ (0 < length (tk_order (exDown 3)) <= 2 * length ks)%nat /\
    forall k, k ∈ ks -> downThrough (map exDown [0; 1; 2] ++ [exDown 3]) (tk_now (exDown 3)) stuckAfter k.
Proof.
  apply (watchdog_justified (map exDown [0; 1; 2]) (exDown 3) AReset).
  - split.
    + repeat (constructor; [apply exTick_ok, (bool_decide_unpack _); vm_compute; exact I|]). constructor.
    + repeat (constructor; [|repeat (constructor; [vm_compute; discriminate|]); constructor]). constructor.
  - apply (bool_decide_unpack _). vm_compute. exact I.
Defined.

(** One peer of five switched off for half an hour, then four fifths of the mesh
    gone at once. *)
Definition exAbrupt : list tick :=
  map (fun n => exTick n [("a", false); ("b", true); ("c", true); ("d", true); ("e", true)])
    (seqZ 0 30) ++
  map (fun n => exTick n [("a", false); ("b", false); ("c", false); ("d", false); ("e", true)])
    (seqZ 30 4).

(** the restart does not wait for a reconnection to have failed: when one peer
    has long been off and the others go together, the first escalation is the
    restart, with no reset before it. *)
Theorem restart_without_reset :
  exists t, t = 32 * Minute /\ last (watchdog w0 exAbrupt) = Some (t, AGiveUp) /\
    forall t', (t', AReset) ∉ watchdog w0 exAbrupt.
Proof.
  exists (32 * Minute). split; [reflexivity|]. split; [vm_compute; reflexivity|].
  intros t' Hin. apply (list_elem_of_fmap_2 snd) in Hin.
  revert Hin. apply (bool_decide_unpack (AReset ∉ map snd (watchdog w0 exAbrupt))). vm_compute. exact I.
Qed.

End Watchdog.
