(* ===== verification/WatchdogLive.v ===== *)
(** * The watchdog does act.

    [Watchdog] shows that the watchdog only acts on evidence.  This file is the
    other half: when enough of the mesh is down for long enough, the process
    does ask to be replaced.  What can hold it back is the step before, which
    rebuilds one link and then gives it a chance: a rebuild takes the tick for
    itself, each peer once in five minutes, so [n] peers take at most [n] of the
    ticks of any five minutes. *)
From S2P Require Import Prelude GoStrings Keys P2P UAPI Watchdog.

Module WatchdogLive.
Import Watchdog.

Section Dead.

(** The peers of the mesh, and those that are down for good. *)
Context (K D : list string).
Hypothesis K_nodup : NoDup K.
Hypothesis D_nodup : NoDup D.
Hypothesis D_sub : D ⊆ K.
Hypothesis D_some : D <> [].
Hypothesis D_share : (4 * length K <= 5 * length D)%nat.

(** A tick that sees them so, with somebody to take the request. *)
Definition dead (t : tick) : Prop :=
  tick_ok t /\ (forall k, k ∈ tk_order t <-> k ∈ K) /\
  (forall k, k ∈ D -> tk_states t !! k = Some false) /\ tk_giveUp t = true.

(** ** One tick *)

(** Whether the tick starts with a rebuild. *)
Definition due (w : wstate) (t : tick) (worst : Z) (peer : string) : bool :=
  (rebuildAfter <? worst) && negb (String.eqb peer "") &&
  match filter (fun x => is_Some (tk_states t !! x.1)) (w_lastRebuild w) !! peer with
  | Some last => rebuildAfter <? tk_now t - last
  | None => true
  end.

Lemma escalate_rebuilds w t good worst peer :
  w_lastRebuild (escalate w t good worst peer).1 =
  let rebuilds := filter (fun x => is_Some (tk_states t !! x.1)) (w_lastRebuild w) in
  if due w t worst peer then <[peer := tk_now t]> rebuilds else rebuilds.
Proof.
  unfold escalate. cbn zeta. fold (due w t worst peer).
  repeat match goal with |- context [(if ?b then (_, _) else _).1] => destruct b; try reflexivity end.
Qed.

Lemma escalate_gives_up w t good worst peer :
  due w t worst peer && tk_rebuilt t = false -> stuckAfter <= worst -> giveUpAfter < worst ->
  resetShare (length (stuckPeers t good)) (length (tk_order t)) = true ->
  restartShare (length (stuckPeers t good)) (length (tk_order t)) = true ->
  tk_giveUp t = true -> w_lastRestart w = None ->
  (forall last, w_lastReset w = Some last -> resetEvery <= tk_now t - last) ->
  AGiveUp ∈ (escalate w t good worst peer).2.
Proof.
  intros Hd Hs Hg Hr1 Hr2 Ht Hl Hreset. unfold escalate. cbn zeta. fold (due w t worst peer).
  rewrite Hd, Hr1, Hr2, Ht, Hl.
  replace (worst <? stuckAfter) with false by (symmetry; apply Z.ltb_ge; lia).
  replace (giveUpAfter <? worst) with true by (symmetry; apply Z.ltb_lt; lia).
  simpl. destruct (w_lastReset w) as [last|].
  - specialize (Hreset _ eq_refl). replace (_ <? resetEvery) with false by (symmetry; apply Z.ltb_ge; lia).
    simpl. set_solver.
  - simpl. set_solver.
Qed.

(** A reconnection where a restart was possible was not long overdue. *)
Lemma escalate_reset_early w t good worst peer :
  AReset ∈ (escalate w t good worst peer).2 ->
  restartShare (length (stuckPeers t good)) (length (tk_order t)) = true ->
  tk_giveUp t = true -> w_lastRestart w = None -> worst <= giveUpAfter.
Proof.
  intros Ha Hr Ht Hl. revert Ha. unfold escalate. cbn zeta. fold (due w t worst peer). rewrite Hr, Ht, Hl.
  destruct (Z.ltb_spec giveUpAfter worst) as [Hlt|]; [|lia]. simpl.
  assert (Hn : forall b : bool, AReset ∉ (if b then [ARebuild peer] else [])) by (intros []; set_solver).
  repeat match goal with |- context [(if ?b then (_, _) else _).2] => destruct b end; simpl;
    intros Ha; exfalso; try (by apply (Hn _ Ha));
    apply elem_of_app in Ha as [Ha|Ha]; [by apply (Hn _ Ha)|set_solver].
Qed.

Lemma escalate_restart w t good worst peer :
  AGiveUp ∉ (escalate w t good worst peer).2 ->
  w_lastRestart (escalate w t good worst peer).1 = w_lastRestart w.
Proof.
  unfold escalate. cbn zeta.
  repeat match goal with |- context [if ?b then _ else _] => destruct b; try reflexivity end.
  all: cbn [fst snd]; intros Hn; exfalso; apply Hn; set_solver.
Qed.

(** The scan misses nobody: no peer has been down longer than the worst. *)
Lemma scan_max states now order : forall good worst,
  NoDup order ->
  worst.1 <= (scan states now order good worst).2.1 /\
  forall k since, k ∈ order -> states !! k = Some false -> good !! k = Some since ->
    now - since <= (scan states now order good worst).2.1.
Proof.
  induction order as [|key order IH]; intros good worst Hnd; cbn [scan]; [split; [done|set_solver]|].
  apply NoDup_cons in Hnd as [Hnin Hnd].
  assert (Hskip : forall g1 w1, (forall k, k <> key -> g1 !! k = good !! k) -> worst.1 <= w1.1 ->
    (forall since, states !! key = Some false -> good !! key = Some since -> now - since <= w1.1) ->
    worst.1 <= (scan states now order g1 w1).2.1 /\
    forall k since, k ∈ key :: order -> states !! k = Some false -> good !! k = Some since ->
      now - since <= (scan states now order g1 w1).2.1).
  { intros g1 w1 Hg Hw Hkey. destruct (IH g1 w1 Hnd) as [H1 H2]. split; [lia|].
    intros k since [->|Hk]%elem_of_cons Hs Hgk; [specialize (Hkey since Hs Hgk); lia|].
    apply (H2 k since Hk Hs). rewrite Hg; [done|]. by intros ->. }
  destruct (default false (states !! key)) eqn:Ek.
  { apply Hskip; [by intros; apply lookup_insert_ne|lia|]. intros since Hs. by rewrite Hs in Ek. }
  destruct (good !! key) as [since|] eqn:Es.
  - apply Hskip; [done|destruct (Z.ltb_spec worst.1 (now - since)); simpl; lia|].
    intros ? _ [= <-]. destruct (Z.ltb_spec worst.1 (now - since)); simpl; lia.
  - apply Hskip; [by intros; apply lookup_insert_ne|lia|done].
Qed.

(** ** A mesh that is dead since [T0] *)

Record deadSince (T0 : Z) (w : wstate) : Prop := {
  ds_since : forall k, k ∈ D -> w_lastGood w !! k = Some T0;
  ds_floor : forall k s, w_lastGood w !! k = Some s -> T0 <= s;
  ds_reset : forall last, w_lastReset w = Some last -> last <= T0 + giveUpAfter;
  ds_restart : w_lastRestart w = None }.

Lemma dead_total t : dead t -> length (tk_order t) = length K.
Proof.
  intros ([Hnd _] & Hk & _). apply Permutation_length, NoDup_Permutation; auto.
Qed.

Lemma dead_clock w t k : dead t -> k ∈ D -> w_lastGood (watchdogTick w t).1 !! k =
  Some (default (tk_now t) (w_lastGood w !! k)).
Proof.
  intros (Hok & _ & Hd & _) Hk. rewrite watchdogTick_good by done.
  rewrite decide_True by (rewrite Hd by done; by eexists). unfold clock. by rewrite Hd.
Qed.

Lemma clock_floor w t T0 k s :
  tick_ok t -> T0 <= tk_now t -> (forall k s, w_lastGood w !! k = Some s -> T0 <= s) ->
  (measure w t).1 !! k = Some s -> T0 <= s.
Proof.
  intros Hok Ht Hf. rewrite measure_good by done. case_decide; [|done]. unfold clock.
  destruct (default false _); [by intros [= <-]|].
  destruct (w_lastGood w !! k) as [x|] eqn:E; simpl; intros [= <-]; [by eapply Hf|done].
Qed.

(** What a tick measures of it: how long, whom, and how much of the mesh. *)
Lemma dead_measure w t T0 :
  deadSince T0 w -> dead t -> T0 < tk_now t ->
  let '(good, (worst, peer)) := measure w t in
  worst = tk_now t - T0 /\ peer ∈ K /\
  (stuckAfter <= tk_now t - T0 ->
   resetShare (length (stuckPeers t good)) (length (tk_order t)) = true /\
   restartShare (length (stuckPeers t good)) (length (tk_order t)) = true).
Proof.
  intros Hw Ht Hlt. pose proof (dead_total t Ht) as Htot. destruct Ht as (Hok & Hk & Hd & _).
  pose proof (fun k => measure_good w t k Hok) as Hg.
  pose proof (fun k s => clock_floor w t T0 k s Hok ltac:(lia) (ds_floor _ _ Hw)) as Hfloor.
  pose proof (measure_worst w t) as Hworst.
  destruct (scan_max (tk_states t) (tk_now t) (tk_order t) (w_lastGood w) (0, "") (proj1 Hok)) as [H0 Hmax].
  unfold measure in *. destruct (scan _ _ _ _ _) as [g [worst peer]]. cbn [fst snd] in *.
  destruct D as [|d D'] eqn:ED; [done|]. rewrite <- ED in *.
  assert (Hin : d ∈ D) by (rewrite ED; set_solver).
  assert (Hge : tk_now t - T0 <= worst).
  { apply (Hmax d T0); [apply Hk; set_solver|by apply Hd|by apply (ds_since _ _ Hw)]. }
  destruct (Hworst (worst - 1) Hok ltac:(lia) ltac:(lia)) as (Hp & since & Hs & Hle).
  specialize (Hfloor _ _ Hs). split; [lia|]. split.
  { apply Hk, Hok. by eexists. }
  intros Hst. set (good := filter _ g) in *.
  assert (Hsub : (length D <= length (stuckPeers t good))%nat).
  { apply submseteq_length, NoDup_submseteq; [done|]. intros k HkD. unfold stuckPeers.
    apply list_elem_of_In, filter_In. split; [apply list_elem_of_In, Hk; set_solver|].
    unfold isStuck. rewrite (Hd k HkD), Hg, decide_True by (rewrite (Hd k HkD); by eexists).
    unfold clock. rewrite (Hd k HkD). simpl. rewrite (ds_since _ _ Hw k HkD). simpl. lia. }
  assert (length D <> 0)%nat by (by rewrite ED).
  assert (length D <= length K)%nat by (apply submseteq_length, NoDup_submseteq; done).
  unfold resetShare, restartShare. rewrite Htot.
  split; apply andb_true_iff; (split; [apply Nat.ltb_lt|apply Nat.leb_le]; lia).
Qed.

(** A tick asks to be replaced, or leaves the mesh dead since the same time. *)
Lemma dead_tick w t T0 :
  deadSince T0 w -> dead t -> T0 < tk_now t ->
  AGiveUp ∈ (watchdogTick w t).2 \/ deadSince T0 (watchdogTick w t).1.
Proof.
  intros Hw Ht Hlt. destruct (decide (AGiveUp ∈ (watchdogTick w t).2)) as [|Hn]; [by left|right].
  pose proof (dead_measure w t T0 Hw Ht Hlt) as Hm.
  pose proof (fun k s => clock_floor w t T0 k s (proj1 Ht) ltac:(lia) (ds_floor _ _ Hw)) as Hfloor.
  split.
  - intros k Hk. rewrite dead_clock by done. by rewrite (ds_since _ _ Hw k Hk).
  - intros k s. unfold watchdogTick. destruct (measure w t) as [good [worst peer]].
    rewrite escalate_good. apply Hfloor.
  - intros last. unfold watchdogTick in *. destruct (measure w t) as [good [worst peer]].
    destruct Hm as (-> & _ & Hshare).
    destruct (decide (AReset ∈ (escalate w t good (tk_now t - T0) peer).2)) as [Ha|Ha].
    + destruct (escalate_acts _ _ _ _ _ _ Ha) as (_ & _ & ->). intros [= <-].
      destruct (Z.le_gt_cases stuckAfter (tk_now t - T0)) as [Hle|Hgt].
      * pose proof (escalate_reset_early _ _ _ _ _ Ha (proj2 (Hshare Hle)) ltac:(apply Ht) (ds_restart _ _ Hw)). lia.
      * unfold stuckAfter, giveUpAfter, Minute, Second, Millisecond in *. lia.
    + rewrite escalate_reset by done. apply (ds_reset _ _ Hw).
  - unfold watchdogTick in *. destruct (measure w t) as [good [worst peer]].
    rewrite escalate_restart by done. apply (ds_restart _ _ Hw).
Qed.

(** The first tick of all starts the clocks. *)
Lemma dead_first t : dead t -> AGiveUp ∈ (watchdogTick w0 t).2 \/ deadSince (tk_now t) (watchdogTick w0 t).1.
Proof.
  intros Ht. destruct (decide (AGiveUp ∈ (watchdogTick w0 t).2)) as [|Hn]; [by left|right].
  split.
  - intros k Hk. by rewrite dead_clock.
  - intros k s. rewrite watchdogTick_good by apply Ht. case_decide; [|done]. unfold clock.
    destruct (default false _); simpl; rewrite ?lookup_empty; simpl; intros [= <-]; lia.
  - intros last. unfold watchdogTick in *. destruct (measure w0 t) as [good [worst peer]].
    destruct (decide (AReset ∈ (escalate w0 t good worst peer).2)) as [Ha|Ha].
    + destruct (escalate_acts _ _ _ _ _ _ Ha) as (_ & _ & ->). intros [= <-].
      unfold giveUpAfter, Minute, Second, Millisecond. lia.
    + by rewrite escalate_reset.
  - unfold watchdogTick in *. destruct (measure w0 t) as [good [worst peer]].
    by rewrite escalate_restart.
Qed.

(** A request made at a tick is in the run, and so is one made later, unless
    the run ended before. *)
Lemma watchdog_head w t ts :
  AGiveUp ∈ (watchdogTick w t).2 -> exists t', (t', AGiveUp) ∈ watchdog w (t :: ts).
Proof.
  intros Ha. exists (tk_now t). cbn [watchdog]. destruct (watchdogTick w t) as [w' acts]. simpl in Ha.
  apply elem_of_app. left. by apply (list_elem_of_fmap_2 (fun a => (tk_now t, a))).
Qed.

Lemma watchdog_tail w t ts :
  (exists t', (t', AGiveUp) ∈ watchdog (watchdogTick w t).1 ts) ->
  exists t', (t', AGiveUp) ∈ watchdog w (t :: ts).
Proof.
  destruct (decide (AGiveUp ∈ (watchdogTick w t).2)) as [Ha|Hn]; [intros _; by apply watchdog_head|].
  intros [t' Hin]. exists t'. cbn [watchdog]. destruct (watchdogTick w t) as [w' acts].
  rewrite bool_decide_false by done. apply elem_of_app. by right.
Qed.

Lemma minOf ts : ts <> [] -> exists lo, (exists t, t ∈ ts /\ tk_now t = lo) /\ forall t, t ∈ ts -> lo <= tk_now t.
Proof.
  induction ts as [|t ts IH]; [done|]. intros _. destruct ts as [|t1 ts'] eqn:E.
  - exists (tk_now t). split; [exists t; set_solver|]. by intros ? ->%list_elem_of_singleton.
  - destruct IH as (lo & (t' & Hin & <-) & Hmin); [done|].
    destruct (Z.le_gt_cases (tk_now t) (tk_now t')) as [Hle|Hgt].
    + exists (tk_now t). split; [exists t; set_solver|].
      intros x [->|Hx]%elem_of_cons; [done|]. specialize (Hmin x Hx). lia.
    + exists (tk_now t'). split; [exists t'; set_solver|].
      intros x [->|Hx]%elem_of_cons; [lia|]. by apply Hmin.
Qed.

(** ** A tick in which no rebuild stands in the way *)

(** [S] are the peers already rebuilt in these five minutes. *)
Lemma busy T0 lo us : forall w S,
  deadSince T0 w -> Forall dead us ->
  (forall t, t ∈ us -> lo <= tk_now t <= lo + rebuildAfter /\ T0 + giveUpAfter + resetEvery < tk_now t) ->
  NoDup S -> S ⊆ K -> (forall p, p ∈ S -> exists x, w_lastRebuild w !! p = Some x /\ lo <= x) ->
  (length K < length us + length S)%nat ->
  exists t, (t, AGiveUp) ∈ watchdog w us.
Proof.
  induction us as [|t us IH]; intros w S Hw Hdead Ht Hnd Hsub HS Hlen; simpl in Hlen.
  { assert (length S <= length K)%nat by (apply submseteq_length, NoDup_submseteq; done). lia. }
  apply Forall_cons in Hdead as [Hd Hdead]. destruct (Ht t ltac:(set_solver)) as [Hlo Hlate].
  assert (Hlt : T0 < tk_now t) by (unfold giveUpAfter, resetEvery, Minute, Second, Millisecond in *; lia).
  destruct (decide (AGiveUp ∈ (watchdogTick w t).2)) as [Ha|Hn]; [by apply watchdog_head|].
  destruct (dead_tick w t T0 Hw Hd Hlt) as [Ha|Hw']; [done|]. apply watchdog_tail.
  pose proof (dead_measure w t T0 Hw Hd Hlt) as Hm. unfold watchdogTick in *.
  destruct (measure w t) as [good [worst peer]]. destruct Hm as (-> & Hp & Hshare).
  destruct Hshare as [Hr1 Hr2]; [unfold stuckAfter, giveUpAfter, resetEvery, Minute, Second, Millisecond in *; lia|].
  destruct (due w t (tk_now t - T0) peer && tk_rebuilt t) eqn:Edue.
  2:{ exfalso. apply Hn. apply escalate_gives_up; try done.
      - unfold stuckAfter, giveUpAfter, resetEvery, Minute, Second, Millisecond in *; lia.
      - unfold giveUpAfter, resetEvery, Minute, Second, Millisecond in *; lia.
      - apply Hd.
      - apply (ds_restart _ _ Hw).
      - intros last Hlast. pose proof (ds_reset _ _ Hw _ Hlast). lia. }
  apply andb_true_iff in Edue as [Edue _].
  assert (Hin : forall p, p ∈ K -> is_Some (tk_states t !! p)).
  { intros p HpK. destruct Hd as ((_ & Hdom) & Hk & _). by apply Hdom, Hk. }
  assert (HpS : peer ∉ S).
  { intros HpS. destruct (HS _ HpS) as (x & Hx & Hlox). unfold due in Edue.
    rewrite !andb_true_iff in Edue. destruct Edue as [_ Edue].
    assert (Hf : filter (fun z => is_Some (tk_states t !! z.1)) (w_lastRebuild w) !! peer = Some x)
      by (apply map_lookup_filter_Some; split; [exact Hx|by apply Hin]).
    rewrite Hf in Edue.
    apply Z.ltb_lt in Edue. lia. }
  apply (IH _ (peer :: S)); [done|done| |by constructor|set_solver| |simpl; lia].
  - intros t' Ht'. apply Ht. set_solver.
  - intros p HpIn. rewrite escalate_rebuilds, Edue. cbn zeta.
    destruct (decide (p = peer)) as [->|Hne]; [rewrite lookup_insert_eq; exists (tk_now t); split; [done|lia]|].
    rewrite lookup_insert_ne by done. destruct (HS p ltac:(set_solver)) as (x & Hx & Hlox).
    exists x. split; [|done]. apply map_lookup_filter_Some. split; [done|]. apply Hin. set_solver.
Qed.

(** C37: while four fifths of the mesh are down for good and somebody takes the
    request, the process asks to be replaced: at the latest in the first
    stretch of five minutes that starts thirty-five minutes after the first
    look and has more ticks in it than the mesh has peers. *)
Theorem dead_mesh_is_replaced t0 pre us :
  dead t0 -> Forall dead pre -> Forall dead us ->
  (forall t, t ∈ pre -> tk_now t0 < tk_now t) ->
  (forall t, t ∈ us -> tk_now t0 + giveUpAfter + resetEvery < tk_now t) ->
  (forall t t', t ∈ us -> t' ∈ us -> tk_now t' - tk_now t <= rebuildAfter) ->
  (length K < length us)%nat ->
  exists t, (t, AGiveUp) ∈ watchdog w0 (t0 :: pre ++ us).
Proof.
  intros H0 Hpre Hus Hlt Hlate Hspan Hlen.
  assert (Hgo : forall ts w, deadSince (tk_now t0) w -> Forall dead ts ->
    (forall t, t ∈ ts -> tk_now t0 < tk_now t) -> exists t, (t, AGiveUp) ∈ watchdog w (ts ++ us)).
  { induction ts as [|t ts IH]; intros w Hw Hts Htlt; simpl.
    - destruct (minOf us) as (lo & Hlo); [by intros ->; simpl in Hlen; lia|].
      apply (busy (tk_now t0) lo us w [] Hw Hus).
      + intros t Ht. destruct Hlo as ((t' & Ht' & <-) & Hmin).
        specialize (Hmin t Ht). specialize (Hspan t' t Ht' Ht). specialize (Hlate t Ht). lia.
      + constructor.
      + apply list_subseteq_nil.
      + by intros p ?%not_elem_of_nil.
      + simpl. lia.
    - apply Forall_cons in Hts as [Ht Hts].
      destruct (dead_tick w t _ Hw Ht ltac:(apply Htlt; set_solver)) as [Ha|Hw'].
      + by apply watchdog_head.
      + apply watchdog_tail. apply IH; [done..|]. intros ? ?. apply Htlt. set_solver. }
  destruct (dead_first t0 H0) as [Ha|Hw]; [by apply watchdog_head|].
  apply watchdog_tail. by apply Hgo.
Qed.

End Dead.

(** ** What more peers than ticks can do *)

(** A mesh of the named peers, all down, every rebuild completed. *)
Definition exDead (names : list string) (n : Z) : tick :=
  mkTick (n * (30 * Second)) (list_to_map (map (fun k => (k, false)) names)) names true true.

Definition rotate (n : nat) (l : list string) : list string := drop n l ++ take n l.

Definition exTwelve : list string :=
  ["a"; "b"; "c"; "d"; "e"; "f"; "g"; "h"; "i"; "j"; "k"; "l"].

(** Two hours of ticks in which Go happens to range over the peers from a
    different one each time. *)
Definition exStarved : list tick :=
  map (fun n => exDead (rotate (Z.to_nat n mod 12) exTwelve) n) (seqZ 0 240).

(** the bound on the number of peers is needed: with twelve, all down, the
    rebuilds can take every tick: the signalling is reconnected once, before the
    first rebuild is due, and then for two hours neither is it reconnected again
    nor is anybody asked to replace the process. *)
Theorem rebuilds_can_starve :
  exists l, watchdog w0 exStarved = (3 * Minute, AReset) :: l /\ (length l = 229)%nat /\
  forall t a, (t, a) ∈ l -> exists k, a = ARebuild k.
Proof.
  exists (tail (watchdog w0 exStarved)). split; [vm_compute; reflexivity|].
  split; [vm_compute; reflexivity|]. intros t a Hin.
  assert (H : Forall (fun x => Is_true match x.2 with ARebuild _ => true | _ => false end)
                (tail (watchdog w0 exStarved))).
  { apply (bool_decide_unpack _). vm_compute. exact I. }
  rewrite Forall_forall in H. specialize (H _ Hin). destruct a as [k| |]; [by exists k|done..].
Qed.

(** ** Witness *)

Lemma exDead_dead names n : NoDup names -> dead names names (exDead names n).
Proof.
  intros Hnd.
  assert (Hl : forall k, k ∈ names -> tk_states (exDead names n) !! k = Some false).
  { intros k Hk. simpl. apply elem_of_list_to_map_1.
    - rewrite map_map. simpl. by rewrite map_id.
    - by apply (list_elem_of_fmap_2 (fun k => (k, false))). }
  split_and!; [split; [exact Hnd|]|done|exact Hl|done].
  intros k. split; [intros Hk; rewrite Hl by done; by eexists|].
  intros [b Hb]. apply elem_of_list_to_map_2 in Hb. simpl in Hb.
  by apply list_elem_of_fmap in Hb as (k' & [= -> ->] & ?).
Qed.

Lemma dead_mesh_is_replaced_witness :
  exists t, (t, AGiveUp) ∈ watchdog w0 (exDead ["a"; "b"] 0 :: map (exDead ["a"; "b"]) (seqZ 1 70) ++
                                         map (exDead ["a"; "b"]) [71; 72; 73]).
Proof.
  assert (Hnd : NoDup ["a"; "b"]) by (apply (bool_decide_unpack _); vm_compute; exact I).
  assert (Hall : forall l, Forall (dead ["a"; "b"] ["a"; "b"]) (map (exDead ["a"; "b"]) l)).
  { intros l. apply Forall_forall. intros t (n & -> & _)%list_elem_of_fmap. by apply exDead_dead. }
  assert (Hnow : forall l t, t ∈ map (exDead ["a"; "b"]) l -> exists n, n ∈ l /\ tk_now t = n * (30 * Second)).
  { intros l t (n & -> & Hn)%list_elem_of_fmap. by exists n. }
  apply (dead_mesh_is_replaced ["a"; "b"] ["a"; "b"]); try done.
  - simpl. lia.
  - by apply exDead_dead.
  - intros t Ht. apply Hnow in Ht as (n & Hn%elem_of_seqZ & ->). unfold Second, Millisecond. simpl. lia.
  - intros t Ht. apply Hnow in Ht as (n & Hn & ->). unfold giveUpAfter, resetEvery, Minute, Second, Millisecond.
    rewrite !elem_of_cons in Hn. destruct Hn as [->|[->|[->|[]%not_elem_of_nil]]]; simpl; lia.
  - intros t t' Ht Ht'. apply Hnow in Ht as (n & Hn & ->). apply Hnow in Ht' as (n' & Hn' & ->).
    unfold rebuildAfter, Minute, Second, Millisecond. rewrite !elem_of_cons in Hn, Hn'.
    destruct Hn as [->|[->|[->|[]%not_elem_of_nil]]]; destruct Hn' as [->|[->|[->|[]%not_elem_of_nil]]]; lia.
  - simpl. lia.
Defined.

End WatchdogLive.
