(* ===== verification/Proxy.v ===== *)
(** * internal/tunnel/proxy.go: the pump between WireGuard and a path.

    Each direction is a loop of reads and writes: a read brings a datagram or the
    error that ends the loop, a write that fails costs its datagram and nothing
    more. *)
From S2P Require Import Prelude GoStrings.

Module Proxy.

Definition maxPacket : nat := 2048.

Inductive proxyError : Type := ENoPath | EBadPort (port : Z) | ESocket.

(** [NewProxy]: what it needs is a path, a port and a loopback socket. *)
Definition NewProxy (path : bool) (wgPort : Z) (socket : bool) : result proxyError unit :=
  if negb path then Err ENoPath
  else if (wgPort <=? 0) || (65535 <? wgPort) then Err (EBadPort wgPort)
  else if negb socket then Err ESocket
  else Ok tt.

(** One read of the local socket: the datagram as it was sent, cut to the buffer,
    whether its source is known and on loopback, and whether the path took it. *)
Inductive wgRead : Type :=
| WGRead (datagram : list byte) (source : option bool) (written : bool)
| WGError.

Inductive pathRead : Type :=
| PathRead (packet : list byte) (written : bool)
| PathError.

Inductive reason : Type := RWGRead | RPathRead | RContext.

(** [wgToPath]: the datagrams handed to the path, and the error once there is
    one. *)
Fixpoint wgToPath (reads : list wgRead) : list (list byte) * option reason :=
  match reads with
  | [] => ([], None)
  | WGError :: _ => ([], Some RWGRead)
  | WGRead d from _ :: reads =>
      let buf := take maxPacket d in
      if (length buf =? 0)%nat then wgToPath reads
      else if match from with Some loopback => negb loopback | None => false end then wgToPath reads
      else let '(out, r) := wgToPath reads in (buf :: out, r)
  end.

(** [pathToWG]. *)
Fixpoint pathToWG (reads : list pathRead) : list (list byte) * option reason :=
  match reads with
  | [] => ([], None)
  | PathError :: _ => ([], Some RPathRead)
  | PathRead d _ :: reads =>
      let buf := take maxPacket d in
      if (length buf =? 0)%nat then pathToWG reads
      else let '(out, r) := pathToWG reads in (buf :: out, r)
  end.

(** [Run]: what its [select] saw first.  It returns an error on every branch. *)
Inductive runEnd : Type := EndContext | EndLoop (r : reason).
Definition Run (e : runEnd) : reason := match e with EndContext => RContext | EndLoop r => r end.

(** [Close]: the channel and the socket are closed once. *)
Definition Close (closed : bool) : bool * nat := (true, if closed then 0%nat else 1%nat).

(** What of the reads goes through: datagrams that are not empty and not from off
    this machine, up to the first error. *)
Fixpoint passes (reads : list wgRead) : list (list byte) :=
  match reads with
  | WGRead d from _ :: reads =>
      (if bool_decide (d <> []) && default true from then [d] else []) ++ passes reads
  | _ => []
  end.

(** the pump keeps every datagram whole, apart and in order: what reaches the
    path is each non-empty datagram from this machine that fits the buffer, one
    write each, whatever happened to the writes before it; the loop ends only
    with the error of a read. *)
Theorem wgToPath_datagrams reads :
  Forall (fun r => match r with WGRead d _ _ => (length d <= maxPacket)%nat | WGError => True end) reads ->
  (wgToPath reads).1 = passes reads /\
  ((wgToPath reads).2 = None <-> WGError ∉ reads).
Proof.
  induction 1 as [|[d from w|] reads Hd _ [IH1 IH2]]; cbn [wgToPath passes]; [set_solver| |].
  2: { split; [done|]. set_solver. }
  rewrite take_ge by done.
  assert (Hin : WGError ∉ WGRead d from w :: reads <-> WGError ∉ reads) by set_solver.
  rewrite Hin. destruct d as [|b d]; [done|].
  rewrite bool_decide_true by done. destruct from as [[]|]; cbn [length Nat.eqb negb default andb app]; try done;
    by destruct (wgToPath reads); simpl in *; rewrite IH1.
Qed.

(** ** Witness *)

Definition exReads : list wgRead :=
  [WGRead [Byte.x01] (Some true) false; WGRead [] None true; WGRead [Byte.x02] (Some false) true;
   WGRead [Byte.x03; Byte.x04] None true; WGError; WGRead [Byte.x05] None true].

Lemma wgToPath_datagrams_witness :
  wgToPath exReads = ([[Byte.x01]; [Byte.x03; Byte.x04]], Some RWGRead) /\
  (wgToPath exReads).1 = passes exReads /\ ((wgToPath exReads).2 = None <-> WGError ∉ exReads).
Proof.
  split; [vm_compute; reflexivity|]. apply wgToPath_datagrams.
  repeat (constructor; [first [exact I | apply Nat.leb_le; vm_compute; reflexivity]|]). constructor.
Defined.

End Proxy.
