(* ===== verification/ProxyRun.v ===== *)
(** * internal/tunnel/proxy.go: [Run] with its goroutines.

    [Run] starts three of them: one that waits for the end and puts a deadline on
    both sockets, since a blocked read has no other way out, and a pump for each
    direction.  [connectOnce] waits for [Run], or leaves it behind and closes the
    proxy.  Here every move of the four is a step, in any order: once there is a
    reason to stop they all come to an end, in a bounded number of moves, and none
    is left behind. *)
From S2P Require Import Prelude GoStrings Proxy.

Module ProxyRun.
Import Proxy.Proxy.

(** A pump: in the read, in the write of a datagram, with an error to hand over,
    gone. *)
Inductive ppc : Type := Reading | Writing (d : list byte) | Failing | Ended.
(** The goroutine with the deadlines: in its [select], before the first, before
    the second, gone. *)
Inductive wpc : Type := WWait | WAwake | WHalf | WDone.

(** [r_ctx] is the context of [Run]; [r_sockDead] and [r_pathDead] whether the
    deadline of each socket has passed; [r_ch] is [errCh]; [r_main] what [Run]
    returned.  The reads of each pump are kept, oldest first, with what it wrote. *)
Record run : Type := mkRun {
  r_ctx : bool; r_closed : bool; r_sockDead : bool; r_pathDead : bool; r_watch : wpc;
  r_wg : ppc; r_path : ppc; r_ch : list reason; r_main : option reason;
  r_wgReads : list wgRead; r_toPath : list (list byte); r_pathReads : list pathRead; r_toWG : list (list byte) }.

Definition start : run := mkRun false false false false WWait Reading Reading [] None [] [] [] [].

(** What [make(chan error, 2)] holds. *)
Definition errRoom : nat := 2.

Inductive event : Type :=
| ECancel                                          (* the caller's context ends *)
| EClose                                           (* [Close] *)
| EFromWG (d : list byte) (from : option bool) (written : bool)
| EFromPath (d : list byte) (written : bool)
| EWatch
| EWriteWG | EWritePath                            (* each pump's write returns *)
| EFailWG | EFailPath                              (* each pump's read returns an error *)
| ESendWG | ESendPath                              (* each pump gives its error over *)
| EMainCtx | EMainErr.                             (* which case [Run]'s [select] took *)

(** Where a pump goes with what it read. *)
Definition after (buf : list byte) (ignored : bool) : ppc :=
  if (length buf =? 0)%nat then Reading else if ignored then Reading else Writing buf.

Definition offMachine (from : option bool) : bool := match from with Some loopback => negb loopback | None => false end.

(** Updates. *)
Definition set_wg (p : ppc) (s : run) : run :=
  mkRun (r_ctx s) (r_closed s) (r_sockDead s) (r_pathDead s) (r_watch s) p (r_path s) (r_ch s) (r_main s)
    (r_wgReads s) (r_toPath s) (r_pathReads s) (r_toWG s).
Definition set_path (p : ppc) (s : run) : run :=
  mkRun (r_ctx s) (r_closed s) (r_sockDead s) (r_pathDead s) (r_watch s) (r_wg s) p (r_ch s) (r_main s)
    (r_wgReads s) (r_toPath s) (r_pathReads s) (r_toWG s).
Definition set_ch (ch : list reason) (s : run) : run :=
  mkRun (r_ctx s) (r_closed s) (r_sockDead s) (r_pathDead s) (r_watch s) (r_wg s) (r_path s) ch (r_main s)
    (r_wgReads s) (r_toPath s) (r_pathReads s) (r_toWG s).
(** [Run] returns, and its deferred [cancel] runs. *)
Definition set_main (why : reason) (ch : list reason) (s : run) : run :=
  mkRun true (r_closed s) (r_sockDead s) (r_pathDead s) (r_watch s) (r_wg s) (r_path s) ch (Some why)
    (r_wgReads s) (r_toPath s) (r_pathReads s) (r_toWG s).
Definition set_watch (w : wpc) (sock path : bool) (s : run) : run :=
  mkRun (r_ctx s) (r_closed s) sock path w (r_wg s) (r_path s) (r_ch s) (r_main s)
    (r_wgReads s) (r_toPath s) (r_pathReads s) (r_toWG s).

(** [None]: it cannot happen now.  A read past its deadline, or of a closed socket,
    brings nothing but an error. *)
Definition step (s : run) (e : event) : option run :=
  match e with
  | ECancel =>
      Some (mkRun true (r_closed s) (r_sockDead s) (r_pathDead s) (r_watch s) (r_wg s) (r_path s) (r_ch s) (r_main s)
              (r_wgReads s) (r_toPath s) (r_pathReads s) (r_toWG s))
  | EClose =>
      Some (mkRun (r_ctx s) true (r_sockDead s) (r_pathDead s) (r_watch s) (r_wg s) (r_path s) (r_ch s) (r_main s)
              (r_wgReads s) (r_toPath s) (r_pathReads s) (r_toWG s))
  | EFromWG d from written =>
      match r_wg s with
      | Reading =>
          if r_sockDead s || r_closed s then None
          else Some (mkRun (r_ctx s) (r_closed s) (r_sockDead s) (r_pathDead s) (r_watch s)
                       (after (take maxPacket d) (offMachine from)) (r_path s) (r_ch s) (r_main s)
                       (r_wgReads s ++ [WGRead d from written]) (r_toPath s) (r_pathReads s) (r_toWG s))
      | _ => None
      end
  | EFromPath d written =>
      match r_path s with
      | Reading =>
          if r_pathDead s then None
          else Some (mkRun (r_ctx s) (r_closed s) (r_sockDead s) (r_pathDead s) (r_watch s)
                       (r_wg s) (after (take maxPacket d) false) (r_ch s) (r_main s)
                       (r_wgReads s) (r_toPath s) (r_pathReads s ++ [PathRead d written]) (r_toWG s))
      | _ => None
      end
  | EWatch =>
      match r_watch s with
      | WWait => if r_ctx s || r_closed s then Some (set_watch WAwake (r_sockDead s) (r_pathDead s) s) else None
      | WAwake => Some (set_watch WHalf true (r_pathDead s) s)
      | WHalf => Some (set_watch WDone (r_sockDead s) true s)
      | WDone => None
      end
  | EWriteWG =>
      match r_wg s with
      | Writing d => Some (mkRun (r_ctx s) (r_closed s) (r_sockDead s) (r_pathDead s) (r_watch s) Reading (r_path s) (r_ch s)
                             (r_main s) (r_wgReads s) (r_toPath s ++ [d]) (r_pathReads s) (r_toWG s))
      | _ => None
      end
  | EWritePath =>
      match r_path s with
      | Writing d => Some (mkRun (r_ctx s) (r_closed s) (r_sockDead s) (r_pathDead s) (r_watch s) (r_wg s) Reading (r_ch s)
                             (r_main s) (r_wgReads s) (r_toPath s) (r_pathReads s) (r_toWG s ++ [d]))
      | _ => None
      end
  | EFailWG => match r_wg s with Reading => Some (set_wg Failing s) | _ => None end
  | EFailPath => match r_path s with Reading => Some (set_path Failing s) | _ => None end
  | ESendWG =>
      match r_wg s with
      | Failing => if (length (r_ch s) <? errRoom)%nat then Some (set_wg Ended (set_ch (r_ch s ++ [RWGRead]) s)) else None
      | _ => None
      end
  | ESendPath =>
      match r_path s with
      | Failing => if (length (r_ch s) <? errRoom)%nat then Some (set_path Ended (set_ch (r_ch s ++ [RPathRead]) s)) else None
      | _ => None
      end
  | EMainCtx => match r_main s with None => if r_ctx s then Some (set_main RContext (r_ch s) s) else None | Some _ => None end
  | EMainErr =>
      match r_main s, r_ch s with
      | None, why :: ch => Some (set_main why ch s)
      | _, _ => None
      end
  end.

Fixpoint steps (s : run) (es : list event) : option run :=
  match es with [] => Some s | e :: es => s' ← step s e; steps s' es end.

(** What comes from outside, and the moves of the four goroutines. *)
Definition arrival (e : event) : bool := match e with EFromWG _ _ _ | EFromPath _ _ => true | _ => false end.
Definition asked (e : event) : bool := match e with ECancel | EClose => true | _ => false end.
Definition move (e : event) : bool := negb (arrival e) && negb (asked e).

(** A move the program makes whatever the sockets do: its reads fail of themselves
    only past a deadline, or on a closed socket. *)
Definition forced (s : run) (e : event) : bool :=
  match e with
  | EFailWG => r_sockDead s || r_closed s
  | EFailPath => r_pathDead s
  | _ => move e
  end.

Definition count (f : event -> bool) (es : list event) : nat := length (List.filter f es).

Definition prank (p : ppc) : nat := match p with Reading => 2 | Writing _ => 3 | Failing => 1 | Ended => 0 end.
Definition wrank (w : wpc) : nat := match w with WWait => 3 | WAwake => 2 | WHalf => 1 | WDone => 0 end.
Definition mrank (m : option reason) : nat := match m with None => 1 | Some _ => 0 end.
Definition rank (s : run) : nat := wrank (r_watch s) + prank (r_wg s) + prank (r_path s) + mrank (r_main s).

(** A reason to stop: the context, [Close], a read that failed, or [Run] gone. *)
Definition failed (p : ppc) : bool := match p with Failing | Ended => true | _ => false end.
Definition stopping (s : run) : bool :=
  r_ctx s || r_closed s || failed (r_wg s) || failed (r_path s) || bool_decide (is_Some (r_main s)).

(** Everybody is gone. *)
Definition over (s : run) : Prop :=
  is_Some (r_main s) /\ r_watch s = WDone /\ r_wg s = Ended /\ r_path s = Ended.

(** ** The invariant *)

Definition ended (p : ppc) : nat := match p with Ended => 1 | _ => 0 end.
Definition took (m : option reason) : nat := match m with Some RWGRead | Some RPathRead => 1 | _ => 0 end.
Definition inHand (p : ppc) : list (list byte) := match p with Writing d => [d] | _ => [] end.

Record Inv (s : run) : Prop := {
  in_main : is_Some (r_main s) -> r_ctx s = true;
  in_sock : (wrank (r_watch s) <= 1)%nat -> r_sockDead s = true;
  in_path : (wrank (r_watch s) = 0)%nat -> r_pathDead s = true;
  in_ch : (length (r_ch s) + took (r_main s) = ended (r_wg s) + ended (r_path s))%nat;
  in_reasons : Forall (fun w => w <> RContext) (r_ch s);
  in_toPath : r_toPath s ++ inHand (r_wg s) = (wgToPath (r_wgReads s)).1 /\ WGError ∉ r_wgReads s;
  in_toWG : r_toWG s ++ inHand (r_path s) = (pathToWG (r_pathReads s)).1 /\ PathError ∉ r_pathReads s }.

Lemma wgToPath_snoc reads d from w :
  WGError ∉ reads -> (wgToPath (reads ++ [WGRead d from w])).1 = (wgToPath reads).1 ++ inHand (after (take maxPacket d) (offMachine from)).
Proof.
  induction reads as [|[d' from' w'|] reads IH]; intros Hn; cbn [wgToPath app].
  - unfold after, offMachine. destruct (_ =? 0)%nat; [done|]. by destruct (match from with Some b => negb b | None => false end).
  - assert (Hr : WGError ∉ reads) by set_solver. destruct (_ =? 0)%nat; [by apply IH|].
    destruct (match from' with Some b => negb b | None => false end); [by apply IH|].
    specialize (IH Hr). destruct (wgToPath reads), (wgToPath (reads ++ _)). cbn [fst] in *. by rewrite IH.
  - set_solver.
Qed.

Lemma pathToWG_snoc reads d w :
  PathError ∉ reads -> (pathToWG (reads ++ [PathRead d w])).1 = (pathToWG reads).1 ++ inHand (after (take maxPacket d) false).
Proof.
  induction reads as [|[d' w'|] reads IH]; intros Hn; cbn [pathToWG app].
  - unfold after. by destruct (_ =? 0)%nat.
  - assert (Hr : PathError ∉ reads) by set_solver. destruct (_ =? 0)%nat; [by apply IH|].
    specialize (IH Hr). destruct (pathToWG reads), (pathToWG (reads ++ _)). cbn [fst] in *. by rewrite IH.
  - set_solver.
Qed.

Lemma after_rank d b : (prank (after d b) <= 3)%nat /\ ended (after d b) = 0%nat.
Proof. unfold after. destruct (_ =? 0)%nat, b; simpl; lia. Qed.

Lemma Inv_start : Inv start.
Proof. split; cbn; try set_solver; try (intros; lia). Qed.

Lemma not_in_snoc {A} (x y : A) l : x ∉ l -> x <> y -> x ∉ l ++ [y].
Proof. set_solver. Qed.

Lemma Inv_arrival s e s' : Inv s -> arrival e = true -> step s e = Some s' -> Inv s'.
Proof.
  intros [Hm Hd Hd' Hc Hr [Hw Hwn] [Hp Hpn]] He E. destruct e; try done; cbn in E.
  - destruct (r_wg s) eqn:Ew; try done. destruct (_ || _); [done|]. injection E as <-. cbn [inHand] in Hw. rewrite app_nil_r in Hw.
    split; cbn [r_main r_ctx r_watch r_sockDead r_pathDead r_ch r_wg r_path r_toPath r_wgReads r_toWG r_pathReads]; try done.
    + rewrite Hc. by rewrite (proj2 (after_rank _ _)).
    + split; [by rewrite wgToPath_snoc, Hw|by apply not_in_snoc].
  - destruct (r_path s) eqn:Ew; try done. destruct (r_pathDead s); [done|]. injection E as <-. cbn [inHand] in Hp. rewrite app_nil_r in Hp.
    split; cbn [r_main r_ctx r_watch r_sockDead r_pathDead r_ch r_wg r_path r_toPath r_wgReads r_toWG r_pathReads]; try done.
    + rewrite Hc. by rewrite (proj2 (after_rank _ _)).
    + split; [by rewrite pathToWG_snoc, Hp|by apply not_in_snoc].
Qed.

Lemma Inv_move s e s' : Inv s -> arrival e = false -> step s e = Some s' -> Inv s'.
Proof.
  intros [Hm Hd Hd' Hc Hr [Hw Hwn] [Hp Hpn]] He E. destruct e; try done; unfold step in E;
    repeat (case_match; try done); simplify_eq; split; cbn in *; rewrite ?app_nil_r in *; try done; try exact Hd; try exact Hd'; try (intros; lia);
    try (split; [|done]; rewrite <- ?Hw, <- ?Hp, ?app_nil_r; done);
    rewrite ?length_app in *; cbn in *; try lia.
  all: try (intros _; apply Hd; lia); try (apply Forall_app; split; [done|by repeat constructor]).
  all: apply Forall_cons in Hr as [Hr1 Hr2]; first [done|case_match; [lia|lia|done]].
Qed.

Lemma Inv_any s e s' : Inv s -> step s e = Some s' -> Inv s'.
Proof. destruct (arrival e) eqn:Ea; eauto using Inv_arrival, Inv_move. Qed.

(** A move is paid for by the rank; a datagram pays one in. *)
Lemma rank_step s e s' :
  step s e = Some s' ->
  ((if move e then 1 else 0) + rank s' <= rank s + (if arrival e then 1 else 0))%nat.
Proof.
  intros E. unfold move, rank. destruct e; unfold step in E; repeat (case_match; try done); simplify_eq; cbn; try lia;
    repeat match goal with |- context [prank (after ?d ?b)] => pose proof (proj1 (after_rank d b)); generalize dependent (prank (after d b)); intros end; lia.
Qed.

Lemma rank_steps es : forall s s', steps s es = Some s' -> (count move es + rank s' <= rank s + count arrival es)%nat.
Proof.
  unfold count. induction es as [|e es IH]; intros s s' E; cbn in E |- *; [injection E as <-; lia|].
  destruct (step s e) as [s1|] eqn:E1; cbn in E; [|done]. specialize (IH _ _ E). pose proof (rank_step _ _ _ E1).
  destruct (move e), (arrival e); cbn [length]; lia.
Qed.

Lemma Inv_steps es : forall s s', Inv s -> steps s es = Some s' -> Inv s'.
Proof.
  induction es as [|e es IH]; intros s s' HI E; cbn in E; [by injection E as <-|].
  destruct (step s e) as [s1|] eqn:E1; cbn in E; [|done]. eapply IH; [|exact E]. by eapply Inv_any.
Qed.

(** What stopped stays stopped. *)
Lemma stopping_step s e s' : stopping s = true -> step s e = Some s' -> stopping s' = true.
Proof.
  unfold stopping. rewrite !orb_true_iff. intros Hs E. destruct e; unfold step in E; repeat (case_match; try done); simplify_eq; cbn in *;
    rewrite ?bool_decide_eq_true in *; naive_solver.
Qed.

(** There is always somebody who can move, short of the end. *)
Lemma stopping_moves s : Inv s -> stopping s = true -> over s \/ exists e s', forced s e = true /\ step s e = Some s'.
Proof.
  intros [Hm Hd Hd' Hc Hr _ _] Hs.
  assert (Hroom : r_wg s = Failing \/ r_path s = Failing -> (length (r_ch s) <? errRoom)%nat = true).
  { intros Hf. apply Nat.ltb_lt. unfold errRoom. destruct Hf as [Hf|Hf]; rewrite Hf in Hc; cbn in Hc; destruct (r_wg s), (r_path s); cbn in Hc; lia. }
  destruct (r_wg s) eqn:Ew.
  2: { right. exists EWriteWG. eexists. split; [done|]. unfold step. by rewrite Ew. }
  2: { right. exists ESendWG. eexists. split; [done|]. unfold step. by rewrite Ew, Hroom by auto. }
  all: destruct (r_path s) eqn:Ep;
    [|right; exists EWritePath; eexists; (split; [done|]); unfold step; by rewrite Ep
     |right; exists ESendPath; eexists; (split; [done|]); unfold step; by rewrite Ep, Hroom by auto|].
  all: destruct (r_ctx s) eqn:Ectx;
    [destruct (r_main s) as [why|] eqn:Emain; [|right; exists EMainCtx; eexists; (split; [done|]); unfold step; by rewrite Emain, Ectx]|].
  all: try (destruct (r_main s) as [why|] eqn:Emain; [by specialize (Hm ltac:(by eexists))|]).
  all: destruct (r_ch s) as [|why' ch] eqn:Ech;
    [|try (right; exists EMainErr; eexists; (split; [done|]); unfold step; by rewrite Emain, Ech)].
  all: cbn in Hc; try lia.
  all: destruct (r_watch s) eqn:Ewa;
    try (right; exists EWatch; eexists; (split; [done|]); unfold step; rewrite Ewa; rewrite ?Ectx; done).
  all: try (right; exists EFailWG; eexists; (split; [cbn; rewrite Hd by (cbn; lia); done|]); unfold step; by rewrite Ew).
  all: try (right; exists EFailPath; eexists; (split; [cbn; by apply Hd'|]); unfold step; by rewrite Ep).
  all: try (left; unfold over; rewrite Emain, Ewa, Ew, Ep; split; [by eexists|done]).
  all: unfold stopping in Hs; rewrite Ectx, Ew, Ep, Emain in Hs; cbn in Hs; rewrite ?orb_false_r in Hs.
  all: right; exists EWatch; eexists; (split; [done|]); unfold step; rewrite Ewa, Ectx; cbn; by rewrite Hs.
Qed.

Lemma stopping_steps es : forall s s', stopping s = true -> steps s es = Some s' -> stopping s' = true.
Proof.
  induction es as [|e es IH]; intros s s' Hs E; cbn in E; [by injection E as <-|].
  destruct (step s e) as [s1|] eqn:E1; cbn in E; [|done]. eapply IH; [|exact E]. by eapply stopping_step.
Qed.

Lemma run_steps_app es1 : forall es2 s, steps s (es1 ++ es2) = (s' ← steps s es1; steps s' es2).
Proof. induction es1 as [|e es IH]; intros es2 s; cbn; [done|]. destruct (step s e); cbn; [apply IH|done]. Qed.

(** Past the deadlines no datagram is read. *)
Lemma deaf_step s e s' :
  r_sockDead s = true -> r_pathDead s = true -> step s e = Some s' ->
  arrival e = false /\ r_sockDead s' = true /\ r_pathDead s' = true.
Proof.
  intros H1 H2 E. destruct e; unfold step in E; rewrite ?H1, ?H2 in E; repeat (case_match; try done); simplify_eq; done.
Qed.

Lemma deaf_steps es : forall s s', r_sockDead s = true -> r_pathDead s = true -> steps s es = Some s' -> count arrival es = 0%nat.
Proof.
  unfold count. induction es as [|e es IH]; intros s s' H1 H2 E; cbn in E |- *; [done|].
  destruct (step s e) as [s1|] eqn:E1; cbn in E; [|done]. destruct (deaf_step _ _ _ H1 H2 E1) as (-> & H1' & H2'). by eapply IH.
Qed.

(** Why [Run] returned is something that happened. *)
Definition seen (es : list event) (why : reason) : Prop :=
  match why with RContext => ECancel ∈ es | RWGRead => EFailWG ∈ es | RPathRead => EFailPath ∈ es end.

Record honest (es : list event) (s : run) : Prop := {
  ho_ctx : r_main s = None -> r_ctx s = true -> seen es RContext;
  ho_wg : failed (r_wg s) = true -> seen es RWGRead;
  ho_path : failed (r_path s) = true -> seen es RPathRead;
  ho_ch : Forall (seen es) (r_ch s);
  ho_main : forall why, r_main s = Some why -> seen es why }.

Lemma after_failed d b : failed (after d b) = false.
Proof. unfold after. by destruct (_ =? 0)%nat, b. Qed.

Lemma seen_mono es e why : seen es why -> seen (es ++ [e]) why.
Proof. destruct why; cbn; intros ?; apply elem_of_app; by left. Qed.

Lemma honest_step es s e s' : honest es s -> step s e = Some s' -> honest (es ++ [e]) s'.
Proof.
  intros [H1 H2 H3 H4 H5] E.
  assert (He : e ∈ es ++ [e]) by (apply elem_of_app; right; by left).
  assert (Hch : Forall (seen (es ++ [e])) (r_ch s)) by (eapply Forall_impl; [exact H4|intros; by apply seen_mono]).
  destruct e; unfold step in E; repeat (case_match; try done); simplify_eq;
    (split; [intros Hn Hc|intros Hf|intros Hf| |intros why' Hw]); cbn -[seen] in * |-; rewrite ?after_failed in *; simplify_eq; try done;
    try (apply seen_mono; auto; done); try exact Hch; try exact He.
  all: try (apply Forall_app; split; [exact Hch|constructor; [apply seen_mono; auto|constructor]]).
  all: apply Forall_cons in Hch as [Hw Hch]; try exact Hch; try exact Hw.
Qed.

Lemma honest_steps es : forall pre s s', honest pre s -> steps s es = Some s' -> honest (pre ++ es) s'.
Proof.
  induction es as [|e es IH]; intros pre s s' Hh E; cbn in E; [injection E as <-; by rewrite app_nil_r|].
  destruct (step s e) as [s1|] eqn:E1; cbn in E; [|done].
  replace (pre ++ e :: es) with ((pre ++ [e]) ++ es) by (by rewrite <- app_assoc).
  eapply IH; [|exact E]. by eapply honest_step.
Qed.

Lemma honest_start : honest [] start.
Proof. by split; cbn. Qed.

(** C17: a proxy that has a reason to stop stops, all of it.  Take any run of its
    goroutines up to a point where the context has ended, [Close] was called, a
    read has failed or [Run] has returned, and any run after that.  The goroutines
    make at most ten more moves, and one for each datagram that still comes, of
    which none does once the deadlines have passed; and while [Run], the two pumps
    or the goroutine with the deadlines have not ended there is a move they make
    whatever the sockets do, so none blocks for ever on the other.  Whatever was
    written to the path, with the datagram in hand, is what the pump makes of what
    it read, in order, and so for the other direction; and what [Run] returned is
    something that happened. *)
Theorem run_leaves_nobody es es' s s' :
  steps start es = Some s -> stopping s = true -> steps s es' = Some s' ->
  (count move es' + rank s' <= 10 + count arrival es')%nat /\
  (r_sockDead s = true -> r_pathDead s = true -> count arrival es' = 0%nat) /\
  (over s' \/ exists e s'', forced s' e = true /\ step s' e = Some s'') /\
  r_toPath s' ++ inHand (r_wg s') = (wgToPath (r_wgReads s')).1 /\
  r_toWG s' ++ inHand (r_path s') = (pathToWG (r_pathReads s')).1 /\
  (forall why, r_main s' = Some why -> seen (es ++ es') why).
Proof.
  intros E Hs E'. pose proof (Inv_steps _ _ _ Inv_start E) as HI. pose proof (Inv_steps _ _ _ HI E') as HI'.
  assert (Hall : steps start (es ++ es') = Some s') by (rewrite run_steps_app, E; exact E').
  pose proof (honest_steps _ [] _ _ honest_start Hall) as Hh. cbn [app] in Hh.
  split; [|split; [|split; [|split; [|split]]]].
  - pose proof (rank_steps _ _ _ E') as Hr. assert (rank s <= 10)%nat; [|lia].
    unfold rank. destruct (r_watch s), (r_wg s), (r_path s), (r_main s); simpl; lia.
  - intros H1 H2. by eapply deaf_steps.
  - apply stopping_moves; [done|]. by eapply stopping_steps.
  - apply (in_toPath _ HI').
  - apply (in_toWG _ HI').
  - apply (ho_main _ _ Hh).
Qed.

(** ** Witness: a datagram each way, then the context ends *)

Definition exBefore : list event :=
  [EFromWG [Byte.x01] (Some true) true; EFromPath [Byte.x02] true; EWritePath; ECancel].
Definition exAfter : list event :=
  [EMainCtx; EWatch; EWriteWG; EWatch; EWatch; EFailPath; EFailWG; ESendWG; ESendPath].

Lemma run_leaves_nobody_witness :
  exists s s', steps start exBefore = Some s /\ steps s exAfter = Some s' /\ over s' /\
    r_toPath s' = [[Byte.x01]] /\ r_main s' = Some RContext /\ seen (exBefore ++ exAfter) RContext.
Proof.
  destruct (steps start exBefore) as [s|] eqn:E; [|exfalso; revert E; vm_compute; discriminate].
  destruct (steps s exAfter) as [s'|] eqn:E'; [|exfalso; revert E'; vm_compute in E; injection E as <-; vm_compute; discriminate].
  exists s, s'. split; [done|]. split; [done|].
  assert (Hs : stopping s = true) by (vm_compute in E; injection E as <-; vm_compute; reflexivity).
  destruct (run_leaves_nobody exBefore exAfter s s' E Hs E') as (_ & _ & _ & _ & _ & Hw).
  vm_compute in E. injection E as <-. vm_compute in E'. injection E' as <-.
  split; [by split; [eexists|]|]. split; [reflexivity|]. split; [reflexivity|]. by apply Hw.
Defined.

End ProxyRun.
