(* ===== verification/Link.v ===== *)
(** * internal/engine/engine.go: one peer of the engine: [dispatch] once it has
    found the peer, and the goroutine of [keepPeerConnected] with the attempts of
    [connectOnce].

    A link is the fields its lock protects, together with the session it holds.
    [step] runs one link: the goroutine is cut at its lock sections and its
    blocking calls; signalling, the session's own reports, the watchdog's wakes
    and the retirement of the peer fall in between. *)
From S2P Require Import Prelude GoStrings NetIP NetText Keys Backoff P2P Session SignalProto SignalClient UAPI.

Module Link.
Import NetText.NetText P2P.P2P SignalProto.SignalProto.

Notation Message := SignalClient.SignalClient.Message.
Notation m_from := SignalClient.SignalClient.m_from.
Notation m_kind := SignalClient.SignalClient.m_kind.
Notation m_body := SignalClient.SignalClient.m_body.
Notation Session := Session.Session.Session.

Definition retryMin : Z := 2 * Second.
Definition retryMax : Z := 15 * Second.
Definition negotiateTimeout : Z := 25 * Second.
Definition handshakeStagger : Z := 700 * Millisecond.
Definition earlyMessages : nat := 32.
Definition keepaliveSeconds : Z := 25.
Definition offlineEvery : Z := Minute.

(** [engine.Peer]. *)
Record Peer : Type := mkPeer { PublicKey : Key; PresharedKey : Key; AllowedIPs : list Prefix }.

#[global] Instance Peer_eq_dec : EqDecision Peer.
Proof. solve_decision. Defined.

(** [peerLink].  [wake] is whether its one-place channel is full; the cancel
    function of the attempt is whether it has been called on the attempt in
    flight. *)
Record peerLink : Type := mkLink {
  l_spec : Peer; l_wake : bool; l_session : option Session; l_state : State;
  l_lastErr : string; l_lastErrAt : Z; l_abandonWhy : string;
  l_early : list Message; l_abandoned : bool }.

Definition newLink (spec : Peer) : peerLink :=
  mkLink spec false None StateIdle "" 0 "" [] false.

Definition whyRestarted : string := "the peer restarted its negotiation".
Definition whyGoodbye : string := "the peer said goodbye (restarting or shutting down)".
Definition whyRelay : string := "renegotiating to look for a direct path instead of the relay".

Definition opening (m : Message) : bool :=
  String.eqb (m_kind m) KindOffer || String.eqb (m_kind m) KindAnswer.

(** Field updates. *)
Definition set_wake (b : bool) (l : peerLink) : peerLink :=
  mkLink (l_spec l) b (l_session l) (l_state l) (l_lastErr l) (l_lastErrAt l) (l_abandonWhy l) (l_early l) (l_abandoned l).
Definition set_session (s : option Session) (l : peerLink) : peerLink :=
  mkLink (l_spec l) (l_wake l) s (l_state l) (l_lastErr l) (l_lastErrAt l) (l_abandonWhy l) (l_early l) (l_abandoned l).
Definition set_lstate (st : State) (l : peerLink) : peerLink :=
  mkLink (l_spec l) (l_wake l) (l_session l) st (l_lastErr l) (l_lastErrAt l) (l_abandonWhy l) (l_early l) (l_abandoned l).
Definition set_early (e : list Message) (l : peerLink) : peerLink :=
  mkLink (l_spec l) (l_wake l) (l_session l) (l_state l) (l_lastErr l) (l_lastErrAt l) (l_abandonWhy l) e (l_abandoned l).
Definition abandon (why : string) (l : peerLink) : peerLink :=
  mkLink (l_spec l) (l_wake l) (l_session l) (l_state l) (l_lastErr l) (l_lastErrAt l) why (l_early l) true.
Definition set_spec (spec : Peer) (l : peerLink) : peerLink :=
  mkLink spec (l_wake l) (l_session l) (l_state l) (l_lastErr l) (l_lastErrAt l) (l_abandonWhy l) (l_early l) (l_abandoned l).

Section Link.
Context `{WGKeys}.
(** [ice.UnmarshalCandidate]: whether the line decodes. *)
Context (decodes : string -> bool).

(** ** dispatch *)

Definition hold (m : Message) (l : peerLink) : peerLink :=
  let early := if opening m then [] else l_early l in
  set_wake true (set_early (if (length early <? earlyMessages)%nat then early ++ [m] else early) l).

(** The session of the link is a pointer: what a message changes in it is seen by
    the attempt that holds it.  The source reads [link.session] under the lock of
    the link and acts on it, and on [attemptCancel], after; here nothing comes
    between the two, so a message that is just behind the end of an attempt is
    dispatched before it or after it. *)
Definition dispatchLink (m : Message) (l : peerLink) : go peerLink :=
  match l_session l with
  | None => Ret (hold m l)
  | Some sess =>
      if opening m then
        '(sess', joined) ← Session.Session.SetRemoteCredentials (UFrag (m_body m)) (Pwd (m_body m)) sess;
        let l := set_session (Some sess') l in
        if joined : bool then Ret l
        else if Session.Session.s_controlling sess then Ret l
        else Ret (set_wake true (abandon whyRestarted l))
      else if String.eqb (m_kind m) KindCandidate then
        Ret (set_session (Some (Session.Session.AddRemoteCandidate decodes (Candidate (m_body m)) sess).1) l)
      else if String.eqb (m_kind m) KindBye then Ret (abandon whyGoodbye l)
      else Ret l
  end.

(** [feed]. *)
Definition feed (m : Message) (sess : Session) : go Session :=
  if opening m then
    '(sess', _) ← Session.Session.SetRemoteCredentials (UFrag (m_body m)) (Pwd (m_body m)) sess; Ret sess'
  else if String.eqb (m_kind m) KindCandidate
  then Ret (Session.Session.AddRemoteCandidate decodes (Candidate (m_body m)) sess).1
  else Ret sess.

(** [shouldSayOffline]: one notice a minute for each peer. *)
Definition shouldSayOffline (key : string) (now : Z) (said : gmap string Z) : gmap string Z * bool :=
  match said !! key with
  | Some last => if now - last <? offlineEvery then (said, false) else (<[key := now]> said, true)
  | None => (<[key := now]> said, true)
  end.

(** [escapeRelay]'s half on the link it picked, and [wakeStuck]'s. *)
Definition escape (l : peerLink) : peerLink := set_wake true (abandon whyRelay l).
Definition wakeStuck (l : peerLink) : peerLink :=
  if bool_decide (l_state l = StateConnected) then l else set_wake true l.

(** What the engine answers about a peer: [PeerState], [PeerTrouble], and the kind
    of [PeerPath] for the pair the agent selected. *)
Definition PeerState (l : option peerLink) : State := match l with Some l => l_state l | None => StateIdle end.
Definition PeerTrouble (l : option peerLink) : string * Z :=
  match l with Some l => (l_lastErr l, l_lastErrAt l) | None => ("", 0) end.
Definition PeerPath (l : option peerLink) (pair : option (CandidateType * CandidateType)) : string :=
  match l with
  | Some l => match l_session l with Some s => Session.Session.pathKind s pair | None => "" end
  | None => ""
  end.

(** ** The goroutine *)

(** [connectOnce] from its first lock section to [return <-runErr], and the rest
    of the loop around it.  [PEnded] carries the error it returned: it has no
    branch that returns nil, [proxy.Run] included. *)
Inductive pc : Type :=
| PHead                                   (* the head of the loop *)
| PFeed (early : list Message)            (* an attempt, feeding what was held *)
| PStart                                  (* sess.Start *)
| PProxy                                  (* the port and the proxy *)
| PStagger                                (* one side waits *)
| PConfigure                              (* WireGuard is told *)
| PUp                                     (* <-runErr *)
| PEnded (err : string)                   (* returned, not yet recorded *)
| PWait                                   (* between two attempts *)
| PGone.                                  (* link.done is closed *)

(** What WireGuard was told in an attempt: moved, or added whole. *)
Inductive told : Type := Moved (pub : Key) (ep : AddrPort) | Added (p : UAPI.UAPI.Peer).

(** [m_spec] is the copy of the spec that an attempt takes when it begins. *)
Record machine : Type := mkMachine {
  m_link : peerLink; m_pc : pc; m_spec : Peer; m_delay : Z; m_cancelled : bool; m_told : list told }.

Definition start (spec : Peer) : machine := mkMachine (newLink spec) PHead spec retryMin false [].

Inductive event : Type :=
| EvBegin (cfg : Config) (local : Key)
| EvFeed
| EvStart (r : result string unit)        (* sess.Start returned *)
| EvProxy (r : result string unit)        (* ListenPort and NewProxy *)
| EvStagger (cancelled : bool)
| EvConfigure (known : bool) (ep : AddrPort) (r : result string unit)
| EvRun (err : string)                    (* proxy.Run returned *)
| EvRecord (now : Z)
| EvWake                                  (* the select took link.wake *)
| EvTimer                                 (* the select took the timer *)
| EvSignal (m : Message)
| EvSession (st : State)                  (* the session reports a state *)
| EvWakeStuck
| EvEscape
| EvSpec (spec : Peer)                    (* SetPeers replaced the spec *)
| EvCancel                                (* the peer's context is cancelled *)
| EvGone.                                 (* the loop sees it *)

(** The session's handler: every state but Connected is adopted. *)
Definition adopt (o : list Session.Session.out) (l : peerLink) : peerLink :=
  fold_left (fun l x => match x with
                        | Session.Session.ONotify st => if bool_decide (st = StateConnected) then l else set_lstate st l
                        | _ => l end) o l.

(** The deferred calls of [connectOnce]: the session is closed, what was held is
    dropped, and the session leaves the link. *)
Definition finish (err : string) (m : machine) : machine :=
  let l := m_link m in
  let l := match l_session l with
           | Some s => adopt (Session.Session.Close s).2 l
           | None => l
           end in
  mkMachine (set_session None (set_early [] l)) (PEnded err) (m_spec m) (m_delay m) (m_cancelled m) (m_told m).

Definition at_pc (m : machine) (p : pc) : machine := mkMachine (m_link m) p (m_spec m) (m_delay m) (m_cancelled m) (m_told m).
Definition with_link (m : machine) (l : peerLink) : machine := mkMachine l (m_pc m) (m_spec m) (m_delay m) (m_cancelled m) (m_told m).

(** The first lock section of an attempt. *)
Definition beginAttempt (cfg : Config) (local : Key) (m : machine) : machine :=
  let l := m_link m in
  let sess := Session.Session.NewSession local (PublicKey (l_spec l)) cfg true in
  mkMachine (mkLink (l_spec l) (l_wake l) (Some sess) StateNegotiating (l_lastErr l) (l_lastErrAt l)
               (l_abandonWhy l) [] false)
    (PFeed (l_early l)) (l_spec l) (m_delay m) (m_cancelled m) (m_told m).

(** What WireGuard is told once there is a proxy. *)
Definition tell (spec : Peer) (known : bool) (ep : AddrPort) : told :=
  if known then Moved (PublicKey spec) ep
  else Added (UAPI.UAPI.mkPeer (PublicKey spec) (PresharedKey spec) ep (AllowedIPs spec) keepaliveSeconds).

(** The lock section after an attempt; [err] is never nil. *)
Definition record (err : string) (now : Z) (l : peerLink) : peerLink :=
  mkLink (l_spec l) (l_wake l) (l_session l) (l_state l)
    (if String.eqb (l_abandonWhy l) "" then err else l_abandonWhy l) now "" (l_early l) (l_abandoned l).

Definition step (m : machine) (e : event) : go machine :=
  let l := m_link m in
  match e, m_pc m with
  | EvBegin cfg local, PHead => Ret (if m_cancelled m then at_pc m PGone else beginAttempt cfg local m)
  | EvFeed, PFeed [] => Ret (at_pc m PStart)
  | EvFeed, PFeed (x :: early) =>
      match l_session l with
      | None => Ret m
      | Some s => s' ← feed x s; Ret (at_pc (with_link m (set_session (Some s') l)) (PFeed early))
      end
  | EvStart (Ok _), PStart => Ret (at_pc m PProxy)
  | EvStart (Err e), PStart => Ret (finish e m)
  | EvProxy (Ok _), PProxy =>
      Ret (at_pc m (match l_session l with
                    | Some s => if Session.Session.s_controlling s then PConfigure else PStagger
                    | None => PStagger
                    end))
  | EvProxy (Err e), PProxy => Ret (finish e m)
  | EvStagger cancelled, PStagger => Ret (if cancelled then finish "context canceled" m else at_pc m PConfigure)
  | EvConfigure known ep (Ok _), PConfigure =>
      Ret (mkMachine (set_lstate StateConnected l) PUp (m_spec m) (m_delay m) (m_cancelled m)
             (m_told m ++ [tell (m_spec m) known ep]))
  | EvConfigure known ep (Err e), PConfigure => Ret (finish e m)
  | EvRun e, PUp => Ret (finish e m)
  | EvRecord now, PEnded err =>
      Ret (if m_cancelled m then at_pc m PGone else at_pc (with_link m (record err now l)) PWait)
  | EvWake, PWait =>
      Ret (if l_wake l then mkMachine (set_wake false l) PHead (m_spec m) retryMin (m_cancelled m) (m_told m) else m)
  | EvTimer, PWait => Ret (mkMachine l PHead (m_spec m) (double retryMax (m_delay m)) (m_cancelled m) (m_told m))
  | EvSignal msg, _ => l' ← dispatchLink msg l; Ret (with_link m l')
  | EvSession st, _ =>
      Ret (match l_session l with
           | Some s =>
               let '(s', o) := Session.Session.setState st s in
               with_link m (adopt o (set_session (Some s') l))
           | None => m
           end)
  | EvWakeStuck, _ => Ret (with_link m (wakeStuck l))
  | EvEscape, _ => Ret (with_link m (escape l))
  | EvSpec spec, _ => Ret (with_link m (set_spec spec l))
  | EvCancel, _ => Ret (mkMachine l (m_pc m) (m_spec m) (m_delay m) true (m_told m))
  | EvGone, (PHead | PWait | PEnded _) => Ret (if m_cancelled m then at_pc m PGone else m)
  | _, _ => Ret m
  end.

Fixpoint steps (m : machine) (es : list event) : go machine :=
  match es with [] => Ret m | e :: es => m' ← step m e; steps m' es end.

(** ** The invariant *)

(** An attempt is running, and the link holds its session. *)
Definition attempting (p : pc) : bool :=
  match p with PFeed _ | PStart | PProxy | PStagger | PConfigure | PUp => true | _ => false end.

(** At most the head of what is held opens an attempt. *)
Definition fresh (early : list Message) : Prop :=
  (length early <= earlyMessages)%nat /\ Forall (fun m => opening m = false) (tail early).

(** A session as an attempt holds it: open, with the engine's handler. *)
Definition live (s : Session) : Prop :=
  Session.Session.s_closed s = false /\ Session.Session.s_onState s = true /\
  Session.Session.s_state s <> StateClosed.

Record Inv (m : machine) : Prop := {
  inv_early : fresh (l_early (m_link m));
  inv_session : match l_session (m_link m) with
                | Some s => attempting (m_pc m) = true /\ live s
                | None => attempting (m_pc m) = false
                end;
  inv_state : l_state (m_link m) = StateConnected ->
    m_pc m = PUp /\ exists known ep, last (m_told m) = Some (tell (m_spec m) known ep);
  inv_err : match m_pc m with PEnded err => err <> "" | _ => True end;
  inv_delay : retryMin <= m_delay m <= retryMax }.

(** What a session reports, and errors with a text. *)
Definition sound (e : event) : Prop :=
  match e with
  | EvSession st => st <> StateClosed
  | EvStart (Err s) | EvProxy (Err s) | EvConfigure _ _ (Err s) | EvRun s => s <> ""
  | _ => True
  end.

(** ** Lemmas *)

Lemma hold_fresh m l : fresh (l_early l) -> fresh (l_early (hold m l)).
Proof.
  intros [Hlen Htail]. unfold hold, fresh. cbn [l_early set_wake set_early].
  destruct (opening m) eqn:Eo; [split; [vm_compute; lia|constructor]|].
  destruct (Nat.ltb_spec (length (l_early l)) earlyMessages); [|done].
  rewrite length_app. split; [simpl; lia|]. destruct (l_early l) as [|x t]; [constructor|].
  simpl in *. apply Forall_app; split; [done|by repeat constructor].
Qed.

Lemma SetRemoteCredentials_live u p s s' b :
  Session.Session.SetRemoteCredentials u p s = Ret (s', b) -> live s -> live s'.
Proof.
  unfold Session.Session.SetRemoteCredentials. case_bool_decide; [|by intros [= <- _]].
  destruct (Session.Session.s_credsReady s); [done|]. by intros [= <- _].
Qed.

Lemma AddRemoteCandidate_live raw s : live s -> live (Session.Session.AddRemoteCandidate decodes raw s).1.
Proof. unfold Session.Session.AddRemoteCandidate. by destruct (Session.Session.s_agent s). Qed.

Lemma feed_live m s s' : feed m s = Ret s' -> live s -> live s'.
Proof.
  unfold feed. destruct (opening m).
  - destruct (Session.Session.SetRemoteCredentials _ _ _) as [[s1 b]|] eqn:E; [|done]. intros [= <-].
    by eapply SetRemoteCredentials_live.
  - destruct (String.eqb _ _); intros [= <-]; [apply AddRemoteCandidate_live|done].
Qed.

Lemma dispatchLink_frame m l l' :
  dispatchLink m l = Ret l' ->
  l_state l' = l_state l /\ l_spec l' = l_spec l /\ l_lastErr l' = l_lastErr l /\
  (fresh (l_early l) -> fresh (l_early l')) /\
  match l_session l with
  | Some s => exists s', l_session l' = Some s' /\ (live s -> live s')
  | None => l_session l' = None
  end.
Proof.
  unfold dispatchLink. destruct (l_session l) as [s|] eqn:Es.
  2: { intros [= <-]. split; [done|]. split; [done|]. split; [done|]. split; [apply hold_fresh|done]. }
  destruct (opening m).
  { destruct (Session.Session.SetRemoteCredentials _ _ _) as [[s1 b]|] eqn:E; [|done]. cbn.
    intros Hl. pose proof (SetRemoteCredentials_live _ _ _ _ _ E) as Hlive.
    destruct b; [|destruct (Session.Session.s_controlling s)]; injection Hl as <-; cbn; splits; eauto. }
  repeat (case_match; [injection 1 as <-; cbn; splits; eauto using AddRemoteCandidate_live|]).
  injection 1 as <-. rewrite Es. splits; eauto.
Qed.

(** A live session that is closed reports it, and the link adopts that. *)
Lemma Close_adopted s l :
  live s -> l_state (adopt (Session.Session.Close s).2 l) = StateClosed.
Proof.
  intros (Hc & Hon & Hst). unfold Session.Session.Close. rewrite Hc.
  unfold Session.Session.setState. cbn [Session.Session.set_closed Session.Session.s_state Session.Session.s_onState].
  rewrite Hon, bool_decide_false by done. cbn [orb].
  by destruct (Session.Session.s_conn s), (Session.Session.s_agent s).
Qed.

Lemma adopt_frame o l :
  l_early (adopt o l) = l_early l /\ l_session (adopt o l) = l_session l /\ l_wake (adopt o l) = l_wake l /\
  l_lastErr (adopt o l) = l_lastErr l /\ l_abandonWhy (adopt o l) = l_abandonWhy l /\
  l_spec (adopt o l) = l_spec l /\ (l_state (adopt o l) = StateConnected -> l_state l = StateConnected).
Proof.
  revert l. unfold adopt. induction o as [|x o IH]; intros l; cbn [fold_left]; [done|].
  destruct x as [st| | | | |]; try apply IH. case_bool_decide; [apply IH|].
  destruct (IH (set_lstate st l)) as (-> & -> & -> & -> & -> & -> & Hst). cbn. splits. intros Hc. by apply Hst in Hc.
Qed.

Lemma setState_live st s : st <> StateClosed -> live s -> live (Session.Session.setState st s).1.
Proof.
  intros Hne (Hc & Hon & Hst). unfold Session.Session.setState. by destruct (_ || _).
Qed.

(** ** Preservation *)

Lemma finish_inv e m : Inv m -> attempting (m_pc m) = true -> e <> "" -> Inv (finish e m).
Proof.
  intros [Hearly Hsess Hst Her Hd] Hat He. unfold finish.
  destruct (l_session (m_link m)) as [s|]; [|congruence]. destruct Hsess as [_ Hl].
  constructor; cbn; [split; [simpl; lia|constructor]|done| |done|done].
  by rewrite Close_adopted.
Qed.

(** A step within an attempt, or outside one, that keeps the link. *)
Lemma at_pc_inv m p :
  Inv m -> attempting p = attempting (m_pc m) -> m_pc m <> PUp ->
  (forall err, p <> PEnded err) -> Inv (at_pc m p).
Proof.
  intros [Hearly Hsess Hst Her Hd] Hat Hnu Hne. constructor; cbn; [done| | |destruct p; [done..|by destruct (Hne err)|done|done]|done].
  - by rewrite Hat.
  - intros Hc. by destruct (Hst Hc).
Qed.

Lemma with_link_inv m l' :
  Inv m -> fresh (l_early l') ->
  match l_session (m_link m) with
  | Some s => exists s', l_session l' = Some s' /\ live s'
  | None => l_session l' = None
  end ->
  (l_state l' = StateConnected -> l_state (m_link m) = StateConnected) ->
  Inv (with_link m l').
Proof.
  intros [Hearly Hsess Hst Her Hd] Hf Hs Hc. constructor; cbn; auto.
  destruct (l_session (m_link m)).
  - destruct Hsess as [Hat _], Hs as (s' & -> & ?). done.
  - by rewrite Hs.
Qed.

Lemma beginAttempt_inv m cfg local : Inv m -> m_pc m = PHead -> Inv (beginAttempt cfg local m).
Proof.
  intros [Hearly Hsess Hst Her Hd] Ep. constructor; cbn; [split; [simpl; lia|constructor]|done|done|done|done].
Qed.

Lemma step_attempt_inv m e m' :
  Inv m -> sound e -> step m e = Ret m' ->
  (exists cfg local, e = EvBegin cfg local) \/ e = EvFeed \/ (exists r, e = EvStart r) \/ (exists r, e = EvProxy r) \/
  (exists b, e = EvStagger b) \/ (exists k ep r, e = EvConfigure k ep r) \/ (exists s, e = EvRun s) -> Inv m'.
Proof.
  intros HI Hs E He. pose proof HI as [Hearly Hsess Hst Her Hd].
  destruct He as [(cfg & local & ->)|[->|[[r ->]|[[r ->]|[[b ->]|[(k & ep & r & ->)|[s ->]]]]]]];
    unfold step in E; destruct (m_pc m) as [|early| | | | | | | |] eqn:Ep;
    try (injection E as <-; exact HI);
    try (destruct r as [[]|?]; try (injection E as <-; exact HI)).
  - injection E as <-. destruct (m_cancelled m); [by apply at_pc_inv; rewrite ?Ep|by apply beginAttempt_inv].
  - destruct early as [|x early]; [injection E as <-; by apply at_pc_inv; rewrite ?Ep|].
    destruct (l_session (m_link m)) as [s|] eqn:Es; [|by injection E as <-].
    destruct (feed x s) as [s'|] eqn:Ef; [|done]. injection E as <-. destruct Hsess as [_ Hl].
    apply (at_pc_inv (with_link m _)); [|cbn; by rewrite Ep|cbn; by rewrite Ep|done].
    apply with_link_inv; cbn; auto. rewrite Es. exists s'. split; [done|]. by eapply feed_live.
  - injection E as <-. by apply at_pc_inv; rewrite ?Ep.
  - injection E as <-. by apply finish_inv; rewrite ?Ep.
  - injection E as <-. apply at_pc_inv; rewrite ?Ep; [done| |done|by destruct (l_session (m_link m)) as [s|]; [destruct (Session.Session.s_controlling s)|]].
    destruct (l_session (m_link m)) as [s|]; [by destruct (Session.Session.s_controlling s)|done].
  - injection E as <-. by apply finish_inv; rewrite ?Ep.
  - injection E as <-. destruct b; [by apply finish_inv; rewrite ?Ep|by apply at_pc_inv; rewrite ?Ep].
  - injection E as <-. constructor; cbn; [done| | |done|done].
    + destruct (l_session (m_link m)); [|done]. by destruct Hsess.
    + intros _. split; [done|]. exists k, ep. by rewrite last_snoc.
  - injection E as <-. by apply finish_inv; rewrite ?Ep.
  - injection E as <-. by apply finish_inv; rewrite ?Ep.
Qed.

Lemma retry_facts : 0 < retryMin <= retryMax /\ retryMax * 2 <= int64_max.
Proof. vm_compute. repeat split; discriminate. Qed.

Lemma at_rest_inv m l' p d :
  Inv m -> attempting (m_pc m) = false -> attempting p = false -> l_session l' = l_session (m_link m) ->
  l_early l' = l_early (m_link m) -> l_state l' = l_state (m_link m) -> retryMin <= d <= retryMax ->
  (forall err, p <> PEnded err) ->
  Inv (mkMachine l' p (m_spec m) d (m_cancelled m) (m_told m)).
Proof.
  intros [Hearly Hsess Hst Her Hd] Hat Hp Es Ee El Hdel Hne. constructor; cbn; rewrite ?Es, ?Ee, ?El; [done| | |destruct p; [done..|by destruct (Hne err)|done|done]|done].
  - destruct (l_session (m_link m)); [|done]. destruct Hsess. congruence.
  - intros Hc. destruct (Hst Hc) as [Hpc _]. by rewrite Hpc in Hat.
Qed.

Lemma link_step_inv m e m' : Inv m -> sound e -> step m e = Ret m' -> Inv m'.
Proof.
  intros HI Hs E. pose proof HI as [Hearly Hsess Hst Her Hd].
  destruct e as [cfg local| |r|r|b|k ep r|s|now| | |msg|st| | |spec| |];
    try (eapply step_attempt_inv; [exact HI|exact Hs|exact E|solve [repeat first [solve [eauto]|left; solve [eauto]|right]]]); unfold step in E.
  - destruct (m_pc m) eqn:Ep; try (injection E as <-; exact HI). injection E as <-.
    destruct (m_cancelled m); [apply (at_rest_inv m (m_link m))|apply (at_rest_inv m (record err now (m_link m)))];
      cbn; rewrite ?Ep; auto; try done.
  - destruct (m_pc m) eqn:Ep; try (injection E as <-; exact HI). injection E as <-.
    destruct (l_wake (m_link m)); [|exact HI].
    apply at_rest_inv; cbn; rewrite ?Ep; auto; try done.
  - destruct (m_pc m) eqn:Ep; try (injection E as <-; exact HI). injection E as <-.
    apply at_rest_inv; rewrite ?Ep; auto; try done. destruct retry_facts. by apply double_range.
  - destruct (dispatchLink msg (m_link m)) as [l'|] eqn:El; [|by destruct (m_pc m)].
    assert (E' : m' = with_link m l') by (by destruct (m_pc m); injection E as <-). subst m'.
    destruct (dispatchLink_frame _ _ _ El) as (Hs1 & _ & _ & Hf & Hse).
    apply with_link_inv; [done|by apply Hf| |by rewrite Hs1].
    destruct (l_session (m_link m)); [|done]. destruct Hse as (s' & -> & Hl). exists s'. split; [done|]. apply Hl, Hsess.
  - assert (E' : m' = match l_session (m_link m) with
      | Some s => let '(s', o) := Session.Session.setState st s in with_link m (adopt o (set_session (Some s') (m_link m)))
      | None => m end) by (by destruct (m_pc m); injection E as <-). subst m'.
    destruct (l_session (m_link m)) as [s|] eqn:Es; [|done]. destruct Hsess as [Hat Hl].
    pose proof (setState_live st s Hs Hl) as Hl'. destruct (Session.Session.setState st s) as [s' o].
    destruct (adopt_frame o (set_session (Some s') (m_link m))) as (He & Hse & _ & _ & _ & _ & Hc).
    apply with_link_inv; [done|by rewrite He| |done]. rewrite Es, Hse. by exists s'.
  - assert (E' : m' = with_link m (wakeStuck (m_link m))) by (by destruct (m_pc m); injection E as <-). subst m'.
    unfold wakeStuck. case_bool_decide; apply with_link_inv; cbn; auto; (destruct (l_session (m_link m)); [destruct Hsess; eauto|done]).
  - assert (E' : m' = with_link m (escape (m_link m))) by (by destruct (m_pc m); injection E as <-). subst m'.
    apply with_link_inv; cbn; auto. destruct (l_session _); naive_solver.
  - assert (E' : m' = with_link m (set_spec spec (m_link m))) by (by destruct (m_pc m); injection E as <-). subst m'.
    apply with_link_inv; cbn; auto. destruct (l_session _); naive_solver.
  - assert (E' : m' = mkMachine (m_link m) (m_pc m) (m_spec m) (m_delay m) true (m_told m))
      by (by destruct (m_pc m); injection E as <-). subst m'. by constructor.
  - destruct (m_pc m) eqn:Ep; try (injection E as <-; exact HI); injection E as <-;
      (destruct (m_cancelled m); [apply (at_rest_inv m (m_link m)); cbn; rewrite ?Ep; auto; try done|exact HI]).
Qed.

Lemma steps_inv es m m' : Inv m -> Forall sound es -> steps m es = Ret m' -> Inv m'.
Proof.
  intros HI Hs. revert m HI. induction Hs as [|e es He _ IH]; intros m HI E; cbn [steps] in E; [by injection E as <-|].
  destruct (step m e) as [m1|] eqn:E1; [|done]. cbn in E. eapply IH; [|exact E]. by eapply link_step_inv.
Qed.

Lemma link_start_inv spec : Inv (start spec).
Proof.
  constructor; cbn; [split; [simpl; lia|constructor]|done|done|done|]. split; [reflexivity|by vm_compute].
Qed.

(** ** Properties *)

(** C15: a link says Connected only while it is: in the middle of an attempt whose
    path is being pumped and whose endpoint WireGuard has been told, never
    between a path being found and WireGuard hearing of it, nor after the path
    ended. *)
Theorem Connected_means_carrying spec es m :
  Forall sound es -> steps (start spec) es = Ret m -> l_state (m_link m) = StateConnected ->
  m_pc m = PUp /\ (exists s, l_session (m_link m) = Some s) /\
  exists known ep, last (m_told m) = Some (tell (m_spec m) known ep).
Proof.
  intros Hs E Hc. pose proof (steps_inv es _ m (link_start_inv spec) Hs E) as [_ Hsess Hst _ _].
  destruct (Hst Hc) as [Hp Ht]. split; [done|]. split; [|done].
  rewrite Hp in Hsess. destruct (l_session (m_link m)) as [s|]; [by exists s|done].
Qed.

(** what is held for a session that does not exist yet is at most thirty-two
    messages of a single negotiation: an offer or an answer can only be the
    first of them, and a message that is held always cuts the wait short. *)
Theorem early_signalling spec es m msg m' :
  Forall sound es -> steps (start spec) es = Ret m -> step m (EvSignal msg) = Ret m' ->
  fresh (l_early (m_link m')) /\
  (l_session (m_link m) = None -> l_wake (m_link m') = true /\
    (opening msg = true -> l_early (m_link m') = [msg])).
Proof.
  intros Hs E E'. pose proof (steps_inv es _ m (link_start_inv spec) Hs E) as HI.
  pose proof (link_step_inv m (EvSignal msg) m' HI I E') as HI'. split; [apply HI'|].
  intros Hnone. unfold step in E'.
  assert (Hd : dispatchLink msg (m_link m) = Ret (hold msg (m_link m))) by (unfold dispatchLink; by rewrite Hnone).
  rewrite Hd in E'. assert (m' = with_link m (hold msg (m_link m))) as -> by (by destruct (m_pc m); injection E' as <-).
  split; [done|]. intros Ho. cbn. unfold hold. by rewrite Ho.
Qed.

(** the wait before the next attempt is always at least a second and less than
    twenty-three, whatever happened before. *)
Theorem retry_paced spec es m r :
  Forall sound es -> steps (start spec) es = Ret m -> drawn (m_delay m) r ->
  exists wait, jitter (m_delay m) r = Ret wait /\ Second <= wait < 23 * Second.
Proof.
  intros Hs E Hr. pose proof (steps_inv es _ m (link_start_inv spec) Hs E) as [_ _ _ _ Hd].
  unfold retryMin, retryMax in Hd.
  destruct (jitter_bounds (m_delay m) r) as (j & Ej & Hj); [unfold Second, Millisecond in *; lia|unfold Second, Millisecond, int64_max in *; lia|done|].
  exists j. split; [done|]. rewrite Z.quot_div_nonneg in Hj by (unfold Second, Millisecond in *; lia).
  pose proof (Z.div_le_lower_bound (m_delay m) 2 Second ltac:(lia) ltac:(lia)).
  pose proof (Z.div_le_upper_bound (m_delay m) 2 (7500 * Millisecond) ltac:(lia) ltac:(unfold Second, Millisecond in *; lia)).
  unfold Second, Millisecond in *. lia.
Qed.

(** C18: when a peer restarts its negotiation under a session that has already
    adopted credentials, exactly one of the two ends follows it: the one that
    answers abandons its attempt and tries again at once, the one that offers
    holds still. *)
Theorem restart_followed_by_one (a b : Key) msg msg' la lb sa sb :
  length a = keyLen -> length b = keyLen -> a <> b ->
  l_session la = Some sa -> l_session lb = Some sb ->
  Session.Session.s_controlling sa = controls a b -> Session.Session.s_controlling sb = controls b a ->
  (forall s, s ∈ [sa; sb] -> Session.Session.s_ufrag s <> "") ->
  opening msg = true -> UFrag (m_body msg) <> Session.Session.s_ufrag sa ->
  opening msg' = true -> UFrag (m_body msg') <> Session.Session.s_ufrag sb ->
  exists la' lb', dispatchLink msg la = Ret la' /\ dispatchLink msg' lb = Ret lb' /\
    l_abandoned (if controls a b then lb' else la') = true /\
    l_wake (if controls a b then lb' else la') = true /\
    (if controls a b then la' = la else lb' = lb).
Proof.
  intros Ha Hb Hne Hsa Hsb Hca Hcb Hu Ho Hua Ho' Hub.
  pose proof (controls_exclusive a b Ha Hb Hne) as Hex.
  assert (Hd : forall l s m, l_session l = Some s -> Session.Session.s_ufrag s <> "" -> opening m = true ->
    UFrag (m_body m) <> Session.Session.s_ufrag s ->
    dispatchLink m l = Ret (if Session.Session.s_controlling s then l else set_wake true (abandon whyRestarted l))).
  { intros l s m Hs Hus Hom Hum. unfold dispatchLink. rewrite Hs, Hom.
    unfold Session.Session.SetRemoteCredentials. rewrite bool_decide_false by done.
    rewrite (bool_decide_false (_ = UFrag _)) by congruence. cbn.
    assert (El : set_session (Some s) l = l) by (destruct l; cbn in *; by rewrite Hs).
    rewrite El. by destruct (Session.Session.s_controlling s). }
  do 2 eexists. split; [apply (Hd la sa); auto; apply Hu; set_solver|].
  split; [apply (Hd lb sb); auto; apply Hu; set_solver|].
  rewrite Hca, Hcb, Hex. by destruct (controls b a).
Qed.

Lemma step_lastErr m e m' :
  step m e = Ret m' ->
  l_lastErr (m_link m') = l_lastErr (m_link m) \/
  (exists err, m_pc m = PEnded err /\
    l_lastErr (m_link m') = if String.eqb (l_abandonWhy (m_link m)) "" then err else l_abandonWhy (m_link m)).
Proof.
  assert (Hfin : forall s, l_lastErr (m_link (finish s m)) = l_lastErr (m_link m)).
  { intros s. unfold finish. cbn. destruct (l_session (m_link m)) as [se|]; [|done].
    by destruct (adopt_frame (Session.Session.Close se).2 (m_link m)) as (_ & _ & _ & -> & _). }
  intros E. unfold step in E. destruct e as [cfg local| |r|r|b|k ep r|s|now| | |msg|st| | |spec| |].
  11: { destruct (dispatchLink msg (m_link m)) as [l'|] eqn:El; [|by destruct (m_pc m)].
        destruct (dispatchLink_frame _ _ _ El) as (_ & _ & Hl & _). left. by destruct (m_pc m); injection E as <-. }
  11: { left. assert (E' : m' = match l_session (m_link m) with
          | Some s => let '(s', o) := Session.Session.setState st s in with_link m (adopt o (set_session (Some s') (m_link m)))
          | None => m end) by (by destruct (m_pc m); injection E as <-). subst m'.
        destruct (l_session (m_link m)) as [s|]; [|done]. destruct (Session.Session.setState st s) as [s' o]. cbn [with_link m_link].
        by destruct (adopt_frame o (set_session (Some s') (m_link m))) as (_ & _ & _ & -> & _). }
  11: { left. unfold wakeStuck in E. destruct (m_pc m), (bool_decide _); by injection E as <-. }
  all: destruct (m_pc m) as [|[|x early]| | | | | |err| |] eqn:Ep; try (destruct r as [[]|?]);
    try (injection E as <-; left; (reflexivity || apply Hfin)).
  all: try (injection E as <-; left; repeat case_match; (reflexivity || apply Hfin)).
  - left. destruct (l_session (m_link m)) as [s|]; [|by injection E as <-].
    destruct (feed x s); [|done]. by injection E as <-.
  - injection E as <-. destruct (m_cancelled m); [by left|]. right. exists err. done.
Qed.

(** once an attempt has failed the link carries a reason for ever: nothing
    empties what [PeerTrouble] reports, the next connection included. *)
Theorem trouble_never_cleared spec es1 es2 m1 m2 :
  Forall sound es1 -> Forall sound es2 ->
  steps (start spec) es1 = Ret m1 -> l_lastErr (m_link m1) <> "" ->
  steps m1 es2 = Ret m2 -> l_lastErr (m_link m2) <> "".
Proof.
  intros Hs1 Hs2 E1. pose proof (steps_inv es1 _ m1 (link_start_inv spec) Hs1 E1) as HI. clear E1 Hs1.
  revert m1 HI. induction Hs2 as [|e es He _ IH]; intros m HI Hne E; cbn [steps] in E; [by injection E as <-|].
  destruct (step m e) as [m'|] eqn:E1; [|done]. cbn in E.
  apply (IH m'); [by eapply link_step_inv| |exact E].
  destruct (step_lastErr m e m' E1) as [->|(err & Ep & ->)]; [done|].
  pose proof (inv_err m HI) as Herr. rewrite Ep in Herr. by destruct (String.eqb_spec (l_abandonWhy (m_link m)) "").
Qed.

End Link.

(** ** Runs, and what they witness *)

Definition exSpec : Peer := mkPeer (exKey 1) zeroKey [mkPrefix (V4 7) 32].
Definition exMoved : Peer := mkPeer (exKey 1) zeroKey [mkPrefix (V4 8) 32].
Definition exEp : AddrPort := mkAddrPort (V4 (127 * 2 ^ 24 + 1)) 4242.

(** An attempt that connects, from its first section to [<-runErr]; [mid] falls
    before WireGuard is told. *)
Definition exAttempt (mid : list event) : list event :=
  [EvBegin exConfig (exKey 2); EvFeed; EvSession StateNegotiating; EvStart (Ok tt);
   EvSession StateConnected; EvProxy (Ok tt)] ++ mid ++ [EvConfigure false exEp (Ok tt)].
Definition exFail : list event :=
  [EvBegin exConfig (exKey 2); EvFeed; EvSession StateNegotiating; EvSession StateFailed;
   EvStart (Err "p2p: no path to the peer"); EvRecord 5; EvTimer].

Definition runOf (spec : Peer) (es : list event) : machine :=
  match steps (fun _ => true) (start spec) es with Ret m => m | Panic => start spec end.

Lemma exFail_sound : Forall sound exFail.
Proof. repeat constructor; discriminate. Qed.
Lemma exAttempt_sound : Forall sound (exAttempt []).
Proof. repeat constructor; discriminate. Qed.

(** The peer's networks change while an attempt is under way: WireGuard is told
    those of the copy the attempt took, and the link's own spec says otherwise. *)
Theorem stale_spec_configured :
  let m := runOf exSpec (exAttempt [EvSpec exMoved]) in
  l_state (m_link m) = StateConnected /\ l_spec (m_link m) = exMoved /\
  m_told m = [Added (UAPI.UAPI.mkPeer (exKey 1) zeroKey exEp (AllowedIPs exSpec) keepaliveSeconds)].
Proof. vm_compute. done. Qed.

(** A connection does not put the delay back: after it ends, the wait is the one
    the failures before it had built up. *)
Theorem backoff_survives_connection :
  let m := runOf exSpec (exFail ++ exFail ++ exFail ++ exAttempt []) in
  l_state (m_link m) = StateConnected /\ m_delay m = 15 * Second /\
  l_lastErr (m_link m) = "p2p: no path to the peer" /\
  let m' := runOf exSpec (exFail ++ exFail ++ exFail ++ exAttempt [] ++ [EvRun "tunnel: path->wg read"; EvRecord 9]) in
  m_pc m' = PWait /\ m_delay m' = 15 * Second.
Proof. vm_compute. done. Qed.

Lemma Connected_means_carrying_witness :
  m_pc (runOf exSpec (exFail ++ exAttempt [])) = PUp /\
  (exists s, l_session (m_link (runOf exSpec (exFail ++ exAttempt []))) = Some s) /\
  exists known ep, last (m_told (runOf exSpec (exFail ++ exAttempt []))) =
    Some (tell (m_spec (runOf exSpec (exFail ++ exAttempt []))) known ep).
Proof.
  apply (Connected_means_carrying (fun _ => true) exSpec (exFail ++ exAttempt [])).
  - apply Forall_app. split; [apply exFail_sound|apply exAttempt_sound].
  - vm_compute. reflexivity.
  - vm_compute. reflexivity.
Defined.

Definition exOffer : Message := SignalClient.SignalClient.mkMessage (exKey 1) KindOffer (mkBody "u" "p" "").

Lemma early_signalling_witness :
  let m := runOf exSpec [EvSignal exOffer] in
  let m' := runOf exSpec [EvSignal exOffer; EvSignal exOffer] in
  fresh (l_early (m_link m')) /\
  (l_session (m_link m) = None -> l_wake (m_link m') = true /\
    (opening exOffer = true -> l_early (m_link m') = [exOffer])).
Proof.
  apply (early_signalling (fun _ => true) exSpec [EvSignal exOffer]
    (runOf exSpec [EvSignal exOffer]) exOffer).
  - repeat constructor.
  - vm_compute. reflexivity.
  - vm_compute. reflexivity.
Defined.

Lemma retry_paced_witness :
  exists wait, jitter (m_delay (runOf exSpec (exFail ++ exFail))) 7 = Ret wait /\ Second <= wait < 23 * Second.
Proof.
  apply (retry_paced (fun _ => true) exSpec (exFail ++ exFail)).
  - apply Forall_app. split; apply exFail_sound.
  - vm_compute. reflexivity.
  - vm_compute. split; [discriminate|reflexivity].
Defined.

Lemma trouble_never_cleared_witness :
  l_lastErr (m_link (runOf exSpec (exFail ++ exAttempt []))) <> "".
Proof.
  apply (trouble_never_cleared (fun _ => true) exSpec exFail (exAttempt []) (runOf exSpec exFail)).
  - exact exFail_sound.
  - exact exAttempt_sound.
  - vm_compute. reflexivity.
  - vm_compute. discriminate.
  - vm_compute. reflexivity.
Defined.

Definition exSess (local remote : Key) : Session :=
  Session.Session.set_creds "old" "pw" (Session.Session.NewSession local remote exConfig true).
Definition exLinkOf (local remote : Key) : peerLink :=
  set_session (Some (exSess local remote)) (newLink (mkPeer remote zeroKey [])).

Lemma restart_followed_by_one_witness :
  exists la' lb',
    dispatchLink (fun _ => true) exOffer (exLinkOf (exKey 2) (exKey 1)) = Ret la' /\
    dispatchLink (fun _ => true) exOffer (exLinkOf (exKey 1) (exKey 2)) = Ret lb' /\
    l_abandoned (if controls (exKey 2) (exKey 1) then lb' else la') = true /\
    l_wake (if controls (exKey 2) (exKey 1) then lb' else la') = true /\
    (if controls (exKey 2) (exKey 1) then la' = exLinkOf (exKey 2) (exKey 1)
     else lb' = exLinkOf (exKey 1) (exKey 2)).
Proof.
  apply (restart_followed_by_one (fun _ => true) (exKey 2) (exKey 1) exOffer exOffer
    (exLinkOf (exKey 2) (exKey 1)) (exLinkOf (exKey 1) (exKey 2))
    (exSess (exKey 2) (exKey 1)) (exSess (exKey 1) (exKey 2))); try reflexivity; try discriminate.
  intros s [->|[->|[]%not_elem_of_nil]%elem_of_cons]%elem_of_cons; discriminate.
Defined.

End Link.
