(* ===== verification/LinkEnd.v ===== *)
(** * How the goroutine of a peer ends (internal/engine/engine.go).

    [retire] and [closeAllPeers] cancel a peer's context and then wait on
    [link.done].  Here that wait is shown to end, whatever the goroutine was
    doing, and what comes after it to be undisturbed: a goroutine that is gone
    tells WireGuard nothing, so the [RemovePeer] that follows is the last word.  That
    [Start] and the proxy's [Run], here one event each, do return is what [SessionEnd]
    and [ProxyRun] show. *)
From S2P Require Import Prelude GoStrings NetIP NetText Keys Backoff P2P Session SignalProto SignalClient UAPI Link.

Module LinkEnd.
Import Link.Link.
Import SignalProto.SignalProto P2P.P2P.
Notation Session := Session.Session.Session.

Section LinkEnd.
Context `{WGKeys} (decodes : string -> bool).
Notation step := (step decodes).
Notation steps := (steps decodes).

(** The goroutine's own next moves: everything else that happens to a link comes
    from another goroutine. *)
Definition own (m : machine) (e : event) : bool :=
  match e, m_pc m with
  | EvBegin _ _, PHead | EvFeed, PFeed _ | EvStart _, PStart | EvProxy _, PProxy | EvStagger _, PStagger
  | EvConfigure _ _ _, PConfigure | EvRun _, PUp | EvRecord _, PEnded _ | EvTimer, PWait => true
  | EvWake, PWait => l_wake (m_link m)
  | EvGone, (PHead | PWait | PEnded _) => true
  | _, _ => false
  end.

(** How many of them are left once the context is cancelled. *)
Definition rank (p : pc) : nat :=
  match p with
  | PGone => 0 | PHead => 1 | PEnded _ => 1 | PWait => 2 | PUp => 2 | PConfigure => 3 | PStagger => 4
  | PProxy => 5 | PStart => 6 | PFeed early => 7 + length early
  end.

(** Whether WireGuard may still be told of the attempt under way. *)
Definition due (p : pc) : nat :=
  match p with PFeed _ | PStart | PProxy | PStagger | PConfigure => 1 | _ => 0 end.

(** How many of its own moves the goroutine makes in a run. *)
Fixpoint taken (m : machine) (es : list event) : nat :=
  match es with
  | [] => 0
  | e :: es => match step m e with Ret m' => (if own m e then 1 else 0) + taken m' es | Panic => 0 end
  end.

(** ** Words that do not crash a session *)

(** A session is ready once it has the peer's name, and no sooner. *)
Definition primed (s : Session) : Prop :=
  Session.Session.s_ufrag s = "" -> Session.Session.s_credsReady s = false.

Definition worded (m : Message) : Prop := opening m = true -> UFrag (m_body m) <> "".

Record Worded (m : machine) : Prop := {
  wd_session : match l_session (m_link m) with Some s => primed s | None => True end;
  wd_early : Forall worded (l_early (m_link m));
  wd_feed : match m_pc m with PFeed early => Forall worded early /\ (length early <= earlyMessages)%nat | _ => True end }.

Definition kept (e : event) : Prop :=
  sound e /\ match e with EvSignal msg => worded msg | _ => True end.

Lemma SetRemoteCredentials_primed u p s :
  primed s -> exists s' b, Session.Session.SetRemoteCredentials u p s = Ret (s', b) /\ (u <> "" -> primed s').
Proof.
  intros Hp. unfold Session.Session.SetRemoteCredentials. case_bool_decide as E; [|by eauto].
  rewrite (Hp E). do 2 eexists. split; [done|]. intros Hu. unfold primed. cbn. by intros ?.
Qed.

Lemma AddRemoteCandidate_primed raw s :
  primed s -> primed (Session.Session.AddRemoteCandidate decodes raw s).1.
Proof. unfold Session.Session.AddRemoteCandidate. by destruct (Session.Session.s_agent s). Qed.

Lemma setState_primed st s : primed s -> primed (Session.Session.setState st s).1.
Proof. unfold Session.Session.setState. by destruct (_ || _). Qed.

Lemma feed_primed x s : primed s -> worded x -> exists s', feed decodes x s = Ret s' /\ primed s'.
Proof.
  intros Hp Hx. unfold feed. destruct (opening x) eqn:Eo.
  - destruct (SetRemoteCredentials_primed (UFrag (m_body x)) (Pwd (m_body x)) s Hp) as (s' & b & -> & Hs').
    exists s'. split; [done|]. by apply Hs', Hx.
  - case_match; eexists; (split; [done|]); auto using AddRemoteCandidate_primed.
Qed.

Lemma hold_worded x l : worded x -> Forall worded (l_early l) -> Forall worded (l_early (hold x l)).
Proof.
  intros Hx Hl. unfold hold. cbn [l_early set_wake set_early]. assert (Hn : Forall worded (if opening x then [] else l_early l)) by (by destruct (opening x)).
  destruct (Nat.ltb _ _); [|done]. apply Forall_app. by repeat constructor.
Qed.

Lemma dispatchLink_worded x l :
  worded x -> match l_session l with Some s => primed s | None => True end -> Forall worded (l_early l) ->
  exists l', dispatchLink decodes x l = Ret l' /\
    match l_session l' with Some s => primed s | None => True end /\ Forall worded (l_early l').
Proof.
  intros Hx Hs Hl. unfold dispatchLink. destruct (l_session l) as [s|] eqn:Es.
  - destruct (opening x) eqn:Eo.
    + destruct (SetRemoteCredentials_primed (UFrag (m_body x)) (Pwd (m_body x)) s Hs) as (s' & b & -> & Hs').
      specialize (Hs' (Hx Eo)). cbn. repeat case_match; eexists; (split; [done|]); cbn; done.
    + repeat case_match; eexists; (split; [done|]); cbn; rewrite ?Es; split; auto using AddRemoteCandidate_primed.
  - eexists. split; [done|]. unfold hold at 1. cbn. rewrite Es. split; [done|]. by apply hold_worded.
Qed.

(** ** Every step of a link that only hears sound words *)

(** What is not the goroutine's own move leaves it where it is, and says nothing
    to WireGuard. *)
Lemma other_stays m e m' :
  own m e = false -> step m e = Ret m' ->
  m_pc m' = m_pc m /\ m_told m' = m_told m /\ (m_cancelled m = true -> m_cancelled m' = true).
Proof.
  intros Ho E. destruct e; cbn in Ho, E; destruct (m_pc m) as [|[|x early]| | | | | | | |] eqn:Ep; try done;
    repeat (case_match; cbn in E; try done); simplify_eq; cbn; rewrite ?Ep; try done.
  all: destruct (dispatchLink _ _ _); [|done]; cbn in E; injection E as <-; done.
Qed.

(** The goroutine's own move, under a cancelled context, brings its end nearer,
    and never tells WireGuard of more than the attempt it is in. *)
Lemma own_descends m e m' :
  Inv m -> m_cancelled m = true -> own m e = true -> step m e = Ret m' ->
  (S (rank (m_pc m')) <= rank (m_pc m))%nat /\ m_cancelled m' = true /\
  (length (m_told m') + due (m_pc m') <= length (m_told m) + due (m_pc m))%nat.
Proof.
  intros HI Hc Ho E.
  destruct e; cbn in Ho, E; destruct (m_pc m) as [|[|x early]| | | | | | | |] eqn:Ep; try done;
    try rewrite Hc in E; try rewrite Ho in E;
    try (pose proof (inv_session _ HI) as Hs; rewrite Ep in Hs; destruct (l_session (m_link m)); [|done]);
    repeat (case_match; cbn in E; try done); simplify_eq;
    try (destruct (feed _ _ _); [|done]; cbn in E; injection E as <-);
    unfold finish; cbn; rewrite ?length_app; cbn; splits; try done; lia.
Qed.

Lemma finish_Worded err m : Worded m -> Worded (finish err m).
Proof.
  intros [Hs He Hf]. split; unfold finish; cbn; [|done|done]. done.
Qed.

Lemma link_same_Worded m l p sp d c t :
  Worded m -> l_session l = l_session (m_link m) -> l_early l = l_early (m_link m) ->
  match p with PFeed _ => p = m_pc m | _ => True end -> Worded (mkMachine l p sp d c t).
Proof.
  intros [Hs He Hf] E1 E2 Ep. split; cbn; rewrite ?E1, ?E2; [done..|]. destruct p; try done. by rewrite <- Ep in Hf.
Qed.

Lemma adopt_Worded m o s :
  Worded m -> primed s -> Worded (with_link m (adopt o (set_session (Some s) (m_link m)))).
Proof.
  intros [Hs He Hf] Hp. destruct (adopt_frame o (set_session (Some s) (m_link m))) as (E1 & E2 & _).
  split; cbn; rewrite ?E1, ?E2; done.
Qed.

Lemma beginAttempt_Worded m cfg local : Inv m -> Worded m -> Worded (beginAttempt cfg local m).
Proof. intros HI [Hs He Hf]. split; cbn; [done|done|]. split; [done|]. apply (inv_early _ HI). Qed.

Lemma wakeStuck_Worded m : Worded m -> Worded (with_link m (wakeStuck (m_link m))).
Proof.
  intros HW. unfold wakeStuck, with_link. case_bool_decide; apply (link_same_Worded m); try done; by destruct (m_pc m).
Qed.

(** No step crashes, and the words stay as they are. *)
Lemma Worded_step m e :
  Inv m -> Worded m -> kept e -> exists m', step m e = Ret m' /\ Worded m'.
Proof.
  intros HI HW [Hsnd Hk]. pose proof HW as [Hs He Hf].
  destruct e as [cfg local| |r|r|b|k ep r|s|now| | |msg|st| | |spec| |].
  11: { destruct (dispatchLink_worded msg (m_link m) Hk Hs He) as (l' & El & Hs' & He').
        exists (with_link m l'). split; [cbn; rewrite El; by destruct (m_pc m)|]. by split. }
  11: { destruct (l_session (m_link m)) as [s|] eqn:Es.
        - destruct (Session.Session.setState st s) as [s' o] eqn:Eo.
          exists (with_link m (adopt o (set_session (Some s') (m_link m)))).
          split; [cbn; rewrite Es, Eo; by destruct (m_pc m)|]. apply (adopt_Worded m o s' HW).
          pose proof (setState_primed st s Hs) as Hp. by rewrite Eo in Hp.
        - exists m. split; [cbn; rewrite Es; by destruct (m_pc m)|done]. }
  2: { destruct (m_pc m) as [|[|x early]| | | | | | | |] eqn:Ep; cbn; rewrite Ep;
         try (eexists; split; [done|]; first [exact HW|by apply (link_same_Worded m)]).
       pose proof (inv_session _ HI) as Hse. destruct (l_session (m_link m)) as [s|] eqn:Es; [|eexists; split; [done|exact HW]].
       destruct Hf as [Hf Hlen]. apply Forall_cons in Hf as [Hx Hf]. destruct (feed_primed x s Hs Hx) as (s' & -> & Hs').
       cbn. eexists. split; [done|]. split; cbn; [done|done|]. split; [done|]. simpl in Hlen. lia. }
  all: cbn; destruct (m_pc m) as [|early| | | | | | | |] eqn:Ep; repeat case_match; eexists; (split; [done|]);
    first [exact HW|by apply finish_Worded
          |by apply (link_same_Worded m); rewrite ?Ep
          |apply (beginAttempt_Worded m _ _ HI HW)
          |apply (wakeStuck_Worded m HW)].
Qed.

Lemma steps_app es1 es2 m : steps m (es1 ++ es2) = (m' ← steps m es1; steps m' es2).
Proof. revert m. induction es1 as [|e es IH]; intros m; cbn; [done|]. destruct (step m e); cbn; [apply IH|done]. Qed.

Lemma Worded_steps es m :
  Inv m -> Worded m -> Forall kept es -> exists m', steps m es = Ret m' /\ Inv m' /\ Worded m'.
Proof.
  revert m. induction es as [|e es IH]; intros m HI HW He; [by exists m|].
  apply Forall_cons in He as [Hk He]. destruct (Worded_step m e HI HW Hk) as (m1 & E1 & HW1). cbn. rewrite E1. cbn.
  apply IH; [|done..]. by eapply link_step_inv; [exact HI|apply Hk|exact E1].
Qed.

Lemma start_Worded spec : Worded (start spec).
Proof. by repeat constructor. Qed.

(** A run under a cancelled context: each own move is paid for. *)
Lemma cancelled_run es m m' :
  Inv m -> m_cancelled m = true -> Forall sound es -> steps m es = Ret m' ->
  (taken m es + rank (m_pc m') <= rank (m_pc m))%nat /\
  (length (m_told m') + due (m_pc m') <= length (m_told m) + due (m_pc m))%nat.
Proof.
  revert m. induction es as [|e es IH]; intros m HI Hc Hs E; cbn in E |- *; [injection E as <-; lia|].
  apply Forall_cons in Hs as [He Hs]. destruct (step m e) as [m1|] eqn:E1; cbn in E; [|done].
  pose proof (link_step_inv decodes m e m1 HI He E1) as HI1. destruct (own m e) eqn:Eo.
  - destruct (own_descends m e m1 HI Hc Eo E1) as (Hr & Hc1 & Hd).
    destruct (IH m1 HI1 Hc1 Hs E) as [Hr' Hd']. lia.
  - destruct (other_stays m e m1 Eo E1) as (Ep & Et & Hc1).
    destruct (IH m1 HI1 (Hc1 Hc) Hs E) as [Hr' Hd']. rewrite Ep, Et in *. lia.
Qed.

(** Whatever a goroutine that has not ended waits for, there is a way for that to
    come; the next move is its own. *)
Lemma not_gone_moves m : m_pc m <> PGone -> exists e, own m e = true /\ kept e.
Proof.
  intros Hp. unfold own, kept. destruct (m_pc m) eqn:Ep; try done.
  - by exists EvGone.
  - by exists EvFeed.
  - by exists (EvStart (Ok tt)).
  - by exists (EvProxy (Ok tt)).
  - by exists (EvStagger true).
  - by exists (EvConfigure true (NetText.NetText.mkAddrPort (V4 0) 0) (Ok tt)).
  - by exists (EvRun "context canceled").
  - by exists EvGone.
  - by exists EvGone.
Qed.

Lemma rank_bound m : Worded m -> (rank (m_pc m) <= 39)%nat.
Proof.
  intros HW. pose proof (wd_feed _ HW) as Hf. destruct (m_pc m); simpl; try lia. destruct Hf as [_ Hf].
  unfold earlyMessages in Hf. lia.
Qed.

Lemma gone_stays es m m' : m_pc m = PGone -> steps m es = Ret m' -> m_pc m' = PGone /\ m_told m' = m_told m.
Proof.
  revert m. induction es as [|e es IH]; intros m Hp E; cbn in E; [by injection E as <-|].
  destruct (step m e) as [m1|] eqn:E1; cbn in E; [|done].
  assert (Ho : own m e = false) by (unfold own; rewrite Hp; by destruct e).
  destruct (other_stays m e m1 Ho E1) as (Ep & Et & _). rewrite Hp in Ep. rewrite <- Et. by apply IH.
Qed.

(** C16: the wait of [retire] ends, and what it does next is not undone.  Take any
    run of a peer's goroutine in which every offer and answer it hears has a
    fragment (a second one without is a panic of the process,
    [Session.empty_ufrag_panics], and is left out), cancel its context, and let
    anything happen after that, under the same condition.  Then nothing panics;
    the goroutine makes at most thirty-nine more moves of its own, and while it has
    not ended it has one to make, so [link.done] is closed after at most so many;
    it speaks to WireGuard at most once more; and when it is gone it holds no
    session, and nothing that happens later makes it speak to WireGuard again. *)
Theorem cancelled_link_ends spec es es' :
  Forall kept es -> Forall kept es' ->
  exists m m', steps (start spec) (es ++ [EvCancel]) = Ret m /\ steps m es' = Ret m' /\
    (taken m es' + rank (m_pc m') <= 39)%nat /\
    (m_pc m' <> PGone -> exists e m2, own m' e = true /\ step m' e = Ret m2) /\
    (length (m_told m') <= S (length (m_told m)))%nat /\
    (m_pc m' = PGone -> l_session (m_link m') = None /\
       forall es2 m2, steps m' es2 = Ret m2 -> m_pc m2 = PGone /\ m_told m2 = m_told m').
Proof.
  intros Hk Hk'. destruct (Worded_steps es (start spec) (link_start_inv spec) (start_Worded spec) Hk) as (m0 & E0 & HI0 & HW0).
  destruct (Worded_step m0 EvCancel HI0 HW0 ltac:(done)) as (m & E & HW).
  pose proof (link_step_inv decodes m0 EvCancel m HI0 I E) as HI.
  assert (Hc : m_cancelled m = true) by (cbn in E; destruct (m_pc m0); by injection E as <-).
  destruct (Worded_steps es' m HI HW Hk') as (m' & E' & HI' & HW').
  destruct (cancelled_run es' m m' HI Hc) as [Hr Hd]; [eapply Forall_impl; [exact Hk'|]; by intros ? []|done|].
  exists m, m'. split; [rewrite steps_app, E0; cbn [mbind go_bind steps]; by rewrite E|]. split; [done|].
  pose proof (rank_bound m HW) as Hb. split; [lia|]. split; [|split].
  - intros Hg. destruct (not_gone_moves m' Hg) as (e & Ho & He). destruct (Worded_step m' e HI' HW' He) as (m2 & E2 & _). eauto.
  - assert (due (m_pc m) <= 1)%nat by (destruct (m_pc m); simpl; lia). lia.
  - intros Hg. split; [|intros es2 m2 E2; by eapply gone_stays].
    pose proof (inv_session _ HI') as Hse. rewrite Hg in Hse. destruct (l_session (m_link m')); [by destruct Hse|done].
Qed.

(** The wait between two attempts; [r] is what [rand.Int64N] drew. *)
Definition wait (m : machine) (r : Z) : go Z := jitter (m_delay m) r.

(** However its attempts went, a peer waits at least a second and less than
    twenty-two and a half between two of them, and drawing the wait never
    panics. *)
Theorem waits_bounded spec es m r :
  Forall sound es -> steps (start spec) es = Ret m -> drawn (m_delay m) r ->
  exists j, wait m r = Ret j /\ Second <= j < 22 * Second + 500 * Millisecond.
Proof.
  intros Hs E Hr. pose proof (inv_delay _ (steps_inv decodes es _ m (link_start_inv spec) Hs E)) as Hd.
  unfold retryMin, retryMax, Second, Millisecond in *.
  destruct (jitter_bounds (m_delay m) r) as (j & Ej & Hj); [lia|unfold int64_max; lia|done|].
  exists j. split; [done|]. rewrite Z.quot_div_nonneg in Hj by lia.
  pose proof (Z.div_mod (m_delay m) 2). pose proof (Z.mod_pos_bound (m_delay m) 2). lia.
Qed.

(** [Engine.wakeStuck]: every link, each under its own lock. *)
Definition wakeAll (links : gmap string peerLink) : gmap string peerLink := wakeStuck <$> links.

Lemma wakeAll_wakes links k l :
  links !! k = Some l ->
  exists l', wakeAll links !! k = Some l' /\ l_state l' = l_state l /\ l_session l' = l_session l /\
    (l_state l <> StateConnected -> l_wake l' = true) /\ (l_state l = StateConnected -> l' = l).
Proof.
  intros Hl. unfold wakeAll. rewrite lookup_fmap, Hl. cbn. eexists. split; [done|]. unfold wakeStuck.
  case_bool_decide; cbn; naive_solver.
Qed.

End LinkEnd.

(** A link with a path, cancelled: the pump ends, and the goroutine is gone. *)
Lemma cancelled_link_ends_witness :
  exists m m', steps (fun _ => true) (start exSpec) (exAttempt [] ++ [EvCancel]) = Ret m /\
    steps (fun _ => true) m [EvRun "context canceled"; EvRecord 9] = Ret m' /\
    m_pc m' = PGone /\ l_session (m_link m') = None.
Proof.
  destruct (cancelled_link_ends (fun _ => true) exSpec (exAttempt []) [EvRun "context canceled"; EvRecord 9])
    as (m & m' & E & E' & _ & _ & _ & Hg).
  - repeat constructor; discriminate.
  - repeat constructor; discriminate.
  - exists m, m'. split; [exact E|]. split; [exact E'|].
    vm_compute in E. injection E as <-. vm_compute in E'. injection E' as <-.
    split; [reflexivity|]. by apply Hg.
Defined.

End LinkEnd.
