(* ===== verification/Engine.v ===== *)
(** * internal/engine/engine.go: the set of peers ([SetPeers], [readdress],
    [rebuildPeer], [retire], [closeAllPeers]), its routes, and what the engine
    answers about it.

    A link is named by a number, as the source names it by a pointer: the map
    says which link a key has now, [e_links] what every link ever made is.  The
    functions here are the pieces of each call and the call they make when it is
    left alone; [EngineRace] is the machine in which the pieces interleave. *)
From S2P Require Import Prelude GoStrings NetIP NetText Keys P2P UAPI Link.

Module Engine.
Import NetText.NetText P2P.P2P.
Import Link.Link (Peer, mkPeer, PublicKey, PresharedKey, AllowedIPs, keepaliveSeconds).

Definition goodbyeFlush : Z := 300 * Millisecond.
Definition rebuildWait : Z := 20 * Second.

(** ** Routes *)

Definition containsPrefix (l : list Prefix) (p : Prefix) : bool := existsb (fun q => bool_decide (q = p)) l.

Definition samePrefixes (a b : list Prefix) : bool :=
  if negb (length a =? length b)%nat then false else forallb (containsPrefix b) a.

Definition routesPerPeer (subnet : Prefix) : bool := negb (Prefix_IsValid subnet).

Definition routesTo (subnet : Prefix) (spec : Peer) : list Prefix :=
  List.filter (fun a => routesPerPeer subnet || negb (Overlaps subnet a)) (AllowedIPs spec).

Inductive act : Type :=
| AAddRoute (p : Prefix)
| ADelRoute (p : Prefix)
| ASetPeer (p : UAPI.UAPI.Peer)
| ARemovePeer (pub : Key)
| ASpawn (id : nat)                      (* go keepPeerConnected *)
| ARetire (id : nat) (key : string).     (* go retire *)

Definition rerouteAllowedIPs (subnet : Prefix) (prev next : Peer) : list act :=
  let was := routesTo subnet prev in
  let now := routesTo subnet next in
  map ADelRoute (List.filter (fun a => negb (containsPrefix now a)) was) ++
  map AAddRoute (List.filter (fun a => negb (containsPrefix was a)) now).

(** [readdress]; [ep] is the endpoint the device has for the peer, if any. *)
Definition readdress (subnet : Prefix) (ep : option AddrPort) (prev next : Peer) : list act :=
  (if routesPerPeer subnet then rerouteAllowedIPs subnet prev next else []) ++
  match ep with
  | None => []
  | Some ep => [ASetPeer (UAPI.UAPI.mkPeer (PublicKey next) (PresharedKey next) ep (AllowedIPs next) keepaliveSeconds)]
  end.

(** ** The engine *)

(** A link: [i_cancel] is whether [link.cancel] has been set, [i_cancelled] whether
    it has been called, [i_done] whether [link.done] is closed. *)
Record linkInfo : Type := mkInfo { i_key : string; i_spec : Peer; i_cancel : bool; i_cancelled : bool; i_done : bool }.

Record Engine : Type := mkEngine {
  e_subnet : Prefix; e_peers : gmap string nat; e_links : gmap nat linkInfo; e_next : nat;
  e_ctx : option bool;                    (* peerCtx: not set yet, or whether it has ended *)
  e_p2p : P2P.P2P.Config }.

Definition newEngine (subnet : Prefix) (p2p : P2P.P2P.Config) : Engine := mkEngine subnet ∅ ∅ 0 None p2p.

(** *** New *)

Record EngineConfig : Type := mkEngineConfig {
  c_key : Key; c_addresses : list Addr; c_mtu : Z; c_userspace : bool; c_tunName : string;
  c_subnet : Prefix; c_p2p : P2P.P2P.Config }.

(** What [New] asks of the device, in order. *)
Inductive newAct : Type :=
| NCreate (userspace : bool) (mtu : Z) | NConfigure (private : Key) (port : Z) | NUp | NClose | NRoute (p : Prefix).

(** [New]: a device that could be made but not brought up is closed again; a
    route for the mesh that cannot be added is said and lived without. *)
Definition New {Er : Type} (create configure up route : result Er unit) (cfg : EngineConfig) :
    result Er Engine * list newAct :=
  let mtu := if c_mtu cfg =? 0 then 1420 else c_mtu cfg in
  let acts := [NCreate (c_userspace cfg) mtu] in
  match create with
  | Err e => (Err e, acts)
  | Ok _ =>
      let acts := acts ++ [NConfigure (c_key cfg) 0] in
      match configure with
      | Err e => (Err e, acts ++ [NClose])
      | Ok _ =>
          let acts := acts ++ [NUp] in
          match up with
          | Err e => (Err e, acts ++ [NClose])
          | Ok _ =>
              (Ok (newEngine (c_subnet cfg) (set_private (c_key cfg) (c_p2p cfg))),
               acts ++ (if Prefix_IsValid (c_subnet cfg) then [NRoute (c_subnet cfg)] else []))
          end
      end
  end.

(** No device outlives a failure: what was created is closed. *)
Lemma New_closes {E : Type} (create configure up route : result E unit) cfg :
  match New create configure up route cfg with
  | (Err _, acts) => is_ok create = true -> last acts = Some NClose
  | (Ok e, acts) => NClose ∉ acts /\ e_peers e = ∅
  end.
Proof.
  unfold New. destruct create; [|done]. destruct configure; [|done]. destruct up; [|done].
  destruct (Prefix_IsValid _); cbn; (split; [set_solver|done]).
Qed.

Section Operations.
Context `{WGKeys}.

Definition wantedOf (peers : list Peer) : gmap string Peer :=
  fold_left (fun w p => <[KeyString (PublicKey p) := p]> w) peers ∅.

Definition set_info (f : linkInfo -> linkInfo) (id : nat) (e : Engine) : Engine :=
  mkEngine (e_subnet e) (e_peers e) (alter f id (e_links e)) (e_next e) (e_ctx e) (e_p2p e).
(** [if link.cancel != nil { link.cancel() }]. *)
Definition cancelLink (i : linkInfo) : linkInfo :=
  mkInfo (i_key i) (i_spec i) (i_cancel i) (i_cancel i || i_cancelled i) (i_done i).
(** [lctx, cancel := context.WithCancel(ctx); link.cancel = cancel; go ...]. *)
Definition startLink (i : linkInfo) : linkInfo := mkInfo (i_key i) (i_spec i) true (i_cancelled i) (i_done i).
Definition respec (s : Peer) (i : linkInfo) : linkInfo := mkInfo (i_key i) s (i_cancel i) (i_cancelled i) (i_done i).

(** A link put in the map, with nothing of its own yet. *)
Definition enter (key : string) (spec : Peer) (e : Engine) : Engine :=
  mkEngine (e_subnet e) (<[key := e_next e]> (e_peers e))
    (<[e_next e := mkInfo key spec false false false]> (e_links e)) (S (e_next e)) (e_ctx e) (e_p2p e).

(** The first loop of [SetPeers]: gone from the map means gone from the mesh.  The
    link is only taken out of the map; cancelling it is left to [retire], which is
    a goroutine of its own. *)
Definition drop (wanted : gmap string Peer) (x : Engine * list act) (key : string) : Engine * list act :=
  let '(e, acts) := x in
  match e_peers e !! key, wanted !! key with
  | Some id, None =>
      (mkEngine (e_subnet e) (delete key (e_peers e)) (e_links e) (e_next e) (e_ctx e) (e_p2p e),
       acts ++ [ARetire id key])
  | _, _ => x
  end.

(** The second: new, or changed enough.  It keeps the moved peers and the links
    to start. *)
Definition add (wanted : gmap string Peer) (x : Engine * list act * list (Peer * Peer) * list nat) (key : string) :
    Engine * list act * list (Peer * Peer) * list nat :=
  let '(e, acts, moved, starting) := x in
  match wanted !! key with
  | None => x
  | Some spec =>
      match e_peers e !! key with
      | Some id =>
          match e_links e !! id with
          | None => x
          | Some i =>
              let prev := i_spec i in
              (set_info (respec spec) id e, acts,
               if negb (samePrefixes (AllowedIPs prev) (AllowedIPs spec)) ||
                  negb (bool_decide (PresharedKey prev = PresharedKey spec))
               then moved ++ [(prev, spec)] else moved, starting)
          end
      | None =>
          (enter key spec e, acts ++ map AAddRoute (routesTo (e_subnet e) spec), moved,
           starting ++ [e_next e])
      end
  end.

(** [SetPeers] as long as it holds the lock; [have] and [want] are the orders in
    which Go ranges over the two maps. *)
Definition SetPeersLocked (peers : list Peer) (have want : list string) (e : Engine) :
    Engine * list act * list (Peer * Peer) * list nat :=
  let wanted := wantedOf peers in
  let '(e, acts) := fold_left (drop wanted) have (e, []) in
  fold_left (add wanted) want (e, acts, [], []).

(** And after: [peerCtx], then each new link, one after the other. *)
Definition set_ctx (e : Engine) : Engine :=
  mkEngine (e_subnet e) (e_peers e) (e_links e) (e_next e) (Some false) (e_p2p e).
Definition startAll (starting : list nat) (e : Engine) : Engine := fold_left (fun e id => set_info startLink id e) starting e.

(** [SetPeers], left alone; [endpoint] is the device's table. *)
Definition SetPeers (peers : list Peer) (have want : list string) (endpoint : Key -> option AddrPort)
    (e : Engine) : Engine * list act :=
  let '(e, acts, moved, starting) := SetPeersLocked peers have want e in
  (startAll starting (set_ctx e),
   acts ++ concat (map (fun m => readdress (e_subnet e) (endpoint (PublicKey m.2)) m.1 m.2) moved) ++
   map ASpawn starting).

(** [rebuildPeer], up to the wait: the link to stop, if there is one and the
    engine still runs. *)
Definition rebuildBegin (key : string) (e : Engine) : Engine * option nat :=
  match e_peers e !! key, e_ctx e with
  | Some id, Some false => (set_info cancelLink id e, Some id)
  | _, _ => (e, None)
  end.

(** And after it; [stopped] is whether the goroutine ended in time. *)
Definition rebuildEnd (key : string) (id : nat) (stopped : bool) (e : Engine) : Engine * list act * bool :=
  if negb stopped then (e, [], false)
  else match e_links e !! id with
       | None => (e, [], false)
       | Some i =>
           if bool_decide (e_peers e !! key = Some id)
           then (set_info startLink (e_next e) (enter key (i_spec i) e), [ASpawn (e_next e)], true)
           else (e, [], false)
       end.

(** [retire]: what it does first. *)
Definition retireBegin (id : nat) (e : Engine) : Engine := set_info cancelLink id e.

(** [retire], once the goroutine has ended. *)
Definition retireEnd (subnet : Prefix) (spec : Peer) : list act :=
  (if routesPerPeer subnet then map ADelRoute (AllowedIPs spec) else []) ++ [ARemovePeer (PublicKey spec)].

(** [closeAllPeers], left alone, at the wait for its goroutines. *)
Definition closeAllPeers (e : Engine) : Engine :=
  mkEngine (e_subnet e) ∅
    (map_imap (fun id i => Some (if bool_decide (e_peers e !! i_key i = Some id) then cancelLink i else i)) (e_links e))
    (e_next e) (e_ctx e) (e_p2p e).

(** What the engine answers. *)
Definition PeerKeys (e : Engine) (order : list string) : list Key :=
  omap (fun key => id ← e_peers e !! key; i ← e_links e !! id; Some (PublicKey (i_spec i))) order.

Definition SetRelay (url username password : string) (e : Engine) : Engine :=
  mkEngine (e_subnet e) (e_peers e) (e_links e) (e_next e) (e_ctx e)
    (set_turn (if String.eqb url "" then [] else [mkTURN url username password]) (e_p2p e)).
Definition RelayConfigured (e : Engine) : bool := (0 <? length (c_turn (e_p2p e)))%nat.

(** ** What always holds: the map names links, under their own keys *)

Record Inv (e : Engine) : Prop := {
  inv_map : forall key id, e_peers e !! key = Some id -> exists i, e_links e !! id = Some i /\ i_key i = key;
  inv_next : forall id i, e_links e !! id = Some i -> (id < e_next e)%nat }.

Lemma newEngine_inv subnet p2p : Inv (newEngine subnet p2p).
Proof. constructor; intros *; cbn; rewrite lookup_empty; done. Qed.

(** The links of [e2] are those of [e1], with their keys and specs. *)
Definition sameSpecs (e1 e2 : Engine) : Prop :=
  forall id i, e_links e1 !! id = Some i ->
    exists i', e_links e2 !! id = Some i' /\ i_key i' = i_key i /\ i_spec i' = i_spec i.

Lemma set_info_inv f id e :
  Inv e -> (forall i, e_links e !! id = Some i -> i_key (f i) = i_key i) -> Inv (set_info f id e).
Proof.
  intros [Hm Hn] Hf. constructor; cbn.
  - intros key id' Hk. destruct (Hm key id' Hk) as (i & Hi & <-).
    destruct (decide (id' = id)) as [->|]; [|rewrite lookup_alter_ne by done; eauto].
    rewrite lookup_alter_eq, Hi. exists (f i). split; [done|]. apply (Hf i Hi).
  - intros id' i. destruct (decide (id' = id)) as [->|]; [rewrite lookup_alter_eq|rewrite lookup_alter_ne by done; eauto].
    destruct (e_links e !! id) eqn:E; [|done]. intros _. by eapply Hn.
Qed.

Lemma entered_inv key spec e : Inv e -> Inv (enter key spec e).
Proof.
  intros [Hm Hn]. constructor; cbn.
  - intros key' id Hk. destruct (decide (key' = key)) as [->|Hne].
    + rewrite lookup_insert_eq in Hk. injection Hk as <-. rewrite lookup_insert_eq. by eexists.
    + rewrite lookup_insert_ne in Hk by done. destruct (Hm _ _ Hk) as (i & Hi & <-).
      exists i. split; [|done]. rewrite lookup_insert_ne; [done|]. specialize (Hn _ _ Hi). lia.
  - intros id i. destruct (decide (id = e_next e)) as [->|]; [lia|].
    rewrite lookup_insert_ne by done. intros Hi. specialize (Hn _ _ Hi). lia.
Qed.

(** Starting the new links changes no key and no spec. *)
Lemma startAll_facts starting : forall e,
  e_peers (startAll starting e) = e_peers e /\ e_next (startAll starting e) = e_next e /\ e_p2p (startAll starting e) = e_p2p e /\
  (Inv e -> Inv (startAll starting e)) /\ sameSpecs e (startAll starting e).
Proof.
  induction starting as [|id starting IH]; intros e; cbn [startAll fold_left].
  { splits. intros id i Hi. by exists i. }
  destruct (IH (set_info startLink id e)) as (Hp & Hn & H2 & HI & Hs). unfold startAll in *. splits.
  - intros HIe. apply HI. by apply set_info_inv.
  - intros id' i Hi. destruct (decide (id' = id)) as [->|Hne].
    + destruct (Hs id (startLink i)) as (i' & ? & ? & ?); [cbn; by rewrite lookup_alter_eq, Hi|eauto].
    + apply Hs. cbn. by rewrite lookup_alter_ne.
Qed.

(** *** What the two loops of [SetPeers] do *)

Lemma delete_inv key e :
  Inv e -> Inv (mkEngine (e_subnet e) (delete key (e_peers e)) (e_links e) (e_next e) (e_ctx e) (e_p2p e)).
Proof. intros [Hm Hn]. constructor; cbn; [|exact Hn]. intros key' id' [_ Hk']%lookup_delete_Some. by apply Hm. Qed.

Lemma drop_step wanted e acts key e1 acts1 :
  Inv e -> drop wanted (e, acts) key = (e1, acts1) ->
  Inv e1 /\ e_next e1 = e_next e /\ e_subnet e1 = e_subnet e /\ sameSpecs e e1 /\
  (forall k, e_peers e1 !! k = if decide (k = key) then match wanted !! k with Some _ => e_peers e !! k | None => None end
                               else e_peers e !! k) /\
  (forall a, a ∈ acts -> a ∈ acts1) /\
  (forall id, e_peers e !! key = Some id -> wanted !! key = None -> ARetire id key ∈ acts1).
Proof.
  intros HI. unfold drop.
  assert (Hsame : sameSpecs e e) by (intros id i Hi; exists i; done).
  destruct (e_peers e !! key) as [id|] eqn:Ek.
  2: { intros [= <- <-]. split; [done|]. splits; [|done]. intros k. destruct (decide (k = key)) as [->|]; [|done].
       rewrite Ek. by destruct (wanted !! key). }
  destruct (wanted !! key) as [spec|] eqn:Ew.
  { intros [= <- <-]. split; [done|]. splits; [|done]. intros k. destruct (decide (k = key)) as [->|]; [|done]. by rewrite Ek, Ew. }
  intros [= <- <-]. split; [by apply delete_inv|]. cbn. splits.
  - intros k. destruct (decide (k = key)) as [->|]; [by rewrite lookup_delete_eq, Ew|by rewrite lookup_delete_ne].
  - intros a Ha. set_solver.
  - intros id' [= <-] _. set_solver.
Qed.

Lemma sameSpecs_trans e1 e2 e3 : sameSpecs e1 e2 -> sameSpecs e2 e3 -> sameSpecs e1 e3.
Proof.
  intros H12 H23 id i Hi. destruct (H12 id i Hi) as (i2 & H2 & E1 & E2).
  destruct (H23 id i2 H2) as (i3 & H3 & E3 & E4). exists i3. split; [done|]. split; congruence.
Qed.

Lemma drop_loop wanted have : forall e acts e1 acts1,
  Inv e -> fold_left (drop wanted) have (e, acts) = (e1, acts1) ->
  Inv e1 /\ e_next e1 = e_next e /\ e_subnet e1 = e_subnet e /\ sameSpecs e e1 /\
  (forall k, e_peers e1 !! k = if decide (k ∈ have) then match wanted !! k with Some _ => e_peers e !! k | None => None end
                               else e_peers e !! k) /\
  (forall a, a ∈ acts -> a ∈ acts1) /\
  (forall key id, key ∈ have -> e_peers e !! key = Some id -> wanted !! key = None -> ARetire id key ∈ acts1).
Proof.
  induction have as [|key have IH]; intros e acts e1 acts1 HI E; cbn [fold_left] in E.
  { injection E as <- <-. split; [done|]. splits; [intros id i Hi; by exists i|].
    intros key id ?%not_elem_of_nil. done. }
  destruct (drop wanted (e, acts) key) as [e0 acts0] eqn:E0.
  destruct (drop_step wanted e acts key e0 acts0 HI E0) as (HI0 & Hn0 & Hs0 & Hl0 & Hp0 & Ha0 & Hr0).
  destruct (IH e0 acts0 e1 acts1 HI0 E) as (HI1 & Hn1 & Hs1 & Hl1 & Hp1 & Ha1 & Hr1).
  split; [done|]. split; [congruence|]. split; [congruence|]. split; [by eapply sameSpecs_trans|]. splits.
  - intros k. rewrite Hp1, Hp0. destruct (decide (k = key)) as [->|Hne].
    + rewrite (decide_True _ _ (P := key ∈ key :: have)) by set_solver.
      destruct (wanted !! key), (decide (key ∈ have)); done.
    + destruct (decide (k ∈ have)) as [Hin|Hin]; [rewrite decide_True by set_solver|rewrite decide_False by set_solver]; done.
  - intros key' id [->|Hin]%elem_of_cons Hk Hw; [by apply Ha1, Hr0|].
    destruct (decide (key' = key)) as [->|Hne]; [by apply Ha1, Hr0|].
    apply Hr1; [done| |done]. rewrite Hp0. by rewrite decide_False.
Qed.

(** A wanted key after the loop: its link carries the wanted spec, and is either
    the link it had or one started now. *)
Definition settled (e e1 : Engine) (starting : list nat) (key : string) (spec : Peer) : Prop :=
  exists id i, e_peers e1 !! key = Some id /\ e_links e1 !! id = Some i /\ i_key i = key /\ i_spec i = spec /\
    (e_peers e !! key = Some id \/
     (e_peers e !! key = None /\ (e_next e <= id)%nat /\ id ∈ starting)).

Lemma add_step wanted e acts moved starting key e1 acts1 moved1 starting1 :
  Inv e -> add wanted (e, acts, moved, starting) key = (e1, acts1, moved1, starting1) ->
  Inv e1 /\ (e_next e <= e_next e1)%nat /\ e_subnet e1 = e_subnet e /\
  (forall k, k <> key -> e_peers e1 !! k = e_peers e !! k) /\
  (forall id i, e_links e !! id = Some i -> i_key i <> key -> e_links e1 !! id = Some i) /\
  (wanted !! key = None -> e_peers e1 !! key = e_peers e !! key) /\
  (forall spec, wanted !! key = Some spec -> settled e e1 starting1 key spec) /\
  (forall id, id ∈ starting -> id ∈ starting1) /\ (forall a, a ∈ acts -> a ∈ acts1).
Proof.
  intros HI. unfold add. destruct (wanted !! key) as [spec|] eqn:Ew; [|intros [= <- <- <- <-]; by splits].
  destruct (e_peers e !! key) as [id|] eqn:Ek.
  - destruct (inv_map e HI key id Ek) as (i & Hi & Hkey). rewrite Hi. intros [= <- <- <- <-].
    split; [|cbn; splits].
    + by apply set_info_inv.
    + intros id' i' Hi' Hne. rewrite lookup_alter_ne; [done|]. intros ->. congruence.
    + intros spec' [= <-]. exists id, (respec spec i). cbn. rewrite lookup_alter_eq, Hi. splits.
  - intros [= <- <- <- <-]. split; [|cbn; splits].
    + by apply entered_inv.
    + intros k Hne. by rewrite lookup_insert_ne.
    + intros id i Hi Hne. rewrite lookup_insert_ne; [done|]. pose proof (inv_next e HI id i Hi). lia.
    + done.
    + intros spec' [= <-]. exists (e_next e), (mkInfo key spec false false false). cbn. rewrite !lookup_insert_eq. splits.
      right. split; [done|]. split; [lia|set_solver].
    + set_solver.
    + set_solver.
Qed.

Lemma add_loop wanted want : forall e acts moved starting e1 acts1 moved1 starting1,
  Inv e -> NoDup want ->
  fold_left (add wanted) want (e, acts, moved, starting) = (e1, acts1, moved1, starting1) ->
  Inv e1 /\ e_subnet e1 = e_subnet e /\
  (forall k, k ∉ want -> e_peers e1 !! k = e_peers e !! k) /\
  (forall id i, e_links e !! id = Some i -> i_key i ∉ want -> e_links e1 !! id = Some i) /\
  (forall k spec, k ∈ want -> wanted !! k = Some spec -> settled e e1 starting1 k spec) /\
  (forall k, k ∈ want -> wanted !! k = None -> e_peers e1 !! k = e_peers e !! k) /\
  (forall id, id ∈ starting -> id ∈ starting1) /\ (forall a, a ∈ acts -> a ∈ acts1).
Proof.
  induction want as [|key want IH]; intros e acts moved starting e1 acts1 moved1 starting1 HI Hnd E; cbn [fold_left] in E.
  { injection E as <- <- <- <-. split; [done|]. splits; set_solver. }
  apply NoDup_cons in Hnd as [Hnin Hnd].
  destruct (add wanted (e, acts, moved, starting) key) as [[[e0 acts0] moved0] starting0] eqn:E0.
  destruct (add_step _ _ _ _ _ _ _ _ _ _ HI E0) as (HI0 & Hn0 & Hs0 & Hp0 & Hl0 & Hno0 & Hset0 & Hst0 & Ha0).
  destruct (IH _ _ _ _ _ _ _ _ HI0 Hnd E) as (HI1 & Hs1 & Hp1 & Hl1 & Hset1 & Hno1 & Hst1 & Ha1).
  split; [done|]. split; [congruence|]. splits.
  - intros k Hk. apply not_elem_of_cons in Hk as [Hne Hk]. by rewrite Hp1, Hp0.
  - intros id i Hi Hk. apply not_elem_of_cons in Hk as [Hne Hk]. apply Hl1; [by apply Hl0|done].
  - intros k spec [->|Hin]%elem_of_cons Hw.
    + destruct (Hset0 spec Hw) as (id & i & Hp & Hi & Hkey & Hspec & Hor). exists id, i.
      rewrite Hp1 by done. split; [done|]. split; [apply Hl1; [done|by rewrite Hkey]|]. splits.
      destruct Hor as [|(? & ? & ?)]; auto.
    + destruct (Hset1 k spec Hin Hw) as (id & i & Hp & Hi & Hkey & Hspec & Hor). exists id, i.
      rewrite Hp0 in Hor by set_solver. splits. destruct Hor as [|(? & ? & ?)]; [auto|right]. splits. lia.
  - intros k [->|Hin]%elem_of_cons Hw.
    + rewrite Hp1 by done. auto.
    + rewrite Hno1 by done. apply Hp0. set_solver.
Qed.

(** What [SetPeers] leaves, in one place. *)
Lemma SetPeers_facts peers have want endpoint e :
  Inv e -> NoDup want ->
  (forall k, k ∈ have <-> is_Some (e_peers e !! k)) -> (forall k, k ∈ want <-> is_Some (wantedOf peers !! k)) ->
  let '(e', acts) := SetPeers peers have want endpoint e in
  Inv e' /\
  (forall k, is_Some (e_peers e' !! k) <-> is_Some (wantedOf peers !! k)) /\
  (forall k id, e_peers e !! k = Some id -> wantedOf peers !! k = None -> ARetire id k ∈ acts) /\
  (forall k spec, wantedOf peers !! k = Some spec ->
    exists id i, e_peers e' !! k = Some id /\ e_links e' !! id = Some i /\ i_spec i = spec /\
      (e_peers e !! k = Some id \/ (e_peers e !! k = None /\ (e_next e <= id)%nat /\ ASpawn id ∈ acts))).
Proof.
  intros HI Hnd Hhave Hwant. unfold SetPeers, SetPeersLocked.
  destruct (fold_left (drop (wantedOf peers)) have (e, [])) as [e1 acts1] eqn:E1.
  destruct (drop_loop _ _ _ _ _ _ HI E1) as (HI1 & Hn1 & Hs1 & Hl1 & Hp1 & _ & Hr1).
  destruct (fold_left (add (wantedOf peers)) want (e1, acts1, [], [])) as [[[e2 acts2] moved] starting] eqn:E2.
  destruct (add_loop _ _ _ _ _ _ _ _ _ _ HI1 Hnd E2) as (HI2 & Hs2 & Hp2 & Hl2 & Hset2 & Hno2 & _ & Ha2).
  assert (Hkept : forall k, e_peers e1 !! k = match wantedOf peers !! k with Some _ => e_peers e !! k | None => None end).
  { intros k. rewrite Hp1. destruct (decide (k ∈ have)) as [Hk|Hk]; [done|]. rewrite Hhave in Hk.
    destruct (e_peers e !! k) eqn:E; [exfalso; apply Hk; by eexists|]. by destruct (wantedOf peers !! k). }
  assert (Hset : forall k spec, wantedOf peers !! k = Some spec -> settled e1 e2 starting k spec).
  { intros k spec Hk. apply Hset2; [|done]. apply Hwant. by eexists. }
  destruct (startAll_facts starting (set_ctx e2)) as (HpS & _ & _ & HIS & HsS).
  split; [apply HIS; destruct HI2; by constructor|]. rewrite HpS. cbn [set_ctx e_peers]. splits.
  - intros k. split.
    + intros Hk. destruct (wantedOf peers !! k) eqn:Ew; [by eexists|]. exfalso.
      rewrite Hp2, Hkept, Ew in Hk; [by destruct Hk|]. rewrite Hwant, Ew. by intros [].
    + intros [spec Hk]. destruct (Hset k spec Hk) as (id & i & -> & _). by eexists.
  - intros k id Hk Hw. apply elem_of_app. left. apply Ha2, Hr1; auto. apply Hhave. by eexists.
  - intros k spec Hk. destruct (Hset k spec Hk) as (id & i & Hp & Hi & _ & Hspec & Hor).
    destruct (HsS id i Hi) as (i' & Hi' & Hkey' & Hspec'). exists id, i'. rewrite Hspec'. rewrite Hkept, Hk, Hn1 in Hor. splits.
    destruct Hor as [|(? & ? & ?)]; [auto|right]. splits.
    rewrite !elem_of_app. right. right. apply list_elem_of_fmap. eauto.
Qed.

(** C24: a map of the mesh is what the engine then works on: exactly the peers of
    the map, each under the spec the map gives it last; a peer that stays keeps
    its link, and with it its negotiation; a peer that is new has a goroutine of
    its own; a peer that is gone is retired. *)
Theorem SetPeers_reconciles peers have want endpoint e :
  Inv e -> NoDup want ->
  (forall k, k ∈ have <-> is_Some (e_peers e !! k)) -> (forall k, k ∈ want <-> is_Some (wantedOf peers !! k)) ->
  let '(e', acts) := SetPeers peers have want endpoint e in
  (forall k, is_Some (e_peers e' !! k) <-> is_Some (wantedOf peers !! k)) /\
  (forall k id, e_peers e !! k = Some id -> wantedOf peers !! k = None -> ARetire id k ∈ acts) /\
  (forall k spec, wantedOf peers !! k = Some spec ->
    exists id i, e_peers e' !! k = Some id /\ e_links e' !! id = Some i /\ i_spec i = spec /\
      (e_peers e !! k = Some id \/ (e_peers e !! k = None /\ (e_next e <= id)%nat /\ ASpawn id ∈ acts))).
Proof.
  intros HI Hnd Hh Hw. pose proof (SetPeers_facts peers have want endpoint e HI Hnd Hh Hw) as Hf.
  destruct (SetPeers _ _ _ _ _). apply Hf.
Qed.

End Operations.

(** ** Routes *)

Lemma containsPrefix_iff l p : containsPrefix l p = true <-> p ∈ l.
Proof.
  unfold containsPrefix. rewrite existsb_exists. setoid_rewrite bool_decide_eq_true. split.
  - intros (q & Hq & ->). by apply list_elem_of_In.
  - intros Hp. exists p. split; [by apply list_elem_of_In|done].
Qed.

(** on lists without repetitions, which is how a map lists a peer's networks,
    the comparison is equality up to order. *)
Theorem samePrefixes_perm a b : NoDup a -> NoDup b -> samePrefixes a b = true <-> a ≡ₚ b.
Proof.
  intros Ha Hb. unfold samePrefixes. destruct (Nat.eqb_spec (length a) (length b)) as [El|El]; cbn [negb].
  - rewrite forallb_forall. setoid_rewrite containsPrefix_iff. setoid_rewrite <- list_elem_of_In. split.
    + intros Hsub. by apply submseteq_length_Permutation; [apply NoDup_submseteq|rewrite El].
    + intros HP p. by rewrite HP.
  - split; [done|]. intros HP. by apply Permutation_length in HP.
Qed.

(** With a repetition it is not even symmetric. *)
Theorem samePrefixes_repeated :
  let a := mkPrefix (V4 1) 32 in let b := mkPrefix (V4 2) 32 in
  samePrefixes [a; a] [a; b] = true /\ samePrefixes [a; b] [a; a] = false.
Proof. vm_compute. done. Qed.

(** The routes into the interface, under what the engine asks of the device. *)
Definition route (table : gset Prefix) (a : act) : gset Prefix :=
  match a with AAddRoute p => {[ p ]} ∪ table | ADelRoute p => table ∖ {[ p ]} | _ => table end.
Definition routes (acts : list act) (table : gset Prefix) : gset Prefix := fold_left route acts table.

Lemma routes_add ps table : routes (map AAddRoute ps) table = list_to_set ps ∪ table.
Proof.
  revert table. unfold routes. induction ps as [|p ps IH]; intros table; cbn [map fold_left]; [set_solver|].
  rewrite IH. cbn. set_solver.
Qed.

Lemma routes_del ps table : routes (map ADelRoute ps) table = table ∖ list_to_set ps.
Proof.
  revert table. unfold routes. induction ps as [|p ps IH]; intros table; cbn [map fold_left]; [set_solver|].
  rewrite IH. cbn. set_solver.
Qed.

Lemma routes_app a b table : routes (a ++ b) table = routes b (routes a table).
Proof. apply fold_left_app. Qed.

(** with a route for each peer, a peer that moves has its routes moved with it:
    afterwards every network it is wanted under is routed, every one it lost is
    not, and no other route is touched. *)
Theorem readdress_routes subnet ep prev next table p :
  routesPerPeer subnet = true -> list_to_set (AllowedIPs prev) ⊆ table ->
  p ∈ routes (readdress subnet ep prev next) table <->
    p ∈ AllowedIPs next \/ (p ∈ table /\ p ∉ AllowedIPs prev).
Proof.
  intros Hr Htab. unfold readdress. rewrite Hr.
  assert (Hep : forall t, routes match ep with
      | None => []
      | Some ep => [ASetPeer (UAPI.UAPI.mkPeer (PublicKey next) (PresharedKey next) ep (AllowedIPs next) keepaliveSeconds)]
      end t = t) by (by destruct ep).
  assert (Hto : forall s, routesTo subnet s = AllowedIPs s).
  { intros s. unfold routesTo. rewrite Hr. cbn [orb]. induction (AllowedIPs s) as [|x l IH]; cbn; [done|by rewrite IH]. }
  rewrite routes_app, Hep. unfold rerouteAllowedIPs. rewrite !Hto, routes_app, routes_del, routes_add.
  assert (Hf : forall (l m : list Prefix), p ∈ (list_to_set (List.filter (fun a => negb (containsPrefix m a)) l) : gset Prefix) <-> p ∈ l /\ p ∉ m).
  { intros l m. rewrite elem_of_list_to_set, list_elem_of_In, filter_In, <- list_elem_of_In, negb_true_iff.
    rewrite <- not_true_iff_false, containsPrefix_iff. done. }
  rewrite elem_of_union, elem_of_difference, !Hf.
  assert (Hin : p ∈ AllowedIPs prev -> p ∈ table) by (intros; apply Htab; by apply elem_of_list_to_set).
  destruct (decide (p ∈ AllowedIPs prev)), (decide (p ∈ AllowedIPs next)); tauto.
Qed.

(** With one route for the mesh, a network that a peer starts to carry is given to
    WireGuard and routed nowhere. *)
Definition exMesh : Prefix := mkPrefix (V4 (100 * 2 ^ 24 + 64 * 2 ^ 16)) 10.
Definition exHome : Prefix := mkPrefix (V4 (100 * 2 ^ 24 + 64 * 2 ^ 16 + 7)) 32.
Definition exLAN : Prefix := mkPrefix (V4 (192 * 2 ^ 24 + 168 * 2 ^ 16)) 24.

Theorem moved_network_unrouted :
  let prev := mkPeer (exKey 1) zeroKey [exHome] in
  let next := mkPeer (exKey 1) zeroKey [exHome; exLAN] in
  routesTo exMesh next = [exLAN] /\
  forall ep table, exLAN ∉ table -> exLAN ∉ routes (readdress exMesh (Some ep) prev next) table.
Proof. split; [vm_compute; reflexivity|]. intros ep table Hn. exact Hn. Qed.

(** ** Witnesses *)

Definition exP (n : Z) (ips : list Prefix) : Peer := mkPeer (exKey n) zeroKey ips.
Definition k_ (n : Z) : string := KeyString (exKey n).
Definition exEngine1 : Engine := (SetPeers [exP 1 [exHome]; exP 2 [exLAN]] [] [k_ 1; k_ 2] (fun _ => None) (newEngine exMesh exConfig)).1.

Lemma map_dom_iff {A} (m : gmap string A) (l : list string) :
  bool_decide (dom m = list_to_set l) = true -> forall k, k ∈ l <-> is_Some (m !! k).
Proof. intros E%bool_decide_eq_true k. rewrite <- elem_of_dom, E, elem_of_list_to_set. done. Qed.

Lemma exEngine1_inv : Inv exEngine1.
Proof.
  pose proof (SetPeers_facts [exP 1 [exHome]; exP 2 [exLAN]] [] [k_ 1; k_ 2] (fun _ => None) (newEngine exMesh exConfig)
    (newEngine_inv exMesh exConfig)) as H. unfold exEngine1. destruct (SetPeers _ _ _ _ _) as [e acts]. apply H.
  - apply (bool_decide_unpack _). vm_compute. exact I.
  - apply map_dom_iff. vm_compute. reflexivity.
  - apply map_dom_iff. vm_compute. reflexivity.
Qed.

Lemma SetPeers_reconciles_witness :
  let e := exEngine1 in
  let '(e', acts) := SetPeers [exP 1 [exLAN]] [k_ 1; k_ 2] [k_ 1] (fun _ => None) e in
  (forall k, is_Some (e_peers e' !! k) <-> is_Some (wantedOf [exP 1 [exLAN]] !! k)) /\
  (forall k id, e_peers e !! k = Some id -> wantedOf [exP 1 [exLAN]] !! k = None -> ARetire id k ∈ acts) /\
  (forall k spec, wantedOf [exP 1 [exLAN]] !! k = Some spec ->
    exists id i, e_peers e' !! k = Some id /\ e_links e' !! id = Some i /\ i_spec i = spec /\
      (e_peers e !! k = Some id \/ (e_peers e !! k = None /\ (e_next e <= id)%nat /\ ASpawn id ∈ acts))).
Proof.
  apply (SetPeers_reconciles [exP 1 [exLAN]] [k_ 1; k_ 2] [k_ 1] (fun _ => None)
    exEngine1 exEngine1_inv).
  - apply (bool_decide_unpack _). vm_compute. exact I.
  - apply map_dom_iff. vm_compute. reflexivity.
  - apply map_dom_iff. vm_compute. reflexivity.
Defined.

Lemma samePrefixes_perm_witness :
  samePrefixes [exHome; exLAN] [exLAN; exHome] = true <-> [exHome; exLAN] ≡ₚ [exLAN; exHome].
Proof. apply samePrefixes_perm; apply (bool_decide_unpack _); vm_compute; exact I. Defined.

Lemma readdress_routes_witness :
  exLAN ∈ routes (readdress PrefixZero None (exP 1 [exHome]) (exP 1 [exLAN])) {[ exHome ]} <->
    exLAN ∈ AllowedIPs (exP 1 [exLAN]) \/ (exLAN ∈ ({[ exHome ]} : gset Prefix) /\ exLAN ∉ AllowedIPs (exP 1 [exHome])).
Proof.
  apply readdress_routes; [reflexivity|]. cbn. set_solver.
Defined.

End Engine.
