(* ===== verification/EngineRace.v ===== *)
(** * internal/engine/engine.go: the calls on the set of peers, interleaved.

    [Engine] has each call left alone.  In the program only the two loops of
    [SetPeers] are under the lock: moving the peers that moved, and giving each
    new link its cancel function and its goroutine, happen after it is released,
    and [retire] is a goroutine of its own.  This file is the machine of those
    pieces: [SetPeers] is called from the map loop and, by a pause or a resume,
    from the control socket, [rebuildPeer] from the watchdog, and nothing orders
    them.  A call that is left alone does in it what [Engine] says
    ([SetPeers_alone]).

    What the device holds is kept as well: the routes, and the peers WireGuard
    has been given. *)
From S2P Require Import Prelude GoStrings NetIP NetText Keys P2P UAPI Link Engine.

Module EngineRace.
Import NetText.NetText P2P.P2P Engine.Engine.
Import Link.Link (Peer, mkPeer, PublicKey, PresharedKey, AllowedIPs).

(** A link: [r_cancel] is whether [link.cancel] has been set, [r_cancelled]
    whether it has been called. *)
Record rlink : Type := mkRlink {
  r_key : string; r_spec : Peer; r_cancel : bool; r_cancelled : bool; r_started : bool; r_done : bool }.

Definition set_spec (s : Peer) (r : rlink) : rlink :=
  mkRlink (r_key r) s (r_cancel r) (r_cancelled r) (r_started r) (r_done r).
(** [lctx, cancel := context.WithCancel(ctx); link.cancel = cancel; go ...]. *)
Definition start (r : rlink) : rlink :=
  mkRlink (r_key r) (r_spec r) true (r_cancelled r) true (r_done r).
(** [if link.cancel != nil { link.cancel() }]. *)
Definition cancel (r : rlink) : rlink :=
  mkRlink (r_key r) (r_spec r) (r_cancel r) (r_cancel r || r_cancelled r) (r_started r) (r_done r).
Definition finish (r : rlink) : rlink :=
  mkRlink (r_key r) (r_spec r) (r_cancel r) (r_cancelled r) (r_started r) true.

(** Where each call stands. *)
Inductive thread : Type :=
| TSet (peers : list Peer)                                   (* about to take the lock *)
| TMoved (moved : list (Peer * Peer)) (starting : list nat)  (* moving one peer after the other *)
| TStart (starting : list nat)
| TRetireCancel (id : nat)
| TRetireWait (id : nat)
| TRebuild (key : string)
| TRebuildCancel (key : string) (id : nat)
| TRebuildWait (key : string) (id : nat)
| TRebuildStart (id : nat)
| TDone.

Record state : Type := mkState {
  s_subnet : Prefix; s_peers : gmap string nat; s_links : gmap nat rlink; s_next : nat;
  s_ctx : bool; s_routes : gset Prefix; s_wg : gset string; s_threads : list thread }.

Definition init (subnet : Prefix) : state := mkState subnet ∅ ∅ 0 false ∅ ∅ [].

Section Steps.
Context `{WGKeys}.

Definition set_link (f : rlink -> rlink) (id : nat) (st : state) : state :=
  mkState (s_subnet st) (s_peers st) (alter f id (s_links st)) (s_next st) (s_ctx st)
    (s_routes st) (s_wg st) (s_threads st).
Definition set_thread (i : nat) (t : thread) (st : state) : state :=
  mkState (s_subnet st) (s_peers st) (s_links st) (s_next st) (s_ctx st) (s_routes st) (s_wg st)
    (<[i := t]> (s_threads st)).
Definition set_device (r : gset Prefix) (wg : gset string) (st : state) : state :=
  mkState (s_subnet st) (s_peers st) (s_links st) (s_next st) (s_ctx st) r wg (s_threads st).

(** A link put in the map, with nothing of its own yet. *)
Definition enter (key : string) (spec : Peer) (st : state) : state :=
  mkState (s_subnet st) (<[key := s_next st]> (s_peers st))
    (<[s_next st := mkRlink key spec false false false false]> (s_links st)) (S (s_next st))
    (s_ctx st) (s_routes st) (s_wg st) (s_threads st).

(** The first loop under the lock. *)
Definition dropR (wanted : gmap string Peer) (st : state) (key : string) : state :=
  match s_peers st !! key, wanted !! key with
  | Some id, None =>
      mkState (s_subnet st) (delete key (s_peers st)) (s_links st) (s_next st) (s_ctx st)
        (s_routes st) (s_wg st) (s_threads st ++ [TRetireCancel id])
  | _, _ => st
  end.

(** The second. *)
Definition addR (wanted : gmap string Peer) (x : state * list (Peer * Peer) * list nat) (key : string) :
    state * list (Peer * Peer) * list nat :=
  let '(st, moved, starting) := x in
  match wanted !! key with
  | None => x
  | Some spec =>
      match s_peers st !! key with
      | Some id =>
          match s_links st !! id with
          | None => x
          | Some r =>
              let prev := r_spec r in
              (set_link (set_spec spec) id st,
               if negb (samePrefixes (AllowedIPs prev) (AllowedIPs spec)) ||
                  negb (bool_decide (PresharedKey prev = PresharedKey spec))
               then moved ++ [(prev, spec)] else moved, starting)
          end
      | None =>
          let st1 := enter key spec st in
          (set_device (s_routes st1 ∪ list_to_set (routesTo (s_subnet st1) spec)) (s_wg st1) st1,
           moved, starting ++ [s_next st])
      end
  end.

(** Whether a call has links in the map that it has yet to start. *)
Definition pendingOf (t : thread) : list nat :=
  match t with TMoved _ starting | TStart starting => starting | TRebuildStart id => [id] | _ => [] end.
Definition pending (st : state) : list nat := concat (map pendingOf (s_threads st)).
Definition quiet (st : state) : bool := bool_decide (pending st = []).

(** The end of [retire]: the routes and the peer of the link are taken away. *)
Definition retireClean (r : rlink) (st : state) : state :=
  set_device (if routesPerPeer (s_subnet st)
              then s_routes st ∖ list_to_set (AllowedIPs (r_spec r)) else s_routes st)
    (s_wg st ∖ {[ r_key r ]}) st.

(** The end of [rebuildPeer]'s wait: a fresh link in the place of the old one, if
    it is still there. *)
Definition rebuildSwap (i : nat) (key : string) (id : nat) (r : rlink) (st : state) : state :=
  if bool_decide (s_peers st !! key = Some id)
  then set_thread i (TRebuildStart (s_next st)) (enter key (r_spec r) st)
  else set_thread i TDone st.

(** One piece of one call.  [have] and [want] are the orders in which Go ranges
    over the two maps.  With [serial], the lock is only taken when no other call
    is between its loops and the start of its links; the program does not ask
    for that. *)
Definition tstep (serial : bool) (have want : list string) (i : nat) (t : thread) (st : state) : state :=
  match t with
  | TSet peers =>
      if serial && negb (quiet st) then st
      else
        let wanted := wantedOf peers in
        let st := fold_left (dropR wanted) have st in
        let '(st, moved, starting) := fold_left (addR wanted) want (st, [], []) in
        set_thread i (TMoved moved starting) st
  | TMoved (m :: moved) starting =>
      set_thread i (TMoved moved starting)
        (set_device (routes (readdress (s_subnet st) None m.1 m.2) (s_routes st)) (s_wg st) st)
  | TMoved [] starting =>
      set_thread i (TStart starting)
        (mkState (s_subnet st) (s_peers st) (s_links st) (s_next st) true (s_routes st) (s_wg st) (s_threads st))
  | TStart (id :: starting) => set_thread i (TStart starting) (set_link start id st)
  | TStart [] => set_thread i TDone st
  | TRetireCancel id => set_thread i (TRetireWait id) (set_link cancel id st)
  | TRetireWait id =>
      match s_links st !! id with
      | Some r =>
          if r_done r then set_thread i TDone (retireClean r st) else st
      | None => st
      end
  | TRebuild key =>
      match s_peers st !! key with
      | Some id => set_thread i (if s_ctx st then TRebuildCancel key id else TDone) st
      | None => set_thread i TDone st
      end
  | TRebuildCancel key id => set_thread i (TRebuildWait key id) (set_link cancel id st)
  | TRebuildWait key id =>
      match s_links st !! id with
      | Some r =>
          if r_done r then rebuildSwap i key id r st else st
      | None => st
      end
  | TRebuildStart id => set_thread i TDone (set_link start id st)
  | TDone => st
  end.

Inductive event : Type :=
| ECall (t : thread)
| EThread (i : nat) (have want : list string)
| ETimeout (i : nat)                    (* [rebuildWait] is over *)
| EConnect (id : nat)                   (* a goroutine gives WireGuard its peer *)
| EEnd (id : nat).                      (* a goroutine returns *)

(** What may be called from outside. *)
Definition callable (t : thread) : bool :=
  match t with TSet _ | TRebuild _ => true | _ => false end.

Definition step (serial : bool) (st : state) (e : event) : state :=
  match e with
  | ECall t =>
      if callable t
      then mkState (s_subnet st) (s_peers st) (s_links st) (s_next st) (s_ctx st) (s_routes st) (s_wg st)
             (s_threads st ++ [t])
      else st
  | EThread i have want =>
      match s_threads st !! i with Some t => tstep serial have want i t st | None => st end
  | ETimeout i =>
      match s_threads st !! i with Some (TRebuildWait _ _) => set_thread i TDone st | _ => st end
  | EConnect id =>
      match s_links st !! id with
      | Some r => if r_started r && negb (r_done r)
                  then set_device (s_routes st) (s_wg st ∪ {[ r_key r ]}) st else st
      | None => st
      end
  | EEnd id =>
      match s_links st !! id with
      | Some r => if r_started r && r_cancelled r then set_link finish id st else st
      | None => st
      end
  end.

Definition steps (serial : bool) (es : list event) (st : state) : state := fold_left (step serial) es st.

(** ** With the calls in turn *)




(** A change to a link that takes nothing back. *)
Definition onward (f : rlink -> rlink) : Prop := forall r,
  r_key (f r) = r_key r /\ (r_cancel r = true -> r_cancel (f r) = true) /\
  (r_cancelled r = true -> r_cancelled (f r) = true).









Lemma dropR_threads wanted have i : forall st t,
  s_threads st !! i = Some t -> s_threads (fold_left (dropR wanted) have st) !! i = Some t.
Proof.
  induction have as [|key have IH]; intros st t Hi; simpl; [done|]. apply IH. unfold dropR.
  destruct (s_peers st !! key); [|done]. destruct (wanted !! key); [done|]. simpl. by apply lookup_app_l_Some.
Qed.

Lemma addR_threads wanted want : forall x,
  s_threads (fold_left (addR wanted) want x).1.1 = s_threads x.1.1.
Proof.
  induction want as [|key want IH]; intros [[st m] ss]; simpl; [done|]. rewrite IH. unfold addR.
  destruct (wanted !! key); [|done]. destruct (s_peers st !! key); [|done]. by destruct (s_links st !! _).
Qed.


Lemma start_onward : onward start.
Proof. done. Qed.








(** ** However the calls overlap *)

(** A goroutine is at work; somebody was sent to end it and has not seen it end. *)
Definition working (st : state) (id : nat) (r : rlink) : Prop :=
  s_links st !! id = Some r /\ r_started r = true /\ r_done r = false.
Definition retiring (st : state) (id : nat) : Prop :=
  TRetireCancel id ∈ s_threads st \/ TRetireWait id ∈ s_threads st.

(** A link the map no longer has under its key has ended, or is being retired. *)
Record Replaced (st : state) : Prop := {
  p_map : forall key id, s_peers st !! key = Some id -> exists r, s_links st !! id = Some r /\ r_key r = key;
  p_next : forall id r, s_links st !! id = Some r -> (id < s_next st)%nat;
  p_off : forall id r, s_links st !! id = Some r -> s_peers st !! r_key r <> Some id -> r_done r = true \/ retiring st id }.

Lemma init_replaced subnet : Replaced (init subnet).
Proof. split; intros *; simpl; by rewrite ?lookup_empty. Qed.

Lemma replaced_device ro wg st : Replaced st -> Replaced (set_device ro wg st).
Proof. by intros []. Qed.

(** A change of a link that leaves its key and does not take its end back. *)
Lemma replaced_link f id st :
  Replaced st -> (forall r, r_key (f r) = r_key r /\ (r_done r = true -> r_done (f r) = true)) -> Replaced (set_link f id st).
Proof.
  intros [Hm Hn Ho] Hf.
  assert (Hlook : forall id' r', s_links (set_link f id st) !! id' = Some r' ->
    exists r, s_links st !! id' = Some r /\ r_key r' = r_key r /\ (r_done r = true -> r_done r' = true)).
  { intros id' r'. simpl. destruct (decide (id' = id)) as [->|]; [rewrite lookup_alter_eq|rewrite lookup_alter_ne by done; eauto].
    destruct (s_links st !! id) as [r|]; [|done]. intros [= <-]. exists r. destruct (Hf r). by split. }
  split; simpl.
  - intros key id' Hk. destruct (Hm _ _ Hk) as (r & Hr & <-). destruct (decide (id' = id)) as [->|].
    + exists (f r). rewrite lookup_alter_eq, Hr. split; [done|apply Hf].
    + exists r. by rewrite lookup_alter_ne.
  - intros id' r' (r & Hr & _)%Hlook. by eapply Hn.
  - intros id' r' (r & Hr & Hk & Hd)%Hlook Hoff. rewrite Hk in Hoff. destruct (Ho _ _ Hr Hoff); [left; auto|by right].
Qed.

(** A call goes on: a retirement only towards its wait, and from there to its end
    once the goroutine has ended. *)
Lemma replaced_thread i t t' st :
  Replaced st -> s_threads st !! i = Some t ->
  (forall id, t = TRetireCancel id \/ t = TRetireWait id ->
     t' = TRetireWait id \/ exists r, s_links st !! id = Some r /\ r_done r = true) ->
  Replaced (set_thread i t' st).
Proof.
  intros [Hm Hn Ho] Hi Ht. split; simpl; [done|done|]. intros id r Hr Hoff. destruct (Ho id r Hr Hoff) as [|Hret]; [by left|].
  assert (Hin : forall u, u ∈ s_threads st -> u = t \/ u ∈ <[i := t']> (s_threads st)).
  { intros u [j Hj]%list_elem_of_lookup. destruct (decide (j = i)) as [->|Hne]; [left; congruence|right].
    apply list_elem_of_lookup. exists j. by rewrite list_lookup_insert_ne. }
  assert (Hcase : t = TRetireCancel id \/ t = TRetireWait id -> r_done r = true \/ retiring (set_thread i t' st) id).
  { intros Hc. destruct (Ht id Hc) as [->|(r' & Hr' & Hd)]; [right; right|left; congruence].
    simpl. apply list_elem_of_lookup. exists i. apply list_lookup_insert_eq. by eapply lookup_lt_Some. }
  destruct Hret as [[E|Hin']%Hin|[E|Hin']%Hin]; [apply Hcase; auto|by right; left|apply Hcase; auto|by right; right].
Qed.

(** A link takes the place of none, or of one that has ended. *)
Lemma replaced_enter key spec st :
  Replaced st -> (forall id r, s_peers st !! key = Some id -> s_links st !! id = Some r -> r_done r = true) ->
  Replaced (enter key spec st).
Proof.
  intros [Hm Hn Ho] Hold. split; simpl.
  - intros key' id. rewrite lookup_insert. case_decide as E; [intros [= <-]; subst|].
    + eexists. rewrite lookup_insert_eq. done.
    + intros Hk. destruct (Hm _ _ Hk) as (r & Hr & <-). exists r. split; [|done].
      rewrite lookup_insert_ne; [done|]. specialize (Hn _ _ Hr). lia.
  - intros id r. rewrite lookup_insert. case_decide; [lia|]. intros Hr. specialize (Hn _ _ Hr). lia.
  - intros id r. rewrite lookup_insert. case_decide as E; [intros [= <-]; subst; simpl; by rewrite lookup_insert_eq|].
    intros Hr Hoff. rewrite lookup_insert in Hoff. case_decide as E'; [|by apply Ho].
    destruct (decide (s_peers st !! r_key r = Some id)) as [Hk|]; [|by apply Ho].
    left. subst key. by eapply Hold.
Qed.

Lemma replaced_drop wanted st key : Replaced st -> Replaced (dropR wanted st key).
Proof.
  intros HR. unfold dropR. destruct (s_peers st !! key) as [id|] eqn:Ek; [|done]. destruct (wanted !! key); [done|].
  destruct HR as [Hm Hn Ho]. split; simpl; [|done|].
  - intros key' id' [_ Hk]%lookup_delete_Some. by apply Hm.
  - intros id' r Hr Hoff. unfold retiring. simpl. destruct (decide (id' = id)) as [->|Hne]; [right; left; set_solver|].
    destruct (Ho id' r Hr) as [|[?|?]]; [|by left|right; left; set_solver|right; right; set_solver].
    intros Hk. apply Hoff. rewrite lookup_delete_ne; [done|]. intros E. rewrite <- E, Ek in Hk. congruence.
Qed.

Lemma replaced_drops wanted have : forall st, Replaced st -> Replaced (fold_left (dropR wanted) have st).
Proof. induction have as [|key have IH]; intros st HR; simpl; [done|]. by apply IH, replaced_drop. Qed.

Lemma replaced_adds wanted want : forall x, Replaced x.1.1 -> Replaced (fold_left (addR wanted) want x).1.1.
Proof.
  induction want as [|key want IH]; intros [[st m] ss] HR; cbn [fold_left]; [done|]. apply IH. unfold addR. cbn [fst] in HR.
  destruct (wanted !! key); [|done]. destruct (s_peers st !! key) as [id|] eqn:Ek.
  - destruct (s_links st !! id); [|done]. by apply replaced_link.
  - cbn [fst]. apply replaced_device, replaced_enter; [done|]. intros id r Hk. congruence.
Qed.

Lemma replaced_tstep serial have want i t st :
  Replaced st -> s_threads st !! i = Some t -> Replaced (tstep serial have want i t st).
Proof.
  intros HR Hi. destruct t as [peers|[|m moved] starting|[|id starting]|id|id|key|key id|key id|id|]; cbn [tstep].
  - destruct (serial && negb (quiet st)); [done|].
    pose proof (replaced_adds (wantedOf peers) want (_, [], []) (replaced_drops (wantedOf peers) have st HR)) as HR2.
    pose proof (addR_threads (wantedOf peers) want (fold_left (dropR (wantedOf peers)) have st, [], [])) as Hth.
    pose proof (dropR_threads (wantedOf peers) have i st _ Hi) as Hi1.
    destruct (fold_left (addR _) want _) as [[st2 moved] starting]. cbn [fst snd] in *.
    eapply replaced_thread; [done|by rewrite Hth|]. by intros id [?|?].
  - eapply (replaced_thread i (TMoved [] starting)); [|done|by intros id [?|?]]. by destruct HR.
  - eapply replaced_thread; [by apply replaced_device|done|by intros id [?|?]].
  - eapply replaced_thread; [done..|by intros id [?|?]].
  - eapply replaced_thread; [by apply replaced_link|done|by intros id' [?|?]].
  - eapply replaced_thread; [by apply replaced_link|done|]. intros id' [[= <-]|?]; [by left|done].
  - destruct (s_links st !! id) as [r|] eqn:Er; [|done]. destruct (r_done r) eqn:Ed; [|done].
    eapply replaced_thread; [by apply replaced_device|done|]. intros id' [?|[= <-]]; [done|right; eauto].
  - destruct (s_peers st !! key) as [id|]; (eapply replaced_thread; [done..|by intros id' [?|?]]).
  - eapply replaced_thread; [by apply replaced_link|done|by intros id' [?|?]].
  - destruct (s_links st !! id) as [r|] eqn:Er; [|done]. destruct (r_done r) eqn:Ed; [|done].
    unfold rebuildSwap. case_bool_decide as Ek; [|eapply replaced_thread; [done..|by intros id' [?|?]]].
    eapply replaced_thread; [|exact Hi|by intros id' [?|?]]. apply replaced_enter; [done|]. intros id' r' Hk Hr'. congruence.
  - eapply replaced_thread; [by apply replaced_link|done|by intros id' [?|?]].
  - done.
Qed.

Lemma replaced_step serial st e : Replaced st -> Replaced (step serial st e).
Proof.
  intros HR. destruct e as [t|i have want|i|id|id]; cbn [step].
  - destruct (callable t); [|done]. destruct HR as [Hm Hn Ho]. split; simpl; [done|done|].
    intros id r Hr Hoff. unfold retiring. simpl. destruct (Ho id r Hr Hoff) as [|[?|?]]; [by left|right; left; set_solver|right; right; set_solver].
  - destruct (s_threads st !! i) as [t|] eqn:Ei; [|done]. by apply replaced_tstep.
  - destruct (s_threads st !! i) as [[]|] eqn:Ei; try done. eapply replaced_thread; [done..|by intros id' [?|?]].
  - destruct (s_links st !! id) as [r|]; [|done]. destruct (_ && _); [by apply replaced_device|done].
  - destruct (s_links st !! id) as [r|]; [|done]. destruct (_ && _); [by apply replaced_link|done].
Qed.

Lemma replaced_steps serial es st : Replaced st -> Replaced (steps serial es st).
Proof. revert st. induction es as [|e es IH]; intros st HR; [done|]. cbn. by apply IH, replaced_step. Qed.

(** C25: however the maps, the rebuilds and the retirements overlap, and whatever
    the goroutines do meanwhile, the goroutines at work on a peer are the one whose
    link the map has, and others that a map dropped, each of which has a
    retirement that waits for its end.  A rebuild adds none to them: of two
    goroutines at work on one peer, one is being retired. *)
Theorem one_goroutine_per_peer serial es subnet :
  let st := steps serial es (init subnet) in
  (forall id r, working st id r -> s_peers st !! r_key r = Some id \/ retiring st id) /\
  (forall id1 id2 r1 r2, working st id1 r1 -> working st id2 r2 -> r_key r1 = r_key r2 -> id1 <> id2 ->
     retiring st id1 \/ retiring st id2).
Proof.
  intros st. pose proof (replaced_steps serial es _ (init_replaced subnet)) as [Hm Hn Ho]. fold st in Hm, Hn, Ho.
  assert (Hone : forall id r, working st id r -> s_peers st !! r_key r = Some id \/ retiring st id).
  { intros id r (Hr & _ & Hd). destruct (decide (s_peers st !! r_key r = Some id)); [by left|].
    destruct (Ho id r Hr); [done|congruence|by right]. }
  split; [done|]. intros id1 id2 r1 r2 H1 H2 Hk Hne.
  destruct (Hone _ _ H1) as [E1|]; [|by left]. destruct (Hone _ _ H2) as [E2|]; [|by right]. congruence.
Qed.

(** ** A call that is left alone *)

Definition viewLink (r : rlink) : linkInfo := mkInfo (r_key r) (r_spec r) (r_cancel r) (r_cancelled r) (r_done r).
Definition view (c : P2P.P2P.Config) (st : state) : Engine :=
  mkEngine (s_subnet st) (s_peers st) (viewLink <$> s_links st) (s_next st) (if s_ctx st then Some false else None) c.

Lemma view_set_link c f g id st :
  (forall r, viewLink (f r) = g (viewLink r)) -> view c (set_link f id st) = set_info g id (view c st).
Proof.
  intros Hf. unfold view, set_info, set_link. cbn. f_equal. apply map_eq. intros k. rewrite lookup_fmap.
  destruct (decide (k = id)) as [->|]; [|by rewrite !lookup_alter_ne, lookup_fmap].
  rewrite !lookup_alter_eq, lookup_fmap. destruct (s_links st !! id); simpl; by rewrite ?Hf.
Qed.

Lemma view_enter c key spec st : view c (enter key spec st) = Engine.enter key spec (view c st).
Proof. unfold view, enter, Engine.enter. cbn. by rewrite fmap_insert. Qed.

Lemma view_drops c wanted have : forall st acts,
  view c (fold_left (dropR wanted) have st) = (fold_left (drop wanted) have (view c st, acts)).1.
Proof.
  induction have as [|key have IH]; intros st acts; [done|]. cbn [fold_left].
  assert (E : exists acts', drop wanted (view c st, acts) key = (view c (dropR wanted st key), acts')).
  { unfold drop, dropR. cbn [view e_peers]. destruct (s_peers st !! key); [|by eexists]. destruct (wanted !! key); by eexists. }
  destruct E as [acts' ->]. apply IH.
Qed.

Lemma view_adds c wanted want : forall st acts moved starting,
  let '(st', moved', starting') := fold_left (addR wanted) want (st, moved, starting) in
  exists acts', fold_left (add wanted) want (view c st, acts, moved, starting) = (view c st', acts', moved', starting').
Proof.
  induction want as [|key want IH]; intros st acts moved starting; [by eexists|]. cbn [fold_left].
  assert (E : exists acts', add wanted (view c st, acts, moved, starting) key =
    (view c (addR wanted (st, moved, starting) key).1.1, acts', (addR wanted (st, moved, starting) key).1.2,
     (addR wanted (st, moved, starting) key).2)).
  { unfold add, addR. cbn [view e_peers e_links]. destruct (wanted !! key) as [spec|]; [|by eexists].
    destruct (s_peers st !! key) as [id|].
    - rewrite lookup_fmap. destruct (s_links st !! id) as [r|]; [|by eexists]. cbn.
      rewrite (view_set_link c (set_spec spec) (respec spec)) by done. by eexists.
    - eexists. by rewrite <- view_enter. }
  destruct E as [acts' ->]. destruct (addR wanted (st, moved, starting) key) as [[st1 m1] s1]. apply IH.
Qed.

Lemma view_thread c i t st : view c (set_thread i t st) = view c st.
Proof. done. Qed.

Lemma steps_succ have want i n st :
  steps false (replicate (S n) (EThread i have want)) st =
  steps false (replicate n (EThread i have want)) (step false st (EThread i have want)).
Proof. done. Qed.

(** Once it has started its links a call has nothing left. *)
Lemma started_alone c have want i starting : forall st,
  s_threads st !! i = Some (TStart starting) ->
  exists n, let st' := steps false (replicate n (EThread i have want)) st in
    s_threads st' !! i = Some TDone /\ view c st' = startAll starting (view c st).
Proof.
  induction starting as [|id starting IH]; intros st Hi.
  - exists 1%nat. simpl. rewrite Hi. simpl. rewrite list_lookup_insert_eq by (by eapply lookup_lt_Some). done.
  - destruct (IH (set_thread i (TStart starting) (set_link start id st))) as [n Hn].
    { simpl. by rewrite list_lookup_insert_eq by (by eapply lookup_lt_Some). }
    exists (S n). rewrite steps_succ. cbn [step]. rewrite Hi. cbn [tstep]. destruct Hn as [? ->]. split; [done|].
    rewrite view_thread, (view_set_link c start startLink) by done. done.
Qed.

Lemma moved_alone c have want i starting moved : forall st,
  s_threads st !! i = Some (TMoved moved starting) ->
  exists n, let st' := steps false (replicate n (EThread i have want)) st in
    s_threads st' !! i = Some TDone /\ view c st' = startAll starting (set_ctx (view c st)).
Proof.
  induction moved as [|m moved IH]; intros st Hi.
  - destruct (started_alone c have want i starting (tstep false have want i (TMoved [] starting) st)) as [n Hn].
    { simpl. by rewrite list_lookup_insert_eq by (by eapply lookup_lt_Some). }
    exists (S n). rewrite steps_succ. cbn [step]. by rewrite Hi.
  - destruct (IH (tstep false have want i (TMoved (m :: moved) starting) st)) as [n Hn].
    { simpl. by rewrite list_lookup_insert_eq by (by eapply lookup_lt_Some). }
    exists (S n). rewrite steps_succ. cbn [step]. by rewrite Hi.
Qed.

(** [Engine.SetPeers] is what the machine does when only that call goes on. *)
Theorem SetPeers_alone c peers have want endpoint i st :
  s_threads st !! i = Some (TSet peers) ->
  exists n, let st' := steps false (replicate n (EThread i have want)) st in
    s_threads st' !! i = Some TDone /\ view c st' = (SetPeers peers have want endpoint (view c st)).1.
Proof.
  intros Hi. unfold SetPeers, SetPeersLocked.
  pose proof (view_drops c (wantedOf peers) have st []) as Hd.
  pose proof (dropR_threads (wantedOf peers) have i st _ Hi) as Hi1.
  destruct (fold_left (drop (wantedOf peers)) have (view c st, [])) as [e1 acts1]. cbn [fst] in Hd.
  pose proof (view_adds c (wantedOf peers) want (fold_left (dropR (wantedOf peers)) have st) acts1 [] []) as Ha.
  pose proof (addR_threads (wantedOf peers) want (fold_left (dropR (wantedOf peers)) have st, [], [])) as Hth.
  destruct (fold_left (addR (wantedOf peers)) want _) as [[st2 moved] starting] eqn:E2. cbn [fst] in Hth.
  destruct Ha as [acts2 Ha]. rewrite Hd in Ha. rewrite Ha. cbn [fst].
  destruct (moved_alone c have want i starting moved (set_thread i (TMoved moved starting) st2)) as [n Hn].
  { simpl. apply list_lookup_insert_eq. rewrite Hth. by eapply lookup_lt_Some. }
  exists (S n). rewrite steps_succ. cbn [step]. rewrite Hi. cbn [tstep andb]. by rewrite E2.
Qed.

End Steps.

(** ** Without turns, and with a slow retirement *)

(** A map that brings a peer, and a pause that arrives between its lock and the
    start of the link. *)
Definition exPause : list event :=
  [ECall (TSet [exP 1 [exHome]]); EThread 0 [] [k_ 1];
   ECall (TSet []); EThread 1 [k_ 1] []; EThread 2 [] [];
   EThread 0 [] []; EThread 0 [] []; EThread 0 [] [];
   EThread 1 [] []; EThread 1 [] []; EConnect 0; EEnd 0; EThread 2 [] []].

(** as the calls are, that pause is lost on that peer: every call has returned,
    the map is empty, the goroutine works on, nobody will ever cancel it, and the
    retirement waits for it for ever. *)
Theorem pause_leaves_a_tunnel :
  let st := steps false exPause (init exMesh) in
  s_peers st = ∅ /\ s_wg st = {[ k_ 1 ]} /\
  s_threads st = [TDone; TDone; TRetireWait 0] /\
  exists r, s_links st !! 0%nat = Some r /\ r_started r = true /\ r_done r = false /\ r_cancelled r = false.
Proof.
  split; [vm_compute; reflexivity|]. split; [vm_compute; reflexivity|]. split; [vm_compute; reflexivity|].
  eexists. split; [vm_compute; reflexivity|]. done.
Qed.

(** A pause and a resume one after the other, on a machine that keeps a route
    per peer, with the goroutine of the first link slow to stop. *)
Definition exResume : list event :=
  [ECall (TSet [exP 1 [exHome]]); EThread 0 [] [k_ 1]; EThread 0 [] []; EThread 0 [] []; EThread 0 [] []; EConnect 0;
   ECall (TSet []); EThread 1 [k_ 1] []; EThread 1 [] []; EThread 1 [] []; EThread 2 [] [];
   ECall (TSet [exP 1 [exHome]]); EThread 3 [] [k_ 1]; EThread 3 [] []; EThread 3 [] []; EThread 3 [] []; EConnect 1;
   EEnd 0; EThread 2 [] []].

(** taking turns is not enough either: the retirement of the first link ends
    after the second was started, and takes away the route and the peer that are
    now the second's, which stays in the map, running, and carries nothing. *)
Theorem late_retirement_unroutes :
  let st := steps true exResume (init PrefixZero) in
  s_peers st !! k_ 1 = Some 1%nat /\ s_routes st = ∅ /\ s_wg st = ∅ /\
  s_threads st = [TDone; TDone; TDone; TDone] /\
  exists r, s_links st !! 1%nat = Some r /\ r_started r = true /\ r_cancelled r = false.
Proof.
  split; [vm_compute; reflexivity|]. split; [vm_compute; reflexivity|]. split; [vm_compute; reflexivity|].
  split; [vm_compute; reflexivity|]. eexists. split; [vm_compute; reflexivity|]. done.
Qed.

(** ** Witness *)


(** Two goroutines on one peer, the older being retired. *)
Lemma one_goroutine_per_peer_witness :
  let st := steps false (take 17 exResume) (init PrefixZero) in
  exists r0 r1, working st 0 r0 /\ working st 1 r1 /\ r_key r0 = r_key r1 /\ s_peers st !! r_key r1 = Some 1%nat /\
    (retiring st 0 \/ retiring st 1).
Proof.
  do 2 eexists. split; [split; [vm_compute; reflexivity|done]|]. split; [split; [vm_compute; reflexivity|done]|].
  split; [reflexivity|]. split; [vm_compute; reflexivity|].
  refine (proj2 (one_goroutine_per_peer false (take 17 exResume) PrefixZero) 0%nat 1%nat _ _ _ _ _ _).
  - split; [vm_compute; reflexivity|done].
  - split; [vm_compute; reflexivity|done].
  - reflexivity.
  - done.
Defined.

End EngineRace.
