(* ===== verification/Farewell.v ===== *)
(** * The goodbye, from one machine to the link of another.

    [Engine.Goodbye] (internal/engine/engine.go) runs when a machine is about to
    restart or stop: it tells every peer, one after the other, waiting for each
    envelope to leave.  This file composes it with what carries it: the
    signalling client of this machine, the switchboard, the client of the peer
    and the peer's [dispatch]. *)
From S2P Require Import Prelude GoStrings Keys Base64 SignalProto SignalServer SignalClient P2P Session Link Engine.
Import SignalProto.SignalProto.

Module Farewell.
Import SignalClient.SignalClient.
Import Link.Link (peerLink, dispatchLink, abandon, whyGoodbye, l_session, hold).

Section Farewell.
Context `{SealLib}.

(** What the libraries answer to one farewell: the nonce drawn, and whether the
    writer took the envelope before the time was up. *)
Record farewell : Type := mkFarewell { fw_nonce : option (list byte); fw_inTime : bool }.

(** The client after [SendNow], whatever that returned.  [cl_out] is what the queue
    was given during the goodbye: what the writer takes of it meanwhile stays
    listed, so the room the theorems ask for is more than is needed.  [ch] names
    the channel waited on. *)
Definition afterSendNow (c : Client) (to : Key) (ch : nat) (f : farewell) : Client :=
  match Seal emptyBody (cl_priv c) to (fw_nonce f) with
  | Err _ => c
  | Ok sealed =>
      match queue c (mkOutbound (envelope c to KindBye sealed) (Some ch)) with
      | Err _ => c
      | Ok c' => c'
      end
  end.

(** How long it kept the caller: not at all when nothing was queued. *)
Definition waited (c : Client) (to : Key) (f : farewell) : Z :=
  match Seal emptyBody (cl_priv c) to (fw_nonce f) with
  | Err _ => 0
  | Ok sealed =>
      if (length (cl_out c) <? outQueue)%nat && negb (fw_inTime f) then Engine.Engine.goodbyeFlush else 0
  end.

(** [Goodbye]: [keys] is the order in which Go ranges over the peers. *)
Fixpoint Goodbye (c : Client) (ch : nat) (keys : list (Key * farewell)) : Client * Z :=
  match keys with
  | [] => (c, 0)
  | (k, f) :: keys =>
      let '(c', t) := Goodbye (afterSendNow c k ch f) (S ch) keys in
      (c', waited c k f + t)
  end.

(** [SendNow] reports what [afterSendNow] says it did. *)
Lemma SendNow_after c to ch f :
  match SendNow c to KindBye emptyBody (fw_nonce f) ch (fw_inTime f) with
  | Ok c' => afterSendNow c to ch f = c' /\ fw_inTime f = true
  | Err ENotInTime => length (cl_out (afterSendNow c to ch f)) = S (length (cl_out c))
  | Err _ => afterSendNow c to ch f = c
  end.
Proof.
  unfold SendNow, afterSendNow. destruct (Seal _ _ _ _); [|done].
  unfold queue. destruct (_ <? _)%nat; [|done]. destruct (fw_inTime f); [done|].
  simpl. rewrite length_app. simpl. lia.
Qed.

(** ** What is queued *)

(** An envelope of the farewell to [k]. *)
Definition farewellTo (c : Client) (k : Key) (o : outbound) : Prop :=
  exists sealed n, Seal emptyBody (cl_priv c) k (Some n) = Ok sealed /\
    o_env o = envelope c k KindBye sealed.

Lemma afterSendNow_keeps c to ch f :
  cl_priv (afterSendNow c to ch f) = cl_priv c /\
  exists q, cl_out (afterSendNow c to ch f) = cl_out c ++ q /\ (length q <= 1)%nat /\
    (length (cl_out (afterSendNow c to ch f)) <= outQueue \/ q = [])%nat.
Proof.
  unfold afterSendNow. destruct (Seal _ _ _ _); [|split; [done|exists []; rewrite app_nil_r; simpl; auto with lia]].
  unfold queue. destruct (Nat.ltb_spec (length (cl_out c)) outQueue) as [Hlt|].
  - split; [done|]. eexists. split; [simpl; reflexivity|]. simpl. rewrite length_app. simpl. split; [lia|left; lia].
  - split; [done|]. exists []. rewrite app_nil_r. simpl. auto with lia.
Qed.

Lemma Goodbye_priv keys : forall c ch, cl_priv (Goodbye c ch keys).1 = cl_priv c.
Proof.
  induction keys as [|[k f] keys IH]; intros c ch; simpl; [done|].
  specialize (IH (afterSendNow c k ch f) (S ch)). destruct (Goodbye _ _ _). simpl in *.
  rewrite IH. apply afterSendNow_keeps.
Qed.

Lemma Goodbye_grows keys : forall c ch, exists q, cl_out (Goodbye c ch keys).1 = cl_out c ++ q.
Proof.
  induction keys as [|[k f] keys IH]; intros c ch; simpl; [exists []; by rewrite app_nil_r|].
  destruct (IH (afterSendNow c k ch f) (S ch)) as [q Hq]. destruct (Goodbye _ _ _). simpl in *.
  destruct (afterSendNow_keeps c k ch f) as (_ & q0 & E & _). rewrite Hq, E, <- app_assoc. by eexists.
Qed.

(** Every peer whose farewell can be sealed and finds room is told. *)
Lemma Goodbye_tells keys : forall c ch k f n,
  (k, f) ∈ keys -> fw_nonce f = Some n -> (exists plain, marshal emptyBody = Some plain) ->
  (length (cl_out c) + length keys <= outQueue)%nat ->
  exists o, o ∈ cl_out (Goodbye c ch keys).1 /\ Seal emptyBody (cl_priv c) k (Some n) = Ok (e_body (o_env o)) /\
    o_env o = envelope c k KindBye (e_body (o_env o)).
Proof.
  induction keys as [|[k0 f0] keys IH]; intros c ch k f n Hin Hn Hm Hroom; [by apply not_elem_of_nil in Hin|].
  destruct (afterSendNow_keeps c k0 ch f0) as (Hp & q0 & E & Hq0 & _). cbn [length] in Hroom. cbn [Goodbye].
  pose proof (Goodbye_grows keys (afterSendNow c k0 ch f0) (S ch)) as [q Hq].
  specialize (IH (afterSendNow c k0 ch f0) (S ch)).
  destruct (Goodbye (afterSendNow c k0 ch f0) (S ch) keys) as [c' t]. simpl in *.
  apply elem_of_cons in Hin as [[= -> ->]|Hin].
  - destruct Hm as [plain Hm]. unfold afterSendNow, Seal in Hq. rewrite Hm, Hn in Hq.
    unfold queue in Hq. destruct (Nat.ltb_spec (length (cl_out c)) outQueue); [|lia]. simpl in Hq.
    eexists. split; [rewrite Hq; apply elem_of_app; left; apply elem_of_app; right; by left|].
    simpl. unfold Seal. by rewrite Hm.
  - assert (Hlen : (length (cl_out (afterSendNow c k0 ch f0)) + length keys <= outQueue)%nat).
    { rewrite E, length_app. lia. }
    destruct (IH k f n Hin Hn Hm Hlen) as (o & Ho & Hs & He). exists o. rewrite Hp in Hs. split; [done|].
    split; [done|]. rewrite He at 1. unfold envelope. by rewrite Hp.
Qed.

(** ** End to end *)

Context (decodes : string -> bool).

(** C7: a machine that says goodbye puts, for every peer the queue has room for, an
    envelope in its queue that the switchboard delivers to that peer's socket
    and to no other, that opens there as a goodbye from this machine, and that
    ends the attempt the peer was in, with the reason. *)
Theorem goodbye_ends_attempts c ch keys bob k f n s dst l :
  (k, f) ∈ keys -> fw_nonce f = Some n -> length n = nonceLen -> encodable emptyBody ->
  length (cl_priv c) = keyLen -> length (cl_priv bob) = keyLen -> k = PublicKey (cl_priv bob) ->
  (length (cl_out c) + length keys <= outQueue)%nat ->
  SignalServer.SignalServer.peers s !! KeyString k = Some dst -> l_session l <> None ->
  exists o m, o ∈ cl_out (Goodbye c ch keys).1 /\
    SignalServer.SignalServer.route s (o_env o) = Some (dst, o_env o) /\
    open bob (o_env o) = Some m /\ m_from m = PublicKey (cl_priv c) /\
    dispatchLink decodes m l = Ret (abandon whyGoodbye l).
Proof.
  intros Hin Hn Hlen Henc Ha Hb Hk Hroom Hdst Hl.
  destruct (marshal_encodable _ Henc) as (plain & Hm & _).
  destruct (Goodbye_tells keys c ch k f n Hin Hn ltac:(by exists plain) Hroom) as (o & Ho & Hs & He).
  exists o, (mkMessage (PublicKey (cl_priv c)) KindBye emptyBody). split; [done|]. split; [|split; [|split; [done|]]].
  - unfold SignalServer.SignalServer.route. rewrite He. simpl. by rewrite Hdst.
  - rewrite Hk in Hs. pose proof (Open_Seal _ _ _ _ _ Henc Ha Hb Hlen Hs) as Hopen.
    unfold open. rewrite He. cbn [envelope e_from e_kind e_body].
    rewrite ParseKey_String by by apply PublicKey_length.
    destruct (Nat.eqb_spec (length (e_body (o_env o))) 0) as [E|]; simpl; [unfold Open in Hopen; by rewrite E in Hopen|].
    by rewrite Hopen.
  - unfold dispatchLink. destruct (l_session l); [done|done].
Qed.

(** and it cannot take for ever: a switchboard that takes nothing costs the
    restart three tenths of a second for each peer, and no more than the queue
    has places. *)
Theorem Goodbye_bounded keys : forall c ch,
  0 <= (Goodbye c ch keys).2 <=
    Z.of_nat (Nat.min (length keys) (outQueue - length (cl_out c))) * Engine.Engine.goodbyeFlush.
Proof.
  assert (Hf : 0 < Engine.Engine.goodbyeFlush) by (unfold Engine.Engine.goodbyeFlush, Millisecond; lia).
  induction keys as [|[k f] keys IH]; intros c ch; cbn [Goodbye length snd]; [lia|].
  assert (Hmin : forall a b r G, (a <= b)%nat -> 0 < G -> Z.of_nat (Nat.min a r) * G <= Z.of_nat (Nat.min b r) * G)
    by (intros a b r G Hab HG; apply Z.mul_le_mono_pos_r; [done|lia]).
  specialize (IH (afterSendNow c k ch f) (S ch)).
  unfold waited. unfold afterSendNow in *. destruct (Seal emptyBody (cl_priv c) k (fw_nonce f)) as [sealed|].
  2:{ destruct (Goodbye _ _ _) as [c' t]. cbn [snd] in *.
      specialize (Hmin (length keys) (S (length keys)) (outQueue - length (cl_out c))%nat _ ltac:(lia) Hf). lia. }
  unfold queue in *. destruct (Nat.ltb_spec (length (cl_out c)) outQueue) as [Hlt|Hge].
  - destruct (Goodbye _ _ _) as [c' t]. cbn [snd cl_out set_out] in *. rewrite length_app in IH. simpl in IH.
    set (r := (outQueue - length (cl_out c))%nat) in *.
    replace (outQueue - (length (cl_out c) + 1))%nat with (r - 1)%nat in IH by (unfold r; lia).
    assert (Hone : Z.of_nat (Nat.min (S (length keys)) r) = Z.of_nat (Nat.min (length keys) (r - 1)) + 1)
      by (unfold r; lia).
    rewrite Hone. destruct (fw_inTime f); cbn [andb negb]; nia.
  - destruct (Goodbye _ _ _) as [c' t]. cbn [snd andb] in *.
    specialize (Hmin (length keys) (S (length keys)) (outQueue - length (cl_out c))%nat _ ltac:(lia) Hf). lia.
Qed.

End Farewell.

(** ** Witness *)

Definition exKeys : list (Key * farewell) :=
  [(PublicKey (exKey 3), mkFarewell None true);
   (PublicKey (exKey 2), mkFarewell (Some (repeat Byte.x07 nonceLen)) false)].

Definition exBoard : SignalServer.SignalServer.Server :=
  SignalServer.SignalServer.mkServer {[ KeyString (PublicKey (exKey 2)) := 5%nat ]} ∅ 6 ∅.

Lemma goodbye_ends_attempts_witness :
  (Goodbye exAlice 0 exKeys).2 = 300 * Millisecond /\
  exists o m, o ∈ cl_out (Goodbye exAlice 0 exKeys).1 /\
    SignalServer.SignalServer.route exBoard (o_env o) = Some (5%nat, o_env o) /\
    open exBob (o_env o) = Some m /\ m_from m = PublicKey (exKey 1) /\
    dispatchLink (fun _ => true) m (Link.Link.exLinkOf (exKey 2) (exKey 1)) =
      Ret (abandon whyGoodbye (Link.Link.exLinkOf (exKey 2) (exKey 1))).
Proof.
  split; [vm_compute; reflexivity|].
  apply (goodbye_ends_attempts (fun _ => true) exAlice 0 exKeys exBob (PublicKey (exKey 2))
           (mkFarewell (Some (repeat Byte.x07 nonceLen)) false) (repeat Byte.x07 nonceLen)); try reflexivity.
  - apply list_elem_of_further, list_elem_of_here.
  - repeat split.
  - vm_compute. lia.
  - discriminate.
Defined.

End Farewell.
