(* ===== verification/Delivery.v ===== *)
(** * From one session to the other: what carries the words of a negotiation.

    A session speaks through [sigLink] (internal/engine/engine.go), which gives
    its words to the signalling client; the switchboard hands the envelope to the
    peer's socket; the peer's client opens it and [dispatch] gives it to the link
    it belongs to.  [Handshake] takes this path for a delivery, and here it is
    walked: what arrives does to the peer's session what the word says. *)
From S2P Require Import Prelude GoStrings Keys SignalProto SignalServer SignalOrder SignalClient P2P Session Link Handshake.
Import SignalProto.SignalProto.

Module Delivery.
Import SignalClient.SignalClient.
Import SignalOrder.SignalOrder (serverSteps).
Import Link.Link (peerLink, dispatchLink, feed, hold, l_session, set_session).
Import SignalServer.SignalServer (Server, peers, conns, blocked, conn, c_send, c_written, c_closed, c_key, c_live,
  mkConn, upd_conn, EFrame, EWrite, readFrame, enqueueNow, route, sendQueue, reachable, push, step).
Import Session.Session (out, OOffer, OAnswer, EvCreds, EvCandidate, m_s, SetRemoteCredentials).

(** What a session has to say: [p2p.Signaller]. *)
Inductive word : Type := WOffer (ufrag pwd : string) | WAnswer (ufrag pwd : string) | WCandidate (candidate : string).



(** The word of an output: [announce] calls [SendOffer] or [SendAnswer]. *)
Definition wordOf (o : out) : option word :=
  match o with OOffer u p => Some (WOffer u p) | OAnswer u p => Some (WAnswer u p) | _ => None end.

Section Delivery.
Context `{SealLib}.
Context {URI : Type} (ParseURI : string -> option URI) (withCredential : URI -> string -> string -> URI).
Context (decodes : string -> bool).



(** [dispatch]: a message of somebody who is no peer goes nowhere. *)
Definition dispatch (m : Message) (links : gmap string peerLink) : go (gmap string peerLink) :=
  match links !! KeyString (m_from m) with
  | None => Ret links
  | Some l => l' ← dispatchLink decodes m l; Ret (<[KeyString (m_from m) := l']> links)
  end.

(** ** The switchboard *)











(** ** The two clients *)



(** ** The session *)

Notation exec := (Session.Session.exec ParseURI withCredential decodes).





(** The words of a negotiation are what [Handshake] delivers. *)
Lemma said_word o : Handshake.Handshake.said o = (w ← wordOf o; match w with WOffer u p | WAnswer u p => Some (u, p) | WCandidate _ => None end).
Proof. by destruct o. Qed.

(** Nobody who is not a peer is listened to. *)
Lemma stranger_ignored m links : links !! KeyString (m_from m) = None -> dispatch m links = Ret links.
Proof. intros E. unfold dispatch. by rewrite E. Qed.

End Delivery.

(** ** Witness *)





End Delivery.
