(* ===== verification/Router.v ===== *)
(** * internal/router: carrying a network for the mesh (router.go,
    router_linux.go, router_darwin.go).

    The forwarding switch of the kernel is the text it reads back; whether [nft],
    [pfctl] and the files answer, and what the routing table says, are the
    arguments of each call.  Both operating systems turn the switch on and put it
    back the same way and differ in [platform]. *)
From S2P Require Import Prelude GoStrings NetIP NetText NFT.

Module Router.
Import NetText.NetText NFT.NFT.

Record Route : Type := mkRoute { Network : Prefix; Masquerade : bool }.

#[global] Instance Route_eq_dec : EqDecision Route.
Proof. solve_decision. Defined.

Definition netText (r : Route) : string := Prefix_String (Network r).

(** The order of [sorted]: the text of the networks.  [sort.Slice] says nothing
    about two routes to one network, so the theorem about it asks for none. *)
Definition text_le (a b : Route) : Prop := String.compare (netText a) (netText b) <> Gt.

#[global] Instance text_le_dec : RelDecision text_le.
Proof. intros a b. unfold text_le. apply _. Defined.

Definition sorted (routes : list Route) : list Route := merge_sort text_le routes.

Definition networks (routes : list Route) : string := Join ", " (map netText routes).

(** [unsupported.Apply]. *)
Definition unsupportedApply (why : string) : string :=
  if (String.length why =? 0)%nat then "router: not supported on this system" else "router: " +:+ why.

(** ** Linux *)

Definition table : string := "netflow-router".
Definition forwardSysctl : string := "/proc/sys/net/ipv4/ip_forward".

Definition routerLines (iface : string) (mesh : Prefix) (routes : list Route) : list string :=
  ["table inet " +:+ table; "delete table inet " +:+ table; "table inet " +:+ table +:+ " {";
   "  chain forward {";
   "    type filter hook forward priority filter; policy accept;";
   "    ct state established,related accept";
   "    iifname " +:+ dquote +:+ iface +:+ dquote +:+ " ip saddr " +:+ Prefix_String mesh +:+
     " ip daddr { " +:+ networks routes +:+ " } accept";
   "  }"] ++
  (let masq := List.filter Masquerade routes in
   if (0 <? length masq)%nat then
     ["  chain postrouting {";
      "    type nat hook postrouting priority srcnat; policy accept;";
      "    ip saddr " +:+ Prefix_String mesh +:+ " ip daddr { " +:+ networks masq +:+ " } masquerade";
      "  }"]
   else []) ++
  ["}"].

Definition buildRouterRuleset (iface : string) (mesh : Prefix) (routes : list Route) : string :=
  unlines (routerLines iface mesh routes).

Definition clearText : string := unlines ["table inet " +:+ table; "delete table inet " +:+ table].

(** ** macOS *)

Definition anchorName : string := "netflow".

Definition natLine (mesh : Prefix) (dev : string) (r : Route) : string :=
  "nat on " +:+ dev +:+ " from " +:+ Prefix_String mesh +:+ " to " +:+ netText r +:+ " -> (" +:+ dev +:+ ")".

(** [buildAnchor]; [out] is the interface each network leaves by, empty when the
    routing table cannot tell. *)
Definition anchorLines (iface : string) (mesh : Prefix) (routes : list Route) (out : Prefix -> string) : list string :=
  ["# Written by nfagent. Edits are lost on the next change."] ++
  concat (map (fun r => if negb (Masquerade r) then []
                        else let dev := out (Network r) in
                             if String.eqb dev "" then [] else [natLine mesh dev r]) routes) ++
  concat (map (fun r => ["pass in on " +:+ iface +:+ " from " +:+ Prefix_String mesh +:+ " to " +:+ netText r;
                         "pass out from " +:+ Prefix_String mesh +:+ " to " +:+ netText r]) routes).

Definition buildAnchor (iface : string) (mesh : Prefix) (routes : list Route) (out : Prefix -> string) : string :=
  unlines (anchorLines iface mesh routes out).

(** [strings.Cut] at a text: what follows its first occurrence. *)
Fixpoint cutAfter (s sep : string) : option string :=
  if HasPrefix s sep then Some (drop_chars (String.length sep) s)
  else match s with "" => None | String _ s => cutAfter s sep end.

(** [egress], from what [route -n get] printed. *)
Fixpoint egressLines (ls : list string) : string :=
  match ls with
  | [] => ""
  | l :: ls => match cutAfter (TrimSpace l) "interface:" with
               | Some rest => TrimSpace rest
               | None => egressLines ls
               end
  end.
Definition egress (out : option string) : string :=
  match out with None => "" | Some out => egressLines (splitc nl out) end.

(** [ensureAnchorReferenced]: the text of /etc/pf.conf after it, and whether it
    was written. *)
Definition anchorLine : string := "anchor " +:+ dquote +:+ anchorName +:+ dquote.

Definition ensureAnchorReferenced (current : string) : string * bool :=
  if GoStrings.Contains current anchorLine then (current, false)
  else
    let updated := if HasSuffix current NL then current else current +:+ NL in
    (updated +:+ NL +:+ "# Added by nfagent so it can carry networks for the mesh." +:+ NL +:+
       anchorLine +:+ NL +:+ "nat-anchor " +:+ dquote +:+ anchorName +:+ dquote +:+ NL, true).

(** ** The switch *)

Inductive routerError : Type := EUnavailable (why : string) | ERead | EWrite | EAnchor | ERules.

Record router : Type := mkRouter { wasForwarding : string; touched : bool }.

Definition newRouter : router := mkRouter "" false.

(** What the machine answers while one call runs: whether the tool is
    installed, whether the switch exists, can be read and written, whether the
    anchor's directory and file can be written, whether /etc/pf.conf can be read,
    written and reloaded, whether the rules are taken; and what the routing table
    says. *)
Record answers : Type := mkAnswers {
  a_tool : bool; a_stat : bool; a_reads : bool; a_writes : bool;
  a_anchorDir : bool; a_anchorFile : bool; a_confRead : bool; a_confWrite : bool; a_confLoad : bool;
  a_rules : bool; a_route : Prefix -> string }.

(** The machine: the forwarding switch as it reads, the rules this agent has in
    the firewall, and the two files of macOS. *)
Record machine : Type := mkMachine {
  switch : string; rules : option string; anchorText : option string; pfConf : string }.

Definition setSwitch (t : string) (m : machine) : machine := mkMachine t (rules m) (anchorText m) (pfConf m).
Definition setRules (r : option string) (m : machine) : machine := mkMachine (switch m) r (anchorText m) (pfConf m).
Definition setAnchor (t : string) (m : machine) : machine := mkMachine (switch m) (rules m) (Some t) (pfConf m).
Definition setPfConf (t : string) (m : machine) : machine := mkMachine (switch m) (rules m) (anchorText m) t.

(** [enableForwarding] reads the switch; one that is off is noted, the first time,
    and has to be written. *)
Definition lookSwitch (a : answers) (r : router) (m : machine) : router * result routerError bool :=
  if negb (a_reads a) then (r, Err ERead)
  else if String.eqb (TrimSpace (switch m)) "1" then (r, Ok false)
  else (if touched r then r else mkRouter (TrimSpace (switch m)) true, Ok true).

(** And writes it; it reads "1" and a newline afterwards. *)
Definition turnOn (a : answers) (m : machine) : machine * result routerError unit :=
  if a_writes a then (setSwitch ("1" +:+ NL) m, Ok tt) else (m, Err EWrite).

Definition enableForwarding (a : answers) (r : router) (m : machine) : router * machine * result routerError unit :=
  match lookSwitch a r m with
  | (r, Err e) => (r, m, Err e)
  | (r, Ok false) => (r, m, Ok tt)
  | (r, Ok true) => let '(m, res) := turnOn a m in (r, m, res)
  end.

(** What differs between the systems. *)
Record platform : Type := mkPlatform {
  available : answers -> option string;
  load : answers -> string -> Prefix -> list Route -> machine -> machine * result routerError unit;
  clear : answers -> machine -> machine }.

Definition availableLinux (a : answers) : option string :=
  if negb (a_tool a) then Some "nftables is not installed (apt install nftables)"
  else if negb (a_stat a) then Some "this kernel has no IPv4 forwarding switch" else None.

Definition loadLinux (a : answers) (iface : string) (mesh : Prefix) (routes : list Route) (m : machine) :
    machine * result routerError unit :=
  if a_rules a then (setRules (Some (buildRouterRuleset iface mesh routes)) m, Ok tt) else (m, Err ERules).

(** What [nft] answers to the removal is ignored, as [pfctl]'s is. *)
Definition clearLinux (a : answers) (m : machine) : machine :=
  if negb (a_tool a) then m else if a_rules a then setRules None m else m.

Definition linux : platform := mkPlatform availableLinux loadLinux clearLinux.

Definition availableDarwin (a : answers) : option string :=
  if negb (a_tool a) then Some "pfctl is missing, which should not happen on macOS" else None.

Definition loadDarwin (a : answers) (iface : string) (mesh : Prefix) (routes : list Route) (m : machine) :
    machine * result routerError unit :=
  if negb (a_anchorDir a && a_anchorFile a) then (m, Err EAnchor)
  else
    let anchor := buildAnchor iface mesh routes (a_route a) in
    let m := setAnchor anchor m in
    if negb (a_confRead a) then (m, Err ERead)
    else
      let '(conf, changed) := ensureAnchorReferenced (pfConf m) in
      if changed && negb (a_confWrite a) then (m, Err EWrite)
      else
        let m := setPfConf conf m in
        if changed && negb (a_confLoad a) then (m, Err ERules)
        else if a_rules a then (setRules (Some anchor) m, Ok tt) else (m, Err ERules).

Definition clearDarwin (a : answers) (m : machine) : machine :=
  if negb (a_tool a) then m else if a_rules a then setRules None m else m.

Definition darwin : platform := mkPlatform availableDarwin loadDarwin clearDarwin.

Section Platform.
Context (p : platform).

(** [Apply]: nothing to carry takes the rules away and leaves the switch alone;
    otherwise the machine is checked, then the switch, then the rules. *)
Definition Apply (a : answers) (iface : string) (mesh : Prefix) (routes : list Route) (r : router) (m : machine) :
    router * machine * result routerError unit :=
  let routes := sorted routes in
  if (length routes =? 0)%nat then (r, clear p a m, Ok tt)
  else match available p a with
       | Some why => (r, m, Err (EUnavailable why))
       | None =>
           match enableForwarding a r m with
           | (r, m, Err e) => (r, m, Err e)
           | (r, m, Ok _) => let '(m, res) := load p a iface mesh routes m in (r, m, res)
           end
       end.

(** [Close]: the rules go, and the switch goes back only if this turned it on. *)
Definition putBack (a : answers) (r : router) (m : machine) : machine * result routerError unit :=
  if touched r && negb (String.eqb (wasForwarding r) "") && negb (String.eqb (wasForwarding r) "1")
  then if a_writes a then (setSwitch (wasForwarding r +:+ NL) m, Ok tt) else (m, Err EWrite)
  else (m, Ok tt).

Definition Close (a : answers) (r : router) (m : machine) : machine * result routerError unit := putBack a r (clear p a m).

(** A life: any number of [Apply]. *)
Fixpoint applies (calls : list (answers * string * Prefix * list Route)) (r : router) (m : machine) : router * machine :=
  match calls with
  | [] => (r, m)
  | (a, iface, mesh, routes) :: calls => let '(r, m, _) := Apply a iface mesh routes r m in applies calls r m
  end.

End Platform.

(** What the platforms promise the switch: neither the rules nor their removal
    touch it, and removal works where the tool does. *)
Class Platform (p : platform) : Prop := {
  load_switch a iface mesh routes m : switch (load p a iface mesh routes m).1 = switch m;
  clear_switch a m : switch (clear p a m) = switch m;
  clear_rules a m : a_tool a = true -> a_rules a = true -> rules (clear p a m) = None;
  load_rules a iface mesh routes m : (load p a iface mesh routes m).2 = Ok tt -> is_Some (rules (load p a iface mesh routes m).1) }.

#[global] Instance linux_platform : Platform linux.
Proof.
  split; intros; unfold linux, load, clear, loadLinux, clearLinux in *; repeat case_match; simplify_eq/=; try done; try (by eexists);
    by match goal with H : a_tool _ = true, H' : context [a_tool _] |- _ => rewrite H in H' end.
Qed.

#[global] Instance darwin_platform : Platform darwin.
Proof.
  split; intros; unfold darwin, load, clear, loadDarwin, clearDarwin in *; repeat case_match; simplify_eq/=; try done; try (by eexists);
    by match goal with H : a_tool _ = true, H' : context [a_tool _] |- _ => rewrite H in H' end.
Qed.

Definition kept (sw0 : string) (r : router) (sw : string) : Prop :=
  if touched r then wasForwarding r = TrimSpace sw0 /\ TrimSpace sw0 <> "1" /\ (sw = sw0 \/ sw = "1" +:+ NL)
  else sw = sw0.

(** Looking at the switch and turning it on keep what is known of it. *)
Lemma lookSwitch_kept a r m sw0 r' res :
  lookSwitch a r m = (r', res) -> kept sw0 r (switch m) ->
  kept sw0 r' (switch m) /\ (res = Ok true -> touched r' = true) /\ (res = Ok false -> r' = r /\ TrimSpace (switch m) = "1").
Proof.
  unfold lookSwitch, kept. intros E Hk. destruct (a_reads a); [cbn [negb] in E|by injection E as <- <-].
  destruct (String.eqb_spec (TrimSpace (switch m)) "1"); [by injection E as <- <-|]. injection E as <- <-.
  destruct (touched r) eqn:Et; [by rewrite Et|]. subst. cbn. split_and!; try done. by left.
Qed.

Lemma turnOn_kept a r m sw0 : touched r = true -> kept sw0 r (switch m) -> kept sw0 r (switch (turnOn a m).1).
Proof. unfold turnOn, kept. intros ->. destruct (a_writes a); cbn; [|done]. intros (? & ? & _). auto. Qed.

(** And closing puts it back. *)
Lemma putBack_kept a r m sw0 :
  sw0 = TrimSpace sw0 +:+ NL -> TrimSpace sw0 <> "" -> a_writes a = true -> kept sw0 r (switch m) ->
  (putBack a r m).2 = Ok tt /\ switch (putBack a r m).1 = sw0 /\ rules (putBack a r m).1 = rules m.
Proof.
  unfold kept, putBack. intros Hsw Hne Hw Hk. destruct (touched r); [|done]. destruct Hk as (-> & Hn1 & _).
  destruct (String.eqb_spec (TrimSpace sw0) ""); [done|]. destruct (String.eqb_spec (TrimSpace sw0) "1"); [done|].
  cbn [andb negb]. rewrite Hw. cbn. by rewrite <- Hsw.
Qed.

Section Life.
Context (p : platform) `{!Platform p}.

Lemma Apply_kept a iface mesh routes r m sw0 :
  kept sw0 r (switch m) ->
  kept sw0 (Apply p a iface mesh routes r m).1.1 (switch (Apply p a iface mesh routes r m).1.2).
Proof.
  intros Hk. unfold Apply, enableForwarding. destruct (_ =? _)%nat; [cbn; by rewrite clear_switch|].
  destruct (available p a); [done|].
  assert (forall r m, kept sw0 r (switch m) ->
    kept sw0 (let '(m', res) := load p a iface mesh (sorted routes) m in (r, m', res)).1.1
      (switch (let '(m', res) := load p a iface mesh (sorted routes) m in (r, m', res)).1.2)) as Hl.
  { intros r' m' Hk'. pose proof (load_switch a iface mesh (sorted routes) m') as E.
    destruct (load p _ _ _ _ m'). cbn in *. by rewrite E. }
  destruct (lookSwitch a r m) as [r' [[]|e]] eqn:El; destruct (lookSwitch_kept _ _ _ _ _ _ El Hk) as (Hk' & Ht & _);
    [|by apply Hl|done].
  pose proof (turnOn_kept a r' m sw0 (Ht eq_refl) Hk') as Hk2. destruct (turnOn a m) as [m' [[]|e]]; [by apply Hl|done].
Qed.

Lemma applies_kept calls r m sw0 :
  kept sw0 r (switch m) -> kept sw0 (applies p calls r m).1 (switch (applies p calls r m).2).
Proof.
  revert r m. induction calls as [|[[[a iface] mesh] routes] calls IH]; intros r m Hk; cbn [applies]; [done|].
  pose proof (Apply_kept a iface mesh routes r m sw0 Hk) as Hk'.
  destruct (Apply p a iface mesh routes r m) as [[r' m'] res]. by apply IH.
Qed.

End Life.

(** the machine is left as it was found: after any sequence of [Apply], the
    failed ones included, [Close] puts back exactly the forwarding the machine
    had, so that a machine that forwarded before still does, and takes this
    agent's rules away. *)
Theorem Close_restores p `{!Platform p} calls a m0 :
  switch m0 = TrimSpace (switch m0) +:+ NL -> TrimSpace (switch m0) <> "" ->
  a_writes a = true -> a_tool a = true -> a_rules a = true ->
  let '(r, m) := applies p calls newRouter m0 in
  let '(m, res) := Close p a r m in
  res = Ok tt /\ switch m = switch m0 /\ rules m = None.
Proof.
  intros Hsw Hne Hw Ht Hr. pose proof (applies_kept p calls newRouter m0 (switch m0) eq_refl) as Hk.
  destruct (applies p calls newRouter m0) as [r m]. unfold Close. cbn [fst snd] in Hk.
  rewrite <- (clear_switch a m) in Hk. destruct (putBack_kept a r (clear p a m) (switch m0) Hsw Hne Hw Hk) as (H1 & H2 & H3).
  destruct (putBack a r (clear p a m)). cbn in *. rewrite H3. splits. by apply clear_rules.
Qed.

(** ** The order of the routes *)

#[global] Instance text_le_total : Total text_le.
Proof.
  intros a b. unfold text_le. rewrite (String.compare_antisym (netText a) (netText b)).
  destruct (String.compare (netText b) (netText a)); simpl; (by left) || (by right).
Qed.

#[global] Instance text_le_trans : Transitive text_le.
Proof.
  intros a b c. unfold text_le. intros H1 H2 H3.
  destruct (String.compare (netText a) (netText b)) eqn:E1; [|clear H1|done].
  - apply String.compare_eq_iff in E1. rewrite E1 in H3. done.
  - destruct (String.compare (netText b) (netText c)) eqn:E2; [|clear H2|done].
    + apply String.compare_eq_iff in E2. rewrite <- E2, E1 in H3. done.
    + rewrite (string_compare_lt_trans _ _ _ E1 E2) in H3. done.
Qed.

Lemma text_le_antisym a b : text_le a b -> text_le b a -> netText a = netText b.
Proof.
  unfold text_le. rewrite (String.compare_antisym (netText a) (netText b)).
  destruct (String.compare (netText b) (netText a)) eqn:E; simpl; [|done..].
  intros _ _. symmetry. by apply String.compare_eq_iff.
Qed.

Lemma netText_inj routes a b :
  NoDup (map netText routes) -> a ∈ routes -> b ∈ routes -> netText a = netText b -> a = b.
Proof.
  intros Hnd (i & Hi)%list_elem_of_lookup (j & Hj)%list_elem_of_lookup Heq.
  assert (i = j) as ->.
  { eapply (NoDup_lookup (netText <$> routes)); [exact Hnd| |]; rewrite list_lookup_fmap.
    - by rewrite Hi.
    - by rewrite Hj, Heq. }
  congruence.
Qed.

Lemma sorted_perm routes1 routes2 :
  routes1 ≡ₚ routes2 -> NoDup (map netText routes1) -> sorted routes1 = sorted routes2.
Proof.
  intros HP Hnd. apply (StronglySorted_unique_strong text_le).
  - intros x1 x2 H1 H2 L1 L2. unfold sorted in H1, H2. rewrite merge_sort_Permutation in H1, H2.
    rewrite <- HP in H2. eapply netText_inj; eauto using text_le_antisym.
  - apply StronglySorted_merge_sort; apply _.
  - apply StronglySorted_merge_sort; apply _.
  - unfold sorted. by rewrite !merge_sort_Permutation.
Qed.

(** the same set of networks makes the same rules on either system, whatever
    order the server lists them in, so that a poll that only reorders them
    rewrites nothing. *)
Theorem ruleset_order_independent iface mesh out routes1 routes2 :
  routes1 ≡ₚ routes2 -> NoDup (map netText routes1) ->
  buildRouterRuleset iface mesh (sorted routes1) = buildRouterRuleset iface mesh (sorted routes2) /\
  buildAnchor iface mesh (sorted routes1) out = buildAnchor iface mesh (sorted routes2) out.
Proof. intros HP Hnd. by rewrite (sorted_perm routes1 routes2). Qed.

(** ** Witnesses *)

Definition lan : Prefix := mkPrefix (V4 (192 * 2 ^ 24 + 168 * 2 ^ 16)) 16.
Definition lab : Prefix := mkPrefix (V4 (10 * 2 ^ 24)) 8.
Definition fine : answers := mkAnswers true true true true true true true true true true (fun _ => "en0").

Lemma Close_restores_witness :
  let m0 := mkMachine ("0" +:+ NL) None None "" in
  let '(r, m) := applies linux [(fine, "nf0", lab, [mkRoute lan true])] newRouter m0 in
  switch m = "1" +:+ NL /\ is_Some (rules m) /\
  let '(m, res) := Close linux fine r m in
  res = Ok tt /\ switch m = switch m0 /\ rules m = None.
Proof.
  pose proof (Close_restores linux [(fine, "nf0", lab, [mkRoute lan true])] fine
    (mkMachine ("0" +:+ NL) None None "") eq_refl ltac:(done) eq_refl eq_refl eq_refl) as H.
  vm_compute in H. vm_compute. split; [reflexivity|]. split; [by eexists|]. exact H.
Defined.

Lemma ruleset_order_independent_witness :
  sorted [mkRoute lan true; mkRoute lab false] = [mkRoute lab false; mkRoute lan true] /\
  buildRouterRuleset "nf0" lab (sorted [mkRoute lan true; mkRoute lab false]) =
  buildRouterRuleset "nf0" lab (sorted [mkRoute lab false; mkRoute lan true]).
Proof.
  split; [reflexivity|].
  apply (ruleset_order_independent "nf0" lab (fun _ => "en0")); [apply Permutation_swap|].
  apply (bool_decide_unpack _). vm_compute. exact I.
Defined.

End Router.
