(* ===== verification/SelfUpdate.v ===== *)
(** * internal/selfupdate (update.go, key.go) and cmd/nfsign: replacing the
    running binary with a newer signed release, and making the signature.

    The network answers whatever it likes, in [w_head] and [w_get]; the file
    system is a map from paths to contents, whose operations may fail; running a
    binary is a function of its bytes.  Ed25519 and SHA-256 are parameters with
    the laws their documentation gives.  Theorems are about any such world. *)
From S2P Require Import Prelude GoStrings Base64.
From Stdlib Require Import Ascii.

(** [crypto/ed25519] and [crypto/sha256]. *)
Class ReleaseCrypto : Type := {
  ed_public : list byte -> list byte;                 (* the public key of a seed *)
  ed_sign : list byte -> list byte -> list byte;
  ed_verify : list byte -> list byte -> list byte -> bool;
  sha256 : list byte -> list byte;
  ed_public_length seed : length seed = 32%nat -> length (ed_public seed) = 32%nat;
  ed_verify_sign seed m : length seed = 32%nat -> ed_verify (ed_public seed) m (ed_sign seed m) = true;
  sha256_length m : length (sha256 m) = 32%nat }.

Module SelfUpdate.

Definition PublicKey : string := "28CUsS0+1/x/oucs0nCLWdeEBDIlzdMBU8noinDsJHE=".
Definition repo : string := "rogerlovato2/netflow-agent".
Definition publicKeySize : nat := 32.
Definition seedSize : nat := 32.

(** ** Versions *)

Definition versionParts : nat := 4.

(** One part: a number, with the wrap-around of [int]. *)
Fixpoint partValue (n : Z) (p : string) : option Z :=
  match p with
  | "" => Some n
  | String c p => match digit c with Some d => partValue (wrap64 (n * 10 + d)) p | None => None end
  end.

Definition parsePart (p : string) : option Z := if String.eqb p "" then None else partValue 0 p.

Fixpoint parseParts (ps : list string) : option (list Z) :=
  match ps with
  | [] => Some []
  | p :: ps => match parsePart p, parseParts ps with Some n, Some ns => Some (n :: ns) | _, _ => None end
  end.

Definition parseVersion (v : string) : option (list Z) :=
  let parts := splitc "."%char (TrimPrefix (TrimSpace v) "v") in
  if ((length parts <? 3) || (versionParts <? length parts))%nat then None
  else match parseParts parts with
       | Some ns => Some (ns ++ replicate (versionParts - length parts) 0)
       | None => None
       end.

(** The first difference decides. *)
Fixpoint greater (a b : list Z) : bool :=
  match a, b with
  | x :: a, y :: b => if x =? y then greater a b else y <? x
  | _, _ => false
  end.

Definition newer (target current : string) : bool :=
  if String.eqb current "dev" then false
  else match parseVersion target, parseVersion current with
       | Some a, Some b => greater a b
       | _, _ => false
       end.

(** ** The world of one update *)

Inductive updateError : Type :=
| ErrNoKey | ErrNotSigned | ErrNoAsset (name : string) | ErrWrongDigest (got want : string)
| ErrNotNewer | ErrUnknownVersion (current : string)
| ELatest                                  (* no answer for the newest release *)
| EBadTag (loc : string)
| EFetch (url : string)
| EStatus (url : string)
| EIO (rofs : bool)                        (* a file operation; EROFS or another *)
| ESelf                                    (* where this binary is *)
| ENotRunning
| EReports (got want : string)
| EExplained (self : string) (e : updateError).

(** What a GET is answered: nothing, or a status and the bytes that came before
    the end or, when [cut], before the connection broke. *)
Inductive httpAnswer : Type := HErr | HAns (status : Z) (body : list byte) (cut : bool).

Notation files := (gmap string (list byte)).

Record world : Type := mkWorld {
  w_noKey : bool; w_testKey : string; w_testBase : string;       (* the seams of the tests *)
  w_goos : string; w_goarch : string;
  w_head : string -> option string;                              (* the Location header *)
  w_get : string -> httpAnswer;
  w_executable : option string; w_evalSymlinks : string -> option string;
  w_open : option bool;                                          (* [Some rofs]: it fails *)
  w_copy : option nat;                                           (* fails after so many bytes *)
  w_close : option bool; w_remove : bool; w_rename : option bool;
  w_run : list byte -> option string }.                          (* what running it prints *)

(** The first [n] bytes. *)
Fixpoint takeZ (n : Z) (b : list byte) : list byte :=
  match b with [] => [] | x :: b => if n <=? 0 then [] else x :: takeZ (n - 1) b end.

(** [io.LimitReader] over a body: a break past the limit is not seen. *)
Definition limited (limit : Z) (body : list byte) (cut : bool) : list byte * bool :=
  (takeZ limit body, cut && (Z.of_nat (length body) <? limit)).

Definition sumsLimit : Z := 2 ^ 20.
Definition assetLimit : Z := 128 * 2 ^ 20.

Section Update.
Context `{ReleaseCrypto} (w : world).

Definition base : string :=
  if negb (String.eqb (w_testBase w) "") then w_testBase w else "https://github.com/" +:+ repo +:+ "/releases".

Definition trustedKey : string :=
  if w_noKey w then "" else if negb (String.eqb (w_testKey w) "") then w_testKey w else PublicKey.

Definition Enabled : bool := negb (String.eqb trustedKey "").

Definition Latest : result updateError string :=
  match w_head w (base +:+ "/latest") with
  | None => Err ELatest
  | Some loc =>
      let tag := after_last "/"%char loc in
      if HasPrefix tag "v" then Ok tag else Err (EBadTag loc)
  end.

Definition assetURL (tag name : string) : string := base +:+ "/download/" +:+ tag +:+ "/" +:+ name.

Definition verify (payload rawSig : list byte) : result updateError unit :=
  match b64Decode trustedKey with
  | Some pub =>
      if (length pub =? publicKeySize)%nat then
        match b64Decode (TrimSpace (unchars rawSig)) with
        | Some sig => if ed_verify pub payload sig then Ok tt else Err ErrNotSigned
        | None => Err ErrNotSigned
        end
      else Err ErrNoKey
  | None => Err ErrNoKey
  end.

Fixpoint digestIn (lines : list string) (name : string) : option string :=
  match lines with
  | [] => None
  | l :: lines =>
      match Fields l with
      | [d; n] => if String.eqb (TrimPrefix n "*") name then Some d else digestIn lines name
      | _ => digestIn lines name
      end
  end.
Definition digestOf (sums : list byte) (name : string) : option string := digestIn (splitc nl (unchars sums)) name.

Definition fetch (url : string) : result updateError (list byte) :=
  match w_get w url with
  | HErr => Err (EFetch url)
  | HAns status body cut =>
      if negb (status =? 200) then Err (EStatus url)
      else let '(b, broken) := limited sumsLimit body cut in if broken then Err (EFetch url) else Ok b
  end.

(** [s\[:16\]]. *)
Definition first16 (s : string) : go string :=
  if (16 <=? String.length s)%nat then Ret (String.substring 0 16 s) else Panic.

(** [io.Copy] into the file: what the file holds and whether it failed. *)
Definition copied (body : list byte) (cut : bool) : list byte * bool :=
  let '(b, broken) := limited assetLimit body cut in
  match w_copy w with
  | Some n => if (n <? length b)%nat then (take n b, true) else (b, broken)
  | None => (b, broken)
  end.

Definition download (fs : files) (url dest want : string) : files * go (result updateError unit) :=
  match w_get w url with
  | HErr => (fs, Ret (Err (EFetch url)))
  | HAns status body cut =>
      if negb (status =? 200) then (fs, Ret (Err (EStatus url)))
      else match w_open w with
           | Some rofs => (fs, Ret (Err (EIO rofs)))
           | None =>
               let '(b, failed) := copied body cut in
               let fs := <[dest := b]> fs in
               (fs,
                 if failed then Ret (Err (EIO false))
                 else match w_close w with
                      | Some rofs => Ret (Err (EIO rofs))
                      | None =>
                          let got := hexEncode (sha256 b) in
                          if String.eqb got want then Ret (Ok tt)
                          else g ← first16 got; t ← first16 want; Ret (Err (ErrWrongDigest g t))
                      end)
           end
  end.

Definition selfTest (fs : files) (path want : string) : result updateError unit :=
  match fs !! path with
  | None => Err ENotRunning
  | Some body =>
      match w_run w body with
      | None => Err ENotRunning
      | Some out => if String.eqb (TrimSpace out) want then Ok tt else Err (EReports (TrimSpace out) want)
      end
  end.

Definition isROFS (e : updateError) : bool := match e with EIO rofs => rofs | _ => false end.

Definition explainWrite (e : updateError) (self : string) : updateError :=
  if isROFS e then EExplained self e else e.

Definition assetName : string := "nfagent-" +:+ w_goos w +:+ "-" +:+ w_goarch w.

(** Where this binary is, with its links resolved. *)
Definition resolved : option string :=
  match w_executable w with Some p => w_evalSymlinks w p | None => None end.

Definition newName (self : string) : string := self +:+ ".new".
Definition removed (tmp : string) (fs : files) : files := if w_remove w then delete tmp fs else fs.

(** The rest of [Apply] once the list is verified: the only part that writes. *)
Definition install (fs : files) (target self want : string) : files * go (result updateError bool) :=
  let tmp := newName self in
  match download fs (assetURL target assetName) tmp want with
  | (fs, Panic) => (fs, Panic)
  | (fs, Ret (Err e)) => (removed tmp fs, Ret (Err (explainWrite e self)))
  | (fs, Ret (Ok _)) =>
      match selfTest fs tmp target with
      | Err e => (removed tmp fs, Ret (Err e))
      | Ok _ =>
          match w_rename w, fs !! tmp with
          | None, Some body => (<[self := body]> (delete tmp fs), Ret (Ok true))
          | r, _ => (removed tmp fs, Ret (Err (explainWrite (EIO (default false r)) self)))
          end
      end
  end.

Definition unknownVersion (current : string) : bool :=
  String.eqb current "dev" || match parseVersion current with None => true | Some _ => false end.

(** What is decided before anything is written: the tag, the path and the digest. *)
Definition decide_ (target current : string) : result updateError (string * string * string) :=
  if negb Enabled then Err ErrNoKey
  else
    target ← (if String.eqb target "" || String.eqb target "latest" then Latest else Ok target);
    if unknownVersion current then Err (ErrUnknownVersion current)
    else if negb (newer target current) then Err ErrNotNewer
    else
      sums ← fetch (assetURL target "SHA256SUMS");
      rawSig ← fetch (assetURL target "SHA256SUMS.sig");
      _ ← verify sums rawSig;
      match digestOf sums assetName with
      | None => Err (ErrNoAsset assetName)
      | Some want =>
          match resolved with
          | None => Err ESelf
          | Some self => Ok (target, self, want)
          end
      end.

Definition Apply (fs : files) (target current : string) : files * go (result updateError bool) :=
  match decide_ target current with
  | Err e => (fs, Ret (Err e))
  | Ok (target, self, want) => install fs target self want
  end.

(** What makes a body fit to be installed under a tag: the trusted key signed a
    list that gives its digest for this machine's build. *)
Definition endorsed (tag : string) (body : list byte) : Prop :=
  exists pub sums rawSig sig,
    b64Decode trustedKey = Some pub /\ length pub = publicKeySize /\
    fetch (assetURL tag "SHA256SUMS") = Ok sums /\ fetch (assetURL tag "SHA256SUMS.sig") = Ok rawSig /\
    b64Decode (TrimSpace (unchars rawSig)) = Some sig /\ ed_verify pub sums sig = true /\
    digestOf sums assetName = Some (hexEncode (sha256 body)).

(** ** Lemmas *)

Lemma verify_ok sums rawSig :
  verify sums rawSig = Ok tt ->
  exists pub sig, b64Decode trustedKey = Some pub /\ length pub = publicKeySize /\
    b64Decode (TrimSpace (unchars rawSig)) = Some sig /\ ed_verify pub sums sig = true.
Proof.
  unfold verify. destruct (b64Decode trustedKey) as [pub|]; [|done].
  destruct (Nat.eqb_spec (length pub) publicKeySize); [|done].
  destruct (b64Decode (TrimSpace _)) as [sig|] eqn:Es; [|done]. destruct (ed_verify _ _ _) eqn:Ev; [|done].
  intros _. eauto 10.
Qed.

Lemma decide_ok target current tag self want :
  decide_ target current = Ok (tag, self, want) ->
  resolved = Some self /\ newer tag current = true /\
  forall body, hexEncode (sha256 body) = want -> endorsed tag body.
Proof.
  unfold decide_. destruct Enabled; [|done]. cbn [negb].
  destruct (if _ || _ then Latest else Ok target) as [t|]; [|done]. cbn.
  destruct (unknownVersion current); [done|]. destruct (newer t current) eqn:En; [|done]. cbn [negb].
  destruct (fetch (assetURL t "SHA256SUMS")) as [sums|] eqn:E1; [|done]. cbn.
  destruct (fetch (assetURL t "SHA256SUMS.sig")) as [rawSig|] eqn:E2; [|done]. cbn.
  destruct (verify sums rawSig) as [[]|] eqn:Ev; [|done]. cbn.
  destruct (digestOf sums assetName) as [d|] eqn:Ed; [|done].
  destruct resolved as [p|]; [|done]. intros [= <- <- <-]. split; [done|]. split; [done|].
  intros body Hb. destruct (verify_ok _ _ Ev) as (pub & sig & ? & ? & ? & ?).
  exists pub, sums, rawSig, sig. rewrite Hb. splits.
Qed.

Lemma download_frame fs url dest want :
  (download fs url dest want).1 = fs \/ exists b, (download fs url dest want).1 = <[dest := b]> fs.
Proof.
  unfold download. destruct (w_get w url) as [|status body cut]; [by left|].
  destruct (status =? 200); [|by left]. destruct (w_open w); [by left|].
  destruct (copied body cut) as [b failed]. right. by exists b.
Qed.

Lemma download_ok fs fs' url dest want :
  download fs url dest want = (fs', Ret (Ok tt)) ->
  exists b, fs' = <[dest := b]> fs /\ hexEncode (sha256 b) = want.
Proof.
  unfold download. destruct (w_get w url) as [|status body cut]; [done|].
  destruct (status =? 200); [|done]. destruct (w_open w); [done|]. cbn [negb].
  destruct (copied body cut) as [b failed]. intros [= <- Hr]. exists b. split; [done|].
  destruct failed; [done|]. destruct (w_close w); [done|]. revert Hr. cbv zeta.
  destruct (String.eqb_spec (hexEncode (sha256 b)) want); [done|].
  destruct (first16 (hexEncode _)); [|done]. cbn. by destruct (first16 want).
Qed.

Lemma first16_ret s : (16 <= String.length s)%nat -> exists t, first16 s = Ret t.
Proof. unfold first16. intros Hs. apply Nat.leb_le in Hs. rewrite Hs. by eexists. Qed.

Lemma hexEncode_length b : String.length (hexEncode b) = (2 * length b)%nat.
Proof. induction b as [|x b IH]; cbn [hexEncode length String.length]; lia. Qed.

(** The digest of the list is the only slice that can be too short. *)
Lemma download_panic fs fs' url dest want :
  download fs url dest want = (fs', Panic) -> (String.length want < 16)%nat /\ exists b, fs' = <[dest := b]> fs.
Proof.
  unfold download. destruct (w_get w url) as [|status body cut]; [done|].
  destruct (status =? 200); [|done]. destruct (w_open w); [done|]. cbn [negb].
  destruct (copied body cut) as [b failed]. intros [= <- Hr]. split; [|by exists b].
  destruct failed; [done|]. destruct (w_close w); [done|]. revert Hr. cbv zeta.
  destruct (String.eqb _ _); [done|].
  destruct (first16_ret (hexEncode (sha256 b))) as [t ->]; [rewrite hexEncode_length, sha256_length; lia|].
  cbn. unfold first16. by destruct (Nat.leb_spec 16 (String.length want)).
Qed.

Lemma removed_frame tmp fs : delete tmp (removed tmp fs) = delete tmp fs.
Proof. unfold removed. destruct (w_remove w); [apply delete_delete_eq|done]. Qed.

Lemma download_delete fs url dest want : delete dest (download fs url dest want).1 = delete dest fs.
Proof. destruct (download_frame fs url dest want) as [->|[b ->]]; [done|]. by rewrite delete_insert_eq. Qed.

(** Every way [install] can end. *)
Lemma install_cases fs target self want fs' r :
  install fs target self want = (fs', r) ->
  (r = Ret (Ok true) /\ exists body, fs' = <[self := body]> (delete (newName self) fs) /\
     hexEncode (sha256 body) = want /\ TrimSpace <$> w_run w body = Some target) \/
  (exists e, r = Ret (Err e) /\ delete (newName self) fs' = delete (newName self) fs /\
     (w_remove w = true -> fs' = delete (newName self) fs)) \/
  (r = Panic /\ (String.length want < 16)%nat /\ delete (newName self) fs' = delete (newName self) fs).
Proof.
  unfold install. pose proof (download_delete fs (assetURL target assetName) (newName self) want) as Hd.
  assert (Herr : forall fs1 e, delete (newName self) fs1 = delete (newName self) fs ->
    (removed (newName self) fs1, Ret (Err e)) = (fs', r) ->
    exists e, r = Ret (Err e) /\ delete (newName self) fs' = delete (newName self) fs /\
     (w_remove w = true -> fs' = delete (newName self) fs)).
  { intros fs1 e Hfs1 [= <- <-]. exists e. split; [done|]. rewrite removed_frame. split; [done|].
    unfold removed. by intros ->. }
  destruct (download fs _ _ want) as [fs1 [[[]|e]|]] eqn:E; cbn [fst] in Hd.
  - destruct (download_ok _ _ _ _ _ E) as (b & -> & Hb). unfold selfTest. rewrite lookup_insert_eq.
    destruct (w_run w b) as [out|] eqn:Er; [|intros Hx; right; left; eauto].
    destruct (String.eqb_spec (TrimSpace out) target) as [<-|]; [|intros Hx; right; left; eauto].
    destruct (w_rename w); [intros Hx; right; left; eauto|]. intros [= <- <-]. left. split; [done|].
    exists b. rewrite delete_insert_eq. rewrite Er. splits.
  - intros Hx. right. left. eauto.
  - intros [= <- <-]. right. right. destruct (download_panic _ _ _ _ _ E). splits.
Qed.

(** C11: nothing but the temporary file beside the binary ever changes, except
    that the binary itself is replaced by a file whose digest for this machine is
    in a list signed by the key the build trusts, that was run before it was
    installed and reported the release it was installed as, and that is newer
    than what was running; whatever the network, the server and the disk did. *)
Theorem installed_is_signed fs target current fs' r p :
  Apply fs target current = (fs', r) -> fs' !! p <> fs !! p ->
  (exists self, resolved = Some self /\ p = newName self) \/
  (r = Ret (Ok true) /\ resolved = Some p /\
   exists body tag, fs' !! p = Some body /\ endorsed tag body /\ newer tag current = true /\
     TrimSpace <$> w_run w body = Some tag).
Proof.
  unfold Apply. destruct (decide_ target current) as [[[tag self] want]|e] eqn:Ed; [|by intros [= <- <-]].
  destruct (decide_ok _ _ _ _ _ Ed) as (Hself & Hnew & Hend). intros E Hp.
  destruct (decide (p = newName self)) as [->|Hne]; [left; eauto|right].
  assert (Hkeep : delete (newName self) fs' = delete (newName self) fs -> False).
  { intros Hd. apply Hp. rewrite <- (lookup_delete_ne fs' (newName self) p) by done.
    by rewrite Hd, lookup_delete_ne. }
  destruct (install_cases _ _ _ _ _ _ E) as [(-> & body & -> & Hb & Hrun)|[(e & _ & Hd & _)|(_ & _ & Hd)]];
    [|by destruct (Hkeep Hd)..].
  destruct (decide (p = self)) as [->|Hps].
  - split; [done|]. split; [done|]. exists body, tag. rewrite lookup_insert_eq. splits.
  - destruct Hp. by rewrite lookup_insert_ne, lookup_delete_ne by done.
Qed.

(** C22: an update is all or nothing: it reports a change exactly when it renamed
    the new file over the binary; when it fails it has changed nothing, the
    temporary file included unless that could not be removed; and it can crash
    only on a signed list with a digest of fewer than sixteen characters, with
    the binary untouched. *)
Theorem Apply_all_or_nothing fs target current :
  match Apply fs target current with
  | (fs', Ret (Ok changed)) => changed = true /\
      exists self body, resolved = Some self /\ fs' = <[self := body]> (delete (newName self) fs)
  | (fs', Ret (Err e)) => fs' = fs \/
      exists self, resolved = Some self /\ delete (newName self) fs' = delete (newName self) fs /\
        (w_remove w = true -> fs' = delete (newName self) fs)
  | (fs', Panic) =>
      exists tag self want, decide_ target current = Ok (tag, self, want) /\
        (String.length want < 16)%nat /\ delete (newName self) fs' = delete (newName self) fs
  end.
Proof.
  unfold Apply. destruct (decide_ target current) as [[[tag self] want]|e] eqn:Ed; [|by left].
  destruct (decide_ok _ _ _ _ _ Ed) as (Hself & _ & _). destruct (install fs tag self want) as [fs' r] eqn:E.
  destruct (install_cases _ _ _ _ _ _ E) as [(-> & body & -> & _ & _)|[(e & -> & Hd & Hr)|(-> & Hlt & Hd)]].
  - eauto.
  - right. eauto.
  - exists tag, self, want. splits.
Qed.

End Update.
(** ** The order of releases *)

Lemma greater_irrefl a : greater a a = false.
Proof. induction a as [|x a IH]; simpl; [done|]. by rewrite Z.eqb_refl. Qed.

Lemma greater_trans a b c : greater a b = true -> greater b c = true -> greater a c = true.
Proof.
  revert b c. induction a as [|x a IH]; intros [|y b] [|z c]; simpl; try done.
  destruct (Z.eqb_spec x y) as [->|Hxy].
  - destruct (Z.eqb_spec y z) as [->|]; [apply IH|done].
  - intros H1%Z.ltb_lt. destruct (Z.eqb_spec y z) as [->|]; intros H2; try apply Z.ltb_lt in H2.
    + destruct (Z.eqb_spec x z); [lia|]. by apply Z.ltb_lt.
    + destruct (Z.eqb_spec x z); [lia|]. apply Z.ltb_lt. lia.
Qed.

Lemma newer_iff t c :
  newer t c = true <-> c <> "dev" /\ exists a b, parseVersion t = Some a /\ parseVersion c = Some b /\ greater a b = true.
Proof.
  unfold newer. destruct (String.eqb_spec c "dev"); [naive_solver|].
  destruct (parseVersion t), (parseVersion c); naive_solver.
Qed.

Lemma newer_trans t m c : newer t m = true -> newer m c = true -> newer t c = true.
Proof.
  rewrite !newer_iff. intros (_ & a & b & Ea & Eb & Hab) (Hc & b' & d & Eb' & Ed & Hbd). simplify_eq.
  split; [done|]. exists a, d. eauto using greater_trans.
Qed.

Section History.
Context `{ReleaseCrypto}.

(** The versions a machine runs one after the other: after an update that
    changed something, what the new binary says it is. *)
Fixpoint history (attempts : list (world * files * string)) (current : string) : list string :=
  match attempts with
  | [] => []
  | (w, fs, target) :: attempts =>
      match Apply w fs target current with
      | (fs', Ret (Ok true)) =>
          let v := default "" (self ← resolved w; body ← fs' !! self; TrimSpace <$> w_run w body) in
          v :: history attempts v
      | _ => history attempts current
      end
  end.

Lemma history_newer attempts current : Forall (fun v => newer v current = true) (history attempts current).
Proof.
  revert current. induction attempts as [|[[w fs] target] attempts IH]; intros current; cbn [history]; [constructor|].
  unfold Apply. destruct (decide_ w target current) as [[[tag self] want]|] eqn:Ed; [|apply IH].
  destruct (decide_ok _ _ _ _ _ _ Ed) as (Hself & Hnew & _).
  destruct (install w fs tag self want) as [fs' r] eqn:E.
  destruct (install_cases _ _ _ _ _ _ _ E) as [(-> & body & -> & _ & Hrun)|[(e & -> & _)|(-> & _)]]; [|apply IH..].
  rewrite Hself. cbn. rewrite lookup_insert_eq. cbn. rewrite Hrun. cbn. constructor; [done|].
  eapply Forall_impl; [apply IH|]. intros v Hv. by apply (newer_trans v tag).
Qed.

(** C21: a machine never goes back: whatever the server, the network or whoever
    holds the panel asks for, one attempt after another, no release is ever run
    that is not newer than every release run before it. *)
Theorem never_goes_back attempts current :
  StronglySorted (fun earlier later => newer later earlier = true) (current :: history attempts current).
Proof.
  revert current. induction attempts as [|[[w fs] target] attempts IH]; intros current.
  - repeat constructor.
  - constructor; [|apply history_newer]. cbn [history].
    destruct (Apply w fs target current) as [fs' [[[]|]|]]; [apply IH|..];
      by pose proof (IH current) as [? ?]%StronglySorted_inv.
Qed.

End History.

(** ** nfsign *)

Inductive signError : Type := EUsage | ERandom | ENoKeySet | ENotBase64 | ESeedSize (n : nat) | ENoFile | EWrite | EBadPublic | EMismatch.

Section Sign.
Context `{ReleaseCrypto}.

(** [keygen] prints the two halves of a seed. *)
Definition keygen (seed : list byte) : string * string := (b64Encode (ed_public seed), b64Encode seed).

Definition sigPath (path : string) : string := path +:+ ".sig".

(** [sign], with the environment's NFSIGN_KEY. *)
Definition sign (env : string) (writes : bool) (path : string) (fs : files) : files * result signError unit :=
  let seed := TrimSpace env in
  if String.eqb seed "" then (fs, Err ENoKeySet)
  else match b64Decode seed with
       | None => (fs, Err ENotBase64)
       | Some raw =>
           if negb (length raw =? seedSize)%nat then (fs, Err (ESeedSize (length raw)))
           else match fs !! path with
                | None => (fs, Err ENoFile)
                | Some data =>
                    if writes then (<[sigPath path := chars (b64Encode (ed_sign raw data) +:+ NL)]> fs, Ok tt)
                    else (fs, Err EWrite)
                end
       end.

Definition check (path pubkey : string) (fs : files) : result signError unit :=
  match b64Decode (TrimSpace pubkey) with
  | Some pub =>
      if negb (length pub =? publicKeySize)%nat then Err EBadPublic
      else match fs !! path, fs !! sigPath path with
           | Some data, Some rawSig =>
               match b64Decode (TrimSpace (unchars rawSig)) with
               | Some sig => if ed_verify pub data sig then Ok tt else Err EMismatch
               | None => Err ENotBase64
               end
           | _, _ => Err ENoFile
           end
  | None => Err EBadPublic
  end.

(** [run]: what is printed, or what went wrong; [EUsage] is how it is used.
    [seed] is the key [keygen] draws, if it can. *)
Inductive signCommand : Type := SKeygen | SSign (path : string) | SCheck (path pubkey : string).

Definition signArgs (args : list string) : option signCommand :=
  match args with
  | c :: rest =>
      if String.eqb c "keygen" then Some SKeygen
      else if String.eqb c "sign" then match rest with [path] => Some (SSign path) | _ => None end
      else if String.eqb c "check" then match rest with [path; pubkey] => Some (SCheck path pubkey) | _ => None end
      else None
  | [] => None
  end.

Definition signRun (env : string) (seed : option (list byte)) (writes : bool) (args : list string) (fs : files) :
    files * result signError (list string) :=
  match signArgs args with
  | None => (fs, Err EUsage)
  | Some SKeygen =>
      (fs, match seed with
           | None => Err ERandom
           | Some seed => let '(public, private) := keygen seed in
               Ok ["public key (paste into internal/selfupdate/key.go):"; public; "";
                   "private key (GitHub secret NFSIGN_KEY — this is shown once):"; private]
           end)
  | Some (SSign path) =>
      let '(fs, r) := sign env writes path fs in
      (fs, match r with Ok _ => Ok ["wrote " +:+ sigPath path] | Err e => Err e end)
  | Some (SCheck path pubkey) =>
      (fs, match check path pubkey fs with Ok _ => Ok ["signature is good"] | Err e => Err e end)
  end.

(** Only signing writes, and it writes one file, whatever else is asked. *)
Lemma signRun_writes env seed writes args fs path :
  (signRun env seed writes args fs).1 !! path <> fs !! path ->
  exists signed, signArgs args = Some (SSign signed) /\ path = sigPath signed.
Proof.
  unfold signRun. destruct (signArgs args) as [[|signed|? ?]|]; try done. unfold sign.
  repeat case_match; simplify_eq/=; try done. intros Hne. exists signed. split; [done|].
  destruct (decide (path = sigPath signed)) as [|Hp]; [done|]. by rewrite lookup_insert_ne in Hne.
Qed.

Lemma b64Encode_seed seed : length seed = seedSize -> b64Encode seed <> "".
Proof. destruct seed as [|x [|y [|z seed]]]; done. Qed.

(** what [nfsign] makes is what the agent accepts: a list signed with the
    private half [keygen] printed is good for [check], and for the [verify] of
    every build that carries the public half. *)
Theorem sign_verifies seed env path fs data w :
  length seed = seedSize -> TrimSpace env = (keygen seed).2 -> fs !! path = Some data ->
  trustedKey w = (keygen seed).1 ->
  exists fs' rawSig, sign env true path fs = (fs', Ok tt) /\ fs' !! sigPath path = Some rawSig /\
    check path (keygen seed).1 fs' = Ok tt /\ verify w data rawSig = Ok tt.
Proof.
  intros Hlen Henv Hfs Hkey. unfold sign. rewrite Henv. cbn [keygen fst snd].
  destruct (String.eqb_spec (b64Encode seed) "") as [E|_]; [by destruct (b64Encode_seed seed Hlen)|].
  rewrite b64Decode_encode, Hlen, Hfs. cbn [Nat.eqb negb seedSize].
  exists (<[sigPath path := chars (b64Encode (ed_sign seed data) +:+ NL)]> fs).
  exists (chars (b64Encode (ed_sign seed data) +:+ NL)). rewrite lookup_insert_eq. splits.
  - unfold check. rewrite TrimSpace_nospace, b64Decode_encode, ed_public_length by (done || apply nospace_b64Encode).
    cbn [Nat.eqb negb publicKeySize]. rewrite lookup_insert_eq.
    assert (path <> sigPath path) as Hp.
    { by apply sapp_ne. }
    rewrite lookup_insert_ne, Hfs by done. rewrite unchars_chars, TrimSpace_line by apply nospace_b64Encode.
    by rewrite b64Decode_encode, ed_verify_sign.
  - unfold verify. rewrite Hkey. cbn [keygen fst]. rewrite b64Decode_encode, ed_public_length by done.
    cbn [Nat.eqb publicKeySize]. rewrite unchars_chars, TrimSpace_line by apply nospace_b64Encode.
    by rewrite b64Decode_encode, ed_verify_sign.
Qed.

End Sign.

(** ** A concrete release, for evaluating the model: a seed is its own public
    key, a signature is the message behind it, a digest is a prefix. *)

Lemma padded_length (m : list byte) : length (take 32 (m ++ replicate 32 Byte.x00)) = 32%nat.
Proof. rewrite length_take, length_app, length_replicate. lia. Qed.

Lemma toy_verify (seed m : list byte) :
  length seed = 32%nat -> bool_decide (seed ++ m = seed ++ m) = true.
Proof. intros _. by apply bool_decide_eq_true. Qed.

#[export] Instance toyCrypto : ReleaseCrypto :=
  {| ed_public := id; ed_sign seed m := seed ++ m; ed_verify pub m sig := bool_decide (sig = pub ++ m);
     sha256 m := take 32 (m ++ replicate 32 Byte.x00);
     ed_public_length seed H := H; ed_verify_sign := toy_verify; sha256_length := padded_length |}.

Definition exSeed : list byte := replicate 32 Byte.x41.
Definition exBody : list byte := chars "nfagent of v0.2.0".
Definition exSums (digest : string) : list byte := chars (digest +:+ "  nfagent-linux-amd64" +:+ NL).
Definition exAsset (digest : string) (url : string) : httpAnswer :=
  if HasSuffix url "/SHA256SUMS" then HAns 200 (exSums digest) false
  else if HasSuffix url "/SHA256SUMS.sig" then
    HAns 200 (chars (b64Encode (ed_sign exSeed (exSums digest)) +:+ NL)) false
  else if HasSuffix url "/nfagent-linux-amd64" then HAns 200 exBody false
  else HAns 404 [] false.

Definition exWorld (digest : string) : world :=
  mkWorld false (b64Encode exSeed) "" "linux" "amd64" (fun _ => Some "/releases/tag/v0.2.0")
    (exAsset digest)
    (Some "/opt/nfagent") (fun p => Some p) None None None true None
    (fun b => if bool_decide (b = exBody) then Some ("v0.2.0" +:+ NL) else None).

Definition exDigest : string := hexEncode (sha256 exBody).
Definition exFiles : files := {[ "/opt/nfagent" := chars "nfagent of v0.1.0" ]}.

Lemma installed_is_signed_witness :
  exists body tag, body = exBody /\ endorsed (exWorld exDigest) tag body /\ newer tag "v0.1.0" = true /\
     TrimSpace <$> w_run (exWorld exDigest) body = Some tag.
Proof.
  destruct (installed_is_signed (exWorld exDigest) exFiles "latest" "v0.1.0"
    (<[ "/opt/nfagent" := exBody ]> exFiles) (Ret (Ok true)) "/opt/nfagent") as [(self & Hs & Hp)|(_ & _ & body & tag & Hb & Hrest)].
  - vm_compute. reflexivity.
  - vm_compute. discriminate.
  - vm_compute in Hs. injection Hs as <-. vm_compute in Hp. discriminate.
  - exists body, tag. split; [|exact Hrest]. vm_compute in Hb. injection Hb as <-. vm_compute. reflexivity.
Defined.

Lemma sign_verifies_witness :
  exists fs' rawSig,
    sign (b64Encode exSeed +:+ NL) true "SHA256SUMS" {[ "SHA256SUMS" := exSums exDigest ]} = (fs', Ok tt) /\
    fs' !! sigPath "SHA256SUMS" = Some rawSig /\
    check "SHA256SUMS" (keygen exSeed).1 fs' = Ok tt /\ verify (exWorld exDigest) (exSums exDigest) rawSig = Ok tt.
Proof.
  apply (sign_verifies exSeed (b64Encode exSeed +:+ NL) "SHA256SUMS" {[ "SHA256SUMS" := exSums exDigest ]}
           (exSums exDigest) (exWorld exDigest)); vm_compute; reflexivity.
Defined.

(** A list signed with a digest that is too short crashes the agent that finds the
    asset does not match it. *)
Theorem short_digest_panics :
  (Apply (exWorld "ab12") exFiles "v0.2.0" "v0.1.0").2 = Panic.
Proof. vm_compute. reflexivity. Qed.

End SelfUpdate.
