(* ===== verification/AgentMap.v ===== *)
(** * cmd/nfagent: the machine that follows the network map (register.go,
    main.go): what the map says, what it is turned into, and [followTheMap] as a
    state machine in which [Pause] and [Resume] of the control socket fall between
    its steps.

    [netip.ParsePrefix] and [netip.ParseAddr] are arguments.  The engine is known
    by the interface [PeerEngine], which the engine of Engine.v implements at the
    end of this file. *)
From S2P Require Import Prelude GoStrings NetIP NetText Keys Filter P2P Link Engine Router.
From Stdlib Require Import Ascii.

Module AgentMap.
Import P2P.P2P NetText.NetText.
Import Link.Link (Peer, mkPeer, AllowedIPs).
Import Filter.Filter (Rule, mkRule).
Import Router.Router (Route, mkRoute).

Definition mapEvery : Z := 20 * Second.
Definition reportEvery : Z := 30 * Second.

(** ** What the server says and the file holds *)

(** [Inbound] is [None] for a nil slice. *)
Record PeerConfig : Type := mkPeerConfig {
  pc_publicKey : string; pc_allowedIPs : list string; pc_name : string; pc_address : string;
  pc_inbound : option (list Rule) }.

Record RelayConfig : Type := mkRelayConfig { rc_url : string; rc_username : string; rc_password : string }.

#[global] Instance RelayConfig_eq_dec : EqDecision RelayConfig.
Proof. solve_decision. Defined.

Record Config : Type := mkConfig {
  cf_privateKey : string; cf_address : string; cf_subnet : string; cf_signalURL : string;
  cf_server : string; cf_token : string; cf_stun : list string; cf_relay : option RelayConfig;
  cf_peers : list PeerConfig; cf_generation : Z; cf_noRemoteUpdate : bool }.

Record updatePolicy : Type := mkPolicy { up_enabled : bool; up_version : string }.
Record advertisedRoute : Type := mkAdvertised { ar_network : string; ar_masquerade : bool }.

Record networkMap : Type := mkMap {
  nm_address : string; nm_subnet : string; nm_signalURL : string; nm_relay : option RelayConfig;
  nm_peers : list PeerConfig; nm_generation : Z; nm_update : option updatePolicy;
  nm_advertise : list advertisedRoute }.

Definition set_relay (r : option RelayConfig) (c : Config) : Config :=
  mkConfig (cf_privateKey c) (cf_address c) (cf_subnet c) (cf_signalURL c) (cf_server c) (cf_token c) (cf_stun c)
    r (cf_peers c) (cf_generation c) (cf_noRemoteUpdate c).
Definition set_peers (ps : list PeerConfig) (c : Config) : Config :=
  mkConfig (cf_privateKey c) (cf_address c) (cf_subnet c) (cf_signalURL c) (cf_server c) (cf_token c) (cf_stun c)
    (cf_relay c) ps (cf_generation c) (cf_noRemoteUpdate c).
Definition set_place (address subnet : string) (generation : Z) (c : Config) : Config :=
  mkConfig (cf_privateKey c) address subnet (cf_signalURL c) (cf_server c) (cf_token c) (cf_stun c)
    (cf_relay c) (cf_peers c) generation (cf_noRemoteUpdate c).

(** [mapFingerprint]. *)
Definition fingerprintLine (p : PeerConfig) : string :=
  pc_publicKey p +:+ " " +:+ Join "," (pc_allowedIPs p) +:+ " " +:+ pc_name p.
Definition mapFingerprint (ps : list PeerConfig) : string := unlines (map fingerprintLine ps).

(** ** What it is turned into *)

Inductive peerError : Type := EPublicKey (i : nat) | ENoAllowedIPs (i : nat) | EAllowedIP (i : nat) (s : string).

Section Meaning.
Context `{WGKeys} (ParsePrefix : string -> option Prefix) (ParseAddr : string -> option Addr).

Fixpoint parseNets (i : nat) (ss : list string) : result peerError (list Prefix) :=
  match ss with
  | [] => Ok []
  | s :: ss =>
      match ParsePrefix (TrimSpace s) with
      | None => Err (EAllowedIP i s)
      | Some p => ps ← parseNets i ss; Ok (p :: ps)
      end
  end.

Fixpoint parsePeersFrom (i : nat) (ps : list PeerConfig) : result peerError (list Peer) :=
  match ps with
  | [] => Ok []
  | p :: ps =>
      match ParseKey (pc_publicKey p) with
      | None => Err (EPublicKey i)
      | Some pub =>
          if (length (pc_allowedIPs p) =? 0)%nat then Err (ENoAllowedIPs i)
          else nets ← parseNets i (pc_allowedIPs p);
               out ← parsePeersFrom (S i) ps;
               Ok (mkPeer pub zeroKey nets :: out)
      end
  end.
Definition parsePeers (ps : list PeerConfig) : result peerError (list Peer) := parsePeersFrom 0 ps.

(** The address an access rule is written against. *)
Definition ruleAddress (p : PeerConfig) : string :=
  if String.eqb (pc_address p) "" then
    match pc_allowedIPs p with
    | [] => ""
    | s :: _ => match cutc "/"%char s with Some (before, _) => before | None => s end
    end
  else pc_address p.

(** The rules [applyAccessRules] hands to the engine. *)
Definition addRules (rules : gmap Addr (list Rule)) (p : PeerConfig) : gmap Addr (list Rule) :=
  match ParseAddr (ruleAddress p) with
  | None => rules
  | Some a => <[a := default [] (pc_inbound p)]> rules
  end.
Definition accessRules (ps : list PeerConfig) : gmap Addr (list Rule) := fold_left addRules ps ∅.

(** The networks of [applyAdvertised]; one that does not parse is left out. *)
Definition advertisedRoutes (l : list advertisedRoute) : list Route :=
  omap (fun a => p ← ParsePrefix (ar_network a); Some (mkRoute p (ar_masquerade a))) l.

(** The peer of a map that decides about an address: the last at it. *)
Definition ruler (ps : list PeerConfig) (a : Addr) : option PeerConfig :=
  last (List.filter (fun q => bool_decide (ParseAddr (ruleAddress q) = Some a)) ps).

Lemma fold_addRules ps : forall rules a,
  fold_left addRules ps rules !! a =
    match ruler ps a with Some q => Some (default [] (pc_inbound q)) | None => rules !! a end.
Proof.
  induction ps as [|q ps IH] using rev_ind; intros rules a; [done|].
  rewrite fold_left_app. cbn [fold_left]. unfold ruler. rewrite List.filter_app. cbn [List.filter].
  unfold addRules at 1. case_bool_decide as Hq.
  - rewrite Hq, lookup_insert_eq. by rewrite last_snoc.
  - rewrite app_nil_r. destruct (ParseAddr (ruleAddress q)) as [b|]; [|apply IH].
    rewrite lookup_insert_ne by congruence. apply IH.
Qed.

(** the access a map gives is the access a machine enforces: of packets that
    answer nothing, those of an address get in exactly as the rules of the last
    peer of the map at that address say; a peer without rules, and an address no
    peer of the map has, start nothing. *)
Theorem map_decides_access ps f now now' pkt p b f' :
  Filter.Filter.parse pkt = Ret (Some p) ->
  Filter.Filter.flows f !! Filter.Filter.inKey p = None ->
  Filter.Filter.Inbound (Filter.Filter.SetRules f (accessRules ps)) now now' pkt = Ret (b, f') ->
  b = true <-> exists q r, ruler ps (Filter.Filter.src p) = Some q /\ r ∈ default [] (pc_inbound q) /\
    Filter.Filter.allows r (Filter.Filter.proto p) (Filter.Filter.dstPort p) = true.
Proof.
  intros Hp Hf. unfold Filter.Filter.Inbound. cbn [Filter.Filter.on Filter.Filter.SetRules negb Filter.Filter.flows].
  rewrite Hp. cbn. rewrite Hf. intros [= <- <-]. rewrite Filter.Filter.rulesAllow_iff.
  unfold Filter.Filter.mayStart, accessRules. rewrite fold_addRules, lookup_empty.
  destruct (ruler ps (Filter.Filter.src p)) as [q|]; cbn [default from_option]; split.
  - intros (r & ? & ?). by exists q, r.
  - intros (? & r & [= <-] & ? & ?). by exists r.
  - by intros (r & ?%not_elem_of_nil & _).
  - by intros (? & ? & ? & _).
Qed.

(** What the panel may put in a map: keys and networks are words, a network has
    no comma, and a name is one line. *)
Definition plain (p : PeerConfig) : Prop :=
  nospace (pc_publicKey p) = true /\ nochar nl (pc_name p) = true /\ pc_allowedIPs p <> [] /\
  Forall (fun s => nospace s = true /\ nochar ","%char s = true) (pc_allowedIPs p).

(** What the fingerprint of a map keeps of a peer. *)
Definition printed (p : PeerConfig) : string * list string * string :=
  (pc_publicKey p, pc_allowedIPs p, pc_name p).

Lemma plain_parts p :
  plain p ->
  nochar " "%char (pc_publicKey p) = true /\ nochar " "%char (Join "," (pc_allowedIPs p)) = true /\
  splitc ","%char (Join "," (pc_allowedIPs p)) = pc_allowedIPs p /\ nochar nl (fingerprintLine p) = true.
Proof.
  intros (Hk & Hn & Hne & Hall). apply Forall_and in Hall as [Hsp Hc].
  assert (Hj : nospace (Join "," (pc_allowedIPs p)) = true) by by apply NetText.NetText.nospace_Join.
  split; [by apply nospace_nochar|]. split; [by apply nospace_nochar|]. split; [by apply splitc_Join|].
  unfold fingerprintLine, nochar. rewrite !allc_app. fold (nochar nl (pc_publicKey p)).
  rewrite !andb_true_iff. splits; by apply nospace_nonl.
Qed.

Lemma fingerprintLine_printed p q :
  plain p -> plain q -> fingerprintLine p = fingerprintLine q -> printed p = printed q.
Proof.
  intros Hp Hq. destruct (plain_parts p Hp) as (Hk & Hj & Hs & _). destruct (plain_parts q Hq) as (Hk' & Hj' & Hs' & _).
  unfold fingerprintLine. intros EL. apply (f_equal (cutc " "%char)) in EL.
  change (pc_publicKey p +:+ " " +:+ ?r) with (pc_publicKey p +:+ String " "%char r) in EL.
  change (pc_publicKey q +:+ " " +:+ ?r) with (pc_publicKey q +:+ String " "%char r) in EL.
  rewrite !cutc_app in EL by done. injection EL as EK EL. apply (f_equal (cutc " "%char)) in EL.
  change (?j +:+ " " +:+ pc_name p) with (j +:+ String " "%char (pc_name p)) in EL.
  change (?j +:+ " " +:+ pc_name q) with (j +:+ String " "%char (pc_name q)) in EL.
  rewrite !cutc_app in EL by done. injection EL as EJ EN. unfold printed.
  apply (f_equal (splitc ","%char)) in EJ. rewrite Hs, Hs' in EJ. by rewrite EK, EJ, EN.
Qed.

Lemma parsePeersFrom_printed ps : forall i qs,
  map printed ps = map printed qs -> parsePeersFrom i ps = parsePeersFrom i qs.
Proof.
  induction ps as [|p ps IH]; intros i [|q qs]; try done. intros EL. cbn [map] in EL. injection EL as EK EA EN EL.
  cbn [parsePeersFrom]. rewrite EK, EA. by rewrite (IH (S i) qs EL).
Qed.

(** Equal fingerprints are of the same peers, networks and names, in the same order. *)
Lemma mapFingerprint_printed ps qs :
  Forall plain ps -> Forall plain qs -> mapFingerprint ps = mapFingerprint qs -> map printed ps = map printed qs.
Proof.
  intros Hps Hqs EL. apply (f_equal (splitc nl)) in EL. unfold mapFingerprint in EL.
  rewrite !splitc_unlines in EL by
    (apply Forall_fmap; eapply Forall_impl; [eassumption|]; intros x Hx; by apply plain_parts).
  apply app_inj_2 in EL as [EL _]; [|done]. revert qs Hqs EL.
  induction Hps as [|p ps Hp Hps IH]; intros [|q qs] Hqs EL; try done.
  apply Forall_cons in Hqs as [Hq Hqs]. cbn [map] in *. injection EL as EH ET.
  rewrite (fingerprintLine_printed p q Hp Hq EH). f_equal. by apply IH.
Qed.

(** a map whose fingerprint has not changed asks for the peers the machine
    already has, and calls them by the same names: nothing about who is reachable
    under which networks hides behind an equal fingerprint. *)
Theorem mapFingerprint_faithful ps qs :
  Forall plain ps -> Forall plain qs -> mapFingerprint ps = mapFingerprint qs ->
  parsePeers ps = parsePeers qs /\ map pc_name ps = map pc_name qs.
Proof.
  intros Hps Hqs EL. pose proof (mapFingerprint_printed ps qs Hps Hqs EL) as EP.
  split; [by apply parsePeersFrom_printed|].
  apply (f_equal (map snd)) in EP. by rewrite !map_map in EP.
Qed.

(** *** Restarts *)

Inductive restartWhy : Type := RSubnet | RAddress | RGeneration.

Definition wantsRestart (m : networkMap) (c : Config) : option restartWhy :=
  if negb (String.eqb (nm_subnet m) "") && negb (String.eqb (nm_subnet m) (cf_subnet c)) then Some RSubnet
  else if negb (String.eqb (nm_address m) "") && negb (String.eqb (nm_address m) (cf_address c)) then Some RAddress
  else if cf_generation c <? nm_generation m then Some RGeneration
  else None.

(** What the configuration adopts before the process ends. *)
Definition adopted (why : restartWhy) (m : networkMap) (c : Config) : Config :=
  match why with
  | RSubnet => set_place (cf_address c) (nm_subnet m) (cf_generation c) c
  | RAddress =>
      set_place (nm_address m) (cf_subnet c)
        (if cf_generation c <? nm_generation m then nm_generation m else cf_generation c) c
  | RGeneration => set_place (cf_address c) (cf_subnet c) (nm_generation m) c
  end.

(** The relay of a map, when the file does not have it yet. *)
Definition relayed (m : networkMap) (c : Config) : Config :=
  match nm_relay m with Some r => set_relay (Some r) c | None => c end.

(** ** The state of the agent *)

End Meaning.

(** What the agent needs of the engine. *)
Class PeerEngine `{WGKeys} (E : Type) : Type := {
  eng_new : Prefix -> E;
  eng_SetPeers : list Peer -> E -> E;
  eng_SetRelay : string -> string -> string -> E -> E;
  eng_wanted : E -> gmap string Peer;                   (* the peers it works on *)
  eng_turn : E -> list TURNServer;
  new_wanted subnet : eng_wanted (eng_new subnet) = ∅;
  SetPeers_wanted ps e : eng_wanted (eng_SetPeers ps e) = Engine.Engine.wantedOf ps;
  SetPeers_turn ps e : eng_turn (eng_SetPeers ps e) = eng_turn e;
  SetRelay_wanted u n p e : eng_wanted (eng_SetRelay u n p e) = eng_wanted e;
  SetRelay_turn u n p e : eng_turn (eng_SetRelay u n p e) = if String.eqb u "" then [] else [mkTURN u n p] }.

(** The configuration in memory, the one on disk, and the fingerprint of the last
    map: what only [followTheMap] writes. *)
Record conf : Type := mkConf { c_cfg : Config; c_file : Config; c_last : string }.

Definition saveConfig (ok : bool) (c : conf) : conf :=
  mkConf (c_cfg c) (if ok then c_cfg c else c_file c) (c_last c).
Definition adopt (cfg : Config) (c : conf) : conf := mkConf cfg (c_file c) (c_last c).

(** [routing] with what the router last took, and the reason it gave. *)
Record forwarding : Type := mkForwarding { f_routing : bool; f_error : string; f_carried : list Route }.

(** The access rules in force, and [lastFirewallError]. *)
Record access : Type := mkAccess { x_rules : option (gmap Addr (list Rule)); x_error : string }.

(** Where [followTheMap] is: between polls, between the read of [paused] and the
    call of [SetPeers], or gone. *)
Inductive pc : Type := PIdle | PApply (peers : list Peer) (was : bool) | PExited (why : restartWhy).

(** What a request of the control socket still has to do. *)
Inductive pending : Type := CRead | CSet (peers : list Peer).

Record agent (E : Type) : Type := mkAgent {
  ag_conf : conf; ag_map : list PeerConfig; ag_policy : option updatePolicy; ag_forwarding : forwarding;
  ag_access : access; ag_eng : E; ag_paused : bool; ag_pending : list pending; ag_pc : pc }.
Arguments mkAgent {E}.
Arguments ag_conf {E}.
Arguments ag_map {E}.
Arguments ag_policy {E}.
Arguments ag_forwarding {E}.
Arguments ag_access {E}.
Arguments ag_eng {E}.
Arguments ag_paused {E}.
Arguments ag_pending {E}.
Arguments ag_pc {E}.

(** What the rest of the machine answers during one poll: whether the file can be
    written, the error of [SetAccessRules], and that of the router. *)
Record answers : Type := mkAnswers {
  w_saves : bool; w_access : option string; w_router : Prefix -> list Route -> option string }.

Inductive upError : Type := ENotEnrolled | EPrivateKey | EAddress | EPeers (e : peerError).

Section Agent.
Context `{WGKeys} (ParsePrefix : string -> option Prefix) (ParseAddr : string -> option Addr).
Context {E : Type} `{!PeerEngine E}.

Definition applyAccessRules (w : answers) (ps : list PeerConfig) (x : access) : access :=
  match w_access w with
  | Some e => mkAccess (x_rules x) e
  | None => mkAccess (Some (accessRules ParseAddr ps)) ""
  end.

Definition applyAdvertised (w : answers) (cfg : Config) (l : list advertisedRoute) (f : forwarding) : forwarding :=
  let routes := advertisedRoutes ParsePrefix l in
  if ((length routes =? 0)%nat && negb (f_routing f)) then f
  else match ParsePrefix (cf_subnet cfg) with
       | None => f
       | Some mesh =>
           match w_router w mesh routes with
           | Some e => mkForwarding (f_routing f) e (f_carried f)
           | None => mkForwarding (0 <? length routes)%nat "" routes
           end
       end.

(** The relay of a map: given to the engine every time, written down when new. *)
Definition applyRelay (w : answers) (m : networkMap) (c : conf) (e : E) : conf * E :=
  match nm_relay m with
  | None => (c, e)
  | Some r =>
      (if bool_decide (cf_relay (c_cfg c) = Some r) then c
       else saveConfig (w_saves w) (adopt (set_relay (Some r) (c_cfg c)) c),
       eng_SetRelay (rc_url r) (rc_username r) (rc_password r) e)
  end.

(** A map that parses, once nothing in it asks for a restart. *)
Definition applyPeers (w : answers) (m : networkMap) (c : conf) : conf :=
  let fp := mapFingerprint (nm_peers m) in
  if String.eqb fp (c_last c) then c
  else saveConfig (w_saves w) (mkConf (set_peers (nm_peers m) (c_cfg c)) (c_file c) fp).

(** One turn of [followTheMap], up to [paused.Load()]; [None] is a map that could
    not be fetched. *)
Definition poll (w : answers) (answer : option networkMap) (a : agent E) : agent E :=
  match answer with
  | None => a
  | Some m =>
      let '(c, e) := applyRelay w m (ag_conf a) (ag_eng a) in
      match wantsRestart m (c_cfg c) with
      | Some why =>
          mkAgent (saveConfig (w_saves w) (adopt (adopted why m (c_cfg c)) c)) (ag_map a) (nm_update m)
            (ag_forwarding a) (ag_access a) e (ag_paused a) (ag_pending a) (PExited why)
      | None =>
          match parsePeers ParsePrefix (nm_peers m) with
          | Err _ =>
              mkAgent c (ag_map a) (nm_update m) (ag_forwarding a) (ag_access a) e (ag_paused a) (ag_pending a) PIdle
          | Ok peers =>
              let c := applyPeers w m c in
              mkAgent c (nm_peers m) (nm_update m) (applyAdvertised w (c_cfg c) (nm_advertise m) (ag_forwarding a))
                (applyAccessRules w (nm_peers m) (ag_access a)) e (ag_paused a) (ag_pending a)
                (PApply peers (ag_paused a))
          end
      end
  end.

Definition with_eng (e : E) (a : agent E) : agent E :=
  mkAgent (ag_conf a) (ag_map a) (ag_policy a) (ag_forwarding a) (ag_access a) e (ag_paused a) (ag_pending a) (ag_pc a).
Definition with_pc (p : pc) (a : agent E) : agent E :=
  mkAgent (ag_conf a) (ag_map a) (ag_policy a) (ag_forwarding a) (ag_access a) (ag_eng a) (ag_paused a) (ag_pending a) p.
Definition with_control (paused : bool) (l : list pending) (a : agent E) : agent E :=
  mkAgent (ag_conf a) (ag_map a) (ag_policy a) (ag_forwarding a) (ag_access a) (ag_eng a) paused l (ag_pc a).

(** What the rest of the process reads, each under its own lock. *)
Definition Paused (a : agent E) : bool := ag_paused a.
Definition UpdatePolicy (a : agent E) := ag_policy a.
Definition RoutingError (a : agent E) : string := f_error (ag_forwarding a).
Definition firewallError (a : agent E) : string := x_error (ag_access a).

Inductive event : Type :=
| EvPoll (w : answers) (answer : option networkMap)
| EvApply
| EvPause
| EvResume
| EvControl (i : nat).                   (* a request goes on *)

(** One step of a request: [Resume] reads the last map, then both set the peers. *)
Definition control (i : nat) (a : agent E) : agent E :=
  match ag_pending a !! i with
  | None => a
  | Some CRead =>
      with_control (ag_paused a)
        (match parsePeers ParsePrefix (ag_map a) with
         | Ok peers => <[i := CSet peers]> (ag_pending a)
         | Err _ => delete i (ag_pending a)
         end) a
  | Some (CSet peers) =>
      with_control (ag_paused a) (delete i (ag_pending a)) (with_eng (eng_SetPeers peers (ag_eng a)) a)
  end.

Definition step (a : agent E) (ev : event) : agent E :=
  match ag_pc a, ev with
  | PExited _, _ => a
  | PIdle, EvPoll w answer => poll w answer a
  | PApply peers was, EvApply =>
      with_pc PIdle (with_eng (eng_SetPeers (if was then [] else peers) (ag_eng a)) a)
  | _, EvPause => with_control true (ag_pending a ++ [CSet []]) a
  | _, EvResume => with_control false (ag_pending a ++ [CRead]) a
  | _, EvControl i => control i a
  | _, _ => a
  end.

Definition steps (evs : list event) (a : agent E) : agent E := fold_left step evs a.

(** [up] on the file of an enrolled machine, to the point where it follows the
    map. *)
Definition meshSubnet (cfg : Config) : Prefix :=
  if String.eqb (cf_subnet cfg) "" then PrefixZero else default PrefixZero (ParsePrefix (cf_subnet cfg)).

Definition up (file : Config) : result upError (agent E) :=
  if String.eqb (cf_signalURL file) "" || String.eqb (cf_privateKey file) "" then Err ENotEnrolled
  else match ParseKey (cf_privateKey file), ParseAddr (cf_address file), parsePeers ParsePrefix (cf_peers file) with
       | None, _, _ => Err EPrivateKey
       | _, None, _ => Err EAddress
       | _, _, Err e => Err (EPeers e)
       | Some _, Some _, Ok peers =>
           let e := eng_new (meshSubnet file) in
           let e := match cf_relay file with
                    | Some r => eng_SetRelay (rc_url r) (rc_username r) (rc_password r) e
                    | None => e
                    end in
           let e := if (0 <? length peers)%nat then eng_SetPeers peers e else e in
           Ok (mkAgent (mkConf file file (mapFingerprint (cf_peers file))) (cf_peers file) None
                 (mkForwarding false "" []) (mkAccess None "") e false [] PIdle)
       end.

(** ** Whole calls *)

(** A turn of [followTheMap] and a request that nothing overlaps. *)
Inductive call : Type :=
| CallPoll (w : answers) (answer : option networkMap)
| CallPause
| CallResume.

Definition exec (a : agent E) (c : call) : agent E :=
  match c with
  | CallPoll w answer => steps [EvPoll w answer; EvApply] a
  | CallPause => steps [EvPause; EvControl (length (ag_pending a))] a
  | CallResume => steps [EvResume; EvControl (length (ag_pending a)); EvControl (length (ag_pending a))] a
  end.

Definition execs (cs : list call) (a : agent E) : agent E := fold_left exec cs a.

(** An error has a text. *)
Definition sound (c : call) : Prop := match c with CallPoll w _ => w_access w <> Some "" | _ => True end.

(** What holds between calls. *)
Record Inv (a : agent E) : Prop := {
  inv_pending : ag_pending a = [];
  inv_pc : match ag_pc a with PApply _ _ => False | _ => True end;
  inv_peers : exists peers, parsePeers ParsePrefix (ag_map a) = Ok peers /\
    eng_wanted (ag_eng a) = Engine.Engine.wantedOf (if ag_paused a then [] else peers);
  inv_access : x_error (ag_access a) = "" ->
    x_rules (ag_access a) = None \/ x_rules (ag_access a) = Some (accessRules ParseAddr (ag_map a));
  inv_last : c_last (ag_conf a) = mapFingerprint (ag_map a) /\
    c_last (ag_conf a) = mapFingerprint (cf_peers (c_cfg (ag_conf a))) }.

(** *** Lemmas *)

Lemma applyRelay_frame w m c e :
  c_last (applyRelay w m c e).1 = c_last c /\
  cf_peers (c_cfg (applyRelay w m c e).1) = cf_peers (c_cfg c) /\
  wantsRestart m (c_cfg (applyRelay w m c e).1) = wantsRestart m (c_cfg c) /\
  eng_wanted (applyRelay w m c e).2 = eng_wanted e.
Proof.
  unfold applyRelay. destruct (nm_relay m) as [r|]; [|done]. cbn [fst snd]. rewrite SetRelay_wanted.
  case_bool_decide; splits.
Qed.

Lemma applyPeers_last w m c :
  c_last c = mapFingerprint (cf_peers (c_cfg c)) ->
  c_last (applyPeers w m c) = mapFingerprint (nm_peers m) /\
  c_last (applyPeers w m c) = mapFingerprint (cf_peers (c_cfg (applyPeers w m c))).
Proof.
  intros Hc. unfold applyPeers. destruct (String.eqb_spec (mapFingerprint (nm_peers m)) (c_last c)) as [->|]; done.
Qed.

Lemma adopted_peers why m c : cf_peers (adopted why m c) = cf_peers c.
Proof. by destruct why. Qed.

Lemma applyAccessRules_ok w ps x :
  w_access w <> Some "" -> x_error (applyAccessRules w ps x) = "" ->
  x_rules (applyAccessRules w ps x) = Some (accessRules ParseAddr ps).
Proof. unfold applyAccessRules. destruct (w_access w) as [e|]; cbn; [congruence|done]. Qed.

Lemma poll_inv w answer a : w_access w <> Some "" -> Inv a -> ag_pc a = PIdle -> Inv (exec a (CallPoll w answer)).
Proof.
  intros Hw HI Hpc. destruct HI as [Hp Hq Hpeers Hacc [Hl1 Hl2]] eqn:EI. cbn [exec steps fold_left]. unfold step at 2. rewrite Hpc.
  destruct answer as [m|]; cbn [poll].
  2: { unfold step. rewrite Hpc. exact HI. }
  destruct (applyRelay_frame w m (ag_conf a) (ag_eng a)) as (Hlast & Hcp & Hwr & Hwant).
  destruct (applyRelay w m (ag_conf a) (ag_eng a)) as [c e]. cbn [fst snd] in *. rewrite Hwr.
  destruct (wantsRestart m (c_cfg (ag_conf a))) as [why|].
  { constructor; cbn; [done|done| |done|].
    - by rewrite Hwant.
    - by rewrite adopted_peers, Hlast, Hcp. }
  destruct (parsePeers ParsePrefix (nm_peers m)) as [peers|] eqn:Ep; cbn [step ag_pc].
  2: { constructor; cbn; [done|done| |done|].
       - by rewrite Hwant.
       - by rewrite Hlast, Hcp. }
  constructor; cbn; [done|done| | |].
  - exists peers. split; [done|]. apply SetPeers_wanted.
  - intros He. right. by apply applyAccessRules_ok.
  - destruct (applyPeers_last w m c) as [H1 H2]; [by rewrite Hlast, Hcp|]. done.
Qed.

Lemma mapExec_inv c a : sound c -> Inv a -> Inv (exec a c).
Proof.
  intros Hc HI. destruct (ag_pc a) as [|peers was|why] eqn:Hpc; [| |].
  - destruct c as [w answer| |]; [by apply poll_inv| |]; destruct HI as [Hp Hq (peers & Hpp & Hpw) Hacc Hl];
      cbn [exec]; rewrite Hp; cbn [steps fold_left length].
    all: destruct a as [cf mp pol fw ac eg pz pd p]; cbn in Hp, Hpc, Hpp, Hpw; subst.
    + cbn. constructor; cbn; [done|done| |done|done]. exists peers. split; [done|]. apply SetPeers_wanted.
    + cbn. rewrite Hpp. cbn. constructor; cbn; [done|done| |done|done].
      exists peers. split; [done|]. apply SetPeers_wanted.
  - destruct HI as [_ Hq _ _ _]. by rewrite Hpc in Hq.
  - assert (exec a c = a) as ->; [|done].
    destruct c; cbn [exec steps fold_left]; unfold step; by repeat (rewrite Hpc; cbn).
Qed.

Lemma mapExecs_inv calls a : Forall sound calls -> Inv a -> Inv (execs calls a).
Proof.
  intros Hs. unfold execs. revert a. induction Hs as [|c calls Hc Hs IH]; intros a HI; cbn [fold_left]; [done|].
  by apply IH, mapExec_inv.
Qed.

Lemma up_inv file a : up file = Ok a -> Inv a.
Proof.
  unfold up. destruct (_ || _); [done|]. destruct (ParseKey _); [|done]. destruct (ParseAddr _); [|done].
  destruct (parsePeers ParsePrefix (cf_peers file)) as [peers|] eqn:Ep; [|done].
  assert (Hw : forall e0, eng_wanted e0 = ∅ ->
    eng_wanted (if (0 <? length peers)%nat then eng_SetPeers peers e0 else e0) = Engine.Engine.wantedOf peers).
  { intros e0 He. destruct peers as [|q peers]; [done|]. cbn [length Nat.ltb Nat.leb]. apply SetPeers_wanted. }
  intros [= <-]. constructor; cbn; [done|done| |by left|done]. exists peers. split; [done|]. apply Hw.
  destruct (cf_relay file); [rewrite SetRelay_wanted|]; apply new_wanted.
Qed.

(** *** What the file, the configuration and the rules have to do with the map *)

(** A map is of peers the panel may list; every write of the file worked. *)
Definition plainCall (c : call) : Prop := match c with CallPoll _ (Some m) => Forall plain (nm_peers m) | _ => True end.
Definition saving (c : call) : Prop := match c with CallPoll w _ => w_saves w = true | _ => True end.

Definition unruled (file : Config) (a : agent E) : Prop :=
  x_error (ag_access a) = "" -> x_rules (ag_access a) = None -> ag_map a = cf_peers file.
Definition listed (a : agent E) : Prop := Forall plain (ag_map a) /\ Forall plain (cf_peers (c_cfg (ag_conf a))).
Definition written (a : agent E) : Prop := c_file (ag_conf a) = c_cfg (ag_conf a).

(** A pause or a resume touches none of them. *)
Lemma exec_frame a c :
  match c with CallPoll _ _ => False | _ => True end ->
  ag_map (exec a c) = ag_map a /\ ag_conf (exec a c) = ag_conf a /\ ag_access (exec a c) = ag_access a.
Proof.
  assert (Hstep : forall ev a, match ev with EvPoll _ _ => False | _ => True end ->
    ag_map (step a ev) = ag_map a /\ ag_conf (step a ev) = ag_conf a /\ ag_access (step a ev) = ag_access a).
  { intros ev a0 Hev. unfold step, control, with_control, with_eng, with_pc. repeat (case_match; try done). }
  assert (Hsteps : forall evs a, Forall (fun ev => match ev with EvPoll _ _ => False | _ => True end) evs ->
    ag_map (steps evs a) = ag_map a /\ ag_conf (steps evs a) = ag_conf a /\ ag_access (steps evs a) = ag_access a).
  { intros evs. induction evs as [|ev evs IH]; intros a0 Hall; [done|]. apply Forall_cons in Hall as [Hev Hall].
    destruct (IH (step a0 ev) Hall) as (H1 & H2 & H3), (Hstep ev a0 Hev) as (H4 & H5 & H6).
    change (steps (ev :: evs) a0) with (steps evs (step a0 ev)). split; [congruence|]. split; congruence. }
  destruct c; [done|intros _; apply Hsteps; by repeat constructor..].
Qed.

(** A turn of [followTheMap] that ends by setting the peers. *)
Lemma poll_frame w answer a :
  ag_pc a = PIdle ->
  ag_map (exec a (CallPoll w answer)) = ag_map (poll w answer a) /\ ag_conf (exec a (CallPoll w answer)) = ag_conf (poll w answer a) /\
  ag_access (exec a (CallPoll w answer)) = ag_access (poll w answer a).
Proof.
  intros Hpc. cbn [exec steps fold_left]. unfold step at 2 4 6. rewrite Hpc. unfold step. by destruct (ag_pc (poll w answer a)).
Qed.

Lemma applyRelay_written w m c e : w_saves w = true -> c_file c = c_cfg c -> c_file (applyRelay w m c e).1 = c_cfg (applyRelay w m c e).1.
Proof. unfold applyRelay. destruct (nm_relay m); [|done]. intros Hw Hc. case_bool_decide; [done|]. unfold saveConfig. by rewrite Hw. Qed.

Lemma exec_kept file a c :
  Inv a -> sound c -> unruled file a -> (plainCall c -> listed a -> listed (exec a c)) /\ (saving c -> written a -> written (exec a c)) /\
  unruled file (exec a c).
Proof.
  intros HI Hs Hu. destruct c as [w answer| |].
  2: destruct (exec_frame a CallPause I) as (E1 & E2 & E3).
  3: destruct (exec_frame a CallResume I) as (E1 & E2 & E3).
  2, 3: unfold unruled, listed, written in *; by rewrite E1, E2, E3.
  destruct (ag_pc a) as [|peers was|why] eqn:Hpc; [| |].
  - destruct (poll_frame w answer a Hpc) as (E1 & E2 & E3). unfold unruled, listed, written in *. rewrite E1, E2, E3.
    destruct answer as [m|]; cbn [poll]; [|done]. cbn [plainCall saving sound] in *.
    destruct (applyRelay_frame w m (ag_conf a) (ag_eng a)) as (_ & Hcp & _ & _).
    pose proof (applyRelay_written w m (ag_conf a) (ag_eng a)) as Hrw.
    destruct (applyRelay w m (ag_conf a) (ag_eng a)) as [c e]. cbn [fst] in *.
    destruct (wantsRestart m (c_cfg c)) as [why|].
    { cbn. rewrite adopted_peers, Hcp. split; [done|]. split; [|done]. intros Hw _. unfold saveConfig. by rewrite Hw. }
    destruct (parsePeers ParsePrefix (nm_peers m)) as [peers|]; [|cbn; rewrite Hcp; splits; auto].
    cbn. split; [|split].
    + intros Hp [_ Hc]. split; [done|]. unfold applyPeers. case_match; [by rewrite Hcp|done].
    + intros Hw Hc. unfold applyPeers. case_match; [by apply Hrw|]. unfold saveConfig. by rewrite Hw.
    + intros He Hr. by rewrite (applyAccessRules_ok w (nm_peers m) (ag_access a) Hs He) in Hr.
  - destruct HI as [_ Hq _ _ _]. by rewrite Hpc in Hq.
  - assert (exec a (CallPoll w answer) = a) as ->; [|done].
    cbn [exec steps fold_left]; unfold step; by repeat (rewrite Hpc; cbn).
Qed.

Lemma execs_kept file calls : forall a,
  Inv a -> Forall sound calls -> unruled file a ->
  (Forall plainCall calls -> listed a -> listed (execs calls a)) /\ (Forall saving calls -> written a -> written (execs calls a)) /\
  unruled file (execs calls a).
Proof.
  induction calls as [|c calls IH]; intros a HI Hs Hu; [done|]. apply Forall_cons in Hs as [Hc Hs].
  destruct (exec_kept file a c HI Hc Hu) as (Hp & Hw & Hu'). destruct (IH (exec a c) (mapExec_inv c a Hc HI) Hs Hu') as (Hp' & Hw' & Hu'').
  change (execs (c :: calls) a) with (execs calls (exec a c)).
  split; [intros [? ?]%Forall_cons ?; auto|]. split; [intros [? ?]%Forall_cons ?; auto|done].
Qed.

(** C20: who a machine talks to and what it allows are never two versions of the
    truth: between calls, the engine works on exactly the peers of the last map
    that was applied (or the ones in the file), or on none while the machine is
    paused; the access rules in force are those of that same map, unless the
    machine says why they are not, and there are none only as long as no map was
    applied to the peers of the file; the configuration lists the same peers,
    with the same networks and names, in the same order, when keys, networks and
    names are what a panel may send; and it is what the file has to say after a
    restart, when the file could be written each time. *)
Theorem one_truth file a calls :
  up file = Ok a -> Forall sound calls ->
  let a' := execs calls a in
  (exists peers, parsePeers ParsePrefix (ag_map a') = Ok peers /\
    eng_wanted (ag_eng a') = Engine.Engine.wantedOf (if ag_paused a' then [] else peers)) /\
  (x_error (ag_access a') = "" ->
    x_rules (ag_access a') = Some (accessRules ParseAddr (ag_map a')) \/
    (x_rules (ag_access a') = None /\ ag_map a' = cf_peers file)) /\
  (Forall plain (cf_peers file) -> Forall plainCall calls ->
    map printed (cf_peers (c_cfg (ag_conf a'))) = map printed (ag_map a')) /\
  (Forall saving calls -> c_file (ag_conf a') = c_cfg (ag_conf a')).
Proof.
  intros Hup Hs. cbv zeta. pose proof (up_inv _ _ Hup) as HI0. pose proof (mapExecs_inv calls a Hs HI0) as HI.
  assert (H0 : ag_map a = cf_peers file /\ c_cfg (ag_conf a) = file /\ c_file (ag_conf a) = file).
  { unfold up in Hup. destruct (_ || _); [done|]. destruct (ParseKey _); [|done]. destruct (ParseAddr _); [|done].
    destruct (parsePeers _ _); [|done]. by injection Hup as <-. }
  destruct H0 as (Em & Ec & Ef).
  destruct (execs_kept file calls a HI0 Hs (fun _ _ => Em)) as (Hp & Hw & Hu).
  destruct HI as [_ _ Hpeers Hx [Hl1 Hl2]]. split; [exact Hpeers|]. split; [|split].
  - intros He. destruct (Hx He) as [Hn|]; [right|by left]. split; [done|]. by apply Hu.
  - intros Hf Hc. destruct (Hp Hc) as [Hm Hcfg]; [unfold listed; by rewrite Em, Ec|].
    apply mapFingerprint_printed; [done..|]. congruence.
  - intros Hsv. apply Hw; [done|]. unfold written. congruence.
Qed.

(** ** Pausing, whatever overlaps *)

(** The tunnels are down, and nothing under way will bring them up. *)
Definition down (a : agent E) : Prop :=
  ag_paused a = true /\ eng_wanted (ag_eng a) = ∅ /\
  Forall (fun c => c = CSet []) (ag_pending a) /\
  match ag_pc a with PApply _ was => was = true | _ => True end.

Lemma down_step a ev : ev <> EvResume -> down a -> down (step a ev).
Proof.
  intros Hev (Hp & Hw & Hall & Hpc). destruct a as [cf mp pol fw ac eg pz pd p]. cbn in *. subst pz.
  assert (Hctl : forall i, down (control i (mkAgent cf mp pol fw ac eg true pd p))).
  { intros i. unfold control. cbn [ag_pending]. destruct (pd !! i) as [x|] eqn:Ei; [|by split].
    pose proof (Forall_lookup_1 _ _ _ _ Hall Ei) as ->.
    split; [done|]. cbn. rewrite SetPeers_wanted. split; [done|]. split; [|done].
    by apply Forall_delete. }
  destruct p as [|peers was|why]; cbn [step ag_pc]; [| |by split].
  - destruct ev as [w answer| | | |i]; try done.
    + unfold poll. destruct answer as [m|]; [|by split]. cbn [ag_conf ag_eng].
      destruct (applyRelay_frame w m cf eg) as (_ & _ & _ & Hwant).
      destruct (applyRelay w m cf eg) as [c e]. cbn [snd] in Hwant. rewrite <- Hwant in Hw.
      destruct (wantsRestart _ _); [by split|]. destruct (parsePeers _ _); unfold down; cbn; splits.
    + split; [done|]. cbn. split; [done|]. split; [|done]. apply Forall_app_2; [done|by constructor].
  - destruct ev as [w answer| | | |i]; try done.
    + split; [done|]. cbn in *. subst was. rewrite SetPeers_wanted. by split.
    + split; [done|]. cbn. split; [done|]. split; [|done]. apply Forall_app_2; [done|by constructor].
Qed.

Lemma down_steps a evs : down a -> EvResume ∉ evs -> down (steps evs a).
Proof.
  intros Hd Hn. unfold steps. revert a Hd. induction evs as [|ev evs IH]; intros a Hd; cbn [fold_left]; [done|].
  apply not_elem_of_cons in Hn as [Hne Hn]. apply IH; [done|]. apply down_step; [congruence|done].
Qed.

Lemma pause_down a : Inv a -> ag_pc a = PIdle -> down (exec a CallPause).
Proof.
  intros [Hp _ _ _ _] Hpc. destruct a as [cf mp pol fw ac eg pz pd p]. cbn in Hp, Hpc. subst. cbn.
  split; [done|]. cbn. rewrite SetPeers_wanted. splits.
Qed.

(** C34: a machine that is paused stays off the mesh: once a pause has taken
    effect, no map, no other request and no interleaving of their steps puts a
    single peer back until somebody resumes. *)
Theorem pause_holds file a calls evs :
  up file = Ok a -> Forall sound calls -> ag_pc (execs calls a) = PIdle -> EvResume ∉ evs ->
  let a' := steps evs (exec (execs calls a) CallPause) in
  ag_paused a' = true /\ eng_wanted (ag_eng a') = ∅.
Proof.
  intros Hup Hs Hpc Hn. cbv zeta. apply up_inv in Hup.
  destruct (down_steps (exec (execs calls a) CallPause) evs) as (Hp & Hw & _); [|done|done].
  apply pause_down; [by apply mapExecs_inv|done].
Qed.

(** ** Restarts *)

(** A process that starts from a file and polls a map: the file it leaves, and
    why it ended if it did. *)
Definition lifetime (file : Config) (w : answers) (m : networkMap) : Config * option restartWhy :=
  match up file with
  | Err _ => (file, None)
  | Ok a =>
      let a := step a (EvPoll w (Some m)) in
      (c_file (ag_conf a), match ag_pc a with PExited why => Some why | _ => None end)
  end.

(** The restarts that one map causes, as long as it is what the server answers. *)
Fixpoint restarts (fuel : nat) (file : Config) (w : answers) (m : networkMap) : list restartWhy :=
  match fuel with
  | O => []
  | S fuel =>
      match lifetime file w m with
      | (file, Some why) => why :: restarts fuel file w m
      | (_, None) => []
      end
  end.

Definition place (c : Config) : string * string * Z := (cf_address c, cf_subnet c, cf_generation c).

Lemma wantsRestart_place m c c' : place c = place c' -> wantsRestart m c = wantsRestart m c'.
Proof. unfold place, wantsRestart. by intros [= -> -> ->]. Qed.

Lemma adopted_place why m c c' : place c = place c' -> place (adopted why m c) = place (adopted why m c').
Proof. unfold place. intros [= E1 E2 E3]. destruct why; cbn; by rewrite ?E1, ?E2, ?E3. Qed.

Lemma up_conf file a :
  up file = Ok a -> c_cfg (ag_conf a) = file /\ c_file (ag_conf a) = file /\ ag_pc a = PIdle.
Proof.
  unfold up. destruct (_ || _); [done|]. destruct (ParseKey _); [|done]. destruct (ParseAddr _); [|done].
  destruct (parsePeers _ _); [|done]. by intros [= <-].
Qed.

Lemma applyRelay_place w m c e :
  place (c_cfg (applyRelay w m c e).1) = place (c_cfg c).
Proof. unfold applyRelay. destruct (nm_relay m); [|done]. cbn [fst]. by case_bool_decide. Qed.

Lemma lifetime_spec file w m file' why :
  lifetime file w m = (file', Some why) ->
  wantsRestart m file = Some why /\
  (w_saves w = true -> place file' = place (adopted why m file)) /\
  (w_saves w = false -> file' = file).
Proof.
  unfold lifetime. destruct (up file) as [a|] eqn:Eu; [|done].
  destruct (up_conf _ _ Eu) as (Hc & Hf & Hpc). unfold step. rewrite Hpc. unfold poll.
  pose proof (applyRelay_place w m (ag_conf a) (ag_eng a)) as Hpl.
  assert (Hfile : w_saves w = false -> c_file (applyRelay w m (ag_conf a) (ag_eng a)).1 = file).
  { intros Hs. unfold applyRelay. destruct (nm_relay m); [|done]. cbn [fst]. case_bool_decide; [done|]. cbn. by rewrite Hs. }
  destruct (applyRelay w m (ag_conf a) (ag_eng a)) as [c e]. cbn [fst] in *. rewrite Hc in Hpl.
  rewrite (wantsRestart_place m _ _ Hpl).
  destruct (wantsRestart m file) as [why'|]; cbn.
  - intros [= <- <-]. split; [done|]. split; intros Hs; rewrite Hs; [by apply adopted_place|auto].
  - destruct (parsePeers _ _); cbn; done.
Qed.

(** What one restart leaves to do. *)
Lemma adopted_next why m c :
  wantsRestart m c = Some why ->
  match why with
  | RSubnet => wantsRestart m (adopted why m c) <> Some RSubnet
  | _ => wantsRestart m (adopted why m c) = None
  end.
Proof.
  unfold wantsRestart. destruct why; cbn [adopted cf_subnet cf_address cf_generation set_place].
  - intros _. rewrite String.eqb_refl, andb_false_r. destruct (_ && _); [done|]. by case_match.
  - destruct (negb (String.eqb (nm_subnet m) "") && _); [done|].
    destruct (negb (String.eqb (nm_address m) "") && _); [|by case_match].
    intros _. rewrite String.eqb_refl, andb_false_r.
    destruct (Z.ltb_spec (cf_generation c) (nm_generation m)) as [H1|H1]; [by rewrite Z.ltb_irrefl|].
    by destruct (Z.ltb_spec (cf_generation c) (nm_generation m)); [lia|].
  - destruct (negb (String.eqb (nm_subnet m) "") && _); [done|].
    destruct (negb (String.eqb (nm_address m) "") && _); [done|]. intros _. by rewrite Z.ltb_irrefl.
Qed.

Lemma restarts_settled fuel file w m : wantsRestart m file = None -> restarts fuel file w m = [].
Proof.
  intros Hn. destruct fuel as [|fuel]; [done|]. cbn [restarts]. destruct (lifetime file w m) as [file' [why|]] eqn:EL; [|done].
  apply lifetime_spec in EL as (EL & _). congruence.
Qed.

Lemma restarts_one fuel file w m :
  w_saves w = true -> wantsRestart m file <> Some RSubnet -> (length (restarts fuel file w m) <= 1)%nat.
Proof.
  intros Hs Hn. destruct fuel as [|fuel]; [by cbn; lia|]. cbn [restarts].
  destruct (lifetime file w m) as [file' [why|]] eqn:EL; [|cbn; lia].
  destruct (lifetime_spec _ _ _ _ _ EL) as (Hw & Hp & _). specialize (Hp Hs).
  pose proof (adopted_next why m file Hw) as Hnext.
  rewrite restarts_settled; [cbn; lia|]. rewrite (wantsRestart_place m _ _ Hp). by destruct why.
Qed.

(** C33: a change that a machine cannot adopt in place settles: as long as the file
    can be written, the same map makes a machine restart at most twice, and at most
    once unless it moves the subnet. *)
Theorem restarts_settle fuel file w m :
  w_saves w = true ->
  (length (restarts fuel file w m) <= 2)%nat /\
  (nm_subnet m = "" \/ nm_subnet m = cf_subnet file -> (length (restarts fuel file w m) <= 1)%nat).
Proof.
  intros Hs. split.
  - destruct fuel as [|fuel]; [by cbn; lia|]. cbn [restarts].
    destruct (lifetime file w m) as [file' [why|]] eqn:EL; [|cbn; lia].
    destruct (lifetime_spec _ _ _ _ _ EL) as (Hw & Hp & _). specialize (Hp Hs).
    pose proof (adopted_next why m file Hw) as Hnext. cbn [length].
    assert (length (restarts fuel file' w m) <= 1)%nat; [|lia].
    apply restarts_one; [done|]. rewrite (wantsRestart_place m _ _ Hp). destruct why; congruence.
  - intros Hsub. apply restarts_one; [done|]. unfold wantsRestart.
    assert (negb (String.eqb (nm_subnet m) "") && negb (String.eqb (nm_subnet m) (cf_subnet file)) = false) as ->.
    { destruct Hsub as [-> | ->]; [done|]. by rewrite String.eqb_refl, andb_false_r. }
    destruct (_ && _); [done|]. by case_match.
Qed.

(** When the file cannot be written, the same map restarts the machine for ever. *)
Theorem unsaved_restarts_forever fuel file w m a :
  w_saves w = false -> up file = Ok a -> wantsRestart m file <> None -> length (restarts fuel file w m) = fuel.
Proof.
  intros Hs Hup Hw. induction fuel as [|fuel IH]; [done|]. cbn [restarts].
  destruct (lifetime file w m) as [file' [why|]] eqn:EL.
  - destruct (lifetime_spec _ _ _ _ _ EL) as (_ & _ & Hf). rewrite (Hf Hs). cbn. by rewrite IH.
  - exfalso. revert EL. unfold lifetime. rewrite Hup. destruct (up_conf _ _ Hup) as (Hc & _ & Hpc).
    unfold step. rewrite Hpc. unfold poll. destruct (applyRelay_frame w m (ag_conf a) (ag_eng a)) as (_ & _ & Hwr & _).
    destruct (applyRelay w m (ag_conf a) (ag_eng a)) as [c e]. cbn [fst] in Hwr. rewrite Hwr, Hc.
    by destruct (wantsRestart m file).
Qed.

(** An address that does not parse is written down before anything looks at it,
    and the next process cannot start from it. *)
Theorem unparseable_address_fatal file w m file' :
  w_saves w = true -> lifetime file w m = (file', Some RAddress) -> ParseAddr (nm_address m) = None ->
  cf_privateKey file' <> "" -> cf_signalURL file' <> "" -> is_Some (ParseKey (cf_privateKey file')) ->
  up file' = Err EAddress.
Proof.
  intros Hs EL Ha Hk Hsig [k Hkey]. destruct (lifetime_spec _ _ _ _ _ EL) as (_ & Hp & _). specialize (Hp Hs).
  unfold place in Hp. injection Hp as Hp _ _. cbn in Hp. unfold up.
  destruct (String.eqb_spec (cf_signalURL file') ""); [done|].
  destruct (String.eqb_spec (cf_privateKey file') ""); [done|]. cbn [orb]. by rewrite Hkey, Hp, Ha.
Qed.

(** A router that failed once and is then asked to carry nothing goes on
    reporting the failure: nothing was carried, so nothing is undone and nothing
    is cleared. *)
Theorem routing_error_sticks w1 w2 cfg l mesh why f :
  f_routing f = false -> ParsePrefix (cf_subnet cfg) = Some mesh ->
  advertisedRoutes ParsePrefix l <> [] -> w_router w1 mesh (advertisedRoutes ParsePrefix l) = Some why ->
  f_error (applyAdvertised w2 cfg [] (applyAdvertised w1 cfg l f)) = why.
Proof.
  intros Hf Hm Hl Hw. unfold applyAdvertised. destruct (advertisedRoutes ParsePrefix l); [done|].
  cbn [length Nat.eqb andb]. rewrite Hm, Hw. cbn. by rewrite Hf.
Qed.

End Agent.

(** ** The engine as Engine.v models it *)

Section Implementation.
Context `{WGKeys} (p2p : P2P.P2P.Config) (endpoint : Key -> option AddrPort).
Import Engine.Engine.

Definition engine : Type := { e : Engine | Engine.Inv e }.

Definition orderOf {A} (m : gmap string A) : list string := (map_to_list m).*1.

Lemma orderOf_spec {A} (m : gmap string A) : NoDup (orderOf m) /\ forall k, k ∈ orderOf m <-> is_Some (m !! k).
Proof.
  split; [apply NoDup_fst_map_to_list|]. intros k. unfold orderOf. rewrite list_elem_of_fmap. split.
  - intros ([k' x] & -> & Hx). apply elem_of_map_to_list in Hx. by exists x.
  - intros [x Hx]. exists (k, x). split; [done|]. by apply elem_of_map_to_list.
Qed.

Definition setPeers (ps : list Peer) (e : Engine) : Engine :=
  (SetPeers ps (orderOf (e_peers e)) (orderOf (wantedOf ps)) endpoint e).1.

Lemma setPeers_facts ps e :
  Engine.Inv e -> Engine.Inv (setPeers ps e) /\
  forall k, (id ← e_peers (setPeers ps e) !! k; i_spec <$> e_links (setPeers ps e) !! id) = wantedOf ps !! k.
Proof.
  intros HI. unfold setPeers. destruct (orderOf_spec (wantedOf ps)) as [Hnd Hw].
  pose proof (SetPeers_facts ps (orderOf (e_peers e)) (orderOf (wantedOf ps)) endpoint e HI Hnd
                (proj2 (orderOf_spec (e_peers e))) Hw) as HF.
  destruct (SetPeers ps _ _ endpoint e) as [e' acts]. destruct HF as (HI' & Hdom & _ & Hspec). split; [done|].
  cbn [fst]. intros k. destruct (wantedOf ps !! k) as [spec|] eqn:Ek.
  - destruct (Hspec k spec Ek) as (id & i & -> & Hi & Hs & _). cbn. by rewrite Hi, <- Hs.
  - destruct (e_peers e' !! k) eqn:Ep; [|done]. destruct (proj1 (Hdom k)) as [? ?]; [by eexists|congruence].
Qed.

Lemma drop_p2p wanted x key : e_p2p (drop wanted x key).1 = e_p2p x.1.
Proof. destruct x as [e acts]. unfold drop. repeat case_match; done. Qed.

Lemma drops_p2p wanted l : forall x, e_p2p (fold_left (drop wanted) l x).1 = e_p2p x.1.
Proof. induction l as [|k l IH]; intros x; cbn [fold_left]; [done|]. by rewrite IH, drop_p2p. Qed.

Lemma add_p2p wanted x key : e_p2p (add wanted x key).1.1.1 = e_p2p x.1.1.1.
Proof. destruct x as [[[e acts] moved] starting]. unfold add. repeat case_match; done. Qed.

Lemma adds_p2p wanted l : forall x, e_p2p (fold_left (add wanted) l x).1.1.1 = e_p2p x.1.1.1.
Proof. induction l as [|k l IH]; intros x; cbn [fold_left]; [done|]. by rewrite IH, add_p2p. Qed.

Lemma setPeers_p2p ps e : e_p2p (setPeers ps e) = e_p2p e.
Proof.
  unfold setPeers, SetPeers, SetPeersLocked. pose proof (drops_p2p (wantedOf ps) (orderOf (e_peers e)) (e, [])) as H1.
  destruct (fold_left (drop _) _ _) as [e1 acts1].
  pose proof (adds_p2p (wantedOf ps) (orderOf (wantedOf ps)) (e1, acts1, [], [])) as H2.
  destruct (fold_left (add _) _ _) as [[[e2 acts2] moved] starting].
  destruct (startAll_facts starting (set_ctx e2)) as (_ & _ & H3 & _). cbn in *. congruence.
Qed.

Lemma SetRelay_inv u n p e : Engine.Inv e -> Engine.Inv (SetRelay u n p e).
Proof. intros [? ?]. by constructor. Qed.

Definition wantedBy (e : Engine) : gmap string Peer := omap (fun id => i_spec <$> e_links e !! id) (e_peers e).

#[export, refine] Instance realEngine : PeerEngine engine := {|
  eng_new subnet := newEngine subnet p2p ↾ newEngine_inv subnet p2p;
  eng_SetPeers ps e := setPeers ps (`e) ↾ proj1 (setPeers_facts ps (`e) (proj2_sig e));
  eng_SetRelay u n p e := SetRelay u n p (`e) ↾ SetRelay_inv u n p (`e) (proj2_sig e);
  eng_wanted e := wantedBy (`e);
  eng_turn e := c_turn (e_p2p (`e)) |}.
Proof.
  - intros subnet. cbn. apply omap_empty.
  - intros ps e. cbn [proj1_sig]. apply map_eq. intros k. unfold wantedBy. rewrite lookup_omap.
    apply (setPeers_facts ps (`e) (proj2_sig e)).
  - intros ps e. cbn [proj1_sig]. by rewrite setPeers_p2p.
  - done.
  - intros u n p e. cbn. by destruct (String.eqb u "").
Defined.

End Implementation.

(** ** Witnesses, on the engine above and dotted addresses *)

Definition exParseAddr (s : string) : option Addr :=
  match map Atoi (splitc "."%char s) with
  | [Some a; Some b; Some c; Some d] => Some (V4 (((a * 256 + b) * 256 + c) * 256 + d))
  | _ => None
  end.
Definition exParsePrefix (s : string) : option Prefix :=
  match splitc "/"%char s with
  | [a; n] => a ← exParseAddr a; n ← Atoi n; Some (mkPrefix a n)
  | _ => None
  end.

Definition exK (n : Z) : string := KeyString (exKey n).
Definition exSSH : Rule := mkRule "tcp" [Filter.Filter.mkPortRange 22 22].
Definition exPeer (n : Z) (address : string) (inbound : option (list Rule)) : PeerConfig :=
  mkPeerConfig (exK n) [address +:+ "/32"] "peer" address inbound.
Definition exPeers : list PeerConfig := [exPeer 1 "10.90.0.7" None; exPeer 2 "10.90.0.3" (Some [exSSH])].
Definition exFile (subnet : string) : Config :=
  mkConfig (exK 9) "10.90.0.1" subnet "wss://signal" "https://panel" "token" [] None [exPeer 1 "10.90.0.7" None] 4 false.
Definition exMap (subnet : string) (generation : Z) : networkMap :=
  mkMap "10.90.0.1" subnet "wss://signal" None exPeers generation None [].
Definition exAnswers : answers := mkAnswers true None (fun _ _ => None).

Definition exP2P : P2P.P2P.Config :=
  P2P.P2P.mkConfig (exKey 9) [] [] false false false None None false 0 0 0.
#[local] Instance exEngine : PeerEngine engine := realEngine exP2P (fun _ => None).

Definition exUp (file : Config) : result upError (agent engine) := up exParsePrefix exParseAddr file.
Definition exCalls : list call :=
  [CallPoll exAnswers None; CallPause; CallPoll exAnswers (Some (exMap "10.90.0.0/24" 4)); CallResume].

(** The agent that starts on the file. *)
Lemma exUp_ok : is_ok (exUp (exFile "10.90.0.0/24")) = true.
Proof. vm_compute. reflexivity. Defined.
Definition exAgent : agent engine := okOf _ exUp_ok.
Definition exAgent_up : exUp (exFile "10.90.0.0/24") = Ok exAgent := okOf_eq _ exUp_ok.

Lemma exPeers_plain : Forall plain exPeers.
Proof. repeat constructor; vm_compute; done. Qed.

Lemma one_truth_witness :
  let a' := execs exParsePrefix exParseAddr exCalls exAgent in
  ag_map a' = exPeers /\
  (exists peers, parsePeers exParsePrefix (ag_map a') = Ok peers /\
    eng_wanted (ag_eng a') = Engine.Engine.wantedOf (if ag_paused a' then [] else peers)) /\
  map printed (cf_peers (c_cfg (ag_conf a'))) = map printed (ag_map a') /\ c_file (ag_conf a') = c_cfg (ag_conf a').
Proof.
  split; [vm_compute; reflexivity|].
  destruct (one_truth exParsePrefix exParseAddr (exFile "10.90.0.0/24") exAgent exCalls exAgent_up) as (H1 & _ & H3 & H4).
  - repeat (constructor; [cbn; done|]). constructor.
  - split; [exact H1|]. split; [apply H3|apply H4].
    + repeat constructor; vm_compute; done.
    + apply Forall_cons. split; [exact I|]. apply Forall_cons. split; [exact I|]. apply Forall_cons.
      split; [exact exPeers_plain|]. apply Forall_cons. by split.
    + by repeat constructor.
Defined.

Lemma pause_holds_witness :
  let evs := [EvPoll exAnswers (Some (exMap "10.90.0.0/24" 4)); EvPause; EvApply; EvControl 0] in
  let a' := steps exParsePrefix exParseAddr evs (exec exParsePrefix exParseAddr exAgent CallPause) in
  ag_paused a' = true /\ eng_wanted (ag_eng a') = ∅.
Proof.
  apply (pause_holds exParsePrefix exParseAddr (exFile "10.90.0.0/24") exAgent []);
    [exact exAgent_up|constructor|vm_compute; reflexivity|set_solver].
Defined.

Lemma restarts_settle_witness :
  restarts (E := engine) exParsePrefix exParseAddr 9 (exFile "") exAnswers (exMap "10.90.0.0/24" 5) = [RSubnet; RGeneration] /\
  (length (restarts (E := engine) exParsePrefix exParseAddr 9 (exFile "") exAnswers (exMap "10.90.0.0/24" 5)) <= 2)%nat.
Proof.
  split; [vm_compute; reflexivity|].
  apply (restarts_settle exParsePrefix exParseAddr 9 (exFile "") exAnswers (exMap "10.90.0.0/24" 5) eq_refl).
Defined.

Lemma mapFingerprint_faithful_witness :
  parsePeers exParsePrefix exPeers = parsePeers exParsePrefix [exPeer 1 "10.90.0.7" (Some [exSSH]); exPeer 2 "10.90.0.3" None].
Proof.
  apply mapFingerprint_faithful.
  - repeat constructor; vm_compute; done.
  - repeat constructor; vm_compute; done.
  - vm_compute. reflexivity.
Defined.

Definition exSyn : list byte :=
  map Zbyte ([69; 0; 0; 40; 0; 0; 0; 0; 64; 6; 0; 0; 10; 90; 0; 3; 10; 90; 0; 1] ++ [200; 0; 0; 22]).

Lemma map_decides_access_witness :
  exists q r, ruler exParseAddr exPeers (V4 (((10 * 256 + 90) * 256 + 0) * 256 + 3)) = Some q /\
    r ∈ default [] (pc_inbound q) /\ Filter.Filter.allows r 6 22 = true.
Proof.
  apply (map_decides_access exParseAddr exPeers Filter.Filter.New 0 0 exSyn
    (Filter.Filter.mkParsed 6 (V4 (((10 * 256 + 90) * 256 + 0) * 256 + 3)) (V4 (((10 * 256 + 90) * 256 + 0) * 256 + 1)) 51200 22)
    true (Filter.Filter.SetRules Filter.Filter.New (accessRules exParseAddr exPeers))); vm_compute; reflexivity.
Defined.

(** A pause that falls between the read of [paused] and the call of [SetPeers] is
    overtaken: the machine says it is paused and its tunnels are up, until the next
    poll takes them down. *)
Theorem pause_overtaken :
  match exUp (exFile "10.90.0.0/24") with
  | Err _ => False
  | Ok a =>
      let go := steps exParsePrefix exParseAddr in
      let m := exMap "10.90.0.0/24" 4 in
      let a1 := go [EvPoll exAnswers (Some m); EvPause; EvControl 0; EvApply] a in
      ag_paused a1 = true /\ ag_pending a1 = [] /\ size (eng_wanted (ag_eng a1)) = 2%nat /\
      let a2 := go [EvPoll exAnswers (Some m); EvApply] a1 in
      ag_paused a2 = true /\ size (eng_wanted (ag_eng a2)) = 0%nat
  end.
Proof. vm_compute. splits. Qed.

End AgentMap.
