(* ===== verification/Policy.v ===== *)
(** * From a map of the panel to the packets of a machine.

    [applyAccessRules] (cmd/nfagent/register.go) turns the peers of a map into
    rules, [SetAccessRules] (internal/tunnel/device.go) hands them to the filter
    of the device or to the kernel's firewall, and packets meet one or the other.
    The three components meet here: over any history of maps and packets, on
    either kind of device, what is enforced are the rules of the last map that was
    taken, and an error never leaves anything else. *)
From S2P Require Import Prelude GoStrings NetIP NetText Keys Filter NFT NFTMeaning UAPI Device AgentMap.

Module Policy.
Import NetText.NetText.
Import Filter.Filter.
Import Device.Device (Device, d_filter, d_name, d_ctrl, devError, ENoAllowedIPs, EApply, ENoListenPort,
  ENoFirewall, ENFT, SetAccessRules, mkDevice).
Import NFTMeaning.NFTMeaning (hooked, mkHooked, h_iif, h_tracked, h_packet, nftAdmits, readable, ofFamily, ifaceName,
  nftAdmits_ruleset).
Import AgentMap.AgentMap (PeerConfig, access, mkAccess, x_rules, x_error, answers, mkAnswers, w_access, accessRules,
  applyAccessRules, ruler, pc_inbound, fold_addRules, applyAccessRules_ok).

Section Policy.
Context {C : Type}.
(** [netip.ParseAddr], and the text [exec] gives to a command that failed. *)
Context (ParseAddr : string -> option Addr) (exitText : string).

(** [Error] of what [SetAccessRules] can return; the other errors of a device do
    not come from it. *)
Definition errText (e : devError) : string :=
  match e with
  | ENoFirewall =>
      "this machine has no way to apply access rules: nftables is not installed, " +:+
      "so every policy behaves as two-way here"
  | ENFT stderr => "nft: " +:+ exitText +:+ ": " +:+ stderr
  | ENoAllowedIPs _ | EApply _ | ENoListenPort => ""
  end.

(** A machine: its device, the text the kernel's firewall last took from nft, and
    what the agent says it applied. *)
Record host : Type := mkHost { h_dev : Device C; h_table : option string; h_access : access }.

Definition h_filter (h : host) : option Filter := d_filter (h_dev h).

(** What a text leaves in the kernel: nft takes a whole text or nothing of it. *)
Definition loaded (d : Device C) (rules : gmap Addr (list Rule)) (order : list Addr)
    (r : result devError unit) (t : option string) : option string :=
  match d_filter d, r with
  | None, Ok _ => Some (NFT.NFT.buildRuleset (d_name d) rules order)
  | _, _ => t
  end.

(** [applyAccessRules] on a machine.  [avail], [nft] and [order]: whether nft is
    there, what it answers, and the order of the keys of the rules. *)
Definition takeMap (avail : bool) (nft : string -> option string) (order : list Addr) (ps : list PeerConfig) (h : host) : host :=
  let rules := accessRules ParseAddr ps in
  let '(d, r) := SetAccessRules avail nft order rules (h_dev h) in
  mkHost d (loaded (h_dev h) rules order r (h_table h))
    (applyAccessRules ParseAddr (mkAnswers true (match r with Ok _ => None | Err e => Some (errText e) end) (fun _ _ => None))
       ps (h_access h)).

Definition with_filter (f : Filter) (h : host) : host :=
  mkHost (mkDevice (d_ctrl (h_dev h)) (d_name (h_dev h)) (Device.Device.d_addrs (h_dev h)) (Some f)
            (Device.Device.d_peers (h_dev h)) (Device.Device.d_closed (h_dev h))) (h_table h) (h_access h).

Inductive event : Type :=
| EMap (avail : bool) (nft : string -> option string) (order : list Addr) (ps : list PeerConfig)
| EIn (now now' : Z) (pkt : list byte)
| EOut (now : Z) (pkt : list byte).

Definition step (h : host) (e : event) : go host :=
  match e with
  | EMap avail nft order ps => Ret (takeMap avail nft order ps h)
  | EIn now now' pkt =>
      match h_filter h with
      | Some f => '(_, f') ← Inbound f now now' pkt; Ret (with_filter f' h)
      | None => Ret h
      end
  | EOut now pkt =>
      match h_filter h with
      | Some f => f' ← Outbound f now pkt; Ret (with_filter f' h)
      | None => Ret h
      end
  end.

Fixpoint steps (h : host) (es : list event) : go host :=
  match es with [] => Ret h | e :: es => h' ← step h e; steps h' es end.

(** Whether a packet from the mesh gets in: its bytes, what the kernel sees of it,
    and whether connection tracking knows it.  A text nft cannot read does not get
    as far as the kernel. *)
Definition letsIn (h : host) (now now' : Z) (pkt : list byte) (tracked : bool) (p : parsed) : option bool :=
  match h_filter h with
  | Some f => match Inbound f now now' pkt with Ret (b, _) => Some b | Panic => None end
  | None =>
      match h_table h with
      | None => Some true
      | Some text => nftAdmits ParseAddr text (mkHooked (d_name (h_dev h)) tracked p)
      end
  end.

(** The packet opens a conversation of its own, as far as the machine knows. *)
Definition opens (h : host) (tracked : bool) (p : parsed) : Prop :=
  match h_filter h with Some f => flows f !! inKey p = None | None => tracked = false end.

(** The rules in force. *)
Definition enforced (h : host) : Prop :=
  match h_filter h with
  | Some f => x_rules (h_access h) = if on f then Some (rules f) else None
  | None =>
      match x_rules (h_access h) with
      | None => h_table h = None
      | Some rs => exists order, order ≡ₚ (map_to_list rs).*1 /\
          h_table h = Some (NFT.NFT.buildRuleset (d_name (h_dev h)) rs order)
      end
  end.

(** A machine that was just started. *)
Definition newHost (d : Device C) : host := mkHost d None (mkAccess None "").

(** The keys of the rules of a map, in some order. *)
Definition orderly (e : event) : Prop :=
  match e with EMap _ _ order ps => order ≡ₚ (map_to_list (accessRules ParseAddr ps)).*1 | _ => True end.

(** The maps of a run, oldest first, each with the error it left. *)
Fixpoint maps (h : host) (es : list event) : list (list PeerConfig * string) :=
  match es with
  | [] => []
  | e :: es =>
      match step h e with
      | Panic => []
      | Ret h' => match e with EMap _ _ _ ps => [(ps, x_error (h_access h'))] | _ => [] end ++ maps h' es
      end
  end.

(** The last map that left no error. *)
Definition taken (l : list (list PeerConfig * string)) : option (list PeerConfig) :=
  x ← last (List.filter (fun x => String.eqb x.2 "") l); Some x.1.

(** What a map says of a packet that opens a conversation. *)
Definition mapAllows (ps : list PeerConfig) (p : parsed) : Prop :=
  exists q r, ruler ParseAddr ps (src p) = Some q /\ r ∈ default [] (pc_inbound q) /\ allows r (proto p) (dstPort p) = true.

(** ** Lemmas *)

Lemma taken_snoc l x : taken (l ++ [x]) = if String.eqb x.2 "" then Some x.1 else taken l.
Proof.
  unfold taken. rewrite List.filter_app. simpl. destruct (String.eqb x.2 ""); [by rewrite last_snoc|by rewrite app_nil_r].
Qed.

(** What the packets of a mesh do to a filter leaves its rules alone. *)
Lemma Inbound_rules f now now' pkt b f' : Inbound f now now' pkt = Ret (b, f') -> on f' = on f /\ rules f' = rules f.
Proof.
  unfold Inbound. destruct (on f) eqn:Eo; cbn [negb]; [|intros [= _ <-]; done].
  destruct (parse pkt) as [[p|]|]; cbn; [|intros [= _ <-]; done|done].
  repeat case_match; intros [= _ <-]; done.
Qed.

Lemma Outbound_rules f now pkt f' : Outbound f now pkt = Ret f' -> on f' = on f /\ rules f' = rules f.
Proof.
  unfold Outbound. destruct (parse pkt) as [[p|]|]; cbn; [|intros [= <-]; done|done].
  case_match; intros [= <-]; done.
Qed.

(** What holds between two events: the rules in force are those of the last map
    taken, and the device is of the kind it was. *)
Record Inv (d : Device C) (l : list (list PeerConfig * string)) (h : host) : Prop := {
  iv_enforced : enforced h;
  iv_rules : x_rules (h_access h) = accessRules ParseAddr <$> taken l;
  iv_name : d_name (h_dev h) = d_name d;
  iv_kind : is_Some (h_filter h) <-> is_Some (d_filter d) }.

Lemma host_filter d l h f f' :
  Inv d l h -> h_filter h = Some f -> on f' = on f -> rules f' = rules f -> Inv d l (with_filter f' h).
Proof.
  intros [He Hr Hn Hk] Ef Eo Er. unfold enforced in He. rewrite Ef in He. split; cbn; [|done|done|].
  - unfold enforced. cbn. by rewrite Eo, Er.
  - rewrite <- Hk, Ef. split; by eexists.
Qed.

(** Taking a map: the filter or the firewall has the rules, or neither changed and
    the error says so. *)
Lemma takeMap_cases avail nft order ps h :
  let rs := accessRules ParseAddr ps in let h' := takeMap avail nft order ps h in
  (x_error (h_access h') = "" /\ x_rules (h_access h') = Some rs /\
   match h_filter h with
   | Some f => h_dev h' = h_dev (with_filter (SetRules f rs) h) /\ h_table h' = h_table h
   | None => h_dev h' = h_dev h /\ h_table h' = Some (NFT.NFT.buildRuleset (d_name (h_dev h)) rs order)
   end) \/
  (x_error (h_access h') <> "" /\ x_rules (h_access h') = x_rules (h_access h) /\
   h_dev h' = h_dev h /\ h_table h' = h_table h).
Proof.
  unfold takeMap, h_filter, with_filter, SetAccessRules, loaded, applyAccessRules.
  destruct (d_filter (h_dev h)) as [f|] eqn:Ef; [by left|].
  destruct avail; cbn [negb].
  - destruct (NFT.NFT.ApplyNFTables nft (d_name (h_dev h)) (accessRules ParseAddr ps) order) as [u|err]; [by left|].
    by right.
  - by right.
Qed.

Lemma host_takeMap d l h avail nft order ps :
  Inv d l h -> order ≡ₚ (map_to_list (accessRules ParseAddr ps)).*1 ->
  Inv d (l ++ [(ps, x_error (h_access (takeMap avail nft order ps h)))]) (takeMap avail nft order ps h).
Proof.
  intros HI Ho. pose proof HI as [He Hr Hn Hk].
  destruct (takeMap_cases avail nft order ps h) as [(E0 & Er & Hd)|(E0 & Er & Ed & Et)]; cbv zeta in *.
  - destruct (h_filter h) as [f|] eqn:Ef; destruct Hd as [Ed Et].
    + split; unfold enforced, h_filter; rewrite ?Ed, ?taken_snoc, ?E0; cbn; [by rewrite Er|by rewrite Er|done|].
      rewrite <- Hk. split; by eexists.
    + split; unfold enforced, h_filter; rewrite ?Ed, ?taken_snoc, ?E0; cbn.
      * unfold h_filter in Ef. rewrite Ef, Er, Et. by exists order.
      * by rewrite Er.
      * done.
      * rewrite <- Hk. unfold h_filter in Ef. by rewrite Ef.
  - apply String.eqb_neq in E0.
    split; unfold enforced, h_filter in *; rewrite ?Ed, ?Et, ?taken_snoc; cbn; rewrite ?E0, ?Er; done.
Qed.

Lemma host_step d l h e :
  Inv d l h -> orderly e ->
  exists h', step h e = Ret h' /\ Inv d (l ++ match e with EMap _ _ _ ps => [(ps, x_error (h_access h'))] | _ => [] end) h'.
Proof.
  intros HI Ho. destruct e as [avail nft order ps|now now' pkt|now pkt]; cbn.
  - eexists. split; [done|]. by apply host_takeMap.
  - rewrite app_nil_r. destruct (h_filter h) as [f|] eqn:Ef; [|by exists h].
    destruct (Inbound_verdict f now now' pkt) as (b & f' & E & _). rewrite E. cbn. eexists. split; [done|].
    destruct (Inbound_rules _ _ _ _ _ _ E). by eapply host_filter.
  - rewrite app_nil_r. destruct (h_filter h) as [f|] eqn:Ef; [|by exists h].
    assert (exists f', Outbound f now pkt = Ret f') as [f' E].
    { unfold Outbound. destruct (parse_total pkt) as [[q|] ->]; cbn; [case_match|]; by eexists. }
    rewrite E. cbn. eexists. split; [done|]. destruct (Outbound_rules _ _ _ _ E). by eapply host_filter.
Qed.

Lemma host_steps d es : forall l h,
  Inv d l h -> Forall orderly es -> exists h', steps h es = Ret h' /\ Inv d (l ++ maps h es) h'.
Proof.
  induction es as [|e es IH]; intros l h HI Ho; cbn; [exists h; by rewrite app_nil_r|].
  apply Forall_cons in Ho as [He Ho]. destruct (host_step d l h e HI He) as (h1 & E1 & HI1). rewrite E1. cbn.
  destruct (IH _ h1 HI1 Ho) as (h' & E' & HI'). exists h'. split; [done|]. by rewrite app_assoc.
Qed.

Lemma mapAllows_rules ps p : mapAllows ps p <-> mayStart (accessRules ParseAddr ps) p.
Proof.
  unfold mapAllows, mayStart, accessRules. rewrite fold_addRules, lookup_empty.
  destruct (ruler ParseAddr ps (src p)) as [q|]; cbn [default from_option]; split.
  - intros (? & r & [= <-] & ? & ?). by exists r.
  - intros (r & ? & ?). by exists q, r.
  - by intros (? & ? & ? & _).
  - by intros (r & ?%not_elem_of_nil & _).
Qed.

(** The verdict on a packet that opens a conversation, by the rules in force. *)
Lemma letsIn_enforced h now now' pkt tracked p :
  enforced h -> (is_Some (h_filter h) -> parse pkt = Ret (Some p)) -> opens h tracked p ->
  (forall rs, h_filter h = None -> x_rules (h_access h) = Some rs ->
     ifaceName (d_name (h_dev h)) = true /\ readable ParseAddr rs /\ ofFamily p) ->
  letsIn h now now' pkt tracked p =
    Some (match x_rules (h_access h) with None => true | Some rs => rulesAllow rs p end).
Proof.
  unfold enforced, opens, letsIn. destruct (h_filter h) as [f|].
  - intros -> Hp Hf _. unfold Inbound. destruct (on f); cbn [negb]; [|done]. rewrite Hp by eauto. cbn. by rewrite Hf.
  - intros He Hp -> Hk. destruct (x_rules (h_access h)) as [rs|]; [|by rewrite He].
    destruct He as (order & Ho & ->). destruct (Hk rs eq_refl eq_refl) as (Hi & Hr & Hf).
    rewrite nftAdmits_ruleset by done. cbn. by rewrite String.eqb_refl.
Qed.

(** ** Properties *)

(** C23: the access a map gives is the access a machine enforces, whichever way it
    enforces it.  Take a device with the filter of this process, fresh, or one
    whose packets only the kernel sees, and any history of maps, of packets in and
    out, of an nft that is missing or refuses what it is given.  A packet that
    opens a conversation gets in exactly as the rules of the last peer at its
    address say, in the last map that left no error; a map that left one changed
    nothing; and before any map everything gets in.  This is of the packets the
    filter can read, where it is the filter that decides; one it cannot read, of
    another protocol or of IPv6 with extension headers, it lets in whatever the
    maps say.  Where it is the kernel's firewall, it is of rules that nft reads and
    of packets in which ICMP is that of their IP version. *)
Theorem map_access_enforced d es now now' pkt tracked p :
  (forall f, d_filter d = Some f -> on f = false) -> Forall orderly es ->
  exists h, steps (newHost d) es = Ret h /\
    (opens h tracked p -> (is_Some (d_filter d) -> parse pkt = Ret (Some p)) ->
     (forall ps, d_filter d = None -> taken (maps (newHost d) es) = Some ps ->
        ifaceName (d_name d) = true /\ readable ParseAddr (accessRules ParseAddr ps) /\ ofFamily p) ->
     exists b, letsIn h now now' pkt tracked p = Some b /\
       (b = true <-> match taken (maps (newHost d) es) with None => True | Some ps => mapAllows ps p end)) /\
    (is_Some (d_filter d) -> parse pkt = Ret None -> letsIn h now now' pkt tracked p = Some true).
Proof.
  intros Hf Ho.
  assert (HI0 : Inv d [] (newHost d)).
  { split; cbn; [|done|done|done]. unfold enforced, h_filter. cbn. destruct (d_filter d) as [f|]; [by rewrite (Hf f)|done]. }
  destruct (host_steps d es [] _ HI0 Ho) as (h & E & [He Hr Hn Hk]). exists h. split; [done|].
  cbn [app] in Hr. set (t := taken (maps (newHost d) es)) in *. split.
  - intros Hop Hp Hkern. eexists. split.
    + apply letsIn_enforced; [done|by rewrite Hk|done|]. intros rs Ef Er. rewrite Hr in Er.
      destruct t as [ps|]; [|done]. injection Er as <-. rewrite Hn. apply Hkern; [|done].
      apply eq_None_not_Some. rewrite <- Hk, Ef. by intros [].
    + rewrite Hr. destruct t as [ps|]; cbn; [|done]. by rewrite rulesAllow_iff, mapAllows_rules.
  - rewrite <- Hk. intros [f Ef] Hp. unfold letsIn. rewrite Ef. unfold Inbound. destruct (on f); cbn [negb]; [|done]. by rewrite Hp.
Qed.

End Policy.
(** ** Witnesses: a map, then one that could not be applied where nft refuses it *)

Definition exDev (f : option Filter) : Device (list string) := mkDevice [] "nf0" [] f ∅ false.
Definition exHistory (order : list Addr) : list event :=
  [EMap true (fun _ => None) order AgentMap.AgentMap.exPeers; EMap true (fun _ => Some "refused") [] []].
Definition exOrder : list Addr := (map_to_list (accessRules AgentMap.AgentMap.exParseAddr AgentMap.AgentMap.exPeers)).*1.

(** SSH from the peer that may start it, at 10.90.0.3. *)
Definition exPacket : parsed :=
  mkParsed 6 (V4 (((10 * 256 + 90) * 256 + 0) * 256 + 3)) (V4 (((10 * 256 + 90) * 256 + 0) * 256 + 1)) 51200 22.

Lemma exRules_readable : readable AgentMap.AgentMap.exParseAddr (accessRules AgentMap.AgentMap.exParseAddr AgentMap.AgentMap.exPeers).
Proof.
  intros a rs E. apply elem_of_map_to_list in E.
  assert (Hin : a = V4 (((10 * 256 + 90) * 256 + 0) * 256 + 7) /\ rs = [] \/
    a = V4 (((10 * 256 + 90) * 256 + 0) * 256 + 3) /\ rs = [AgentMap.AgentMap.exSSH]).
  { vm_compute in E. set_solver. }
  destruct Hin as [[-> ->]|[-> ->]]; (split_and!; [done|done|vm_compute; reflexivity|]);
    repeat constructor; unfold NFTMeaning.NFTMeaning.goodRange; simpl; lia.
Qed.

Lemma exHistory_orderly : Forall (orderly AgentMap.AgentMap.exParseAddr) (exHistory exOrder).
Proof.
  apply Forall_cons. split; [apply Permutation_refl|]. apply Forall_cons. split; [|by constructor].
  cbn [orderly]. change (accessRules _ []) with (∅ : gmap Addr (list Rule)). by rewrite map_to_list_empty.
Qed.

(** On the kernel's device the second map is refused, and the first still stands. *)
Lemma map_access_enforced_witness :
  exists h, steps AgentMap.AgentMap.exParseAddr "exit status 1" (newHost (exDev None)) (exHistory exOrder) = Ret h /\
    x_error (h_access h) <> "" /\
    letsIn AgentMap.AgentMap.exParseAddr h 0 0 AgentMap.AgentMap.exSyn false exPacket = Some true.
Proof.
  destruct (map_access_enforced AgentMap.AgentMap.exParseAddr "exit status 1" (exDev None)
    (exHistory exOrder) 0 0 AgentMap.AgentMap.exSyn false exPacket) as (h & E & Hh & _).
  - done.
  - apply exHistory_orderly.
  - exists h. split; [exact E|].
    assert (Et : taken (maps AgentMap.AgentMap.exParseAddr "exit status 1" (newHost (exDev None))
      (exHistory exOrder)) = Some AgentMap.AgentMap.exPeers) by (vm_compute; reflexivity).
    rewrite Et in Hh. cbn [steps exHistory step mbind go_bind] in E. injection E as <-.
    split; [apply String.eqb_neq; vm_compute; reflexivity|]. destruct Hh as (b & Hb & Hiff).
    + vm_compute. reflexivity.
    + by intros [].
    + intros ps _ [= <-]. split; [reflexivity|]. split; [apply exRules_readable|]. by split.
    + rewrite Hb. f_equal. apply Hiff. eexists _, AgentMap.AgentMap.exSSH. split; [vm_compute; reflexivity|].
      split; [left|reflexivity].
Defined.

End Policy.
