(* ===== verification/AgentUpdate.v ===== *)
(** * cmd/nfagent/update.go: when this binary may be replaced: [attemptGate], which
    keeps one attempt at a time, and [considerUpdate] around [SelfUpdate.Apply]. *)
From S2P Require Import Prelude GoStrings Base64 SelfUpdate NetIP Keys AgentMap.

Module AgentUpdate.
Import SelfUpdate.SelfUpdate.
Import AgentMap.AgentMap (updatePolicy, mkPolicy, up_enabled, up_version).

Definition updateEvery : Z := 6 * Hour.
Definition attemptGap : Z := 5 * Minute.

(** ** The gate *)

(** [last] is the end of the last attempt; the zero time is [None]. *)
Record attemptGate : Type := mkGate { g_running : bool; g_last : option Z }.

Definition newGate : attemptGate := mkGate false None.

Definition begin (now : Z) (g : attemptGate) : attemptGate * bool :=
  if g_running g || match g_last g with Some t => now - t <? attemptGap | None => false end
  then (g, false)
  else (mkGate true (g_last g), true).

Definition done (now : Z) (g : attemptGate) : attemptGate := mkGate false (Some now).

(** Goroutines asking for an attempt and finishing theirs, in any order; only an
    attempt that began can finish.  The log has the newest entry first. *)
Inductive gateEvent : Type := GBegin (now : Z) | GDone (now : Z).
Inductive entry : Type := Began (t : Z) | Ended (t : Z).

Definition gateStep (x : attemptGate * list entry) (e : gateEvent) : attemptGate * list entry :=
  let '(g, log) := x in
  match e with
  | GBegin now => let '(g, ok) := begin now g in (g, if ok then Began now :: log else log)
  | GDone now => if g_running g then (done now g, Ended now :: log) else (g, log)
  end.

Definition gateRun (es : list gateEvent) : attemptGate * list entry := fold_left gateStep es (newGate, []).

(** A log in which attempts follow one another, each one at least [attemptGap]
    after the end of the one before. *)
Definition follows (e : entry) (log : list entry) : Prop :=
  match e, log with
  | Began _, [] => True
  | Began t, Ended t0 :: _ => t0 + attemptGap <= t
  | Ended _, Began _ :: _ => True
  | _, _ => False
  end.

Fixpoint paced (log : list entry) : Prop :=
  match log with [] => True | e :: log => follows e log /\ paced log end.

Definition gateInv (x : attemptGate * list entry) : Prop :=
  paced x.2 /\
  match x.2 with
  | [] => x.1 = newGate
  | Began _ :: _ => g_running x.1 = true
  | Ended t :: _ => x.1 = mkGate false (Some t)
  end.

Lemma gateStep_inv x e : gateInv x -> gateInv (gateStep x e).
Proof.
  destruct x as [[running last] log]. intros [Hp Hg]. cbn in *. destruct e as [now|now]; cbn [gateStep].
  - unfold begin. cbn [g_running g_last]. destruct log as [|[t|t] log]; cbn [snd fst] in *.
    + injection Hg as -> ->. cbn. split; [by split|done].
    + rewrite Hg. cbn. split; [exact Hp|done].
    + injection Hg as -> ->. cbn [orb]. destruct (Z.ltb_spec (now - t) attemptGap); cbn [negb snd fst].
      * split; [exact Hp|done].
      * split; [|done]. split; [cbn; lia|exact Hp].
  - cbn [g_running]. destruct running; [|by split]. split; cbn [snd fst]; [|done].
    destruct log as [|[t|t] log]; [done|by split|done].
Qed.

(** C35: a standing permission never becomes a download loop: however many requests
    arrive and however they overlap, attempts follow one another, never two at a
    time, and each begins at least five minutes after the one before ended. *)
Theorem attempts_paced es : paced (gateRun es).2.
Proof.
  assert (gateInv (gateRun es)) as [Hp _]; [|exact Hp]. unfold gateRun.
  assert (gateInv (newGate, [])) as HI by done. revert HI. generalize (newGate, @nil entry).
  induction es as [|e es IH]; intros x HI; cbn [fold_left]; [done|]. by apply IH, gateStep_inv.
Qed.

(** ** One consideration *)

(** [lastUpdateError]: nothing, an error, or an error with the advice to install
    by hand. *)
Inductive said : Type := SaidNothing | Said (e : updateError) | SaidByHand (e : updateError).

Record updater : Type := mkUpdater { u_gate : attemptGate; u_said : said; u_restarts : bool }.

Section Consider.
Context `{ReleaseCrypto}.

(** [considerUpdate]; [now] and [now'] are the clock at its two ends, [version]
    what is running.  A restart ends the process, so the gate stays taken. *)
Definition considerUpdate (w : world) (noRemoteUpdate : bool) (policy : option updatePolicy) (version : string)
    (now now' : Z) (fs : files) (u : updater) : files * go updater :=
  match policy with
  | Some p =>
      if noRemoteUpdate || negb (up_enabled p) then (fs, Ret u)
      else
        let '(g, ok) := begin now (u_gate u) in
        if negb ok then (fs, Ret u)
        else if negb (Enabled w) then (fs, Ret (mkUpdater (done now' g) (Said ErrNoKey) false))
        else
          let '(fs, r) := Apply w fs (up_version p) version in
          (fs,
            r ← r;
            Ret (match r with
                 | Err ErrNotNewer => mkUpdater (done now' g) SaidNothing false
                 | Err (ErrUnknownVersion v) => mkUpdater (done now' g) (SaidByHand (ErrUnknownVersion v)) false
                 | Err e => mkUpdater (done now' g) (Said e) false
                 | Ok false => mkUpdater (done now' g) SaidNothing false
                 | Ok true => mkUpdater g SaidNothing true
                 end))
  | None => (fs, Ret u)
  end.

(** [watchForUpdates]: a consideration at every tick, until the process restarts;
    a tick is what the world and the panel say then, and the clock at its two
    ends. *)
Record updateTick : Type := mkUpdateTick { t_world : world; t_policy : option updatePolicy; t_from : Z; t_to : Z }.

Fixpoint watchForUpdates (noRemoteUpdate : bool) (version : string) (ticks : list updateTick) (fs : files) (u : updater) :
    files * go updater :=
  match ticks with
  | [] => (fs, Ret u)
  | t :: ticks =>
      let '(fs, r) := considerUpdate (t_world t) noRemoteUpdate (t_policy t) version (t_from t) (t_to t) fs u in
      match r with
      | Ret u => if u_restarts u then (fs, Ret u) else watchForUpdates noRemoteUpdate version ticks fs u
      | Panic => (fs, Panic)
      end
  end.

(** three yeses: no file changes and nothing restarts unless this machine has
    not refused locally, the panel has asked, and the build has a key it trusts;
    and the agent restarts only into a binary that was just put in place, leaving
    the gate shut behind it. *)
Theorem three_yeses w noRemote policy version now now' fs u fs' r :
  considerUpdate w noRemote policy version now now' fs u = (fs', r) -> u_restarts u = false ->
  (fs' <> fs \/ (exists u', r = Ret u' /\ u_restarts u' = true) ->
     noRemote = false /\ (exists p, policy = Some p /\ up_enabled p = true) /\ Enabled w = true /\
     (begin now (u_gate u)).2 = true) /\
  (forall u', r = Ret u' -> u_restarts u' = true ->
     exists self body, resolved w = Some self /\ fs' = <[self := body]> (delete (newName self) fs) /\
       g_running (u_gate u') = true).
Proof.
  intros E Hu. unfold considerUpdate in E.
  assert (Hkeep : forall (A : Prop) (B : updater -> Prop) v, u_restarts v = false ->
    (fs <> fs \/ (exists u', @Ret updater v = Ret u' /\ u_restarts u' = true) -> A) /\
    (forall u', @Ret updater v = Ret u' -> u_restarts u' = true -> B u')).
  { intros A B v Hv. split; [intros [?|(u' & [= <-] & ?)]; [done|congruence]|intros u' [= <-] ?; congruence]. }
  destruct policy as [p|]; [|injection E as <- <-; by apply Hkeep].
  destruct noRemote; [injection E as <- <-; by apply Hkeep|].
  destruct (up_enabled p) eqn:Ep; [|injection E as <- <-; by apply Hkeep]. cbn [orb negb] in E.
  destruct (begin now (u_gate u)) as [g ok] eqn:Eb. destruct ok; [|injection E as <- <-; by apply Hkeep]. cbn [negb] in E.
  assert (Hg : g_running g = true) by (unfold begin in Eb; destruct (_ || _); [done|by injection Eb as <-]).
  destruct (Enabled w) eqn:Ee; [|injection E as <- <-; by apply Hkeep]. cbn [negb] in E.
  unfold Apply in E. destruct (decide_ w (up_version p) version) as [[[tag self] want]|e] eqn:Ed.
  - destruct (install w fs tag self want) as [fs1 r1] eqn:Ei. injection E as <- <-.
    split; [intros _; eauto 10|]. intros u' Hr Hres.
    destruct (install_cases _ _ _ _ _ _ _ Ei) as [(-> & body & Hfs & _)|[(e & -> & _)|(-> & _)]]; [| |done]; cbn in Hr.
    + injection Hr as <-. exists self, body. destruct (decide_ok _ _ _ _ _ _ Ed) as (Hs & _). splits.
    + injection Hr as <-. by destruct e.
  - injection E as <- <-. cbn. apply Hkeep. by destruct e.
Qed.

(** A machine that said no to updates is never touched, however long the panel
    asks. *)
Lemma refusal_holds version ticks fs u : u_restarts u = false -> watchForUpdates true version ticks fs u = (fs, Ret u).
Proof.
  intros Hu. induction ticks as [|t ticks IH]; [done|]. simpl. unfold considerUpdate.
  destruct (t_policy t); cbn [orb]; by rewrite Hu.
Qed.

End Consider.

(** ** Witnesses *)

Definition exConsidered : files * go updater :=
  considerUpdate (exWorld exDigest) false (Some (mkPolicy true "")) "v0.1.0" 0 Second exFiles (mkUpdater newGate SaidNothing false).

Lemma three_yeses_witness :
  exists self body, resolved (exWorld exDigest) = Some self /\ exConsidered.1 = <[self := body]> (delete (newName self) exFiles).
Proof.
  destruct (three_yeses _ _ _ _ _ _ _ _ _ _ (surjective_pairing exConsidered) eq_refl) as [_ Hr].
  destruct (Hr (mkUpdater (mkGate true None) SaidNothing true)) as (self & body & Hs & Hf & _).
  - vm_compute. reflexivity.
  - reflexivity.
  - exists self, body. split; assumption.
Defined.

End AgentUpdate.
