(* ===== verification/AgentControl.v ===== *)
(** * cmd/nfagent: joining and leaving (install.go, [enrol] of register.go), what
    the machine reports ([collectReport], [collectControlStatus]), and the stream
    that says when to look at the map ([streamNudges], [mapNudges]). *)
From S2P Require Import Prelude GoStrings NetIP NetText Keys Filter NFT P2P UAPI Backoff AgentMap.
From Stdlib Require Import Ascii.

Module AgentControl.
Import AgentMap.AgentMap.

(** ** Joining *)

(** What the server answers to a registration. *)
Record registration : Type := mkRegistration {
  rg_address : string; rg_token : string; rg_signalURL : string; rg_relay : option RelayConfig;
  rg_peers : list PeerConfig }.

Inductive enrolError : Type := EHostname | EUnreachable | ERefused (status : Z) | EUnparsed | ENoSignal | EUnsaved.

(** The answer as HTTP gives it: nothing, a status that is not 200, a body that is
    not JSON, or a registration. *)
Inductive registerAnswer : Type := RANone | RAStatus (status : Z) | RAGarbled | RAOk (r : registration).

Section Enrol.
Context `{WGKeys}.

(** [enrol]: the identity is made here, and written down only when the server
    took it and said where to signal.  [saves] is whether the directory and the
    file could be written. *)
Definition enrol (server : string) (hostname : option string) (name : string) (priv : Key)
    (answer : registerAnswer) (saves : bool) : result enrolError Config :=
  match (if String.eqb name "" then hostname else Some name) with
  | None => Err EHostname
  | Some _ =>
      match answer with
      | RANone => Err EUnreachable
      | RAStatus status => Err (ERefused status)
      | RAGarbled => Err EUnparsed
      | RAOk r =>
          if String.eqb (rg_signalURL r) "" then Err ENoSignal
          else if negb saves then Err EUnsaved
          else Ok (mkConfig (KeyString priv) (rg_address r) "" (rg_signalURL r) (trim_right_char "/"%char server)
                     (rg_token r) [] (rg_relay r) (rg_peers r) 0 false)
      end
  end.

End Enrol.

(** [stillAMember]; [fetched] is the text of the error of [fetchMap], if any. *)
Definition stillAMember (cfg : Config) (fetched : option string) : bool :=
  if String.eqb (cf_server cfg) "" || String.eqb (cf_token cfg) "" then false
  else match fetched with
       | None => true
       | Some err => negb (GoStrings.Contains err "401")
       end.

Inductive installError : Type := ENotRoot | ENeedsKey | EEnrol (e : enrolError) | ESaving | ECopy | EService.

Definition set_noRemoteUpdate (b : bool) (c : Config) : Config :=
  mkConfig (cf_privateKey c) (cf_address c) (cf_subnet c) (cf_signalURL c) (cf_server c) (cf_token c) (cf_stun c)
    (cf_relay c) (cf_peers c) (cf_generation c) b.

(** What [install] finds: who runs it, the flags, the file, what the server says
    of it, what [enrol] would give, and whether the file, the copy and the service
    can be written. *)
Record installing : Type := mkInstalling {
  in_root : bool; in_setupKey : string; in_server : string; in_noUpdate : bool;
  in_loaded : option Config; in_fetched : option string; in_enrol : result enrolError Config;
  in_saves : bool; in_copies : bool; in_service : bool }.

(** Whether the machine joins anew. *)
Definition joins (i : installing) : bool :=
  match in_loaded i with
  | None => true
  | Some cfg =>
      String.eqb (cf_privateKey cfg) "" ||
      (negb (String.eqb (in_setupKey i) "") && negb (stillAMember cfg (in_fetched i)))
  end.

(** A member is asked for nothing; a stranger for the key and the server. *)
Definition stranger (i : installing) : bool :=
  match in_loaded i with None => true | Some cfg => String.eqb (cf_privateKey cfg) "" end.

Definition install (i : installing) : result installError Config :=
  if negb (in_root i) then Err ENotRoot
  else
    cfg ← (if stranger i && (String.eqb (in_setupKey i) "" || String.eqb (in_server i) "") then Err ENeedsKey
           else if joins i then match in_enrol i with Ok c => Ok c | Err e => Err (EEnrol e) end
           else match in_loaded i with Some c => Ok c | None => Err ENeedsKey end);
    cfg ← (if Bool.eqb (cf_noRemoteUpdate cfg) (in_noUpdate i) then Ok cfg
           else if in_saves i then Ok (set_noRemoteUpdate (in_noUpdate i) cfg) else Err ESaving);
    if negb (in_copies i) then Err ECopy
    else if negb (in_service i) then Err EService
    else Ok cfg.

(** an identity is not thrown away on a guess: reinstalling a member leaves
    everything it is (its key, its address, its place in the mesh) as it was
    unless a setup key was given and the server, asked, refused it, or the file
    has no server to ask. *)
Theorem identity_kept i cfg cfg' :
  in_loaded i = Some cfg -> cf_privateKey cfg <> "" -> install i = Ok cfg' ->
  cfg' = set_noRemoteUpdate (in_noUpdate i) cfg \/
  (in_setupKey i <> "" /\
   (cf_server cfg = "" \/ cf_token cfg = "" \/ exists err, in_fetched i = Some err /\ GoStrings.Contains err "401" = true)).
Proof.
  intros Hl Hk. unfold install, stranger, joins. rewrite Hl. destruct (in_root i); [|done]. cbn [negb].
  destruct (String.eqb_spec (cf_privateKey cfg) ""); [done|]. cbn [andb orb].
  destruct (negb (String.eqb (in_setupKey i) "") && negb (stillAMember cfg (in_fetched i))) eqn:Ej.
  - intros _. right. apply andb_true_iff in Ej as [Hs Hm]. apply negb_true_iff in Hs, Hm.
    apply String.eqb_neq in Hs. split; [done|]. unfold stillAMember in Hm.
    destruct (String.eqb_spec (cf_server cfg) ""); [by left|]. destruct (String.eqb_spec (cf_token cfg) ""); [by right; left|].
    cbn [orb] in Hm. destruct (in_fetched i) as [err|]; [|done]. right. right. exists err. split; [done|]. by destruct (GoStrings.Contains err "401").
  - intros Hi. left. cbn in Hi. destruct (Bool.eqb_spec (cf_noRemoteUpdate cfg) (in_noUpdate i)) as [Hb|Hb].
    + cbn in Hi. destruct (in_copies i), (in_service i); try done. injection Hi as <-. rewrite <- Hb. by destruct cfg.
    + destruct (in_saves i); [|done]. cbn in Hi. destruct (in_copies i), (in_service i); try done. by injection Hi as <-.
Qed.

Definition exMember : Config := mkConfig "key" "10.90.0.1" "" "wss://signal" "https://panel:8401" "token" [] None [] 0 false.
Definition exStranger : Config := mkConfig "other" "10.90.0.9" "" "wss://signal" "https://panel:8401" "fresh" [] None [] 0 false.
Definition exInstall (fetched : option string) : installing :=
  mkInstalling true "setup" "https://panel:8401" false (Some exMember) fetched (Ok exStranger) true true true.

Lemma identity_kept_witness :
  install (exInstall (Some "502 Bad Gateway: ")) = Ok exMember /\
  (exMember = set_noRemoteUpdate false exMember \/
   ("setup" <> "" /\ (cf_server exMember = "" \/ cf_token exMember = "" \/
      exists err, Some "502 Bad Gateway: " = Some err /\ GoStrings.Contains err "401" = true))).
Proof.
  split; [reflexivity|].
  apply (identity_kept (exInstall (Some "502 Bad Gateway: ")) exMember exMember); [reflexivity|discriminate|reflexivity].
Defined.

(** An error that only mentions 401, in the port of a server that is down, counts
    as a refusal: the machine joins again as somebody else. *)
Theorem refusal_misread :
  let down := "Get " +:+ NFT.NFT.dquote +:+ "https://panel:8401/api/mesh/map" +:+ NFT.NFT.dquote +:+
              ": dial tcp 192.0.2.7:8401: connect: connection refused" in
  install (exInstall (Some down)) = Ok exStranger.
Proof. vm_compute. reflexivity. Qed.

(** ** Reporting *)

(** [clipTrouble]. *)
Definition clipTrouble (why : string) : string :=
  if (200 <? String.length why)%nat then String.substring 0 200 why else why.

(** What the engine answers about its peers. *)
Record engineView : Type := mkView {
  v_keys : list Key; v_state : Key -> P2P.P2P.State; v_path : Key -> string * Z; v_trouble : Key -> string;
  v_status : option (gmap string UAPI.UAPI.PeerStatus) }.

Record peerReport : Type := mkReport {
  r_peerKey : string; r_state : P2P.P2P.State; r_path : string; r_rtt : Z; r_rx : Z; r_tx : Z; r_handshake : Z;
  r_trouble : string }.

Section Report.
Context `{WGKeys}.

Definition reportRow (st : gmap string UAPI.UAPI.PeerStatus) (v : engineView) (clip : string -> string) (key : Key) : peerReport :=
  let s := default UAPI.UAPI.zeroStatus (st !! KeyString key) in
  mkReport (KeyString key) (v_state v key) (v_path v key).1 (v_path v key).2 (UAPI.UAPI.ps_rx s) (UAPI.UAPI.ps_tx s)
    (UAPI.UAPI.ps_handshake s) (clip (v_trouble v key)).

(** [collectReport]: nothing when the device cannot be read. *)
Definition collectReport (v : engineView) : option (list peerReport) :=
  st ← v_status v; Some (map (reportRow st v clipTrouble) (v_keys v)).

(** The peers of [collectControlStatus], with the names of the last map. *)
Definition byKey (ps : list PeerConfig) : gmap string PeerConfig :=
  fold_left (fun m p => <[pc_publicKey p := p]> m) ps ∅.

(** [peerFromMap]; [None] stands for the zero value. *)
Definition peerFromMap (lastMap : list PeerConfig) (publicKey : string) : option PeerConfig := byKey lastMap !! publicKey.

(** A row of the report, with the name and the address of the map. *)
Definition ControlPeer : Type := peerReport * string * string.

Definition collectControlPeers (v : engineView) (lastMap : list PeerConfig) : list ControlPeer :=
  match v_status v with
  | None => []
  | Some st =>
      map (fun key =>
             let known := peerFromMap lastMap (KeyString key) in
             (reportRow st v id key, default "" (pc_name <$> known), default "" (pc_address <$> known))) (v_keys v)
  end.

(** What the control socket answers.  [r_rtt] of a row is in milliseconds. *)
Record ControlStatus : Type := mkControlStatus {
  cs_address : string; cs_interface : string; cs_publicKey : string; cs_server : string; cs_signalURL : string;
  cs_signal : bool; cs_relay : bool; cs_peers : list ControlPeer; cs_paused : bool;
  cs_startedAt : Z; cs_version : string }.

(** [askControl]: the request, then the decoding of the body.  The request itself
    cannot fail to be made: its method and address are fixed. *)
Definition askControl (answer : result string (result string ControlStatus)) : result string ControlStatus :=
  match answer with Err e => Err e | Ok body => body end.

(** The rest of what the engine and the process answer. *)
Record processView : Type := mkProcess {
  pv_interface : string; pv_publicKey : Key; pv_signal : bool; pv_relay : bool; pv_paused : bool;
  pv_startedAt : Z; pv_version : string }.

(** [collectControlStatus]. *)
Definition collectControlStatus (cfg : Config) (pv : processView) (v : engineView) (lastMap : list PeerConfig) :
    ControlStatus :=
  mkControlStatus (cf_address cfg) (pv_interface pv) (KeyString (pv_publicKey pv)) (cf_server cfg)
    (cf_signalURL cfg) (pv_signal pv) (pv_relay pv) (collectControlPeers v lastMap) (pv_paused pv)
    (pv_startedAt pv) (pv_version pv).

End Report.

(** ** Nudges *)

(** Whether a line of the stream is a reason to look. *)
Definition nudgeLine (l : string) : bool :=
  let l := TrimSpace l in
  negb (String.eqb l "" || HasPrefix l ":") && HasPrefix l "data:".

(** [streamNudges] on the lines that arrived: the one-place channel after it. *)
Definition streamNudges (lines : list string) (full : bool) : bool := full || existsb nudgeLine lines.

(** The wait of [mapNudges] after a stream; [lasted] is a nil error. *)
Definition nudgeDelay (lasted : bool) (delay : Z) : Z := if lasted then Second else double mapEvery delay.

End AgentControl.
