(* ===== verification/Desktop.v ===== *)
(** * desktop/*.go: the window and the menu bar item.

    The program holds no state of the mesh: it asks the agent's control socket
    ([agent.go]), and what it shows is a function of the answer ([tray.go]).
    The menu is kept as what each item says and whether it is shown; wails and
    systray themselves, the dialling of the socket, the JSON of the answer and
    [slices.SortFunc] are arguments. *)
From S2P Require Import Prelude GoStrings NetIP Keys P2P UAPI Link AgentMap AgentControl.

Module Desktop.

(** ** agent.go: what the agent answers *)

(** [runtime.GOOS], as far as the programs tell it apart. *)
Inductive os : Type := Linux | Darwin | Windows.

Definition socketPath (o : os) : string :=
  match o with
  | Darwin => "/var/run/netflow-agent.sock"
  | Windows => "\\.\pipe\netflow-agent"
  | Linux => "/run/netflow/agent.sock"
  end.

Record Peer : Type := mkPeer {
  p_name : string; p_publicKey : string; p_address : string; p_state : string; p_path : string;
  p_rttMillis : Z; p_handshake : Z; p_rx : Z; p_tx : Z }.

Record Status : Type := mkStatus {
  st_address : string; st_interface : string; st_signal : bool; st_peers : list Peer;
  st_paused : bool; st_startedAt : Z; st_reachable : bool; st_error : string; st_version : string }.

(** [Status{Error: ...}]. *)
Definition failed (why : string) : Status := mkStatus "" "" false [] false 0 false why "".

(** Why there was no answer. *)
Inductive dialError : Type := EPermission | EMissing | EOther (text : string).

Definition friendly (e : dialError) : string :=
  match e with
  | EPermission => "this account is not allowed to talk to the agent"
  | EMissing => "the agent is not running"
  | EOther t => t
  end.

(** [fetchStatus]: an error, a body that does not decode, or a status.  The
    request itself cannot fail to be made: its method and address are fixed. *)
Definition fetchStatus (answer : result dialError (result string Status)) : Status :=
  match answer with
  | Err e => failed (friendly e)
  | Ok (Err e) => failed ("the agent answered something unreadable: " +:+ e)
  | Ok (Ok st) =>
      mkStatus (st_address st) (st_interface st) (st_signal st) (st_peers st) (st_paused st)
        (st_startedAt st) true (st_error st) (st_version st)
  end.

Definition set_version (v : string) (st : Status) : Status :=
  mkStatus (st_address st) (st_interface st) (st_signal st) (st_peers st) (st_paused st)
    (st_startedAt st) (st_reachable st) (st_error st) v.
Definition set_error (e : string) (st : Status) : Status :=
  mkStatus (st_address st) (st_interface st) (st_signal st) (st_peers st) (st_paused st)
    (st_startedAt st) (st_reachable st) e (st_version st).

(** [tellAgent]: the answer is the code of the response and its text. *)
Definition tellAgent (answer : result dialError (Z * string)) : result string unit :=
  match answer with
  | Err e => Err (friendly e)
  | Ok (code, text) => if 300 <=? code then Err ("the agent answered " +:+ text) else Ok tt
  end.

(** ** app.go *)

(** [App.Status]. *)
Definition App_Status (version : string) (answer : result dialError (result string Status)) : Status :=
  set_version version (fetchStatus answer).

(** [App.OpenLog]: what is started. *)
Definition OpenLog (o : os) : list string :=
  match o with
  | Darwin => ["open"; "-a"; "Console"; "/var/log/netflow-agent.log"]
  | Windows => ["notepad.exe"; "C:\ProgramData\netflow\agent.log"]
  | Linux => ["xdg-open"; "/var/log/netflow-agent.log"]
  end.

(** [App.SetConnected]: the path asked for, and the status shown. *)
Definition pausePath (on : bool) : string := if on then "/resume" else "/pause".
Definition SetConnected (version : string) (told : result dialError (Z * string))
    (answer : result dialError (result string Status)) : Status :=
  match tellAgent told with
  | Err e => set_error e (App_Status version answer)
  | Ok _ => App_Status version answer
  end.

(** [App.Fit]. *)
Definition Fit (height : Z) : Z :=
  let height := if height <? 260 then 260 else height in
  if 760 <? height then 760 else height.

(** ** tray.go *)

Definition maxRows : nat := 40.
Definition dotOn : string := "🟢".
Definition dotOff : string := "⚪".

Definition orDefault (s fallback : string) : string := if String.eqb s "" then fallback else s.

Definition up (p : Peer) : bool := String.eqb (p_state p) "connected" && (0 <? p_handshake p).

Section Tray.
Context (ParseAddr : string -> option Addr).

Definition compareAddresses (a b : string) : comparison :=
  match ParseAddr a, ParseAddr b with
  | None, None => Eq
  | None, Some _ => Gt
  | Some _, None => Lt
  | Some x, Some y => addr_compare x y
  end.

(** The function [ordered] gives to [slices.SortFunc]. *)
Definition menuOrder (a b : Peer) : comparison :=
  if negb (Bool.eqb (up a) (up b)) then (if up a then Lt else Gt)
  else compareAddresses (p_address a) (p_address b).

(** [slices.SortFunc]. *)
Context (SortFunc : (Peer -> Peer -> comparison) -> list Peer -> list Peer).

Definition ordered (peers : list Peer) : list Peer := SortFunc menuOrder peers.

Definition describe (p : Peer) : string :=
  let name := p_name p in
  let name := if String.eqb name "" then
                (if (8 <? String.length (p_publicKey p))%nat then String.substring 0 8 (p_publicKey p)
                 else p_publicKey p)
              else name in
  if up p then dotOn +:+ "  " +:+ name else dotOff +:+ "  " +:+ name.

(** [duration]: [int(d.Seconds())] is the truncation of the nanoseconds, which
    the float it goes through gives exactly for the first ninety-seven days and
    to the nearest second after. *)
Definition duration (d : Z) : string :=
  let s := Z.quot d Second in
  if s <? 0 then "—"
  else if s <? 60 then itoa s +:+ "s"
  else
    let days := Z.quot s 86400 in
    let hours := Z.quot (Z.rem s 86400) 3600 in
    let mins := Z.quot (Z.rem s 3600) 60 in
    if (0 <? days) && (0 <? hours) then itoa days +:+ "d " +:+ itoa hours +:+ "h"
    else if 0 <? days then itoa days +:+ "d"
    else if (0 <? hours) && (0 <? mins) then itoa hours +:+ "h " +:+ itoa mins +:+ "m"
    else if 0 <? hours then itoa hours +:+ "h"
    else itoa mins +:+ "m " +:+ itoa (Z.rem s 60) +:+ "s".

(** An item of the menu: what it says, and whether it is shown. *)
Record item : Type := mkItem { i_title : string; i_shown : bool }.
Definition hide (i : item) : item := mkItem (i_title i) false.
Definition say (title : string) (i : item) : item := mkItem title true.

Record tray : Type := mkTray {
  t_status : item; t_address : item; t_uptime : item; t_machines : item; t_connect : item;
  t_rows : list item; t_solid : bool; t_shown : bool }.

(** [build]: what the menu says before anything was asked. *)
Definition build : tray :=
  mkTray (mkItem "…" true) (mkItem "" false) (mkItem "" false) (mkItem "Machines" true)
    (mkItem "Disconnect" true) (repeat (mkItem "" false) maxRows) false false.

(** [setIcon]: the new state, and whether the mark was drawn. *)
Definition setIcon (solid : bool) (t : tray) : tray * bool :=
  if t_shown t && Bool.eqb (t_solid t) solid then (t, false)
  else (mkTray (t_status t) (t_address t) (t_uptime t) (t_machines t) (t_connect t) (t_rows t) solid true, true).

Definition upCount (st : Status) : nat := length (List.filter up (st_peers st)).
Definition solidOf (st : Status) : bool :=
  let total := length (st_peers st) in
  st_reachable st && st_signal st && negb (st_paused st) &&
  ((total =? 0)%nat || (upCount st =? total)%nat).

Definition statusTitle (st : Status) : string :=
  let total := length (st_peers st) in
  if negb (st_reachable st) then orDefault (st_error st) "the agent did not answer"
  else if st_paused st then "disconnected by request"
  else if negb (st_signal st) then "cannot reach the signal server"
  else if (total =? 0)%nat then "no peers yet"
  else itoa (Z.of_nat (upCount st)) +:+ " of " +:+ itoa (Z.of_nat total) +:+ " connected".

(** One row, given the peer at its place if there is one. *)
Definition row (p : option Peer) (i : item) : item :=
  match p with Some p => say (describe p) i | None => hide i end.
Fixpoint rows (order : list Peer) (l : list item) : list item :=
  match l with
  | [] => []
  | i :: l => row (head order) i :: rows (tail order) l
  end.

(** [update], at the time [now]; the flag is whether the icon was drawn. *)
Definition update (now : Z) (st : Status) (t : tray) : tray * bool :=
  let total := length (st_peers st) in
  let '(t, drawn) := setIcon (solidOf st) t in
  let connect := mkItem (if st_paused st then "Connect" else "Disconnect") (st_reachable st) in
  (mkTray
     (mkItem (statusTitle st) (i_shown (t_status t)))
     (if String.eqb (st_address st) "" then hide (t_address t)
      else say (st_address st +:+ "  ·  " +:+ orDefault (st_interface st) "userspace") (t_address t))
     (if 0 <? st_startedAt st then say ("up " +:+ duration (now - st_startedAt st * Second)) (t_uptime t)
      else hide (t_uptime t))
     (if (total =? 0)%nat || st_paused st then hide (t_machines t)
      else say ("Machines (" +:+ itoa (Z.of_nat total) +:+ ")") (t_machines t))
     connect (rows (ordered (st_peers st)) (t_rows t)) (t_solid t) (t_shown t), drawn).

(** The ticks and clicks of a session, one status after the other. *)
Fixpoint updates (sts : list (Z * Status)) (t : tray) : tray * list bool :=
  match sts with
  | [] => (t, [])
  | (now, st) :: sts =>
      let '(t, drawn) := update now st t in
      let '(t, ds) := updates sts t in (t, drawn :: ds)
  end.

End Tray.

(** ** From the agent to the menu *)

(** The answer of the socket as this program decodes it: the fields the two
    programs call by the same name. *)
Definition decodePeer (r : AgentControl.AgentControl.peerReport * string * string) : Peer :=
  let '(r, name, address) := r in
  mkPeer name (AgentControl.AgentControl.r_peerKey r) address
    (P2P.P2P.State_string (AgentControl.AgentControl.r_state r)) (AgentControl.AgentControl.r_path r)
    (AgentControl.AgentControl.r_rtt r) (AgentControl.AgentControl.r_handshake r)
    (AgentControl.AgentControl.r_rx r) (AgentControl.AgentControl.r_tx r).

Definition decodeStatus (c : AgentControl.AgentControl.ControlStatus) : Status :=
  mkStatus (AgentControl.AgentControl.cs_address c) (AgentControl.AgentControl.cs_interface c)
    (AgentControl.AgentControl.cs_signal c) (map decodePeer (AgentControl.AgentControl.cs_peers c))
    (AgentControl.AgentControl.cs_paused c) (AgentControl.AgentControl.cs_startedAt c) false "" "".

(** ** What is first in the menu *)

Section Order.
Context (ParseAddr : string -> option Addr).
Notation cmpA := (compareAddresses ParseAddr).
Notation cmpM := (menuOrder ParseAddr).

Lemma addr_compare_refl a : addr_compare a a = Eq.
Proof. unfold addr_compare. by rewrite !Z.compare_refl, string_compare_refl. Qed.

Lemma compareAddresses_antisym a b : cmpA b a = CompOpp (cmpA a b).
Proof.
  unfold compareAddresses. destruct (ParseAddr a), (ParseAddr b); try done. apply addr_compare_antisym.
Qed.

Lemma compareAddresses_trans a b c : cmpA a b <> Gt -> cmpA b c <> Gt -> cmpA a c <> Gt /\
  (cmpA a c = Eq -> cmpA a b = Eq /\ cmpA b c = Eq).
Proof.
  unfold compareAddresses. destruct (ParseAddr a) as [x|], (ParseAddr b) as [y|], (ParseAddr c) as [z|]; try done.
  destruct (addr_compare x y) eqn:E1; [apply addr_compare_eq in E1 as ->| |done].
  - intros _ Hyz. by split.
  - destruct (addr_compare y z) eqn:E2; [apply addr_compare_eq in E2 as ->| |done]; intros _ _.
    + by rewrite E1.
    + by rewrite (addr_compare_lt_trans _ _ _ E1 E2).
Qed.

Lemma menuOrder_antisym a b : cmpM b a = CompOpp (cmpM a b).
Proof.
  unfold menuOrder. destruct (up a), (up b); simpl; try done; apply compareAddresses_antisym.
Qed.

Lemma menuOrder_trans a b c : cmpM a b <> Gt -> cmpM b c <> Gt -> cmpM a c <> Gt /\
  (cmpM a c = Eq -> cmpM a b = Eq /\ cmpM b c = Eq).
Proof.
  unfold menuOrder. destruct (up a), (up b), (up c); simpl; try done; apply compareAddresses_trans.
Qed.

(** What [slices.SortFunc] asks of its function. *)
Definition strictWeakOrder {A} (cmp : A -> A -> comparison) : Prop :=
  (forall a b, cmp b a = CompOpp (cmp a b)) /\
  (forall a b c, cmp a b <> Gt -> cmp b c <> Gt -> cmp a c <> Gt /\ (cmp a c = Eq -> cmp a b = Eq /\ cmp b c = Eq)).

(** And what it promises of it. *)
Definition sorts {A} (sort : (A -> A -> comparison) -> list A -> list A) : Prop :=
  forall cmp l, strictWeakOrder cmp -> sort cmp l ≡ₚ l /\ StronglySorted (fun a b => cmp a b <> Gt) (sort cmp l).

Lemma menuOrder_swo : strictWeakOrder cmpM.
Proof. split; [apply menuOrder_antisym|apply menuOrder_trans]. Qed.

Context (SortFunc : (Peer -> Peer -> comparison) -> list Peer -> list Peer).
Hypothesis SortFunc_sorts : sorts SortFunc.
Notation menu := (ordered ParseAddr SortFunc).

(** the menu lists every machine once, those whose tunnel is up above all the
    others, and in each of the two groups by address, the unreadable ones last. *)
Theorem ordered_reads ps :
  menu ps ≡ₚ ps /\
  forall i j a b, (i < j)%nat -> menu ps !! i = Some a -> menu ps !! j = Some b ->
    (up b = true -> up a = true) /\
    (up a = up b -> forall y, ParseAddr (p_address b) = Some y ->
       exists x, ParseAddr (p_address a) = Some x /\ addr_le x y).
Proof.
  destruct (SortFunc_sorts cmpM ps menuOrder_swo) as [Hp Hs]. split; [exact Hp|].
  intros i j a b Hij Ha Hb.
  assert (Hab : cmpM a b <> Gt).
  { unfold ordered in *. rewrite <- (take_drop_middle _ _ _ Ha) in Hs, Hb.
    apply StronglySorted_app in Hs as (_ & _ & Hs). apply StronglySorted_inv in Hs as [_ Hs].
    rewrite lookup_app_r in Hb by (rewrite length_take; apply lookup_lt_Some in Ha; lia).
    rewrite length_take, Nat.min_l in Hb by (apply lookup_lt_Some in Ha; lia).
    destruct (j - i)%nat as [|k] eqn:Ek; [lia|]. simpl in Hb.
    rewrite Forall_forall in Hs. apply Hs. by eapply list_elem_of_lookup_2. }
  unfold menuOrder in Hab. split.
  - intros Hu. rewrite Hu in Hab. by destruct (up a).
  - intros E y Hy. rewrite E, eqb_reflx in Hab. simpl in Hab.
    unfold compareAddresses in Hab. rewrite Hy in Hab. destruct (ParseAddr (p_address a)) as [x|]; [|done].
    exists x. split; [done|]. unfold addr_le, Addr_Less. rewrite addr_compare_antisym.
    by destruct (addr_compare x y).
Qed.

(** Two machines the menu does not tell apart: the same group, the same address. *)
Definition distinctRows (ps : list Peer) : Prop :=
  forall a b, a ∈ ps -> b ∈ ps -> cmpM a b = Eq -> a = b.

(** and when no two machines share an address the menu is the same whatever the
    order the agent lists them in: no row moves unless something happened. *)
Theorem ordered_stable ps qs : distinctRows ps -> ps ≡ₚ qs -> menu ps = menu qs.
Proof.
  intros Hd Hpq.
  destruct (SortFunc_sorts cmpM ps menuOrder_swo) as [Hp1 Hs1].
  destruct (SortFunc_sorts cmpM qs menuOrder_swo) as [Hp2 Hs2].
  eapply StronglySorted_unique_strong; [|exact Hs1|exact Hs2|by rewrite Hp1, Hp2].
  intros a b Ha Hb Hab Hba. unfold ordered in *.
  assert (Hin : forall x, x ∈ SortFunc cmpM ps -> x ∈ ps) by (intros x; by rewrite Hp1).
  apply Hd; [by apply Hin| |].
  - rewrite Hpq. rewrite <- Hp2. done.
  - rewrite menuOrder_antisym in Hba. by destruct (cmpM a b).
Qed.

End Order.

(** ** What the menu says *)

(** the mark is solid, the mesh working, exactly when the agent answered, is in
    touch with the signal server, is not paused, and every machine it named has a
    tunnel that shook hands. *)
Theorem solid_means_carrying st :
  solidOf st = true <->
  st_reachable st = true /\ st_signal st = true /\ st_paused st = false /\
  forall p, p ∈ st_peers st -> p_state p = "connected" /\ 0 < p_handshake p.
Proof.
  assert (Hall : ((length (st_peers st) =? 0)%nat || (upCount st =? length (st_peers st))%nat = true) <->
                 forall p, p ∈ st_peers st -> up p = true).
  { unfold upCount. rewrite orb_true_iff, !Nat.eqb_eq. induction (st_peers st) as [|p ps IH]; simpl.
    { split; [by intros _ p ?%not_elem_of_nil|by left]. }
    pose proof (filter_length_le up ps) as Hle.
    split.
    - intros [?|Hl]; [done|]. destruct (up p) eqn:Eu; simpl in Hl; [|lia].
      intros q [->|Hq]%elem_of_cons; [done|]. apply IH; [right; lia|done].
    - intros Hup. right. rewrite (Hup p) by set_solver. simpl. f_equal.
      destruct IH as [_ [H0|H1]]; [intros q Hq; apply Hup; set_solver| |done].
      destruct ps; [done|simpl in H0; lia]. }
  unfold solidOf. cbn zeta. rewrite !andb_true_iff, negb_true_iff, Hall.
  split; [intros (((H1 & H2) & H3) & H4)|intros (H1 & H2 & H3 & H4)]; splits; intros p Hp; specialize (H4 p Hp);
    unfold up in *; rewrite ?andb_true_iff, ?String.eqb_eq, ?Z.ltb_lt in *; tauto.
Qed.

(** The marks drawn over a session: one for each change of what it stands for. *)
Fixpoint changes (shown : option bool) (l : list bool) : list bool :=
  match l with
  | [] => []
  | b :: l => negb (bool_decide (shown = Some b)) :: changes (Some b) l
  end.

Definition iconOf (t : tray) : option bool := if t_shown t then Some (t_solid t) else None.

Lemma update_icon PA sort now st t :
  iconOf (update PA sort now st t).1 = Some (solidOf st) /\
  (update PA sort now st t).2 = negb (bool_decide (iconOf t = Some (solidOf st))).
Proof.
  unfold update, setIcon, iconOf. destruct (t_shown t) eqn:E; simpl; [|done].
  destruct (Bool.eqb (t_solid t) (solidOf st)) eqn:Eb; simpl.
  - apply eqb_prop in Eb. rewrite E, Eb. by rewrite bool_decide_true.
  - apply eqb_false_iff in Eb. rewrite bool_decide_false by congruence. done.
Qed.

(** however the statuses come, the mark is drawn for the first of them and then
    exactly when it changes, and what it shows is the latest. *)
Theorem icon_tracks PA sort sts t :
  let '(t', drawn) := updates PA sort sts t in
  drawn = changes (iconOf t) (map (fun x => solidOf x.2) sts) /\
  iconOf t' = match last sts with Some x => Some (solidOf x.2) | None => iconOf t end.
Proof.
  revert t. induction sts as [|[now st] sts IH]; intros t; cbn [updates map changes]; [done|].
  destruct (update_icon PA sort now st t) as [H1 H2].
  destruct (update PA sort now st t) as [t1 d]. simpl in H1, H2. specialize (IH t1).
  destruct (updates PA sort sts t1) as [t2 ds]. destruct IH as [-> IH2]. rewrite H1, H2. split; [done|].
  rewrite IH2, H1. destruct sts as [|x sts]; [done|]. simpl. destruct (last (x :: sts)) eqn:E; [done|].
  by apply last_None in E.
Qed.

(** The first machines of the menu are the rows, and the rows past them are
    hidden. *)
Lemma rows_lookup order l i it :
  l !! i = Some it -> rows order l !! i = Some (row (order !! i) it).
Proof.
  revert order i. induction l as [|x l IH]; intros order [|i]; simpl; try done.
  - intros [= ->]. by destruct order.
  - intros Hi. rewrite (IH _ _ Hi). by destruct order.
Qed.

(** ** How long the agent has been up *)

Definition unitSeconds (u : string) : Z :=
  if String.eqb u "d" then 86400 else if String.eqb u "h" then 3600 else if String.eqb u "m" then 60 else 1.

Definition written (parts : list (Z * string)) : string :=
  Join " " (map (fun x => itoa x.1 +:+ x.2) parts).
Definition worth (parts : list (Z * string)) : Z :=
  fold_right (fun x n => x.1 * unitSeconds x.2 + n) 0 parts.

Ltac units := repeat (apply Forall_cons; split; [simpl; split; [lia|set_solver]|]); apply Forall_nil_2.

Ltac read_units := unfold worth; cbn [fold_right fst snd];
  change (unitSeconds "d") with 86400; change (unitSeconds "h") with 3600;
  change (unitSeconds "m") with 60; change (unitSeconds "s") with 1.

(** a time that is not negative is written in at most two units, days, hours,
    minutes or seconds, that say it to within the smaller of the two that apply:
    an hour once there are days, a minute once there are hours, a second below;
    a negative one is a dash. *)
Theorem duration_reads d :
  (d <= - Second -> duration d = "—") /\
  (0 <= d -> exists parts, duration d = written parts /\ (1 <= length parts <= 2)%nat /\
     Forall (fun x => 0 <= x.1 /\ x.2 ∈ ["d"; "h"; "m"; "s"]) parts /\
     let s := d / Second in
     worth parts <= s < worth parts + (if s <? 3600 then 1 else if s <? 86400 then 60 else 3600)).
Proof.
  assert (HS : 0 < Second) by (unfold Second, Millisecond; lia).
  unfold duration. split.
  - intros Hd. assert (Z.quot d Second < 0) as Hq.
    { pose proof (Z.quot_le_mono d (- Second) Second ltac:(lia) Hd) as Hm.
      rewrite Z.quot_opp_l, Z.quot_same in Hm by lia. lia. }
    apply Z.ltb_lt in Hq. by rewrite Hq.
  - intros Hd. rewrite Z.quot_div_nonneg by lia. cbn zeta. set (s := d / Second).
    assert (Hs : 0 <= s) by (apply Z.div_pos; lia).
    destruct (Z.ltb_spec s 0); [lia|].
    destruct (Z.ltb_spec s 60) as [Hlt|Hge].
    { exists [(s, "s")]. split; [done|]. split; [simpl; lia|]. split; [units|].
      read_units. destruct (Z.ltb_spec s 3600); lia. }
    pose proof (Z.div_mod s 86400 ltac:(lia)). pose proof (Z.mod_pos_bound s 86400 ltac:(lia)).
    pose proof (Z.div_mod (s mod 86400) 3600 ltac:(lia)). pose proof (Z.mod_pos_bound (s mod 86400) 3600 ltac:(lia)).
    assert (Hmm : (s mod 86400) mod 3600 = s mod 3600).
    { rewrite (Z.div_mod s 86400) at 2 by lia. rewrite Z.add_mod, (Z.mul_mod 86400) by lia.
      change (86400 mod 3600) with 0. rewrite Z.mul_0_l, Z.mod_0_l, Z.add_0_l, Z.mod_mod by lia. done. }
    pose proof (Z.div_mod (s mod 3600) 60 ltac:(lia)). pose proof (Z.mod_pos_bound (s mod 3600) 60 ltac:(lia)).
    pose proof (Z.mod_pos_bound s 3600 ltac:(lia)).
    assert (Hm60 : (s mod 3600) mod 60 = s mod 60).
    { rewrite (Z.div_mod s 3600) at 2 by lia. rewrite Z.add_mod, (Z.mul_mod 3600) by lia.
      change (3600 mod 60) with 0. rewrite Z.mul_0_l, Z.mod_0_l, Z.add_0_l, Z.mod_mod by lia. done. }
    rewrite !Z.rem_mod_nonneg by lia. rewrite !Z.quot_div_nonneg by lia.
    set (days := s / 86400) in *. set (hours := s mod 86400 / 3600) in *. set (mins := s mod 3600 / 60) in *.
    destruct (Z.ltb_spec 0 days), (Z.ltb_spec 0 hours), (Z.ltb_spec 0 mins); cbn [andb];
      [exists [(days, "d"); (hours, "h")]|exists [(days, "d"); (hours, "h")]|exists [(days, "d")]|exists [(days, "d")]
      |exists [(hours, "h"); (mins, "m")]|exists [(hours, "h")]|exists [(mins, "m"); (s mod 60, "s")]
      |exists [(mins, "m"); (s mod 60, "s")]];
      (split; [unfold written; cbn [map Join fst snd]; rewrite ?sapp_assoc; reflexivity|]);
      (split; [simpl; lia|]); (split; [units|]);
      read_units; destruct (Z.ltb_spec s 3600), (Z.ltb_spec s 86400); lia.
Qed.

(** ** What the menu makes of the agent's answer *)

Section Answer.
Context `{WGKeys}.
Import AgentControl.AgentControl.

Definition shownStatus (version : string) (cfg : AgentMap.AgentMap.Config) (pv : processView) (v : engineView)
    (lastMap : list AgentMap.AgentMap.PeerConfig) : Status :=
  App_Status version (Ok (Ok (decodeStatus (collectControlStatus cfg pv v lastMap)))).

(** a machine is shown as up exactly when the engine has a path to it and the
    device a handshake, under the name and at the address the last map gave it. *)
Theorem menu_tells_the_engine version cfg pv v st lastMap :
  v_status v = Some st ->
  Forall2 (fun key p =>
    p_publicKey p = KeyString key /\
    p_name p = default "" (AgentMap.AgentMap.pc_name <$> byKey lastMap !! KeyString key) /\
    p_address p = default "" (AgentMap.AgentMap.pc_address <$> byKey lastMap !! KeyString key) /\
    (up p = true <-> v_state v key = P2P.P2P.StateConnected /\
       0 < UAPI.UAPI.ps_handshake (default UAPI.UAPI.zeroStatus (st !! KeyString key))))
    (v_keys v) (st_peers (shownStatus version cfg pv v lastMap)).
Proof.
  intros Hst. unfold shownStatus, App_Status, fetchStatus, set_version, decodeStatus, collectControlStatus.
  cbn [st_peers cs_peers]. unfold collectControlPeers. rewrite Hst, map_map. apply (Forall2_fmap_r _ _).
  apply Forall_Forall2_diag, Forall_forall. intros key _. unfold decodePeer, reportRow. simpl. splits.
  unfold up. simpl. rewrite andb_true_iff, String.eqb_eq, Z.ltb_lt.
  enough (P2P.P2P.State_string (v_state v key) = "connected" <-> v_state v key = P2P.P2P.StateConnected) by tauto.
  destruct (v_state v key); simpl; split; done.
Qed.

(** but an agent that cannot read its own device names no peers, which the menu
    cannot tell from a mesh that has none: the mark is solid, and the line says
    that there are no peers yet. *)
Theorem unreadable_device_looks_fine version cfg pv v lastMap :
  v_status v = None -> pv_signal pv = true -> pv_paused pv = false ->
  let st := shownStatus version cfg pv v lastMap in
  solidOf st = true /\ statusTitle st = "no peers yet".
Proof.
  intros Hst Hs Hp. unfold shownStatus, App_Status, fetchStatus, set_version, decodeStatus, collectControlStatus.
  unfold solidOf, statusTitle. cbn [st_peers cs_peers st_reachable st_signal st_paused cs_signal cs_paused].
  unfold collectControlPeers. rewrite Hst, Hs, Hp. done.
Qed.

End Answer.

(** ** Witnesses *)

(** A sort that keeps what it is promised to, and one that keeps no more. *)
Definition aSort {A} (cmp : A -> A -> comparison) (l : list A) : list A :=
  merge_sort (fun a b => cmp a b <> Gt) l.

Lemma aSort_sorts {A} : sorts (@aSort A).
Proof.
  intros cmp l [Ha Ht]. split; [apply merge_sort_Permutation|].
  assert (Transitive (fun a b => cmp a b <> Gt)) by (intros a b c H1 H2; by apply (Ht a b c)).
  assert (Total (fun a b => cmp a b <> Gt)).
  { intros a b. rewrite (Ha a b). destruct (cmp a b); simpl; auto. }
  apply StronglySorted_merge_sort; apply _.
Qed.

Definition backwards {A} (cmp : A -> A -> comparison) (l : list A) : list A := aSort cmp (rev l).

Lemma backwards_sorts {A} : sorts (@backwards A).
Proof.
  intros cmp l Hc. destruct (aSort_sorts cmp (rev l) Hc) as [Hp Hs]. split; [|exact Hs].
  rewrite Hp. symmetry. apply Permutation_rev.
Qed.

(** 10.90.0.9, 10.90.0.30, and nothing else. *)
Definition exParse (s : string) : option Addr :=
  if String.eqb s "10.90.0.9" then Some (V4 173670409)
  else if String.eqb s "10.90.0.30" then Some (V4 173670430) else None.

Definition exMachine (name address : string) (handshake : Z) : Peer :=
  mkPeer name "key" address "connected" "direct" 1 handshake 0 0.
Definition exMachines : list Peer :=
  [exMachine "lost" "" 1; exMachine "thirty" "10.90.0.30" 1; exMachine "cold" "10.90.0.9" 0;
   exMachine "nine" "10.90.0.9" 1].

Example exMachines_ordered :
  map p_name (ordered exParse aSort exMachines) = ["nine"; "thirty"; "lost"; "cold"].
Proof. vm_compute. reflexivity. Qed.

(** machines whose address does not parse are last, but not in the order they
    came in: what the sort promises lets it turn them round. *)
Theorem unreadable_not_kept :
  exists sort : (Peer -> Peer -> comparison) -> list Peer -> list Peer, sorts sort /\
    ordered exParse sort [exMachine "first" "" 1; exMachine "second" "" 1] =
    [exMachine "second" "" 1; exMachine "first" "" 1].
Proof. exists backwards. split; [apply backwards_sorts|]. vm_compute. reflexivity. Qed.

Lemma ordered_reads_witness :
  ordered exParse aSort exMachines ≡ₚ exMachines.
Proof. exact (proj1 (ordered_reads exParse aSort aSort_sorts exMachines)). Defined.

Lemma ordered_stable_witness :
  ordered exParse aSort exMachines = ordered exParse aSort (rev exMachines).
Proof.
  apply (ordered_stable exParse aSort aSort_sorts).
  - assert (Hall : Forall (fun a => Forall (fun b => menuOrder exParse a b = Eq -> a = b) exMachines) exMachines).
    { repeat (apply Forall_cons; split; [repeat (apply Forall_cons; split; [vm_compute; done|]); apply Forall_nil_2|]).
      apply Forall_nil_2. }
    intros a b Ha Hb. rewrite Forall_forall in Hall. specialize (Hall a Ha). rewrite Forall_forall in Hall. auto.
  - apply Permutation_rev.
Defined.

Lemma duration_reads_witness :
  duration (93784 * Second) = "1d 2h" /\
  exists parts, duration (93784 * Second) = written parts /\ (1 <= length parts <= 2)%nat.
Proof.
  split; [vm_compute; reflexivity|].
  destruct (proj2 (duration_reads (93784 * Second)) ltac:(unfold Second, Millisecond; lia)) as (parts & H1 & H2 & _).
  exists parts. split; assumption.
Defined.

Definition exView : AgentControl.AgentControl.engineView :=
  AgentControl.AgentControl.mkView [exKey 1] (fun _ => P2P.P2P.StateConnected) (fun _ => ("direct", 1)) (fun _ => "")
    (Some ∅).

Lemma menu_tells_the_engine_witness :
  exists p, st_peers (shownStatus "dev" AgentControl.AgentControl.exMember
    (AgentControl.AgentControl.mkProcess "nf0" (exKey 2) true true false 0 "dev") exView []) = [p] /\
  p_publicKey p = KeyString (exKey 1).
Proof.
  eexists. split; [reflexivity|].
  pose proof (menu_tells_the_engine "dev" AgentControl.AgentControl.exMember
    (AgentControl.AgentControl.mkProcess "nf0" (exKey 2) true true false 0 "dev") exView ∅ [] eq_refl) as Hall.
  inversion Hall as [|? ? ? ? [Hk _] _]; subst. exact Hk.
Defined.

End Desktop.
