(* ===== verification/DesktopGlue.v ===== *)
(** * desktop: what joins the window, the menu and the system (main.go, app.go,
    mainthread_darwin.go, mainthread_other.go, dial_unix.go).

    The options the window is opened with, what a failed dial means, the queue
    that carries a function to the main thread, and the goroutines that feed the
    window and the menu: the tick of [startup] and every call of [SetConnected],
    cut between the status, the event to the page and the menu. *)
From S2P Require Import Prelude GoStrings NetIP Desktop.

Module DesktopGlue.
Import Desktop.Desktop.

(** ** main.go: the window *)

Record options : Type := mkOptions {
  o_title : string; o_width : Z; o_height : Z; o_minWidth : Z; o_minHeight : Z; o_hideOnClose : bool;
  o_background : Z * Z * Z * Z; o_translucent : bool }.

Definition main : options := mkOptions "netflow" 460 520 380 480 true (0, 0, 0, 0) true.

(** What a window of these options becomes when it is asked for a height: wails
    keeps it at the least it was given or above. *)
Definition shownHeight (o : options) (asked : Z) : Z := Z.max (o_minHeight o) asked.

(** The page asks for the height of what is in it, and [Fit] lets it have as
    little as 260; the window does not get below 480, so under that it is the same
    height whatever is in it. *)
Theorem Fit_meets_minimum h :
  260 <= Fit h <= 760 /\ shownHeight main (Fit h) = Z.max 480 (Z.min h 760) /\
  (h <= 480 -> shownHeight main (Fit h) = 480).
Proof.
  unfold shownHeight, Fit, main. cbn [o_minHeight].
  destruct (Z.ltb_spec h 260); [change (760 <? 260) with false; cbv iota; lia|]. destruct (Z.ltb_spec 760 h); lia.
Qed.

(** ** dial_unix.go *)

(** The errors of a dial that are told apart, under [syscall.Errno]'s own [Is]. *)
Inductive errno : Type := EACCES | EPERM | ENOENT | ECONNREFUSED | EElse (text : string).

Definition isPermission (e : errno) : bool := match e with EACCES | EPERM => true | _ => false end.
Definition isMissing (e : errno) : bool := match e with ENOENT | ECONNREFUSED => true | _ => false end.

Definition errnoText (e : errno) : string :=
  match e with
  | EACCES => "permission denied" | EPERM => "operation not permitted" | ENOENT => "no such file or directory"
  | ECONNREFUSED => "connection refused" | EElse t => t
  end.

(** [friendly], which asks them in this order. *)
Definition dialUnix (e : errno) : dialError :=
  if isPermission e then EPermission else if isMissing e then EMissing else EOther (errnoText e).

(** [dialAgent]: the socket the agent listens on, or why not. *)
Definition dialAgent {conn : Type} (dial : string -> string -> result errno conn) (path : string) : result dialError conn :=
  match dial "unix" path with Ok c => Ok c | Err e => Err (dialUnix e) end.

(** ** The main thread: mainthread_darwin.go *)

Definition mainQueueSize : nat := 8.

(** [q_waiting] is the channel; [q_inside] the callers between their send and the
    dispatch; [q_dispatched] what the system's main queue holds; [q_ran] what ran;
    [q_idle] how often the callback found nothing. *)
Record mainQueue (F : Type) : Type := mkQueue {
  q_waiting : list F; q_inside : nat; q_dispatched : nat; q_ran : list F; q_idle : nat }.
Arguments mkQueue {F}. Arguments q_waiting {F}. Arguments q_inside {F}. Arguments q_dispatched {F}.
Arguments q_ran {F}. Arguments q_idle {F}.

Inductive qevent (F : Type) : Type := QSend (f : F) | QDispatch | QThunk.
Arguments QSend {F}. Arguments QDispatch {F}. Arguments QThunk {F}.

(** [onMainThread] is a [QSend], which waits while the channel is full, and then a
    [QDispatch]; [netflowMainThunk] is a [QThunk].  [None]: it cannot happen now. *)
Definition qstep {F} (s : mainQueue F) (e : qevent F) : option (mainQueue F) :=
  match e with
  | QSend f =>
      if (length (q_waiting s) <? mainQueueSize)%nat
      then Some (mkQueue (q_waiting s ++ [f]) (S (q_inside s)) (q_dispatched s) (q_ran s) (q_idle s)) else None
  | QDispatch =>
      match q_inside s with
      | O => None
      | S n => Some (mkQueue (q_waiting s) n (S (q_dispatched s)) (q_ran s) (q_idle s))
      end
  | QThunk =>
      match q_dispatched s with
      | O => None
      | S n => Some (match q_waiting s with
                     | f :: w => mkQueue w (q_inside s) n (q_ran s ++ [f]) (q_idle s)
                     | [] => mkQueue [] (q_inside s) n (q_ran s) (S (q_idle s))
                     end)
      end
  end.

Fixpoint qsteps {F} (s : mainQueue F) (es : list (qevent F)) : option (mainQueue F) :=
  match es with [] => Some s | e :: es => s' ← qstep s e; qsteps s' es end.

Definition qsent {F} (es : list (qevent F)) : list F := omap (fun e => match e with QSend f => Some f | _ => None end) es.
Definition emptyQueue {F} : mainQueue F := mkQueue [] 0 0 [] 0.

(** mainthread_other.go: the function runs where it is. *)
Definition onMainThreadOther {S : Type} (f : S -> S) (s : S) : S := f s.

(** As many functions wait as there are callers inside and dispatches to come. *)
Record qinv {F} (sent : list F) (s : mainQueue F) : Prop := {
  qi_count : length (q_waiting s) = (q_inside s + q_dispatched s)%nat;
  qi_room : (length (q_waiting s) <= mainQueueSize)%nat;
  qi_order : q_ran s ++ q_waiting s = sent;
  qi_idle : q_idle s = 0%nat }.

Lemma qstep_inv {F} sent (s s' : mainQueue F) e :
  qinv sent s -> qstep s e = Some s' -> qinv (sent ++ qsent [e]) s'.
Proof.
  intros [Hc Hr Ho Hi] E. destruct e as [f| |]; unfold qstep in E; cbn [qsent omap list_omap]; rewrite ?app_nil_r.
  - destruct (Nat.ltb_spec (length (q_waiting s)) mainQueueSize); [|done]. injection E as <-.
    split; cbn; rewrite ?length_app; cbn; [lia|lia|by rewrite app_assoc, Ho|done].
  - destruct (q_inside s) as [|n] eqn:En; [done|]. injection E as <-. split; cbn; [lia|done..].
  - destruct (q_dispatched s) as [|n] eqn:En; [done|]. injection E as <-.
    destruct (q_waiting s) as [|f w] eqn:Ew; cbn in Hc; [lia|].
    split; cbn in *; [lia|lia|by rewrite <- app_assoc|done].
Qed.

Lemma qsteps_inv {F} es : forall sent (s s' : mainQueue F),
  qinv sent s -> qsteps s es = Some s' -> qinv (sent ++ qsent es) s'.
Proof.
  induction es as [|e es IH]; intros sent s s' HI E; cbn [qsteps] in E; [injection E as <-; by rewrite app_nil_r|].
  destruct (qstep s e) as [s1|] eqn:E1; cbn in E; [|done].
  change (e :: es) with ([e] ++ es). unfold qsent. rewrite omap_app, app_assoc. fold (qsent [e]) (qsent es).
  eapply IH; [|exact E]. by eapply qstep_inv.
Qed.

(** The functions given to the main thread run once each and in the order they
    were given; the callback never finds the channel empty, whichever thread is
    where; no more than eight ever wait; and once every caller has dispatched, the
    callbacks that are due run all that is left. *)
Theorem main_thread_exact {F} (es : list (qevent F)) s :
  qsteps emptyQueue es = Some s ->
  q_ran s ++ q_waiting s = qsent es /\ q_idle s = 0%nat /\ (length (q_waiting s) <= mainQueueSize)%nat /\
  (q_inside s = 0%nat -> exists s', qsteps s (repeat QThunk (q_dispatched s)) = Some s' /\
     q_ran s' = qsent es /\ q_dispatched s' = 0%nat).
Proof.
  intros E. assert (HI0 : qinv [] (emptyQueue (F := F))) by (split; cbn; unfold mainQueueSize; lia || done).
  pose proof (qsteps_inv es [] _ s HI0 E) as HI. cbn [app] in HI. pose proof HI as [Hc Hr Ho Hi].
  split; [done|]. split; [done|]. split; [done|]. intros Hn.
  assert (Hrun : forall n t, q_dispatched t = n -> qinv (qsent es) t -> q_inside t = 0%nat ->
    exists s', qsteps t (repeat QThunk n) = Some s' /\ q_ran s' = qsent es /\ q_dispatched s' = 0%nat).
  { induction n as [|n IH]; intros t Ed [Hc' Hr' Ho' Hi'] Ei; cbn.
    - exists t. rewrite Ed in Hc'. destruct (q_waiting t); [|cbn in Hc'; lia]. by rewrite app_nil_r in Ho'.
    - rewrite Ed. destruct (q_waiting t) as [|f w] eqn:Ew; cbn in Hc'; [lia|]. cbn. apply IH; cbn; [done| |done].
      split; cbn in *; [lia|lia|by rewrite <- app_assoc|done]. }
  by apply Hrun.
Qed.

(** ** The window and the menu: app.go *)

Section App.
Context (ParseAddr : string -> option Addr) (SortFunc : (Peer -> Peer -> comparison) -> list Peer -> list Peer).
Notation update := (update ParseAddr SortFunc).

(** A status on its way: fetched and not yet given to the page, or given to the
    page and not yet to the menu. *)
Inductive stage : Type := Emitting | Updating.

(** [a_window] is the last status the page was given; [a_tray] the menu, once
    [build] has made it; [a_flight] the statuses on their way, that of the tick
    under the number 0; [a_endTray] whether there is a menu to take down. *)
Record App : Type := mkApp {
  a_window : option Status; a_tray : option tray; a_flight : gmap nat (stage * Status); a_next : nat;
  a_ticking : bool; a_endTray : bool }.

Definition NewApp : App := mkApp None None ∅ 1 false false.

(** [startup]: the menu will be built when the main thread gets to it. *)
Definition startup (a : App) : App := mkApp (a_window a) (a_tray a) (a_flight a) (a_next a) true true.

(** [shutdown]: the menu bar item is taken down, if there is one to take down. *)
Definition shutdown (a : App) : App * bool := (a, a_endTray a).

Inductive event : Type :=
| EvTick (st : Status)              (* the ticker fired, and [Status] said this *)
| EvButton (st : Status)            (* [SetConnected], from the page or the menu *)
| EvEmit (i : nat)                  (* [EventsEmit] *)
| EvUpdate (i : nat) (now : Z)      (* [tray.update] *)
| EvBuild                           (* the main thread runs [build] *)
| EvDone.                           (* the tick sees its context done *)

(** Items that were never made are nil, and setting a title of one panics. *)
Definition step (a : App) (e : event) : go App :=
  match e with
  | EvTick st =>
      Ret (if a_ticking a && bool_decide (a_flight a !! 0%nat = None)
           then mkApp (a_window a) (a_tray a) (<[0%nat := (Emitting, st)]> (a_flight a)) (a_next a) (a_ticking a) (a_endTray a)
           else a)
  | EvButton st =>
      Ret (mkApp (a_window a) (a_tray a) (<[a_next a := (Emitting, st)]> (a_flight a)) (S (a_next a)) (a_ticking a) (a_endTray a))
  | EvEmit i =>
      Ret (match a_flight a !! i with
           | Some (Emitting, st) =>
               mkApp (Some st) (a_tray a) (<[i := (Updating, st)]> (a_flight a)) (a_next a) (a_ticking a) (a_endTray a)
           | _ => a
           end)
  | EvUpdate i now =>
      match a_flight a !! i with
      | Some (Updating, st) =>
          match a_tray a with
          | None => Panic
          | Some t =>
              Ret (mkApp (a_window a) (Some (update now st t).1) (delete i (a_flight a)) (a_next a) (a_ticking a) (a_endTray a))
          end
      | _ => Ret a
      end
  | EvBuild =>
      Ret (match a_tray a with
           | None => mkApp (a_window a) (Some build) (a_flight a) (a_next a) (a_ticking a) (a_endTray a)
           | Some _ => a
           end)
  | EvDone =>
      Ret (if bool_decide (a_flight a !! 0%nat = None)
           then mkApp (a_window a) (a_tray a) (a_flight a) (a_next a) false (a_endTray a) else a)
  end.

Fixpoint steps (a : App) (es : list event) : go App :=
  match es with [] => Ret a | e :: es => a' ← step a e; steps a' es end.

(** The menu says what a status says. *)
Definition says (st : Status) (t : tray) : Prop := exists now t0, t = (update now st t0).1.

(** A status is fetched, whoever fetches it. *)
Definition starts (e : event) : option Status :=
  match e with EvTick st | EvButton st => Some st | _ => None end.

(** One status on its way, [st]: the page has it by the time it is [Updating], and
    when nothing is on its way both show it. *)
Record alone (st : Status) (a : App) : Prop := {
  al_built : is_Some (a_tray a);
  al_flight :
    (exists i, a_flight a = {[i := (Emitting, st)]}) \/
    (exists i, a_flight a = {[i := (Updating, st)]} /\ a_window a = Some st) \/
    (a_flight a = ∅ /\ a_window a = Some st /\ exists t, a_tray a = Some t /\ says st t) }.

Lemma alone_step st a e : alone st a -> starts e = None -> exists a', step a e = Ret a' /\ alone st a'.
Proof.
  intros Ha Hs. pose proof Ha as [[t Ht] Hf].
  destruct e as [?|?|i|i now| |]; try done; cbn;
    [|rewrite Ht|rewrite Ht; by eexists|eexists; split; [done|]; case_bool_decide; [split; [by exists t|exact Hf]|exact Ha]].
  all: destruct Hf as [[j Ef]|[(j & Ef & Ew)|(Ef & Ew & Hsay)]]; rewrite Ef, ?lookup_empty; [| |by eexists..].
  all: destruct (decide (j = i)) as [->|Hne]; [rewrite lookup_singleton_eq|rewrite lookup_singleton_ne by done; by eexists].
  all: eexists; split; [done|]; try exact Ha; (split; cbn; [by eexists|]).
  - right. left. exists i. split; [by rewrite insert_singleton_eq|done].
  - right. right. rewrite delete_singleton_eq. splits. eexists. split; [done|]. by exists now, t.
Qed.

Lemma alone_steps es : forall st a, alone st a -> Forall (fun e => starts e = None) es -> exists a', steps a es = Ret a' /\ alone st a'.
Proof.
  induction es as [|e es IH]; intros st a Ha He; cbn; [by exists a|]. apply Forall_cons in He as [He Hes].
  destruct (alone_step st a e Ha He) as (a1 & -> & Ha1). cbn. by apply IH.
Qed.

(** the window and the menu say the same whenever a status had the way to
    itself.  Whatever came before, take a status fetched when no other was on its
    way, and anything after it but another fetch: nothing panics, and once the
    status has arrived the page was last given exactly it and the menu was drawn
    from it — so a disagreement between the two lasts until the next such tick. *)
Theorem window_and_menu_agree a e st es :
  a_flight a = ∅ -> is_Some (a_tray a) -> a_ticking a = true -> starts e = Some st ->
  Forall (fun e => starts e = None) es ->
  exists a', steps a (e :: es) = Ret a' /\
    (a_flight a' = ∅ -> a_window a' = Some st /\ exists t, a_tray a' = Some t /\ says st t).
Proof.
  intros Ef Ht Htick Hs Hes.
  assert (exists a1, step a e = Ret a1 /\ alone st a1) as (a1 & E1 & Ha1).
  { destruct e; try done; injection Hs as ->; cbn; eexists; (split; [done|]);
      rewrite ?Htick, Ef, ?lookup_empty, ?bool_decide_true by done; (split; [done|]); cbn; left; eexists; by rewrite insert_empty. }
  destruct (alone_steps es st a1 Ha1 Hes) as (a' & E' & [_ Hf]). exists a'. split; [cbn; by rewrite E1|].
  intros E. destruct Hf as [[i Hi]|[(i & Hi & _)|(_ & Hw & Ht')]]; [..|done];
    rewrite E in Hi; symmetry in Hi; by apply map_non_empty_singleton in Hi.
Qed.

End App.

(** ** Where they do not agree, and where there is no menu yet *)

Definition exStatus (paused : bool) : Status := mkStatus "10.90.0.1" "nf0" true [] paused 0 true "" "dev".
Definition exTick : event := EvTick (exStatus false).
Definition exButton : event := EvButton (exStatus true).
Definition exRunApp (es : list event) : go App := steps (fun _ => None) (fun _ l => l) (startup NewApp) es.

(** A tick that fetched its status before a click on Disconnect, and gets to the
    menu after it: the window says disconnected, the menu offers to disconnect. *)
Theorem overlap_disagrees :
  exists a t, exRunApp [EvBuild; exTick; EvEmit 0; exButton; EvEmit 1; EvUpdate 1 5; EvUpdate 0 6] = Ret a /\
    a_flight a = ∅ /\ a_window a = Some (exStatus true) /\ a_tray a = Some t /\
    t_status t = mkItem "no peers yet" true /\ t_connect t = mkItem "Disconnect" true.
Proof. do 2 eexists. split; [vm_compute; reflexivity|]. split; [vm_compute; reflexivity|]. vm_compute. splits. Qed.

(** Nothing waits for the menu: a status that gets to it first is a panic. *)
Theorem early_update_panics : exRunApp [exTick; EvEmit 0; EvUpdate 0 5; EvBuild] = Panic.
Proof. vm_compute. reflexivity. Qed.

Lemma window_and_menu_agree_witness :
  exists a', steps (fun _ => None) (fun _ l => l) (mkApp None (Some build) ∅ 1 true true) [exButton; EvEmit 1; EvUpdate 1 5] = Ret a' /\
    a_window a' = Some (exStatus true).
Proof.
  destruct (window_and_menu_agree (fun _ => None) (fun _ l => l) (mkApp None (Some build) ∅ 1 true true) exButton (exStatus true)
    [EvEmit 1; EvUpdate 1 5]) as (a' & E & Ha); [done|by eexists|done|done|by repeat constructor|].
  exists a'. split; [exact E|]. apply Ha. vm_compute in E. injection E as <-. vm_compute. reflexivity.
Defined.

End DesktopGlue.
