(* ===== verification/Icons.v ===== *)
(** * desktop: the marks that are drawn rather than kept (trayicon.go,
    build/icon/main.go).

    Arithmetic is IEEE binary64 with every operation rounded on its own, as Go
    compiles it for amd64 (Go lets a compiler fuse a product into a sum, and the
    one for arm64 does).  [math.Hypot], [Max], [Min], [Abs] and [Round] are
    written out; [math.Pow] and the encoding of the image are parameters. *)
From Stdlib Require Import SpecFloat.
From S2P Require Import Prelude GoStrings.

Module Icons.

(** ** float64 *)

Notation float64 := spec_float.

Declare Scope f64_scope.
Delimit Scope f64_scope with f64.
Bind Scope f64_scope with spec_float.

Definition fadd (x y : float64) : float64 := SFadd 53 1024 x y.
Definition fsub (x y : float64) : float64 := SFsub 53 1024 x y.
Definition fmul (x y : float64) : float64 := SFmul 53 1024 x y.
Definition fdiv (x y : float64) : float64 := SFdiv 53 1024 x y.
Definition fsqrt (x : float64) : float64 := SFsqrt 53 1024 x.

Infix "+" := fadd : f64_scope.
Infix "-" := fsub : f64_scope.
Infix "*" := fmul : f64_scope.
Infix "/" := fdiv : f64_scope.
Infix "<?" := SFltb : f64_scope.

Definition ofZ (n : Z) : float64 := binary_normalize 53 1024 n 0 false.

(** The float64 of the constant [p/q]. *)
Definition const (p q : Z) : float64 := (ofZ p / ofZ q)%f64.

Definition fzero : float64 := S754_zero false.
Definition fone : float64 := ofZ 1.
Definition fhalf : float64 := const 1 2.

Definition isNaN (x : float64) : bool := match x with S754_nan => true | _ => false end.
Definition isInf (sign : bool) (x : float64) : bool := match x with S754_infinity s => Bool.eqb s sign | _ => false end.
Definition signbit (x : float64) : bool :=
  match x with S754_zero s | S754_infinity s => s | S754_finite s _ _ => s | S754_nan => false end.
Definition isZero (x : float64) : bool := match x with S754_zero _ => true | _ => false end.

(** [math.Max] and [math.Min]. *)
Definition Max (x y : float64) : float64 :=
  if isInf false x || isInf false y then S754_infinity false
  else if isNaN x || isNaN y then S754_nan
  else if isZero x && isZero y then (if signbit x then y else x)
  else if (y <? x)%f64 then x else y.
Definition Min (x y : float64) : float64 :=
  if isInf true x || isInf true y then S754_infinity true
  else if isNaN x || isNaN y then S754_nan
  else if isZero x && isZero y then (if signbit x then x else y)
  else if (x <? y)%f64 then x else y.

(** The builtin [max]. *)
Definition max2 (x y : float64) : float64 :=
  if isNaN x || isNaN y then S754_nan
  else if isZero x && isZero y then (if signbit x then y else x)
  else if (x <? y)%f64 then y else x.

(** [math.Hypot]. *)
Definition Hypot (p q : float64) : float64 :=
  let p := SFabs p in
  let q := SFabs q in
  if isInf false p || isInf false q then S754_infinity false
  else if isNaN p || isNaN q then S754_nan
  else
    let '(p, q) := if (p <? q)%f64 then (q, p) else (p, q) in
    if isZero p then fzero
    else let q := (q / p)%f64 in (p * fsqrt (fone + q * q))%f64.

(** [math.Round], half away from zero, as the integer it is; [None] for what is
    no number of a size to matter. *)
Definition Round (x : float64) : option Z :=
  match x with
  | S754_zero _ => Some 0
  | S754_finite s m e =>
      let n := if 0 <=? e then Z.pos m * 2 ^ e else (Z.pos m + 2 ^ (- e - 1)) / 2 ^ (- e) in
      Some (if s then - n else n)
  | _ => None
  end.

(** [uint8] of a float that is an integer of its range; outside it Go leaves the
    result to the machine. *)
Definition uint8 (n : option Z) : option Z := z ← n; if (0 <=? z) && (z <=? 255) then Some z else None.

(** ** What the two have in common *)

Record pt : Type := mkPt { px : float64; py : float64 }.

Definition clamp01 (v : float64) : float64 := Min fone (Max fzero v).

Definition hypot (a b : pt) : float64 := Hypot (px a - px b)%f64 (py a - py b)%f64.

Definition segment (p a b : pt) : float64 :=
  let vx := (px b - px a)%f64 in let vy := (py b - py a)%f64 in
  let wx := (px p - px a)%f64 in let wy := (py p - py a)%f64 in
  let t := clamp01 ((wx * vx + wy * vy) / (vx * vx + vy * vy))%f64 in
  Hypot (wx - t * vx)%f64 (wy - t * vy)%f64.

Definition quant (v : float64) : option Z := uint8 (Round (clamp01 v * ofZ 255)%f64).

(** Three points around one. *)
Definition around (c : pt) (r : float64) : list pt :=
  [mkPt (px c) (py c - r);
   mkPt (px c + r * const 866 1000) (py c + r * fhalf);
   mkPt (px c - r * const 866 1000) (py c + r * fhalf)]%f64.

(** [for i := range nodes \{ for j := i + 1; ... \} \}]. *)
Fixpoint pairs {A} (l : list A) : list (A * A) :=
  match l with [] => [] | x :: l => map (pair x) l ++ pairs l end.

Definition pixel (x y : Z) : pt := mkPt (ofZ x + fhalf) (ofZ y + fhalf).

(** ** trayicon.go *)

Definition coverage (d : float64) : float64 := clamp01 (fhalf - d)%f64.

Definition trayPx : Z := 44.
Definition trayCentre : pt := mkPt (ofZ 22) (ofZ 22).
Definition trayNodes : list pt := around trayCentre (const 132 10).
Definition trayNode : float64 := ofZ 4.
Definition trayLink : float64 := const 13 10.
Definition trayRing : float64 := const 13 10.
Definition trayHalfRing : float64 := const 65 100.
Definition trayMiddle : float64 := const 46 10.

(** The value [a] of a pixel at the end of the loops. *)
Definition trayAlpha (solid : bool) (p : pt) : float64 :=
  let a := fold_left (fun a ij => max2 a (const 3 4 * coverage (segment p ij.1 ij.2 - trayLink))%f64) (pairs trayNodes) fzero in
  let a := fold_left (fun a n =>
             let d := hypot p n in
             if solid then max2 a (coverage (d - trayNode)%f64)
             else max2 a (coverage (SFabs (d - trayNode + trayHalfRing) - trayHalfRing)%f64)) trayNodes a in
  if solid then max2 a (coverage (hypot p trayCentre - trayMiddle)%f64)
  else max2 a (coverage (SFabs (hypot p trayCentre - trayMiddle + trayHalfRing) - trayHalfRing)%f64).

Definition trayPixel (solid : bool) (x y : Z) : option Z := quant (trayAlpha solid (pixel x y)).

(** [trayIcon]: black, with what the loop left as alpha, row by row. *)
Definition trayIcon (encode : list (option Z) -> option (list Z)) (solid : bool) : list Z :=
  default [] (encode (flat_map (fun y => map (fun x => trayPixel solid (Z.of_nat x) (Z.of_nat y)) (seq 0 44)) (seq 0 44))).

(** ** build/icon/main.go *)

Record rgb : Type := mkRgb { r_ : float64; g_ : float64; b_ : float64 }.

Definition deep : rgb := mkRgb (const 27 1000) (const 35 1000) (const 55 1000).
Definition lift : rgb := mkRgb (const 55 1000) (const 78 1000) (const 125 1000).
Definition accent : rgb := mkRgb (const 204 1000) (const 827 1000) (const 600 1000).
Definition pale : rgb := mkRgb (const 902 1000) (const 937 1000) (const 980 1000).

Definition mix (a b : rgb) (t : float64) : rgb :=
  let t := clamp01 t in
  mkRgb (r_ a + (r_ b - r_ a) * t) (g_ a + (g_ b - g_ a) * t) (b_ a + (b_ b - b_ a) * t).
Definition over (base top : rgb) (a : float64) : rgb := mix base top a.

Definition size : Z := 1024.
Definition aa : float64 := fone.
Definition dist (p q : pt) : float64 := hypot p q.
Definition cover (d : float64) : float64 := clamp01 (fhalf - d / ofZ 2)%f64.

Section AppIcon.
(** [math.Pow]. *)
Context (Pow : float64 -> float64 -> float64).

Definition squircle (p : pt) (cx cy r : float64) : float64 :=
  let dx := (SFabs (px p - cx) / r)%f64 in
  let dy := (SFabs (py p - cy) / r)%f64 in
  ((Pow (Pow dx (const 46 10) + Pow dy (const 46 10)) (const 10 46) - fone) * r)%f64.

Definition appCentre : pt := mkPt (ofZ 512) (ofZ 512).
Definition appNodes : list pt := around appCentre (const 18944 100).

(** The colour of a pixel under the mark, its links first. *)
Definition appColour (y : Z) (p : pt) : rgb :=
  let col := mix lift deep (ofZ y / ofZ 1024)%f64 in
  let col := fold_left (fun col ij => over col accent (const 6 10 * cover (segment p ij.1 ij.2 - const 11776 1000))%f64)
               (pairs appNodes) col in
  let col := fold_left (fun col n => over col accent (cover (dist p n - const 512 10)%f64)) appNodes col in
  over col pale (cover (dist p appCentre - const 69632 1000)%f64).

(** A pixel that is not set stays transparent. *)
Definition appPixel (x y : Z) : option (option Z * option Z * option Z * option Z) :=
  let p := pixel x y in
  let d := squircle p (ofZ 512) (ofZ 512) (const 421888 1000) in
  if (aa <? d)%f64 then None
  else let col := appColour y p in Some (quant (r_ col), quant (g_ col), quant (b_ col), quant (cover d)).

(** [main]: the pixels row by row, encoded into a file that could be created. *)
Definition appPixels : list (option (option Z * option Z * option Z * option Z)) :=
  flat_map (fun y => map (fun x => appPixel (Z.of_nat x) (Z.of_nat y)) (seq 0 (Z.to_nat size))) (seq 0 (Z.to_nat size)).
Definition main (created : result string unit)
    (encode : list (option (option Z * option Z * option Z * option Z)) -> result string unit) : result string string :=
  match created with
  | Err e => Err ("error: " +:+ e)
  | Ok _ => match encode appPixels with Err e => Err ("error: " +:+ e) | Ok _ => Ok "wrote build/appicon.png" end
  end.

End AppIcon.

(** ** Rounding *)

Lemma shr_1_half r : 0 <= shr_m r -> shr_m (shr_1 r) = shr_m r / 2.
Proof.
  destruct r as [m r s]; simpl. intros Hm. rewrite <- Z.div2_div. by destruct m as [|[q|q|]|[q|q|]].
Qed.

Lemma iter_shr n : forall r, 0 <= shr_m r -> shr_m (SpecFloat.iter_pos shr_1 n r) = shr_m r / 2 ^ Z.pos n.
Proof.
  assert (Hd : forall m k : Z, 0 <= m -> 0 <= k -> 0 <= m / 2 ^ k) by (intros; apply Z.div_pos; [done|by apply Z.pow_pos_nonneg]).
  assert (Hdd : forall m j k : Z, 0 <= j -> 0 <= k -> m / 2 ^ j / 2 ^ k = m / 2 ^ (j + k)).
  { intros m j k Hj Hk. rewrite Z.pow_add_r by done. apply Z.div_div; [by apply Z.pow_nonzero|by apply Z.pow_pos_nonneg]. }
  induction n as [n IH|n IH|]; intros r Hr; cbn [SpecFloat.iter_pos]; [| |by apply shr_1_half].
  - pose proof (shr_1_half r Hr) as E1. rewrite <- (Z.pow_1_r 2) in E1.
    assert (H1 : 0 <= shr_m (shr_1 r)) by (rewrite E1; apply Hd; lia).
    pose proof (IH (shr_1 r) H1) as E2. rewrite IH, E2, E1, !Hdd by (rewrite ?E2; try apply Hd; lia). f_equal. f_equal. lia.
  - pose proof (IH r Hr) as E2. rewrite IH, E2, Hdd by (rewrite ?E2; try apply Hd; lia). f_equal. f_equal. lia.
Qed.

Lemma digits_bound p : 2 ^ (Z.pos (digits2_pos p) - 1) <= Z.pos p < 2 ^ Z.pos (digits2_pos p).
Proof.
  induction p as [p IH|p IH|]; [| |done]; cbn [digits2_pos];
    rewrite Pos2Z.inj_succ; replace (Z.succ (Z.pos (digits2_pos p)) - 1) with (Z.pos (digits2_pos p)) by lia;
    rewrite Z.pow_succ_r by lia;
    replace (Z.pos (digits2_pos p)) with (Z.succ (Z.pos (digits2_pos p) - 1)) at 1 by lia; rewrite Z.pow_succ_r by lia; lia.
Qed.

Lemma Zdigits2_le m k : 0 <= m -> 0 <= k -> m < 2 ^ k -> Zdigits2 m <= k.
Proof.
  destruct m as [|p|p]; cbn [Zdigits2]; intros Hm Hk Hlt; [done| |lia]. pose proof (digits_bound p) as [Hl _].
  apply Z.nlt_ge. intros Hgt. pose proof (Z.pow_le_mono_r 2 k (Z.pos (digits2_pos p) - 1)). lia.
Qed.

(** Shifting a mantissa down to where its exponent belongs, of a number not above
    255. *)
Lemma shr_fexp_under m e l :
  0 <= m -> e <= 0 -> m <= 255 * 2 ^ (- e) ->
  let x := shr_fexp 53 1024 m e l in
  0 <= shr_m x.1 <= 255 * 2 ^ (- x.2) /\ e <= x.2 <= Z.max e (-45) /\
  (m < 255 * 2 ^ (- e) -> shr_m x.1 < 255 * 2 ^ (- x.2)).
Proof.
  intros Hm He Hle. unfold shr_fexp. set (n := fexp 53 1024 (Zdigits2 m + e) - e).
  assert (Hn : e + Z.max 0 n <= Z.max e (-45)).
  { assert (Zdigits2 m <= 8 - e).
    { apply Zdigits2_le; [done|lia|]. replace (8 - e) with (8 + - e) by lia. rewrite Z.pow_add_r by lia.
      change (2 ^ 8) with 256. pose proof (Z.pow_pos_nonneg 2 (- e)). lia. }
    unfold n, fexp, emin. lia. }
  assert (Hs : shr_m (shr_record_of_loc m l) = m) by (by destruct l as [|[]]).
  assert (Hx : shr_m (shr (shr_record_of_loc m l) e n).1 = m / 2 ^ Z.max 0 n /\ (shr (shr_record_of_loc m l) e n).2 = e + Z.max 0 n).
  { unfold shr. destruct n as [|q|q]; cbn [fst snd]; rewrite ?iter_shr, Hs by (by rewrite Hs);
      (split; [|lia]); [by rewrite Z.div_1_r|f_equal; f_equal; lia|by rewrite Z.div_1_r]. }
  cbv zeta. destruct Hx as [-> ->]. set (k := Z.max 0 n) in *. assert (Hk : 0 <= k) by lia.
  assert (Ep : 2 ^ (- e) = 2 ^ k * 2 ^ (- (e + k))) by (rewrite <- Z.pow_add_r by lia; f_equal; lia).
  pose proof (Z.pow_pos_nonneg 2 k). rewrite Ep in Hle |- *. split; [|split; [lia|]].
  - split; [by apply Z.div_pos; lia|]. apply Z.div_le_upper_bound; lia.
  - intros Hlt. apply Z.div_lt_upper_bound; lia.
Qed.

(** What a rounded product not above 255 is. *)
Definition under255 (x : float64) : Prop :=
  match x with
  | S754_zero s => s = false
  | S754_finite s m e => s = false /\ e < 0 /\ Z.pos m <= 255 * 2 ^ (- e)
  | _ => False
  end.

Lemma round_under m e : 0 <= m -> e <= -45 -> m < 255 * 2 ^ (- e) -> under255 (binary_round_aux 53 1024 false m e loc_Exact).
Proof.
  intros Hm He Hlt. unfold binary_round_aux.
  destruct (shr_fexp_under m e loc_Exact Hm ltac:(lia) ltac:(lia)) as ([H1 H2] & [H3 H4] & H5). cbv zeta in *.
  specialize (H5 Hlt). destruct (shr_fexp 53 1024 m e loc_Exact) as [r e1]. cbn [fst snd] in *.
  set (q := round_nearest_even (shr_m r) (loc_of_shr_record r)).
  assert (Hq : 0 <= q <= 255 * 2 ^ (- e1)) by (unfold q, round_nearest_even; repeat case_match; lia).
  destruct (shr_fexp_under q e1 loc_Exact) as ([G1 G2] & [G3 G4] & _); [lia..|]. cbv zeta in *.
  destruct (shr_fexp 53 1024 q e1 loc_Exact) as [r2 e2]. cbn [fst snd] in *.
  destruct (shr_m r2) as [|p|p]; [done| |lia]. destruct (Z.leb_spec e2 (1024 - 53)); [|lia].
  cbn. splits; lia.
Qed.

Lemma Round_under x : under255 x -> exists z, Round x = Some z /\ 0 <= z <= 255.
Proof.
  destruct x as [s|s| |s m e]; cbn [under255 Round]; [intros ->; by exists 0|done|done|].
  intros (-> & He & Hle). rewrite (proj2 (Z.leb_gt 0 e)) by lia. eexists. split; [done|].
  set (k := - e) in *. assert (Hp : 2 ^ k = 2 * 2 ^ (k - 1)) by (rewrite <- Z.pow_succ_r by lia; f_equal; lia).
  pose proof (Z.pow_pos_nonneg 2 (k - 1)). split; [apply Z.div_pos; lia|].
  apply Z.lt_succ_r, Z.div_lt_upper_bound; lia.
Qed.

(** ** Clamping *)

(** Between nothing and one: exactly one of the ends, or a number below one that
    is represented as binary64 does. *)
Definition unit (x : float64) : Prop :=
  x = fzero \/ x = fone \/ exists m e, x = S754_finite false m e /\ e <= -53 /\ Z.pos m < 2 ^ 53.

Definition valid (x : float64) : Prop := valid_binary 53 1024 x = true.

Lemma fone_eq : fone = S754_finite false (2 ^ 52) (-52).
Proof. reflexivity. Qed.

Lemma Max_pos m e : Max fzero (S754_finite false m e) = S754_finite false m e.
Proof. reflexivity. Qed.

Lemma Min_pos m e : Min fone (S754_finite false m e) = if (fone <? S754_finite false m e)%f64 then fone else S754_finite false m e.
Proof. reflexivity. Qed.

Lemma clamp01_unit v : valid v -> isNaN v = false -> unit (clamp01 v).
Proof.
  intros Hv Hn. destruct v as [s|s| |s m e]; [by destruct s; left| |done|].
  - destruct s; [by left|]. right. left. reflexivity.
  - destruct s; [by left|]. unfold clamp01. rewrite Max_pos, Min_pos.
    destruct (SFltb _ _) eqn:El; [by right; left|]. rewrite fone_eq in El.
    unfold valid, valid_binary, bounded, canonical_mantissa in Hv. apply andb_true_iff in Hv as [Hc%Z.eqb_eq _].
    pose proof (digits_bound m) as [Hd1 Hd2]. unfold fexp, emin in Hc.
    assert (Hdig : Z.pos (digits2_pos m) <= 53) by lia.
    unfold SFltb, SFcompare in El. destruct (Z.compare_spec (-52) e) as [E|E|E]; [|done|].
    + subst e. assert (Z.pos (digits2_pos m) = 53) as Ed by lia. rewrite Ed in Hd1.
      assert (m = 2 ^ 52)%positive as ->; [|by right; left].
      change (Pos.compare_cont Eq (2 ^ 52) m) with ((2 ^ 52) ?= m)%positive in El.
      destruct (Pos.compare_spec (2 ^ 52) m) as [|Hlt|Hlt]; [done|done|].
      assert (Z.pos m < Z.pos (2 ^ 52)) by lia. change (Z.pos (2 ^ 52)) with (2 ^ (53 - 1)) in *. lia.
    + right. right. exists m, e. splits; [lia|]. eapply Z.lt_le_trans; [exact Hd2|]. by apply Z.pow_le_mono_r.
Qed.

(** A colour or an alpha is a byte: the conversion never leaves the range that Go
    defines, whatever number the drawing arrives at; the ends are the ends. *)
Theorem quant_byte v :
  valid v -> isNaN v = false ->
  exists z, quant v = Some z /\ 0 <= z <= 255 /\
    ((fone <? v)%f64 = true -> z = 255) /\ ((v <? fzero)%f64 = true -> z = 0).
Proof.
  intros Hv Hn. unfold quant.
  assert (H1 : (fone <? v)%f64 = true -> clamp01 v = fone).
  { destruct v as [s|s| |s m e]; try done; destruct s; try done. intros Hlt.
    unfold clamp01. rewrite Max_pos, Min_pos. by rewrite Hlt. }
  assert (H0 : (v <? fzero)%f64 = true -> clamp01 v = fzero).
  { destruct v as [s|s| |s m e]; try done; destruct s; by try done. }
  destruct (clamp01_unit v Hv Hn) as [E|[E|(m & e & E & He & Hm)]].
  - rewrite E in *. exists 0. split; [reflexivity|]. split; [done|]. split; [|done]. intros H; by specialize (H1 H).
  - rewrite E in *. exists 255. split; [reflexivity|]. split; [done|]. split; [done|]. intros H; by specialize (H0 H).
  - assert (Hu : under255 (clamp01 v * ofZ 255)%f64).
    { rewrite E. change (ofZ 255) with (S754_finite false (255 * 2 ^ 45) (-45)). unfold fmul, SFmul. cbn [xorb].
      apply round_under; [done|lia|]. rewrite Pos2Z.inj_mul. change (Z.pos (255 * 2 ^ 45)) with (255 * 2 ^ 45).
      assert (2 ^ 98 <= 2 ^ (- (e + -45))) by (apply Z.pow_le_mono_r; lia). change (2 ^ 98) with (2 ^ 53 * 2 ^ 45) in *. nia. }
    destruct (Round_under _ Hu) as (z & -> & Hz). exists z. cbn.
    rewrite (proj2 (Z.leb_le 0 z)), (proj2 (Z.leb_le z 255)) by lia. cbn. split; [done|]. split; [done|].
    split; intros H; [specialize (H1 H)|specialize (H0 H)]; rewrite E in *; [|done].
    exfalso. rewrite fone_eq in H1. injection H1 as ->. lia.
Qed.

(** ** What is drawn *)

(** The two marks are told apart by their nodes, full or hollow, and have their
    links in common; a corner is transparent in both. *)
Theorem tray_marks :
  trayPixel true 22 22 = Some 255 /\ trayPixel false 22 22 = Some 0 /\
  trayPixel true 22 8 = Some 255 /\ trayPixel false 22 8 = Some 191 /\
  trayPixel true 22 28 = Some 191 /\ trayPixel false 22 28 = Some 191 /\
  trayPixel true 0 0 = Some 0 /\ trayPixel false 0 0 = Some 0.
Proof. vm_compute. done. Qed.

(** The application icon has a line between every two of the three machines around
    the middle one, and none to the middle one: halfway to it there is only the
    background. *)
Theorem app_links :
  length (pairs appNodes) = 3%nat /\ length (pairs (appCentre :: appNodes)) = 6%nat /\
  appColour 408 (pixel 512 408) = mix lift deep (ofZ 408 / ofZ 1024)%f64.
Proof. vm_compute. done. Qed.

(** Nothing outside the rounded square is set, whatever [Pow] is, and what is set
    are four bytes where they are numbers. *)
Theorem appPixel_bytes Pow x y r g b a :
  appPixel Pow x y = Some (r, g, b, a) ->
  let d := squircle Pow (pixel x y) (ofZ 512) (ofZ 512) (const 421888 1000) in
  (aa <? d)%f64 = false /\
  (valid (cover d) -> isNaN (cover d) = false -> exists z, a = Some z /\ 0 <= z <= 255).
Proof.
  unfold appPixel. cbv zeta. generalize (squircle Pow (pixel x y) (ofZ 512) (ofZ 512) (const 421888 1000)) as d. intros d.
  destruct (aa <? d)%f64; [done|]. generalize (quant (r_ (appColour y (pixel x y)))) (quant (g_ (appColour y (pixel x y))))
    (quant (b_ (appColour y (pixel x y)))). intros r' g' b' E. split; [done|].
  intros Hv Hn. destruct (quant_byte _ Hv Hn) as (z & Eq & Hz & _). exists z. split; [congruence|done].
Qed.

End Icons.
