(* ===== verification/AgentLoops.v ===== *)
(** * cmd/nfagent: the loops around the engine, the control socket and the
    commands that ask it (register.go, control.go, status.go, main.go).

    The loops are folds over what each round was answered; the socket is the
    sequence of system calls that make it, then a function from requests to what
    the agent is asked to do.  HTTP, the file system and the clock answer as
    arguments. *)
From S2P Require Import Prelude GoStrings NetIP Keys P2P UAPI Backoff Link AgentMap AgentControl Desktop.

Module AgentLoops.
Import AgentControl.AgentControl.
Import AgentMap.AgentMap (mapEvery).
Import Desktop.Desktop (os, Linux, Darwin, Windows).

Definition reportEvery : Z := 30 * Second.

(** ** What the machine says is wrong with it *)

(** The four texts kept behind a lock each, for the report. *)
Record troubles : Type := mkTroubles {
  tr_update : string; tr_firewall : string; tr_routing : string; tr_relay : string }.

Definition errText (err : option string) : string := default "" err.

Definition setFirewallError (err : option string) (t : troubles) : troubles :=
  mkTroubles (tr_update t) (errText err) (tr_routing t) (tr_relay t).
Definition setRoutingError (err : option string) (t : troubles) : troubles :=
  mkTroubles (tr_update t) (tr_firewall t) (errText err) (tr_relay t).
Definition setRelayError (err : option string) (t : troubles) : troubles :=
  mkTroubles (tr_update t) (tr_firewall t) (tr_routing t) (errText err).

Definition machineFacts (version system hostname : string) (t : troubles) : list (string * string) :=
  [("version", version); ("system", system); ("hostname", hostname); ("updateError", tr_update t);
   ("firewallError", tr_firewall t); ("routingError", tr_routing t); ("relayError", tr_relay t)].

(** One check of [watchRelay]: whether a relay is configured, and what the probe
    of it answered. *)
Definition checkRelay (c : bool * option string) (t : troubles) : troubles :=
  if negb c.1 then setRelayError None t else setRelayError c.2 t.

(** [watchRelay] over its checks, the first thirty seconds after the start and
    one every ten minutes. *)
Definition watchRelay (checks : list (bool * option string)) (t : troubles) : troubles :=
  fold_left (fun t c => checkRelay c t) checks t.

(** ** Reports *)

Inductive reportError : Type := EMarshal | ERequest | EHttp (text : string) | EReportRefused (status : string).

(** [postReport]: the answer is a transport error or a code with its text. *)
Definition postReport (marshal request : bool) (answer : result string (Z * string)) : result reportError unit :=
  if negb marshal then Err EMarshal
  else if negb request then Err ERequest
  else match answer with
       | Err e => Err (EHttp e)
       | Ok (code, text) => if Z.quot code 100 =? 2 then Ok tt else Err (EReportRefused text)
       end.

Section Reports.
Context `{WGKeys}.

(** [reportToServer]: the reports sent, round by round; a device that cannot be
    read is a round without one. *)
Definition reportToServer (version system hostname : string) (rounds : list (engineView * troubles)) :
    list (list peerReport * list (string * string)) :=
  omap (fun r => rows ← collectReport r.1; Some (rows, machineFacts version system hostname r.2)) rounds.

End Reports.

(** ** Nudges *)

(** [mapNudges]: how long it waits after each stream; a stream ended well or
    not, and the jitter drew a number. *)
Fixpoint mapNudges (delay : Z) (streams : list (bool * Z)) : list Z :=
  match streams with
  | [] => []
  | (lasted, r) :: streams => jitterMap delay r :: mapNudges (nudgeDelay lasted delay) streams
  end.

(** [fetchMap]: the first mebibyte of the body is what is decoded. *)
Inductive fetchError : Type := EFetch (text : string) | EStatus (text : string) | EDecode (text : string).

Definition mapLimit : nat := Z.to_nat (2 ^ 20).

Definition fetchMap {M : Type} (decode : list byte -> result string M) (answer : result string (Z * string * list byte)) :
    result fetchError M :=
  match answer with
  | Err e => Err (EFetch e)
  | Ok (code, status, body) =>
      let raw := take mapLimit body in
      if negb (code =? 200) then Err (EStatus (status +:+ ": " +:+ TrimSpace (unchars raw)))
      else match decode raw with Ok m => Ok m | Err e => Err (EDecode e) end
  end.

(** ** The control socket *)

Definition controlSocket (o : os) : string :=
  match o with
  | Darwin => "/var/run/netflow-agent.sock"
  | Windows => "\\.\pipe\netflow-agent"
  | Linux => "/run/netflow/agent.sock"
  end.

Definition clientGroup (o : os) : string :=
  match o with Darwin => "staff" | Windows => "" | Linux => "netflow" end.

(** What is asked of the system. *)
Inductive sysCall : Type :=
| CRemove | CMkdir | CListen | CChmod (mode : Z) | CChown (gid : Z) | CServe.

#[global] Instance sysCall_eq_dec : EqDecision sysCall.
Proof. solve_decision. Defined.

(** What the system answers. *)
Record socketWorld : Type := mkSocketWorld {
  sw_mkdir : bool; sw_listen : bool; sw_group : option string }.

(** [giveToClients]: the group is looked up by name, and its id is a text. *)
Definition giveToClients (o : os) (w : socketWorld) : list sysCall :=
  if String.eqb (clientGroup o) "" then []
  else match sw_group w with
       | None => []
       | Some gid => match Atoi gid with Some g => [CChown g] | None => [] end
       end.

(** [serveControl], up to the answering of requests. *)
Definition serveControl (o : os) (w : socketWorld) : list sysCall :=
  CRemove :: CMkdir ::
  if negb (sw_mkdir w) then []
  else CListen ::
       if negb (sw_listen w) then []
       else CChmod 432 :: giveToClients o w ++ [CServe].      (* 0o660 *)

(** What a request is. *)
Inductive ask : Type := AskStatus | AskPause | AskResume.

(** The three patterns of the mux: a pattern for [GET] also takes [HEAD]. *)
Definition handler (method path : string) : option ask :=
  if String.eqb path "/status" && (String.eqb method "GET" || String.eqb method "HEAD") then Some AskStatus
  else if String.eqb path "/pause" && String.eqb method "POST" then Some AskPause
  else if String.eqb path "/resume" && String.eqb method "POST" then Some AskResume
  else None.

(** [tellControl]. *)
Definition tellControl (answer : result string (Z * string)) : result string unit :=
  match answer with
  | Err e => Err e
  | Ok (code, text) => if 300 <=? code then Err ("the agent answered " +:+ text) else Ok tt
  end.

(** ** status.go and main.go *)

(** [setPaused]: the path it asks for, and what it prints or fails with. *)
Definition setPausedPath (pause : bool) : string := "/" +:+ (if pause then "pause" else "resume").
Definition setPaused (pause : bool) (answer : result string (Z * string)) : result string string :=
  match tellControl answer with
  | Err e => Err ("the agent did not answer (" +:+ e +:+ "); is it running?")
  | Ok _ => Ok (if pause then "the tunnels are down; `nfagent resume` puts them back" else "back on the mesh")
  end.

Definition orNone (s fallback : string) : string := if String.eqb s "" then fallback else s.
Definition connected (b : bool) : string := if b then "connected" else "not connected".
Definition configured (b : bool) : string :=
  if b then "configured" else "none: a pair with no direct path will fail".

(** A row of [printLive], before the columns are aligned.  [ago] renders the age
    of a handshake. *)
Definition liveRow (ago : Z -> string) (p : peerReport * string * string) : list string :=
  let '(r, name, address) := p in
  let key := if String.eqb name "" then
               (if (12 <? String.length (r_peerKey r))%nat then String.substring 0 12 (r_peerKey r) +:+ "…"
                else r_peerKey r)
             else name in
  [key; orNone address "-"; P2P.P2P.State_string (r_state r); orNone (r_path r) "-";
   (if 0 <? r_rtt r then itoa (r_rtt r) +:+ "ms" else "-");
   (if 0 <? r_handshake r then ago (r_handshake r) +:+ " ago" else "never");
   itoa (r_rx r); itoa (r_tx r)].

(** [printLive]: the lines before the table, and the table. *)
Definition printLive (ago : Z -> string) (st : ControlStatus) : list string * list (list string) :=
  ((if cs_paused st then ["paused: the tunnels are down by request (`nfagent resume` puts them back)"; ""] else []) ++
   ["address    " +:+ cs_address st;
    "interface  " +:+ orNone (cs_interface st) "userspace, invisible to this machine";
    "signal     " +:+ connected (cs_signal st); "relay      " +:+ configured (cs_relay st);
    "server     " +:+ cs_server st] ++
   (if (length (cs_peers st) =? 0)%nat then [""; "no peers yet"] else [""]),
   if (length (cs_peers st) =? 0)%nat then []
   else ["PEER"; "ADDRESS"; "STATE"; "PATH"; "RTT"; "HANDSHAKE"; "RX"; "TX"] :: map (liveRow ago) (cs_peers st)).

(** [status]: the running agent first, then the file. *)
Definition status (ago : Z -> string) (path : string) (live : option ControlStatus)
    (file : option AgentMap.AgentMap.Config) : result string (list string * list (list string)) :=
  match live with
  | Some st => Ok (printLive ago st)
  | None =>
      match file with
      | None => Err ("this machine has not joined a mesh yet (" +:+ path +:+ ")")
      | Some cfg =>
          Ok (["the agent is not running; this is the last configuration it was given"; "";
               "address    " +:+ AgentMap.AgentMap.cf_address cfg;
               "server     " +:+ AgentMap.AgentMap.cf_server cfg;
               "signal     " +:+ AgentMap.AgentMap.cf_signalURL cfg;
               "peers      " +:+ itoa (Z.of_nat (length (AgentMap.AgentMap.cf_peers cfg)))], [])
      end
  end.

(** [printKey], of the key it drew; the private half is what [up] reads back. *)
Definition printKey `{WGKeys} (drawn : option Key) : option (list string) :=
  match drawn with
  | None => None
  | Some k => Some ["privateKey: " +:+ KeyString k; "publicKey:  " +:+ KeyString (PublicKey k)]
  end.

(** [run]: which command the first word is. *)
Inductive command : Type :=
| CmdKey | CmdInstall | CmdUninstall | CmdUp | CmdStatus | CmdPause | CmdResume | CmdVersion | CmdHelp.

Inductive runError : Type := ENoCommand | EUnknownCommand (c : string).

Definition run (args : list string) : result runError (command * list string) :=
  match args with
  | [] => Err ENoCommand
  | c :: rest =>
      let said := String.eqb c in
      if said "key" then Ok (CmdKey, [])
      else if said "install" then Ok (CmdInstall, rest)
      else if said "uninstall" then Ok (CmdUninstall, rest)
      else if said "up" then Ok (CmdUp, rest)
      else if said "status" then Ok (CmdStatus, rest)
      else if said "pause" then Ok (CmdPause, [])
      else if said "resume" then Ok (CmdResume, [])
      else if said "version" || said "--version" || said "-v" then Ok (CmdVersion, [])
      else if said "-h" || said "--help" || said "help" then Ok (CmdHelp, [])
      else Err (EUnknownCommand c)
  end.

(** [loadConfig]: what was read, and what it decodes to. *)
Inductive loadError : Type := ERead (text : string) | EReading (text : string) | ENoSignal.

Definition loadConfig (read : result string (result string AgentMap.AgentMap.Config)) :
    result loadError AgentMap.AgentMap.Config :=
  match read with
  | Err e => Err (ERead e)
  | Ok (Err e) => Err (EReading e)
  | Ok (Ok c) => if String.eqb (AgentMap.AgentMap.cf_signalURL c) "" then Err ENoSignal else Ok c
  end.

(** ** What holds of them *)

(** The error of the relay in the report is that of the last check, and there is
    none while no relay is configured. *)
Lemma watchRelay_last checks c t :
  tr_relay (watchRelay (checks ++ [c]) t) = if c.1 then errText c.2 else "".
Proof.
  unfold watchRelay. rewrite fold_left_app. simpl. unfold checkRelay. by destruct (c.1).
Qed.

Lemma nudgeDelay_range lasted d : Second <= d <= mapEvery -> Second <= nudgeDelay lasted d <= mapEvery.
Proof.
  intros Hd. unfold nudgeDelay. destruct lasted; [unfold mapEvery, Second, Millisecond; lia|].
  apply double_range; [|unfold mapEvery, int64_max, Second, Millisecond; lia|done].
  unfold mapEvery, Second, Millisecond. lia.
Qed.

(** The delays before jitter, and draws that [rand] can make at them. *)
Fixpoint nudgeDelays (delay : Z) (streams : list (bool * Z)) : list Z :=
  match streams with
  | [] => []
  | (lasted, _) :: streams => delay :: nudgeDelays (nudgeDelay lasted delay) streams
  end.

Definition draws (delay : Z) (streams : list (bool * Z)) : Prop :=
  Forall2 (fun d s => drawn d s.2) (nudgeDelays delay streams) streams.

Lemma jitterMap_bounds d r :
  Second <= d <= mapEvery -> drawn d r -> Second / 2 <= jitterMap d r < mapEvery * 3 / 2.
Proof.
  intros Hd Hr. unfold jitterMap, drawn, mapEvery, Second, Millisecond in *.
  destruct (Z.leb_spec d 0); [lia|]. rewrite Z.quot_div_nonneg by lia.
  pose proof (Z.div_mod d 2 ltac:(lia)). pose proof (Z.mod_pos_bound d 2 ltac:(lia)).
  rewrite wrap64_id by (unfold in_int64, int64_min, int64_max; lia).
  change (1000 * 1000000 / 2) with 500000000. change (20 * (1000 * 1000000) * 3 / 2) with 30000000000. lia.
Qed.

(** C39: however its streams end, a machine that lost the panel waits at least half a
    second and less than half a minute before it dials again; while they fail
    one after the other the delay doubles from a second, up to twenty before the
    jitter. *)
Theorem nudges_paced streams :
  draws Second streams ->
  Forall (fun w => Second / 2 <= w < mapEvery * 3 / 2) (mapNudges Second streams) /\
  (Forall (fun s => s.1 = false) streams ->
   forall i d, nudgeDelays Second streams !! i = Some d -> d = Z.min (Second * 2 ^ Z.of_nat i) mapEvery).
Proof.
  intros Hdraw. split.
  - assert (Hgo : forall delay, Second <= delay <= mapEvery -> draws delay streams ->
      Forall (fun w => Second / 2 <= w < mapEvery * 3 / 2) (mapNudges delay streams)).
    { clear Hdraw. induction streams as [|[lasted r] streams IH]; intros delay Hd Hr; simpl; [constructor|].
      apply Forall2_cons in Hr as [Hr Hrs]. constructor; [by apply jitterMap_bounds|].
      apply IH; [by apply nudgeDelay_range|exact Hrs]. }
    apply Hgo; [|done]. unfold mapEvery, Second, Millisecond. lia.
  - clear Hdraw. intros Hfail i d Hi.
    assert (Hgo : forall n l, Forall (fun s : bool * Z => s.1 = false) l ->
      nudgeDelays (climbed Second mapEvery n) l !! i = Some d -> d = climbed Second mapEvery (n + i)).
    { clear. revert d. induction i as [|i IH]; intros d n [|[lasted r] l] Hf; simpl; try done.
      - intros [= <-]. by rewrite Nat.add_0_r.
      - apply Forall_cons in Hf as [Hl Hf]. simpl in Hl. subst lasted. intros Hi.
        rewrite Nat.add_succ_r. by apply (IH d (S n) l). }
    specialize (Hgo 0%nat streams Hfail Hi). rewrite Hgo. simpl. apply climbed_eq.
    + unfold mapEvery, Second, Millisecond. lia.
    + unfold mapEvery, int64_max, Second, Millisecond. lia.
Qed.

(** the socket is served only where it could be made, and never before its mode
    was set to its owner and group; the group it is given to is the one the
    clients of this system are in, and nothing is given away when that group does
    not exist. *)
Theorem socket_guarded o w :
  (CServe ∈ serveControl o w <-> sw_mkdir w = true /\ sw_listen w = true) /\
  (CServe ∈ serveControl o w ->
     exists given, serveControl o w = [CRemove; CMkdir; CListen; CChmod 432] ++ given ++ [CServe] /\
       given = giveToClients o w) /\
  (forall g, CChown g ∈ serveControl o w ->
     clientGroup o <> "" /\ exists text, sw_group w = Some text /\ Atoi text = Some g).
Proof.
  assert (Hg : forall c, c ∈ giveToClients o w ->
    exists g text, c = CChown g /\ clientGroup o <> "" /\ sw_group w = Some text /\ Atoi text = Some g).
  { intros c. unfold giveToClients. destruct (String.eqb_spec (clientGroup o) ""); [by intros ?%not_elem_of_nil|].
    destruct (sw_group w) as [text|]; [|by intros ?%not_elem_of_nil].
    destruct (Atoi text) as [g|] eqn:E; [|by intros ?%not_elem_of_nil].
    intros ->%list_elem_of_singleton. by exists g, text. }
  assert (Hnot : forall m, (m = CServe \/ exists g, m = CChown g) -> m ∉ [CRemove; CMkdir; CListen; CChmod 432]).
  { intros m [->|[g ->]]; set_solver. }
  unfold serveControl. destruct (sw_mkdir w); simpl.
  2:{ split_and!; [split; [set_solver|naive_solver]|set_solver|intros g Hin; set_solver]. }
  destruct (sw_listen w); simpl.
  2:{ split_and!; [split; [set_solver|naive_solver]|set_solver|intros g Hin; set_solver]. }
  split_and!.
  - split; [done|]. intros _. set_solver.
  - intros _. by eexists.
  - intros g Hin. rewrite !elem_of_cons, elem_of_app, list_elem_of_singleton in Hin.
    destruct Hin as [?|[?|[?|[?|[Hin|?]]]]]; try done.
    destruct (Hg _ Hin) as (g' & text & [= ->] & ? & ? & ?). eauto.
Qed.

(** the two programs that talk to the agent, the window and the command line, are
    understood by it where it listens; and only a POST asks for anything to be
    changed. *)
Theorem clients_understood on method path a :
  handler "POST" (Desktop.Desktop.pausePath on) = Some (if on then AskResume else AskPause) /\
  handler "POST" (setPausedPath (negb on)) = Some (if on then AskResume else AskPause) /\
  (handler method path = Some a -> a <> AskStatus -> method = "POST") /\
  (forall o, Desktop.Desktop.socketPath o = controlSocket o).
Proof.
  split; [by destruct on|]. split; [by destruct on|]. split; [|by intros []].
  unfold handler. destruct (String.eqb_spec method "POST") as [|Hm]; [done|].
  rewrite !andb_false_r. destruct (_ && _); [|done]. by intros [= <-].
Qed.

(** ** Witnesses *)

Lemma nudges_paced_witness :
  mapNudges Second [(false, 0); (false, 1); (true, 5); (false, 0)] =
    [500 * Millisecond; Second + 1; 2 * Second + 5; 500 * Millisecond] /\
  Forall (fun w => Second / 2 <= w < mapEvery * 3 / 2)
    (mapNudges Second [(false, 0); (false, 1); (true, 5); (false, 0)]).
Proof.
  split; [vm_compute; reflexivity|].
  apply (nudges_paced [(false, 0); (false, 1); (true, 5); (false, 0)]).
  unfold draws, drawn. simpl. unfold Second, Millisecond.
  repeat (apply Forall2_cons; split; [vm_compute; split; [discriminate|reflexivity]|]). apply Forall2_nil_2.
Defined.

Lemma socket_guarded_witness :
  serveControl Linux (mkSocketWorld true true (Some "998")) =
    [CRemove; CMkdir; CListen; CChmod 432; CChown 998; CServe] /\
  (clientGroup Linux <> "" /\ exists text, sw_group (mkSocketWorld true true (Some "998")) = Some text /\
     Atoi text = Some 998).
Proof.
  split; [vm_compute; reflexivity|].
  apply (proj2 (proj2 (socket_guarded Linux (mkSocketWorld true true (Some "998"))))).
  apply (bool_decide_unpack _). vm_compute. exact I.
Defined.

Lemma clients_understood_witness : handler "POST" "/pause" = Some AskPause /\ "POST" = "POST".
Proof.
  split; [reflexivity|].
  apply (proj1 (proj2 (proj2 (clients_understood false "POST" "/pause" AskPause)))); [reflexivity|discriminate].
Defined.

End AgentLoops.
