(* ===== verification/Daemons.v ===== *)
(** * cmd/nfsignal and cmd/nfrelay: what the two daemons start with.

    The switchboard is [SignalServer] and the relay is pion's; what these
    programs add is which configuration they refuse, what they listen on, and
    what makes them stop. *)
From S2P Require Import Prelude GoStrings NetIP Keys SignalProto SignalServer.

Module Daemons.

(** [envOr], which both define. *)
Definition envOr (env : string -> string) (key fallback : string) : string :=
  let v := TrimSpace (env key) in if String.eqb v "" then fallback else v.

(** A switch of the environment: set, and neither empty nor a zero. *)
Definition debugOn (v : option string) : bool :=
  match v with Some v => negb (String.eqb v "") && negb (String.eqb v "0") | None => false end.

(** ** nfrelay *)

(** The flags after parsing: the one given, or the default. *)
Definition flagOr (given : option string) (default_ : string) : string := default default_ given.

Record relayFlags : Type := mkRelayFlags { rf_listen : option string; rf_public : option string; rf_realm : option string }.

Inductive relayError : Type :=
| ENoSecret | ENoPublic | ENotAnAddress (text : string) | EListening (text : string) | EStarting (text : string) | EClose (text : string).

(** What is given to [turn.NewServer]. *)
Record turnConfig : Type := mkTurnConfig { tc_realm : string; tc_secret : string; tc_relayAddress : Addr; tc_listen : string }.

Section Relay.
Context (ParseIP : string -> option Addr).

Definition relayConfig (env : string -> string) (flags : relayFlags) : result relayError turnConfig :=
  let listen := flagOr (rf_listen flags) (envOr env "NFRELAY_LISTEN" "0.0.0.0:3478") in
  let public := flagOr (rf_public flags) (env "NFRELAY_PUBLIC_IP") in
  let realm := flagOr (rf_realm flags) (envOr env "NFRELAY_REALM" "netflow") in
  let secret := env "NFRELAY_SECRET" in
  if String.eqb secret "" then Err ENoSecret
  else if String.eqb public "" then Err ENoPublic
  else match ParseIP public with
       | None => Err (ENotAnAddress public)
       | Some ip => Ok (mkTurnConfig realm secret ip listen)
       end.

(** [run]: [closed] is what closing the server answered when it was told to
    stop. *)
Definition relayRun (env : string -> string) (flags : relayFlags) (listen start closed : option string) :
    result relayError turnConfig :=
  cfg ← relayConfig env flags;
  match listen with
  | Some e => Err (EListening e)
  | None => match start with
            | Some e => Err (EStarting e)
            | None => match closed with Some e => Err (EClose e) | None => Ok cfg end
            end
  end.

(** A relay only ever runs with a secret and with an address to be told: neither
    an anonymous relay nor one that hands out an address nobody can use. *)
Lemma relay_configured env flags cfg :
  relayConfig env flags = Ok cfg ->
  tc_secret cfg = env "NFRELAY_SECRET" /\ tc_secret cfg <> "" /\
  exists public, public <> "" /\ ParseIP public = Some (tc_relayAddress cfg) /\
    public = flagOr (rf_public flags) (env "NFRELAY_PUBLIC_IP").
Proof.
  unfold relayConfig. cbn zeta. destruct (String.eqb_spec (env "NFRELAY_SECRET") ""); [done|].
  set (public := flagOr (rf_public flags) _). destruct (String.eqb_spec public ""); [done|].
  destruct (ParseIP public) as [ip|] eqn:E; [|done]. intros [= <-]. splits. by exists public.
Qed.

End Relay.

(** ** nfsignal *)

(** The two routes. *)
Inductive signalRoute : Type := RouteSignal | RouteHealth.
Definition signalMux (method path : string) : option signalRoute :=
  let get := String.eqb method "GET" || String.eqb method "HEAD" in
  if String.eqb path "/signal" && get then Some RouteSignal
  else if String.eqb path "/health" && get then Some RouteHealth
  else None.

Definition quote : string := String (Ascii.ascii_of_nat 34) "".
Definition health (s : SignalServer.SignalServer.Server) : string :=
  "{" +:+ quote +:+ "ok" +:+ quote +:+ ":true," +:+ quote +:+ "peers" +:+ quote +:+ ":" +:+
  itoa (Z.of_nat (SignalServer.SignalServer.Peers s)) +:+ "}" +:+ NL.

(** [run]: the listener failed, or a signal came and the server was shut down. *)
Inductive signalEnd : Type := ListenFailed (text : string) | Signalled (shutdown : option string).
Definition signalRun (e : signalEnd) : option string :=
  match e with ListenFailed t => Some t | Signalled r => r end.


End Daemons.
