(* ===== verification/Service.v ===== *)
(** * cmd/nfagent as an installed service: the copy of the binary ([copySelf] of
    install.go), the units of systemd and launchd (service_linux.go,
    service_darwin.go), [uninstall], the paths (paths.go) and what the machine
    calls itself (system_linux.go, system_darwin.go).

    What these do to the machine is a sequence of effects: a computation of [M]
    appends to the effects that happened before it and ends with a value or an
    error.  The files at any moment are the replay of the effects so far, so a
    statement about every prefix is one about every moment at which the process
    may be killed.  The commands answer as the system likes, depending on
    everything that was done before. *)
From S2P Require Import Prelude GoStrings NFT SelfUpdate AgentMap AgentControl AgentLoops Desktop.
From Stdlib Require Import Ascii.

Module Service.
Import AgentMap.AgentMap AgentControl.AgentControl.
Import Desktop.Desktop (os, Linux, Darwin, Windows).

Notation files := (gmap string (list byte)).

(** ** Paths *)

(** The elements [filepath.Clean] keeps, the last first; a rooted path has
    nothing above its root. *)
Definition cleanStep (rooted : bool) (stack : list string) (e : string) : list string :=
  if String.eqb e "" || String.eqb e "." then stack
  else if String.eqb e ".." then
    match stack with
    | top :: rest => if String.eqb top ".." then e :: stack else rest
    | [] => if rooted then [] else [e]
    end
  else e :: stack.

(** [filepath.Clean] where the separator is a slash. *)
Definition Clean (p : string) : string :=
  let rooted := HasPrefix p "/" in
  let kept := Join "/" (rev (fold_left (cleanStep rooted) (splitc "/"%char p) [])) in
  if rooted then "/" +:+ kept else if String.eqb kept "" then "." else kept.

(** Up to and including the last slash. *)
Fixpoint uptoLast (s : string) : string :=
  match s with
  | "" => ""
  | String c s' => if nochar "/"%char s' then (if Ascii.eqb c "/"%char then "/" else "") else String c (uptoLast s')
  end.

(** [filepath.Dir] and [filepath.Join] of two elements. *)
Definition Dir (p : string) : string := Clean (uptoLast p).
Definition joinPath (a b : string) : string := if String.eqb a "" then Clean b else Clean (a +:+ "/" +:+ b).

(** [systemConfigDir] and [defaultConfigPath]; [None] is a system that is none of
    the three, [winJoin] what joins two elements on Windows. *)
Section Paths.
Context (winJoin : string -> string -> string) (programData : string).

Definition systemConfigDir (o : option os) : string :=
  match o with
  | Some Linux => "/etc/netflow"
  | Some Darwin => "/usr/local/etc/netflow"
  | Some Windows => if String.eqb programData "" then "" else winJoin programData "netflow"
  | None => ""
  end.

Definition defaultConfigPath (o : option os) : string :=
  let dir := systemConfigDir o in
  if String.eqb dir "" then "netflow.json"
  else match o with Some Windows => winJoin dir "netflow.json" | _ => joinPath dir "netflow.json" end.

End Paths.

(** ** What is done to the machine *)

Inductive effect : Type :=
| FMkdir (dir : string)
| FCreate (path : string)                         (* made, or emptied *)
| FWrite (path : string) (data : list byte)
| FRename (from to : string)
| FRemove (path : string)
| Ran (argv : list string)
| Slept (d : Z).

Definition happen (fs : files) (e : effect) : files :=
  match e with
  | FCreate p => <[p := []]> fs
  | FWrite p d => <[p := default [] (fs !! p) ++ d]> fs
  | FRename a b => match fs !! a with Some d => <[b := d]> (delete a fs) | None => fs end
  | FRemove p => delete p fs
  | FMkdir _ | Ran _ | Slept _ => fs
  end.

Definition replay (fs : files) (es : list effect) : files := fold_left happen es fs.

(** How a write of a whole file ends: done, the file could not be opened, or it
    failed after so many bytes. *)
Inductive writeEnd : Type := WDone | WUnopened | WShort (n : nat).

(** The system, and the files it starts with. *)
Record system : Type := mkSystem {
  s_files : files;
  s_executable : option string; s_evalSymlinks : string -> option string;
  s_readable : string -> bool; s_mkdir : string -> bool; s_write : string -> writeEnd;
  s_rename : bool; s_remove : string -> bool;
  s_run : list effect -> list string -> option string }.       (* the error of a command *)

Inductive serviceError : Type :=
| ESelf | ERead (path : string) | EMkdir (path : string) | EWrite (path : string) | ERename | ERemove (path : string)
| ECommand (argv : list string) (why : string) | EUnsupported | ENotRoot
| EJoin (e : installError).

(** Effects so far to effects after, and how it ended. *)
Definition M (A : Type) : Type := list effect -> list effect * result serviceError A.

#[global] Instance M_ret : MRet M := fun A a es => (es, Ok a).
#[global] Instance M_bind : MBind M := fun A B f m es =>
  match m es with
  | (es, Ok a) => f a es
  | (es, Err e) => (es, Err e)
  end.

Definition fail {A} (e : serviceError) : M A := fun es => (es, Err e).
Definition emit (e : effect) : M unit := fun es => (es ++ [e], Ok tt).
(** [_ = f()]. *)
Definition ignore {A} (m : M A) : M unit := fun es => ((m es).1, Ok tt).

Definition serviceName (o : os) : string :=
  match o with Darwin => "cc.netflow.agent" | Linux | Windows => "netflow-agent" end.
(** Windows has none. *)
Definition serviceUnit (o : os) : string :=
  match o with
  | Linux => "/etc/systemd/system/netflow-agent.service"
  | Darwin => "/Library/LaunchDaemons/cc.netflow.agent.plist"
  | Windows => ""
  end.
Definition installedBinary : string := "/usr/local/bin/nfagent".
Definition beside : string := installedBinary +:+ ".new".

(** The unit of systemd.  The comments of the file are lines as the others. *)
Definition unitLines (binary : string) : list string :=
  ["[Unit]"; "Description=netflow mesh agent"; "Documentation=https://github.com/rogerlovato2/netflow";
   "After=network-online.target"; "Wants=network-online.target"; ""; "[Service]"; "Type=simple";
   "ExecStart=" +:+ binary +:+ " up"; "Restart=always"; "RestartSec=5";
   "# The agent creates an interface and writes routes, which is all it needs.";
   "AmbientCapabilities=CAP_NET_ADMIN"; "CapabilityBoundingSet=CAP_NET_ADMIN";
   "# Nothing else on this machine is its business.";
   "ProtectSystem=strict"; "ProtectHome=true"; "PrivateTmp=true"; "NoNewPrivileges=true";
   "ReadWritePaths=/etc/netflow " +:+ Dir binary;
   "# The second path is the directory the binary lives in, and it is here for one";
   "# reason: replacing itself. ProtectSystem=strict makes /usr read-only for this";
   "# service, which is right for everything the agent does except the one thing it";
   "# is asked to do from the panel — and the failure it produced said only " +:+ NFT.NFT.dquote +:+ "read-";
   "# only file system" +:+ NFT.NFT.dquote +:+ ", from a process that had just downloaded and verified a";
   "# release it then could not install.";
   "# systemd creates /run/netflow before start and removes it after, which is";
   "# where the control socket lives. Without it ProtectSystem=strict above leaves";
   "# /run read-only and the socket cannot be bound — the hardening would quietly";
   "# cost the agent the one channel a graphical client has to it.";
   "RuntimeDirectory=netflow"; "RuntimeDirectoryMode=0755"; ""; "[Install]"; "WantedBy=multi-user.target"].
Definition unit_ (binary : string) : string := unlines (unitLines binary).

Definition xmlQuoted (s : string) : string := NFT.NFT.dquote +:+ s +:+ NFT.NFT.dquote.
Definition tab : string := String (Ascii.ascii_of_nat 9) "".
Definition key_ (s : string) : string := tab +:+ "<key>" +:+ s +:+ "</key>".
Definition string_ (s : string) : string := tab +:+ "<string>" +:+ s +:+ "</string>".

(** The property list of launchd. *)
Definition plistLines (binary : string) : list string :=
  ["<?xml version=" +:+ xmlQuoted "1.0" +:+ " encoding=" +:+ xmlQuoted "UTF-8" +:+ "?>";
   "<!DOCTYPE plist PUBLIC " +:+ xmlQuoted "-//Apple//DTD PLIST 1.0//EN" +:+ " " +:+
     xmlQuoted "http://www.apple.com/DTDs/PropertyList-1.0.dtd" +:+ ">";
   "<plist version=" +:+ xmlQuoted "1.0" +:+ ">"; "<dict>";
   key_ "Label"; string_ (serviceName Darwin); key_ "ProgramArguments"; tab +:+ "<array>";
   tab +:+ string_ binary; tab +:+ string_ "up"; tab +:+ "</array>";
   key_ "RunAtLoad"; tab +:+ "<true/>"; key_ "KeepAlive"; tab +:+ "<true/>";
   key_ "StandardOutPath"; string_ "/var/log/netflow-agent.log";
   key_ "StandardErrorPath"; string_ "/var/log/netflow-agent.log"; "</dict>"; "</plist>"].
Definition plist (binary : string) : string := unlines (plistLines binary).

Section Machine.
Context (w : system).

(** The files now. *)
Definition now (es : list effect) : files := replay (s_files w) es.

(** ** The calls *)

Definition ReadFile (p : string) : M (list byte) := fun es =>
  match now es !! p with
  | Some d => if s_readable w p then (es, Ok d) else (es, Err (ERead p))
  | None => (es, Err (ERead p))
  end.

Definition MkdirAll (dir : string) : M unit :=
  if s_mkdir w dir then emit (FMkdir dir) else fail (EMkdir dir).

Definition WriteFile (p : string) (d : list byte) : M unit :=
  match s_write w p with
  | WUnopened => fail (EWrite p)
  | WDone => _ ← emit (FCreate p); emit (FWrite p d)
  | WShort n => _ ← emit (FCreate p); _ ← emit (FWrite p (take n d)); fail (EWrite p)
  end.

Definition Rename (a b : string) : M unit := fun es =>
  match now es !! a with
  | Some _ => if s_rename w then emit (FRename a b) es else (es, Err ERename)
  | None => (es, Err ERename)
  end.

(** [os.Remove], an [os.IsNotExist] taken for done. *)
Definition RemoveIfThere (p : string) : M unit := fun es =>
  match now es !! p with
  | Some _ => if s_remove w p then emit (FRemove p) es else (es, Err (ERemove p))
  | None => (es, Ok tt)
  end.

(** Running a command: it ran, and its error if it had one. *)
Definition exec (argv : list string) : M (option string) := fun es =>
  (es ++ [Ran argv], Ok (s_run w es argv)).

Definition sh (argv : list string) : M unit :=
  r ← exec argv; match r with None => mret tt | Some why => fail (ECommand argv why) end.

(** ** paths.go and install.go *)

Definition ensureConfigDir (path : string) : M unit :=
  let dir := Dir path in
  if String.eqb dir "" || String.eqb dir "." then mret tt else MkdirAll dir.

Definition copySelf : M string :=
  match s_executable w with
  | None => fail ESelf
  | Some exe =>
      match s_evalSymlinks w exe with
      | None => fail ESelf
      | Some self =>
          if String.eqb self installedBinary then mret installedBinary
          else
            data ← ReadFile self;
            _ ← MkdirAll (Dir installedBinary);
            _ ← WriteFile beside data;
            _ ← Rename beside installedBinary;
            mret installedBinary
      end
  end.

(** ** service_linux.go *)

Definition writeServiceLinux (binary : string) : M unit :=
  _ ← ignore (sh ["groupadd"; "-f"; "netflow"]);
  _ ← WriteFile (serviceUnit Linux) (chars (unit_ binary));
  _ ← sh ["systemctl"; "daemon-reload"];
  _ ← sh ["systemctl"; "enable"; serviceName Linux];
  sh ["systemctl"; "restart"; serviceName Linux].

Definition removeServiceLinux : M unit :=
  _ ← ignore (sh ["systemctl"; "disable"; "--now"; serviceName Linux]);
  _ ← RemoveIfThere (serviceUnit Linux);
  sh ["systemctl"; "daemon-reload"].

(** ** service_darwin.go *)

Definition target : string := "system/" +:+ serviceName Darwin.
Definition printCmd : list string := ["launchctl"; "print"; target].
Definition bootoutCmd : list string := ["launchctl"; "bootout"; target].
Definition kickstartCmd : list string := ["launchctl"; "kickstart"; "-k"; target].
Definition bootstrapCmd : list string := ["launchctl"; "bootstrap"; "system"; serviceUnit Darwin].

Definition loaded : M bool := r ← exec printCmd; mret (match r with None => true | Some _ => false end).

Definition pollEvery : Z := 100 * Millisecond.

(** The loop that waits for the label to go, [n] rounds at most. *)
Fixpoint awaitGone (n : nat) : M unit :=
  match n with
  | O => mret tt
  | S n => l ← loaded; if negb l then mret tt else _ ← emit (Slept pollEvery); awaitGone n
  end.

Definition polls : nat := 50.

Definition writeServiceDarwin (binary : string) : M unit :=
  _ ← WriteFile (serviceUnit Darwin) (chars (plist binary));
  l ← loaded;
  if (l : bool) then sh kickstartCmd
  else
    _ ← exec bootoutCmd;
    _ ← awaitGone polls;
    sh bootstrapCmd.

Definition removeServiceDarwin : M unit :=
  _ ← exec bootoutCmd;
  RemoveIfThere (serviceUnit Darwin).

(** The two systems that have a service; the others answer that they have none. *)
Definition writeService (o : os) (binary : string) : M unit :=
  match o with
  | Linux => writeServiceLinux binary
  | Darwin => writeServiceDarwin binary
  | Windows => fail EUnsupported
  end.
Definition removeService (o : os) : M unit :=
  match o with
  | Linux => removeServiceLinux
  | Darwin => removeServiceDarwin
  | Windows => fail EUnsupported
  end.

(** [install]: joining first (AgentControl.v, where the copy and the service are
    answers), then the copy and the service.  Of what joining does to the files,
    the one it keeps the identity in, nothing is listed here; and nobody else
    writes [beside] meanwhile, as the updater of a running agent may. *)
Definition granted (i : installing) : installing :=
  mkInstalling (in_root i) (in_setupKey i) (in_server i) (in_noUpdate i) (in_loaded i) (in_fetched i) (in_enrol i)
    (in_saves i) true true.

Definition installHere (o : os) (i : installing) : M Config :=
  match install (granted i) with
  | Err e => fail (EJoin e)
  | Ok cfg =>
      binary ← copySelf;
      _ ← writeService o binary;
      mret cfg
  end.

Definition uninstall (o : os) (root purge : bool) (path : string) : M unit :=
  if negb root then fail ENotRoot
  else
    _ ← removeService o;
    if (purge : bool) then RemoveIfThere path else mret tt.

End Machine.

(** ** What the machine calls itself *)

(** The lines of a [bufio.Scanner] before the end of a carriage return is cut: the
    last is not there when it is empty, and a line too long for the buffer ends
    the scan. *)
Definition maxToken : nat := 64 * 1024.
Fixpoint scanned (ls : list string) : list string :=
  match ls with
  | [] => []
  | [l] => if String.eqb l "" then [] else if (String.length l <? maxToken)%nat then [l] else []
  | l :: ls => if (String.length l <? maxToken)%nat then l :: scanned ls else []
  end.
Definition CR : Ascii.ascii := Ascii.ascii_of_nat 13.
Fixpoint dropCR (s : string) : string :=
  match s with
  | "" => ""
  | String c "" => if Ascii.eqb c CR then "" else s
  | String c s => String c (dropCR s)
  end.
Definition scanLines (text : string) : list string := map dropCR (scanned (splitc nl text)).

(** [strings.Trim] of the double quotes. *)
Definition quoteChar : Ascii.ascii := Ascii.ascii_of_nat 34.
Fixpoint trim_left_char (x : Ascii.ascii) (s : string) : string :=
  match s with "" => "" | String c s' => if Ascii.eqb c x then trim_left_char x s' else s end.
Definition trimQuotes (s : string) : string := trim_right_char quoteChar (trim_left_char quoteChar s).

(** What a line of /etc/os-release says the system is called. *)
Definition prettyName (line : string) : option string :=
  match cutc "="%char line with
  | Some (name, value) =>
      if String.eqb name "PRETTY_NAME" then
        let v := trimQuotes (TrimSpace value) in if String.eqb v "" then None else Some v
      else None
  | None => None
  end.

Fixpoint firstName (ls : list string) : string :=
  match ls with
  | [] => "Linux"
  | l :: ls => match prettyName l with Some v => v | None => firstName ls end
  end.

(** [systemName] of Linux and of macOS. *)
Definition systemNameLinux (osRelease : option string) : string :=
  match osRelease with None => "Linux" | Some text => firstName (scanLines text) end.
Definition systemNameDarwin (productVersion : option string) : string :=
  match productVersion with Some v => if String.eqb v "" then "macOS" else "macOS " +:+ v | None => "macOS" end.

(** ** What holds *)

(** [m] does only what [P] allows, after whatever was done before. *)
Definition does (P : effect -> Prop) {A} (m : M A) : Prop :=
  forall es, exists new, (m es).1 = es ++ new /\ Forall P new.

Lemma does_ret P {A} (a : A) : does P (mret a).
Proof. intros es. exists []. by rewrite app_nil_r. Qed.

Lemma does_fail P {A} e : does P (@fail A e).
Proof. intros es. exists []. by rewrite app_nil_r. Qed.

Lemma does_emit (P : effect -> Prop) e : P e -> does P (emit e).
Proof. intros He es. exists [e]. split; [done|by repeat constructor]. Qed.

Lemma does_exec (P : effect -> Prop) w argv : P (Ran argv) -> does P (exec w argv).
Proof. intros He es. exists [Ran argv]. split; [done|by repeat constructor]. Qed.

Lemma does_ignore P {A} (m : M A) : does P m -> does P (ignore m).
Proof. intros Hm es. apply Hm. Qed.

Lemma does_bind P {A B} (m : M A) (f : A -> M B) :
  does P m -> (forall a, does P (f a)) -> does P (m ≫= f).
Proof.
  intros Hm Hf es. unfold mbind, M_bind. destruct (Hm es) as (new & E & Hn).
  destruct (m es) as [es' [a|e]]; simpl in *; subst es'; [|by exists new].
  destruct (Hf a (es ++ new)) as (new' & E' & Hn'). exists (new ++ new').
  rewrite E', app_assoc. split; [done|by apply Forall_app].
Qed.

Lemma does_ReadFile P w p : does P (ReadFile w p).
Proof.
  intros es. exists []. rewrite app_nil_r. unfold ReadFile. by destruct (now w es !! p), (s_readable w p).
Qed.

Lemma does_MkdirAll (P : effect -> Prop) w d : P (FMkdir d) -> does P (MkdirAll w d).
Proof. intros Hd. unfold MkdirAll. destruct (s_mkdir w d); [by apply does_emit|apply does_fail]. Qed.

Lemma does_WriteFile (P : effect -> Prop) w p d :
  P (FCreate p) -> (forall d, P (FWrite p d)) -> does P (WriteFile w p d).
Proof.
  intros Hc Hw. unfold WriteFile.
  destruct (s_write w p); repeat (apply does_bind; [|intros []]); try apply does_fail; by apply does_emit.
Qed.

Lemma does_Rename (P : effect -> Prop) w a b : P (FRename a b) -> does P (Rename w a b).
Proof.
  intros Hr es. unfold Rename. destruct (now w es !! a); [|exists []; by rewrite app_nil_r].
  destruct (s_rename w); [by apply does_emit|exists []; by rewrite app_nil_r].
Qed.

Lemma does_Remove (P : effect -> Prop) w p : P (FRemove p) -> does P (RemoveIfThere w p).
Proof.
  intros Hr es. unfold RemoveIfThere. destruct (now w es !! p); [|exists []; by rewrite app_nil_r].
  destruct (s_remove w p); [by apply does_emit|exists []; by rewrite app_nil_r].
Qed.

Create HintDb service.
#[export] Hint Resolve does_ret does_fail does_emit does_exec does_ignore does_ReadFile does_MkdirAll does_WriteFile
  does_Rename does_Remove : service.

(** Follows the binds; the calls are looked up, what they may do is left to [auto]. *)
Ltac does := repeat first [apply does_bind; [|intros ?] | case_match | solve [eauto with service]].

Lemma does_sh (P : effect -> Prop) w argv : P (Ran argv) -> does P (sh w argv).
Proof. intros Hr. unfold sh. does. Qed.

Lemma does_awaitGone (P : effect -> Prop) w n : P (Ran printCmd) -> P (Slept pollEvery) -> does P (awaitGone w n).
Proof. intros Hp Hs. induction n as [|n IH]; simpl; unfold loaded; does. Qed.
#[export] Hint Resolve does_sh does_awaitGone : service.

(** What leaves a path as it was. *)
Definition spares (p : string) (e : effect) : Prop :=
  match e with
  | FCreate q | FWrite q _ | FRemove q => q <> p
  | FRename a b => a <> p /\ b <> p
  | FMkdir _ | Ran _ | Slept _ => True
  end.

#[export] Hint Extern 2 (spares _ _) => cbn [spares]; intuition congruence : service.

Lemma happen_spares p fs e : spares p e -> happen fs e !! p = fs !! p.
Proof.
  destruct e; simpl; intros H; rewrite ?lookup_insert_ne, ?lookup_delete_ne by done; try done.
  destruct H as [Ha Hb]. destruct (fs !! from); [|done]. by rewrite lookup_insert_ne, lookup_delete_ne.
Qed.

Lemma replay_app fs es es' : replay fs (es ++ es') = replay (replay fs es) es'.
Proof. apply fold_left_app. Qed.

Lemma replay_spares p es : forall fs, Forall (spares p) es -> replay fs es !! p = fs !! p.
Proof.
  induction es as [|e es IH]; intros fs H; [done|]. apply Forall_cons in H as [He Hs].
  change (replay fs (e :: es)) with (replay (happen fs e) es). rewrite IH by done. by apply happen_spares.
Qed.

(** [p] is not written by the service's own files. *)
Lemma writeService_spares w o binary p : p <> serviceUnit o -> does (spares p) (writeService w o binary).
Proof.
  intros Hp. destruct o; simpl; unfold writeServiceLinux, writeServiceDarwin, loaded; does.
Qed.
Definition resolved (w : system) : option string :=
  match s_executable w with Some exe => s_evalSymlinks w exe | None => None end.

(** The copy either leaves the binary alone or ends by renaming a whole one over
    it. *)
Lemma copySelf_cases w :
  (Forall (spares installedBinary) (copySelf w []).1 /\
   forall p, (copySelf w []).2 = Ok p -> p = installedBinary /\ resolved w = Some installedBinary) \/
  exists self data pre, resolved w = Some self /\ s_files w !! self = Some data /\
    copySelf w [] = (pre ++ [FRename beside installedBinary], Ok installedBinary) /\
    Forall (spares installedBinary) pre /\ now w pre !! beside = Some data.
Proof.
  unfold copySelf, resolved. destruct (s_executable w) as [exe|]; [|left; by repeat constructor].
  destruct (s_evalSymlinks w exe) as [self|]; [|left; by repeat constructor].
  destruct (String.eqb_spec self installedBinary) as [->|Hne]; [left; split; [constructor|naive_solver]|].
  unfold mbind, M_bind, ReadFile. change (now w [] !! self) with (s_files w !! self).
  destruct (s_files w !! self) as [data|] eqn:Ed; [|left; by repeat constructor].
  destruct (s_readable w self); [|left; by repeat constructor].
  unfold MkdirAll. destruct (s_mkdir w _); [|left; by repeat constructor].
  unfold WriteFile. destruct (s_write w beside) as [| |n]; [|left; by repeat constructor|].
  2:{ left. split; [|done]. repeat constructor; discriminate. }
  cbv beta iota delta [emit mbind M_bind app].
  set (es := [FMkdir _; FCreate _; FWrite _ data]).
  assert (Hb : now w es !! beside = Some data).
  { unfold es, now, replay. cbn [fold_left happen]. by rewrite !lookup_insert_eq. }
  assert (Hs : Forall (spares installedBinary) es) by (repeat constructor; discriminate).
  unfold Rename, emit. rewrite Hb.
  destruct (s_rename w); [|by left]. right. exists self, data, es. splits.
Qed.

(** What is done after a copy that succeeded, or failed, leaves the binary. *)
Lemma installHere_cases w o i :
  (Forall (spares installedBinary) (installHere w o i []).1 /\
   forall cfg, (installHere w o i []).2 = Ok cfg -> resolved w = Some installedBinary) \/
  exists self data pre post, resolved w = Some self /\ s_files w !! self = Some data /\
    (installHere w o i []).1 = pre ++ FRename beside installedBinary :: post /\
    Forall (spares installedBinary) pre /\ Forall (spares installedBinary) post /\ now w pre !! beside = Some data.
Proof.
  unfold installHere. destruct (install (granted i)) as [cfg|e]; [|by left; repeat constructor].
  unfold mbind, M_bind.
  destruct (copySelf_cases w) as [[Hs Hr]|(self & data & pre & Hself & Hd & E & Hp & Hb)].
  - left. destruct (copySelf w []) as [es [p|e]]; [|done]. simpl in *. destruct (Hr p eq_refl) as [-> Hself].
    destruct (writeService_spares w o installedBinary installedBinary ltac:(by destruct o) es) as (new & En & Hn).
    destruct (writeService w o installedBinary es) as [es' [[]|e]]; simpl in *; subst es'; split; try done;
      by apply Forall_app.
  - right. rewrite E. set (es := pre ++ _).
    destruct (writeService_spares w o installedBinary installedBinary ltac:(by destruct o) es) as (new & En & Hn).
    exists self, data, pre, new. destruct (writeService w o installedBinary es) as [es' [[]|e]]; simpl in *; subst es';
      unfold es; rewrite <- app_assoc; splits.
Qed.

Lemma Forall_prefix {A} (P : A -> Prop) l l1 l2 : Forall P l -> l = l1 ++ l2 -> Forall P l1.
Proof. intros H ->. by apply Forall_app in H as [? _]. Qed.

Lemma renamed w es data : now w es !! beside = Some data ->
  now w (es ++ [FRename beside installedBinary]) !! installedBinary = Some data.
Proof. unfold now. rewrite replay_app. simpl. intros ->. by rewrite lookup_insert_eq. Qed.

(** C38: installing over a running agent never leaves half a binary: at every moment
    of the command, wherever it is stopped and whatever of it fails, the binary
    the service starts is the one that was there or the whole of the one that is
    running; when the command succeeds it is the latter. *)
Theorem binary_never_half_written w o i :
  (forall done later, (installHere w o i []).1 = done ++ later ->
     now w done !! installedBinary = s_files w !! installedBinary \/
     exists self data, resolved w = Some self /\ s_files w !! self = Some data /\
       now w done !! installedBinary = Some data) /\
  (forall cfg, (installHere w o i []).2 = Ok cfg ->
     exists self, resolved w = Some self /\ now w (installHere w o i []).1 !! installedBinary = s_files w !! self).
Proof.
  destruct (installHere_cases w o i) as [[Hs Hr]|(self & data & pre & post & Hself & Hd & E & Hp & Hq & Hb)].
  - split.
    + intros done later E. left. apply replay_spares. by eapply Forall_prefix.
    + intros cfg Hc. exists installedBinary. split; [by eapply Hr|by apply replay_spares].
  - assert (Hend : forall post', Forall (spares installedBinary) post' ->
      now w (pre ++ FRename beside installedBinary :: post') !! installedBinary = Some data).
    { intros post' Hq'. rewrite (cons_middle _ pre post'), app_assoc. unfold now. rewrite replay_app.
      rewrite replay_spares by done. by apply renamed. }
    split; [|intros _ _; exists self; split; [done|]; rewrite E, Hd; by apply Hend].
    intros done later. rewrite E. intros E'. apply app_eq_inv in E' as [(k & -> & Ek)|(k & -> & Ek)].
    + destruct k as [|e k]; simpl in Ek.
      * left. rewrite app_nil_r in Hp. by apply replay_spares.
      * left. apply replay_spares. by apply Forall_app in Hp as [? _].
    + destruct k as [|e k]; simpl in Ek; [rewrite app_nil_r; left; by apply replay_spares|].
      injection Ek as <- ->. right. exists self, data. splits. apply Hend. by apply Forall_app in Hq as [? _].
Qed.
(** ** What the service runs *)

Definition serviceText (o : os) (binary : string) : string :=
  match o with Linux => unit_ binary | Darwin => plist binary | Windows => "" end.

(** As systemd reads a unit: the values of a key. *)
Definition unitValues (key text : string) : list string :=
  omap (fun l => let '(v, found) := CutPrefix l (key +:+ "=") in if found then Some v else None) (splitc nl text).

(** As launchd reads a property list: the strings of the array of a key. *)
Definition plistString (l : string) : option string :=
  let '(v, found) := CutPrefix (TrimSpace l) "<string>" in
  if found && HasSuffix v "</string>" then Some (String.substring 0 (String.length v - 9) v) else None.
Fixpoint arrayOf (ls : list string) : list string :=
  match ls with
  | [] => []
  | l :: ls => if String.eqb (TrimSpace l) "</array>" then []
               else match plistString l with Some s => s :: arrayOf ls | None => arrayOf ls end
  end.
Fixpoint afterKey (key : string) (ls : list string) : list string :=
  match ls with
  | [] => []
  | l :: ls => if String.eqb (TrimSpace l) ("<key>" +:+ key +:+ "</key>") then ls else afterKey key ls
  end.

(** The command line the manager starts. *)
Definition commandLine (o : os) (text : string) : list string :=
  match o with
  | Linux => concat (map Fields (unitValues "ExecStart" text))
  | Darwin => arrayOf (afterKey "ProgramArguments" (splitc nl text))
  | Windows => []
  end.

(** Where the manager sends what the service prints; without a word of it, systemd
    keeps it in its journal. *)
Definition logFile (o : os) (text : string) : option string :=
  match o with
  | Linux => head (unitValues "StandardOutput" text ++ unitValues "StandardError" text)
  | Darwin => l ← head (afterKey "StandardOutPath" (splitc nl text)); plistString l
  | Windows => None
  end.

(** What makes the manager start it. *)
Definition starts (o : os) (argv : list string) : Prop :=
  match o with
  | Linux => argv = ["systemctl"; "restart"; serviceName Linux]
  | Darwin => argv = kickstartCmd \/ argv = bootstrapCmd
  | Windows => False
  end.

Lemma bind_ok {A B} (m : M A) (f : A -> M B) es es' b :
  (m ≫= f) es = (es', Ok b) -> exists es1 a, m es = (es1, Ok a) /\ f a es1 = (es', Ok b).
Proof. unfold mbind, M_bind. destruct (m es) as [es1 [a|e]]; [eauto|done]. Qed.

Lemma WriteFile_ok w p d es es' : WriteFile w p d es = (es', Ok tt) -> now w es' !! p = Some d.
Proof.
  unfold WriteFile, mbind, M_bind, emit, fail. destruct (s_write w p); intros [= <-]. unfold now.
  rewrite !replay_app. simpl. by rewrite lookup_insert_eq, lookup_insert_eq.
Qed.

Lemma sh_ok w argv es es' : sh w argv es = (es', Ok tt) -> es' = es ++ [Ran argv] /\ s_run w es argv = None.
Proof. unfold sh, exec, mbind, M_bind. destruct (s_run w es argv) eqn:E; intros [= <-]; done. Qed.

Lemma stays w p {A} (m : M A) es : does (spares p) m -> now w (m es).1 !! p = now w es !! p.
Proof. intros Hm. destruct (Hm es) as (new & -> & Hn). unfold now. rewrite replay_app. by apply replay_spares. Qed.

(** The end of a [writeService]: a text written, then only commands, of which the
    last one starts it. *)
Lemma writeService_ok w o binary es es' :
  writeService w o binary es = (es', Ok tt) ->
  now w es' !! serviceUnit o = Some (chars (serviceText o binary)) /\
  exists before argv, es' = before ++ [Ran argv] /\ starts o argv /\ s_run w before argv = None.
Proof.
  assert (Hwritten : forall es1 es2 (m : M unit), WriteFile w (serviceUnit o) (chars (serviceText o binary)) es1 = (es2, Ok tt) ->
    does (spares (serviceUnit o)) m -> m es2 = (es', Ok tt) ->
    now w es' !! serviceUnit o = Some (chars (serviceText o binary))).
  { intros es1 es2 m Hw Hm Em. rewrite <- (WriteFile_ok _ _ _ _ _ Hw). pose proof (stays w _ m es2 Hm) as Hs. by rewrite Em in Hs. }
  destruct o; [| |done]; simpl; intros E.
  - apply bind_ok in E as (es1 & [] & _ & E). apply bind_ok in E as (es2 & [] & Hw & E). split; [by eapply Hwritten; [..|exact E]; does|].
    apply bind_ok in E as (es3 & [] & _ & E). apply bind_ok in E as (es4 & [] & _ & E). apply sh_ok in E as [-> Hr]. by exists es4; eexists.
  - apply bind_ok in E as (es2 & [] & Hw & E). split; [by eapply Hwritten; [..|exact E]; unfold loaded; does|].
    apply bind_ok in E as (es3 & [] & _ & E); [apply sh_ok in E as [-> Hr]; exists es3; eexists; split; [done|]; split; [by left|done]|].
    apply bind_ok in E as (es4 & ? & _ & E). apply bind_ok in E as (es5 & [] & _ & E). apply sh_ok in E as [-> Hr].
    exists es5; eexists; split; [done|]; split; [by right|done].
Qed.
Lemma installHere_ok w o i es cfg :
  installHere w o i [] = (es, Ok cfg) ->
  (exists self, resolved w = Some self /\ now w es !! installedBinary = s_files w !! self) /\
  now w es !! serviceUnit o = Some (chars (serviceText o installedBinary)) /\
  exists before argv, es = before ++ [Ran argv] /\ starts o argv /\ s_run w before argv = None.
Proof.
  unfold installHere. destruct (install (granted i)) as [c|e]; [|done]. intros E.
  apply bind_ok in E as (es1 & binary & E1 & E). apply bind_ok in E as (es2 & [] & E2 & E). injection E as <- _.
  assert (Hb : binary = installedBinary /\ exists self, resolved w = Some self /\ now w es1 !! installedBinary = s_files w !! self).
  { destruct (copySelf_cases w) as [[Hs Hr]|(self & data & pre & Hself & Hd & Ec & Hp & Hb)]; rewrite E1 in *.
    - destruct (Hr binary eq_refl) as [-> Hself]. split; [done|]. exists installedBinary. split; [done|by apply replay_spares].
    - injection Ec as -> ->. split; [done|]. exists self. split; [done|]. rewrite Hd. by apply renamed. }
  destruct Hb as (-> & self & Hself & Hb). pose proof (writeService_ok _ _ _ _ _ E2) as [Ht Hlast].
  split; [|split; done]. exists self. split; [done|]. rewrite <- Hb.
  pose proof (stays w installedBinary _ es1 (writeService_spares w o installedBinary installedBinary ltac:(by destruct o))) as Hs.
  by rewrite E2 in Hs.
Qed.

(** an installation that succeeds leaves a service that runs this program: the
    file the manager reads names the installed binary, which holds the bytes of
    the program that installed it, with the command that joins the mesh and no
    flag; on Linux it may also write where an update puts the next binary; and
    the last thing done was the command that starts it, which succeeded. *)
Theorem service_runs_this_binary w o i es cfg :
  installHere w o i [] = (es, Ok cfg) ->
  (exists self, resolved w = Some self /\ now w es !! installedBinary = s_files w !! self) /\
  (exists text, now w es !! serviceUnit o = Some (chars text) /\ commandLine o text = [installedBinary; "up"] /\
     (o = Linux -> exists dirs, unitValues "ReadWritePaths" text = [dirs] /\
        Dir (SelfUpdate.SelfUpdate.newName installedBinary) ∈ Fields dirs)) /\
  AgentLoops.AgentLoops.run ["up"] = Ok (AgentLoops.AgentLoops.CmdUp, []) /\
  exists before argv, es = before ++ [Ran argv] /\ starts o argv /\ s_run w before argv = None.
Proof.
  intros E. apply installHere_ok in E as (Hb & Ht & Hlast). split; [done|]. split; [|done].
  exists (serviceText o installedBinary). split; [done|].
  destruct o; [| |by destruct Hlast as (? & ? & _ & ? & _)].
  - split; [vm_compute; reflexivity|]. intros _. eexists. split; [vm_compute; reflexivity|].
    apply (bool_decide_unpack _). vm_compute. exact I.
  - by split; [vm_compute; reflexivity|].
Qed.

(** The log the window opens is the one the service writes on macOS; on Linux the
    window opens a file that the service does not write. *)
Lemma log_opened :
  (exists text, last (Desktop.Desktop.OpenLog Darwin) = Some text /\ logFile Darwin (serviceText Darwin installedBinary) = Some text) /\
  logFile Linux (serviceText Linux installedBinary) = None.
Proof. split; [by eexists; split; vm_compute|by vm_compute]. Qed.

(** The service has one capability, so it cannot give the control socket to a
    group it is not in. *)
Lemma one_capability : unitValues "CapabilityBoundingSet" (serviceText Linux installedBinary) = ["CAP_NET_ADMIN"].
Proof. by vm_compute. Qed.

(** ** Uninstalling *)

Lemma RemoveIfThere_ok w p es es' : RemoveIfThere w p es = (es', Ok tt) -> now w es' !! p = None.
Proof.
  unfold RemoveIfThere, emit. destruct (now w es !! p) eqn:E; [|by intros [= <-]].
  destruct (s_remove w p); intros [= <-]. unfold now. rewrite replay_app. apply lookup_delete_eq.
Qed.

Lemma removeService_spares w o p : p <> serviceUnit o -> does (spares p) (removeService w o).
Proof. intros Hp. destruct o; simpl; unfold removeServiceLinux, removeServiceDarwin; does. Qed.

Lemma removeService_ok w o es es' : removeService w o es = (es', Ok tt) -> now w es' !! serviceUnit o = None.
Proof.
  destruct o; [| |done]; simpl; intros E.
  - apply bind_ok in E as (es1 & [] & _ & E). apply bind_ok in E as (es2 & [] & Hr & E).
    rewrite <- (RemoveIfThere_ok _ _ _ _ Hr). apply sh_ok in E as [-> _]. unfold now. rewrite replay_app. done.
  - apply bind_ok in E as (es1 & ? & _ & E). by eapply RemoveIfThere_ok.
Qed.

(** The effects of [uninstall]: the service first, then at most the removal of
    the file asked for. *)
Lemma uninstall_cases w o root purge path :
  path <> serviceUnit o ->
  exists es1 last, (uninstall w o root purge path []).1 = es1 ++ last /\
    (forall p, p <> serviceUnit o -> Forall (spares p) es1) /\
    (last = [] \/ purge = true /\ last = [FRemove path] /\ now w es1 !! serviceUnit o = None) /\
    ((uninstall w o root purge path []).2 = Ok tt ->
       now w (es1 ++ last) !! serviceUnit o = None /\ (purge = true -> now w (es1 ++ last) !! path = None)).
Proof.
  intros Hne. unfold uninstall. destruct root; [|exists [], []; split_and!; [done|constructor|by left|done]].
  cbn [negb]. unfold mbind, M_bind.
  assert (Hs : forall p, p <> serviceUnit o -> Forall (spares p) (removeService w o []).1).
  { intros p Hp. destruct (removeService_spares w o p Hp []) as (new & E & Hn). by rewrite E. }
  destruct (removeService w o []) as [es1 [[]|e]] eqn:E; [|exists es1, []; simpl; rewrite app_nil_r; split_and!; try done; by left].
  pose proof (removeService_ok _ _ _ _ E) as Hgone. simpl in Hs.
  destruct purge; [|exists es1, []; simpl; rewrite app_nil_r; split_and!; try done; by left].
  destruct (RemoveIfThere w path es1) as [es2 r] eqn:Er. exists es1.
  assert (Hok : forall l, es2 = es1 ++ l -> r = Ok tt -> now w (es1 ++ l) !! path = None).
  { intros l -> ->. by eapply RemoveIfThere_ok. }
  unfold RemoveIfThere, emit in Er. destruct (now w es1 !! path).
  - destruct (s_remove w path); injection Er as <- <-.
    + exists [FRemove path]. split_and!; [done|done|by right|]. intros _. split; [|intros _; by apply Hok].
      unfold now. rewrite replay_app. cbn [replay fold_left happen]. by rewrite lookup_delete_ne.
    + exists []. rewrite app_nil_r. split_and!; try done. by left.
  - injection Er as <- <-. exists []. split_and!; [by rewrite app_nil_r|done|by left|].
    intros _. rewrite app_nil_r. split; [done|intros _]. rewrite <- (app_nil_r es1). apply Hok; [by rewrite app_nil_r|done].
Qed.

(** uninstalling touches nothing but the service's file and, only when asked to
    forget the machine, its identity; the identity goes after the service's file
    is gone, so wherever the command is stopped no service is left that would
    start without one; and a command that succeeds has removed what it says. *)
Theorem uninstall_keeps_identity w o root purge path :
  path <> serviceUnit o ->
  (forall done later, (uninstall w o root purge path []).1 = done ++ later ->
     (forall p, p <> serviceUnit o -> (purge = true -> p <> path) -> now w done !! p = s_files w !! p) /\
     (now w done !! path <> s_files w !! path -> purge = true /\ now w done !! serviceUnit o = None)) /\
  ((uninstall w o root purge path []).2 = Ok tt ->
     now w (uninstall w o root purge path []).1 !! serviceUnit o = None /\
     (purge = true -> now w (uninstall w o root purge path []).1 !! path = None)).
Proof.
  intros Hne. destruct (uninstall_cases w o root purge path Hne) as (es1 & last & -> & Hs & Hlast & Hok).
  split; [|done]. clear Hok. intros done_ later E.
  assert (Hcut : (exists k, es1 = done_ ++ k) \/ (purge = true /\ done_ = es1 ++ [FRemove path] /\ now w es1 !! serviceUnit o = None)).
  { apply app_eq_inv in E as [(k & Ed & El)|(k & Ed & El)]; [by left; exists k|].
    destruct Hlast as [->|(Hp & -> & Hg)]; [symmetry in El; apply app_eq_nil in El as [-> _]; left; exists []; by rewrite Ed, !app_nil_r|].
    destruct k as [|e k]; [left; exists []; by rewrite Ed, !app_nil_r|]. injection El as <- El.
    symmetry in El. apply app_eq_nil in El as [-> ->]. by right. }
  destruct Hcut as [(k & ->)|(Hp & -> & Hg)].
  - assert (Hkeep : forall p, p <> serviceUnit o -> now w done_ !! p = s_files w !! p).
    { intros p Hp. apply replay_spares. specialize (Hs p Hp). by apply Forall_app in Hs as [? _]. }
    split; [intros; by apply Hkeep|]. intros Hx. by destruct Hx; apply Hkeep.
  - unfold now. rewrite replay_app. cbn [replay fold_left happen]. split.
    + intros p Hp1 Hp2. rewrite lookup_delete_ne by (intros ->; by apply Hp2). apply replay_spares. by apply Hs.
    + intros _. split; [done|]. by rewrite lookup_delete_ne.
Qed.
(** uninstalling without forgetting and installing again with no key comes back
    as the same machine, whatever of the first failed: its key, its address and
    its place in the mesh are the ones it had. *)
Theorem reinstall_same w o root path decode raw cfg cfg' i :
  path <> serviceUnit o -> s_files w !! path = Some raw -> decode raw = Some cfg -> cf_privateKey cfg <> "" ->
  in_loaded i = (now w (uninstall w o root false path []).1 !! path ≫= decode) -> in_setupKey i = "" ->
  install i = Ok cfg' -> cfg' = set_noRemoteUpdate (in_noUpdate i) cfg.
Proof.
  intros Hne Hf Hd Hk Hl Hs Hi. destruct (uninstall_cases w o root false path Hne) as (es1 & last & E & Hsp & Hlast & _).
  rewrite E in Hl. destruct Hlast as [->|[? _]]; [|done]. rewrite app_nil_r in Hl.
  assert (Hp : now w es1 !! path = Some raw) by (rewrite <- Hf; by apply replay_spares, Hsp).
  rewrite Hp in Hl. simpl in Hl. rewrite Hd in Hl.
  destruct (identity_kept i cfg cfg' Hl Hk Hi) as [?|[? _]]; done.
Qed.

(** Nothing is written to the system by an installation that does not join. *)
Lemma unjoined_untouched w o i e : install (granted i) = Err e -> installHere w o i [] = ([], Err (EJoin e)).
Proof. unfold installHere. by intros ->. Qed.

(** ** launchd *)

Fixpoint rounds (k : nat) : list effect :=
  match k with O => [] | S k => Ran printCmd :: Slept pollEvery :: rounds k end.

Lemma bind_eq {A B} (m : M A) (f : A -> M B) es es1 a : m es = (es1, Ok a) -> (m ≫= f) es = f a es1.
Proof. unfold mbind, M_bind. by intros ->. Qed.

Lemma loaded_eq w es : loaded w es = (es ++ [Ran printCmd], Ok (bool_decide (s_run w es printCmd = None))).
Proof. unfold loaded, exec, mbind, M_bind. by destruct (s_run w es printCmd). Qed.

Lemma sh_log w argv es : (sh w argv es).1 = es ++ [Ran argv].
Proof. unfold sh, exec, mbind, M_bind. by destruct (s_run w es argv). Qed.

(** The wait: so many rounds in which the label was still there, then a look that
    found it gone, unless all the rounds were spent. *)
Lemma awaitGone_spec w n : forall es,
  exists k tail, awaitGone w n es = (es ++ rounds k ++ tail, Ok tt) /\ (k <= n)%nat /\
    (forall j, (j < k)%nat -> s_run w (es ++ rounds j) printCmd = None) /\
    (k = n /\ tail = [] \/ tail = [Ran printCmd] /\ s_run w (es ++ rounds k) printCmd <> None).
Proof.
  induction n as [|n IH]; intros es; [exists 0%nat, []; rewrite app_nil_r; split_and!; [done|lia|lia|by left]|].
  simpl. unfold loaded, exec, mbind, M_bind. destruct (s_run w es printCmd) eqn:E; simpl.
  - exists 0%nat, [Ran printCmd]. simpl. split_and!; [done|lia|lia|]. right. rewrite app_nil_r. by rewrite E.
  - unfold emit. rewrite <- app_assoc. simpl.
    destruct (IH (es ++ [Ran printCmd; Slept pollEvery])) as (k & tail & -> & Hk & Hj & Ht).
    assert (Hshift : forall j, (es ++ [Ran printCmd; Slept pollEvery]) ++ rounds j = es ++ rounds (S j)) by (intros; by rewrite <- app_assoc).
    exists (S k), tail. split_and!; [by rewrite app_assoc, Hshift, <- app_assoc|lia| |].
    + intros [|j] Hlt; [simpl; by rewrite app_nil_r|]. rewrite <- Hshift. apply Hj. lia.
    + destruct Ht as [[-> ->]|[-> Hg]]; [by left|right]. split; [done|]. by rewrite <- Hshift.
Qed.

(** the label is asked for again only once it was seen to be gone, or after fifty
    looks that all found it there, a tenth of a second apart; a daemon that is
    loaded is restarted in place, and then never booted out. *)
Theorem launchd_sequence w binary :
  s_write w (serviceUnit Darwin) = WDone ->
  let wrote := [FCreate (serviceUnit Darwin); FWrite (serviceUnit Darwin) (chars (plist binary))] in
  let es := (writeServiceDarwin w binary []).1 in
  if decide (s_run w wrote printCmd = None)
  then es = wrote ++ [Ran printCmd; Ran kickstartCmd]
  else exists k tail, let out := wrote ++ [Ran printCmd; Ran bootoutCmd] in
    es = out ++ rounds k ++ tail ++ [Ran bootstrapCmd] /\ (k <= polls)%nat /\
    (forall j, (j < k)%nat -> s_run w (out ++ rounds j) printCmd = None) /\
    (k = polls /\ tail = [] \/ tail = [Ran printCmd] /\ s_run w (out ++ rounds k) printCmd <> None).
Proof.
  intros Hw wrote es.
  assert (Ewrite : WriteFile w (serviceUnit Darwin) (chars (plist binary)) [] = (wrote, Ok tt)) by (unfold WriteFile; by rewrite Hw).
  subst es. unfold writeServiceDarwin. rewrite (bind_eq _ _ _ _ _ Ewrite), (bind_eq _ _ _ _ _ (loaded_eq w wrote)).
  destruct (decide (s_run w wrote printCmd = None)) as [E|E].
  - rewrite bool_decide_eq_true_2 by done. by rewrite sh_log, <- app_assoc.
  - rewrite bool_decide_eq_false_2 by done. rewrite (bind_eq _ _ _ _ _ eq_refl : (exec w bootoutCmd ≫= _) _ = _), <- app_assoc.
    destruct (awaitGone_spec w polls (wrote ++ [Ran printCmd; Ran bootoutCmd])) as (k & tail & Ea & Hk & Hj & Ht).
    exists k, tail. cbn zeta. split_and!; [|done..]. cbn [app]. cbn [app] in Ea. rewrite (bind_eq _ _ _ _ _ Ea), sh_log.
    by rewrite <- !app_assoc.
Qed.
(** ** What the machine calls itself *)

(** The name is never empty: it is that of the first line that gives one, and
    [Linux] when none does. *)
Theorem systemName_first text :
  systemNameLinux (Some text) = "Linux" /\ Forall (fun l => prettyName l = None) (scanLines text) \/
  exists before l after v, scanLines text = before ++ l :: after /\ Forall (fun l => prettyName l = None) before /\
    prettyName l = Some v /\ v <> "" /\ systemNameLinux (Some text) = v.
Proof.
  simpl. induction (scanLines text) as [|l ls IH]; [by left|]. simpl. destruct (prettyName l) as [v|] eqn:E.
  - right. exists [], l, ls, v. split_and!; try done. unfold prettyName in E.
    destruct (cutc _ l) as [[name value]|]; [|done]. destruct (String.eqb name _); [|done]. cbn zeta in E.
    destruct (String.eqb_spec (trimQuotes (TrimSpace value)) ""); [done|]. by injection E as <-.
  - destruct IH as [[Hn Hf]|(before & l' & after & v & -> & Hf & E' & Hv & Hn)]; [left; split; [done|by constructor]|].
    right. exists (l :: before), l', after, v. split_and!; try done. by constructor.
Qed.

Example debian : systemNameLinux (Some (unlines ["NAME=Debian"; "PRETTY_NAME=" +:+ xmlQuoted "Debian GNU/Linux 13 (trixie)"])) =
  "Debian GNU/Linux 13 (trixie)".
Proof. vm_compute. reflexivity. Qed.

(** ** Witnesses *)

(** A machine that has an old binary, on which everything works; launchd never
    knows the daemon. *)
Definition exFiles : files :=
  {[ "/root/nfagent" := chars "new"; installedBinary := chars "old"; "/etc/netflow/netflow.json" := chars "me" ]}.
Definition exSystem : system :=
  mkSystem exFiles (Some "/root/nfagent") Some (fun _ => true) (fun _ => true) (fun _ => WDone) true (fun _ => true)
    (fun _ argv => if decide (argv = printCmd) then Some "Could not find service" else None).
Definition exInstalling : installing := exInstall (Some "502 Bad Gateway: ").

(** The disk fills up in the middle of the new binary. *)
Definition fullSystem : system :=
  mkSystem exFiles (Some "/root/nfagent") Some (fun _ => true) (fun _ => true) (fun _ => WShort 1) true (fun _ => true)
    (fun _ _ => None).

Lemma binary_never_half_written_witness :
  (installHere fullSystem Linux exInstalling []).1 = [FMkdir "/usr/local/bin"; FCreate beside; FWrite beside (chars "n")] /\
  (now fullSystem [FMkdir "/usr/local/bin"; FCreate beside] !! installedBinary = Some (chars "old") \/
   exists self data, resolved fullSystem = Some self /\ exFiles !! self = Some data /\
     now fullSystem [FMkdir "/usr/local/bin"; FCreate beside] !! installedBinary = Some data).
Proof.
  split; [vm_compute; reflexivity|].
  apply (proj1 (binary_never_half_written fullSystem Linux exInstalling)
    [FMkdir "/usr/local/bin"; FCreate beside] [FWrite beside (chars "n")]).
  vm_compute. reflexivity.
Defined.

Lemma service_runs_this_binary_witness :
  installHere exSystem Darwin exInstalling [] =
    ((installHere exSystem Darwin exInstalling []).1, Ok exMember) /\
  exists before argv, (installHere exSystem Darwin exInstalling []).1 = before ++ [Ran argv] /\ starts Darwin argv /\
    s_run exSystem before argv = None.
Proof.
  split; [vm_compute; reflexivity|].
  apply (service_runs_this_binary exSystem Darwin exInstalling _ exMember). vm_compute. reflexivity.
Defined.

Lemma uninstall_keeps_identity_witness :
  (uninstall exSystem Linux true true "/etc/netflow/netflow.json" []).2 = Ok tt /\
  now exSystem (uninstall exSystem Linux true true "/etc/netflow/netflow.json" []).1 !! serviceUnit Linux = None.
Proof.
  split; [vm_compute; reflexivity|].
  destruct (uninstall_keeps_identity exSystem Linux true true "/etc/netflow/netflow.json") as [_ H]; [discriminate|].
  refine (proj1 (H _)). vm_compute. reflexivity.
Defined.

Definition exDecode (raw : list byte) : option Config := if decide (raw = chars "me") then Some exMember else None.

Lemma reinstall_same_witness :
  let back := mkInstalling true "" "" true
    (now exSystem (uninstall exSystem Darwin true false "/etc/netflow/netflow.json" []).1 !! "/etc/netflow/netflow.json" ≫= exDecode)
    None (Err EUnreachable) true true true in
  install back = Ok (set_noRemoteUpdate true exMember) /\ set_noRemoteUpdate true exMember = set_noRemoteUpdate true exMember.
Proof.
  intros back. split; [vm_compute; reflexivity|].
  apply (reinstall_same exSystem Darwin true "/etc/netflow/netflow.json" exDecode (chars "me") exMember _ back);
    first [discriminate | vm_compute; reflexivity].
Defined.

Lemma launchd_sequence_witness :
  s_write exSystem (serviceUnit Darwin) = WDone /\
  exists k tail, (writeServiceDarwin exSystem installedBinary []).1 =
    [FCreate (serviceUnit Darwin); FWrite (serviceUnit Darwin) (chars (plist installedBinary)); Ran printCmd; Ran bootoutCmd] ++
    rounds k ++ tail ++ [Ran bootstrapCmd].
Proof.
  split; [reflexivity|].
  destruct (launchd_sequence exSystem installedBinary eq_refl) as (k & tail & E & _). exists k, tail. exact E.
Defined.
End Service.
