(* ===== verification/Elsewhere.v ===== *)
(** * The systems that are neither Linux nor macOS (choose_other.go,
    netcfg_other.go, nft_other.go, router_other.go, router_windows.go,
    system_other.go, dial_windows.go): what the files for the other build targets
    put in the place of what [Device], [NFT], [Router], [Service] and [Desktop]
    model, and what is left of an agent there. *)
From S2P Require Import Prelude GoStrings NetIP NetText Keys UAPI NFT Filter Router Desktop Device.

Module Elsewhere.
Import Device.Device.

(** ** internal/tunnel *)

(** [configureInterface], [addRoute] and [delRoute]: what they refuse with. *)
Definition configureInterface (goos : string) : result string unit :=
  Err ("tunnel: " +:+ goos +:+ " is not supported yet; run with -userspace").
Definition addRoute (goos : string) : result string unit := Err ("tunnel: " +:+ goos +:+ " is not supported yet").
Definition delRoute (goos : string) : result string unit := Err ("tunnel: " +:+ goos +:+ " is not supported yet").

(** [NewSystemDevice] is [NewTUNDevice]; with these files its interface is closed
    again whenever it could be made.  The flag says whether it was. *)
Definition NewSystemDevice (goos : string) (create : string -> bool) (realName : string -> option string) (name : string) :
    bool * result (tunError * string) string :=
  let name := if String.eqb name "" then DefaultTUNName else name in
  if negb (create name) then (false, Err (ECreate, ""))
  else match realName name with
       | None => (true, Err (EName, ""))
       | Some real => match configureInterface goos with
                      | Err why => (true, Err (EConfigureTUN, why))
                      | Ok _ => (false, Ok real)
                      end
       end.

(** ** internal/filter *)

Definition NFTablesAvailable : bool := false.
Definition ApplyNFTables : result string unit := Err "nftables is a Linux thing".
Definition RemoveNFTables : result string unit := Ok tt.

(** ** internal/router *)

Definition unsupportedWhy (windows : bool) : string :=
  if windows then "carrying a network is not implemented on Windows yet"
  else "carrying a network is not supported on this system".

(** The router of these systems: [Apply] refuses, [Close] has nothing to do. *)
Definition routerApply (windows : bool) : result string unit := Err (Router.Router.unsupportedApply (unsupportedWhy windows)).
Definition routerClose : result string unit := Ok tt.

(** ** cmd/nfagent and desktop *)

Definition upper (c : Ascii.ascii) : Ascii.ascii :=
  let n := Ascii.nat_of_ascii c in
  if ((97 <=? n) && (n <=? 122))%nat then Ascii.ascii_of_nat (n - 32) else c.

(** [systemName]; the name of a system is never empty. *)
Definition systemName (goos : string) : string :=
  match goos with "" => "" | String c s => String (upper c) s end.

(** What [isPermission] and [isMissing] make of the text of an error on Windows,
    in the order [friendly] asks. *)
Definition dialWindows (text : string) : Desktop.Desktop.dialError :=
  if GoStrings.Contains (ToLower text) "access is denied" then Desktop.Desktop.EPermission
  else if GoStrings.Contains (ToLower text) "cannot find the file" then Desktop.Desktop.EMissing
  else Desktop.Desktop.EOther text.

(** ** What is left *)

(** No interface is ever made, and one that was created is not left behind: an
    agent there runs on the stack inside its process or not at all. *)
Lemma no_interface goos create realName name :
  exists e closed, NewSystemDevice goos create realName name = (closed, Err e) /\
    (closed = true <-> create (if String.eqb name "" then DefaultTUNName else name) = true).
Proof.
  unfold NewSystemDevice. destruct (create _); [|by do 2 eexists].
  simpl. destruct (realName _); by do 2 eexists.
Qed.

(** And on that stack no rule is enforced; here, unlike on Linux, the machine says
    so. *)
Lemma userspace_says_so {C} `{!WGKeys, !WGControl C} (c : C) nft order rules d :
  NewUserspaceDevice (Some c) = Some d ->
  SetAccessRules NFTablesAvailable nft order rules d = (d, Err ENoFirewall) /\ EnforcesAccessRules NFTablesAvailable d = false.
Proof. by intros [= <-]. Qed.

End Elsewhere.
