(* ===== verification/Flags.v ===== *)
(** * The command line of cmd/nfagent: [flag.FlagSet.Parse], as the four commands
    that take flags use it (main.go, install.go, status.go), and the text that
    describes them.

    The flag sets answer what was given; a flag that was not keeps its default,
    and of one given twice the last value stays.  What follows the first argument
    that is no flag is left alone, and the commands never look at it. *)
From S2P Require Import Prelude GoStrings Desktop Device AgentControl AgentLoops Service.

Module Flags.
Import Desktop.Desktop (os, Linux, Darwin, Windows).
Import Service.Service (M).

(** ** The package *)

Inductive kind : Type := KString | KBool.

Inductive flagError : Type :=
| EHelp | EBadSyntax (arg : string) | EUndefined (name : string) | EBadBool (value name : string) | ENeedsArg (name : string).

(** [strconv.ParseBool]. *)
Definition ParseBool (s : string) : option bool :=
  if bool_decide (s ∈ ["1"; "t"; "T"; "true"; "TRUE"; "True"]) then Some true
  else if bool_decide (s ∈ ["0"; "f"; "F"; "false"; "FALSE"; "False"]) then Some false
  else None.

(** What an argument is: no flag, the mark that ends them, a flag with the value
    written in it if it has one, or none of these. *)
Inductive argument : Type := AWord | AEnd | ABad | AFlag (name : string) (value : option string).

Definition minus : Ascii.ascii := Ascii.ascii_of_nat 45.
Definition equals : Ascii.ascii := Ascii.ascii_of_nat 61.

Definition nameValue (name : string) : argument :=
  match name with
  | "" => ABad
  | String c _ =>
      if Ascii.eqb c minus || Ascii.eqb c equals then ABad
      else match cutc equals name with Some (n, v) => AFlag n (Some v) | None => AFlag name None end
  end.

Definition readArg (s : string) : argument :=
  match s with
  | String c (String d rest) =>
      if negb (Ascii.eqb c minus) then AWord
      else if Ascii.eqb d minus then if String.eqb rest "" then AEnd else nameValue rest
      else nameValue (String d rest)
  | _ => AWord
  end.

(** The flags of a set, with their kinds, and the values given to them; a switch
    is on or off. *)
Definition flagSet : Type := list (string * kind).
Record given : Type := mkGiven { texts : gmap string string; switches : gmap string bool }.

Definition nothing : given := mkGiven ∅ ∅.
Definition setText (n v : string) (g : given) : given := mkGiven (<[n := v]> (texts g)) (switches g).
Definition setSwitch (n : string) (b : bool) (g : given) : given := mkGiven (texts g) (<[n := b]> (switches g)).

Fixpoint kindOf (fs : flagSet) (n : string) : option kind :=
  match fs with [] => None | (n', k) :: fs => if String.eqb n n' then Some k else kindOf fs n end.

(** [Parse]: what was given, and what was not looked at. *)
Fixpoint Parse (fs : flagSet) (args : list string) (g : given) : result flagError (given * list string) :=
  match args with
  | [] => Ok (g, [])
  | s :: rest =>
      match readArg s with
      | AWord => Ok (g, s :: rest)
      | AEnd => Ok (g, rest)
      | ABad => Err (EBadSyntax s)
      | AFlag n v =>
          match kindOf fs n with
          | None => Err (if String.eqb n "help" || String.eqb n "h" then EHelp else EUndefined n)
          | Some KBool =>
              match v with
              | None => Parse fs rest (setSwitch n true g)
              | Some t => match ParseBool t with
                          | Some b => Parse fs rest (setSwitch n b g)
                          | None => Err (EBadBool t n)
                          end
              end
          | Some KString =>
              match v, rest with
              | Some t, _ => Parse fs rest (setText n t g)
              | None, t :: rest => Parse fs rest (setText n t g)
              | None, [] => Err (ENeedsArg n)
              end
          end
      end
  end.

Definition text (g : given) (n fallback : string) : string := default fallback (texts g !! n).
Definition switch (g : given) (n : string) : bool := default false (switches g !! n).

(** ** The four sets *)

Definition upSet : flagSet :=
  [("config", KString); ("setup-key", KString); ("server", KString); ("name", KString); ("interface", KString);
   ("userspace", KBool); ("echo", KBool); ("probe", KString); ("debug", KBool); ("prove-nat", KBool)].
Definition installSet : flagSet :=
  [("setup-key", KString); ("server", KString); ("name", KString); ("config", KString); ("no-remote-update", KBool)].
Definition uninstallSet : flagSet := [("purge", KBool); ("config", KString)].
Definition statusSet : flagSet := [("config", KString)].

Record upFlags : Type := mkUpFlags {
  uf_config : string; uf_setupKey : string; uf_server : string; uf_name : string; uf_interface : string;
  uf_userspace : bool; uf_echo : bool; uf_probe : string; uf_debug : bool; uf_proveNAT : bool }.
Record installFlags : Type := mkInstallFlags {
  if_setupKey : string; if_server : string; if_name : string; if_config : string; if_noUpdate : bool }.
Record uninstallFlags : Type := mkUninstallFlags { nf_purge : bool; nf_config : string }.

(** [config] is what [defaultConfigPath] answers. *)
Section Sets.
Context (config : string).

Definition readUp (args : list string) : result flagError upFlags :=
  match Parse upSet args nothing with
  | Err e => Err e
  | Ok (g, _) =>
      Ok (mkUpFlags (text g "config" config) (text g "setup-key" "") (text g "server" "") (text g "name" "") (text g "interface" "")
            (switch g "userspace") (switch g "echo") (text g "probe" "") (switch g "debug") (switch g "prove-nat"))
  end.

Definition readInstall (args : list string) : result flagError installFlags :=
  match Parse installSet args nothing with
  | Err e => Err e
  | Ok (g, _) =>
      Ok (mkInstallFlags (text g "setup-key" "") (text g "server" "") (text g "name" "") (text g "config" config)
            (switch g "no-remote-update"))
  end.

Definition readUninstall (args : list string) : result flagError uninstallFlags :=
  match Parse uninstallSet args nothing with
  | Err e => Err e
  | Ok (g, _) => Ok (mkUninstallFlags (switch g "purge") (text g "config" config))
  end.

Definition readStatus (args : list string) : result flagError string :=
  match Parse statusSet args nothing with
  | Err e => Err e
  | Ok (g, _) => Ok (text g "config" config)
  end.

End Sets.

(** [usage]. *)
Definition usageLines (config : string) : list string :=
  ["nfagent — one machine in the netflow mesh";
   "";
   "  nfagent install --setup-key <key> --server <url>";
   "                                                join, and keep joining across reboots";
   "  nfagent uninstall [--purge]                   stop and remove the service";
   "  nfagent up --setup-key <key> --server <url>   join the mesh and stay, in the foreground";
   "  nfagent up                                    start again, already enrolled";
   "  nfagent status                                what this machine sees";
   "  nfagent pause                                 take the tunnels down, keep the agent";
   "  nfagent resume                                put them back";
   "  nfagent version                               which build this is";
   "  nfagent key                                   print a key pair, for a hand-written setup";
   "";
   "flags for `up`:";
   "  --setup-key <k>  the key an administrator created; only needed the first time";
   "  --server <url>   the management server, e.g. https://manage.example.com";
   "  --name <name>    what to call this machine (default: its hostname)";
   "  --config <file>  where the identity is kept (default: " +:+ config +:+ ")";
   "  --interface <n>  interface to create (default: " +:+ Device.Device.DefaultTUNName +:+ "; macOS names its own)";
   "  --userspace      keep the stack inside this process: no interface, no route,";
   "                   no privilege — and nothing outside this process reaches the";
   "                   mesh. For tests, not for a client.";
   "  --echo           answer inside the tunnel, so another machine can prove it got through";
   "  --probe <addr>   dial that address inside the tunnel every few seconds";
   "  --debug          narrate everything, including ICE checks and WireGuard handshakes";
   "  --prove-nat      refuse this machine's own addresses as candidates, so connecting";
   "                   is proof the NAT was traversed and not that a route existed"].

(** ** Spellings *)

(** What one flag is given. *)
Inductive setting : Type := Text (n v : string) | Switch (n : string) (b : bool).

Definition put (x : setting) (g : given) : given :=
  match x with Text n v => setText n v g | Switch n b => setSwitch n b g end.

(** A name of a flag: it can be written after a minus. *)
Definition named (n : string) : Prop :=
  nochar equals n = true /\ match n with String c _ => c <> minus | "" => False end.

(** The ways to write a setting. *)
Inductive spells : setting -> list string -> Prop :=
| sp_apart n v dash : dash = "-" \/ dash = "--" -> spells (Text n v) [dash +:+ n; v]
| sp_joined n v dash : dash = "-" \/ dash = "--" -> spells (Text n v) [dash +:+ n +:+ "=" +:+ v]
| sp_on n dash : dash = "-" \/ dash = "--" -> spells (Switch n true) [dash +:+ n]
| sp_said n b v dash : dash = "-" \/ dash = "--" -> ParseBool v = Some b -> spells (Switch n b) [dash +:+ n +:+ "=" +:+ v].

(** The set has the flag, with that kind. *)
Definition known (fs : flagSet) (x : setting) : Prop :=
  match x with Text n _ => named n /\ kindOf fs n = Some KString | Switch n _ => named n /\ kindOf fs n = Some KBool end.

Lemma eqb_minus_refl : Ascii.eqb minus minus = true.
Proof. done. Qed.

Lemma nameValue_named n : named n -> nameValue n = AFlag n None.
Proof.
  intros [Hn Hc]. unfold nameValue. destruct n as [|c n]; [done|].
  assert (Ascii.eqb c minus = false) as -> by (by apply Ascii.eqb_neq).
  assert (Ascii.eqb c equals = false) as -> by (simpl in Hn; apply andb_true_iff in Hn as [Hn _]; by apply negb_true_iff in Hn).
  by rewrite cutc_None.
Qed.

Lemma nameValue_joined n v : named n -> nameValue (n +:+ "=" +:+ v) = AFlag n (Some v).
Proof.
  intros [Hn Hc]. unfold nameValue. change ("=" +:+ v) with (String equals v). destruct n as [|c n]; [done|]. rewrite sapp_cons.
  assert (Ascii.eqb c minus = false) as -> by (by apply Ascii.eqb_neq).
  assert (Ascii.eqb c equals = false) as -> by (simpl in Hn; apply andb_true_iff in Hn as [Hn _]; by apply negb_true_iff in Hn).
  cbn [orb]. rewrite <- sapp_cons. by rewrite cutc_app.
Qed.

(** One minus or two. *)
Lemma readArg_dashed dash n tail : dash = "-" \/ dash = "--" -> named n -> readArg (dash +:+ n +:+ tail) = nameValue (n +:+ tail).
Proof.
  intros Hd [_ Hc]. destruct n as [|c n]; [done|]. rewrite sapp_cons. destruct Hd as [-> | ->].
  - change ("-" +:+ ?s) with (String minus s). unfold readArg. cbn [negb Ascii.eqb]. rewrite eqb_minus_refl. cbn [negb].
    by assert (Ascii.eqb c minus = false) as -> by (by apply Ascii.eqb_neq).
  - change ("--" +:+ ?s) with (String minus (String minus s)). unfold readArg. rewrite eqb_minus_refl. done.
Qed.

Lemma readArg_dash dash n : dash = "-" \/ dash = "--" -> named n -> readArg (dash +:+ n) = AFlag n None.
Proof. intros Hd Hn. rewrite <- (sapp_nil_r n) at 1. rewrite readArg_dashed, sapp_nil_r by done. by apply nameValue_named. Qed.

Lemma Parse_spelt fs x args rest g : spells x args -> known fs x -> Parse fs (args ++ rest) g = Parse fs rest (put x g).
Proof.
  intros Hs. destruct Hs as [n v dash Hd|n v dash Hd|n dash Hd|n b v dash Hd Hv]; intros [Hn Hk]; cbn [app Parse].
  - by rewrite readArg_dash, Hk.
  - by rewrite readArg_dashed, nameValue_joined, Hk.
  - by rewrite readArg_dash, Hk.
  - by rewrite readArg_dashed, nameValue_joined, Hk, Hv.
Qed.

(** What ends the flags: nothing more, or an argument that is none. *)
Definition stops (rest : list string) : Prop := match rest with [] => True | s :: _ => readArg s = AWord end.

(** whichever way each flag is written (one minus or two, its value behind an
    equals sign or in the next argument, a switch bare or with its value), a
    command line reads back as exactly the settings it was written for, the last
    of a flag given twice, and everything from the first argument that is no flag
    on is left alone. *)
Theorem Parse_spellings fs xs argss rest :
  Forall2 spells xs argss -> Forall (known fs) xs -> stops rest ->
  Parse fs (concat argss ++ rest) nothing = Ok (fold_left (fun g x => put x g) xs nothing, rest).
Proof.
  intros Hs Hk Hr. generalize nothing. induction Hs as [|x args xs argss Hx Hs IH]; intros g.
  - simpl. destruct rest as [|s rest]; [done|]. simpl in *. by rewrite Hr.
  - apply Forall_cons in Hk as [Hkx Hk]. cbn [concat]. rewrite <- app_assoc, (Parse_spelt _ _ _ _ _ Hx Hkx). by apply IH.
Qed.

(** ** What the commands make of it *)

(** A command that starts with a word has been given nothing. *)
Lemma word_first fs s rest : readArg s = AWord -> Parse fs (s :: rest) nothing = Ok (nothing, s :: rest).
Proof. intros E. simpl. by rewrite E. Qed.

(** A word before the flag and the identity stays: [uninstall now --purge] removes
    the service, says nothing about the rest, and keeps the file. *)
Lemma purge_after_word config s rest : readArg s = AWord -> readUninstall config (s :: rest) = Ok (mkUninstallFlags false config).
Proof. intros E. unfold readUninstall. by rewrite word_first. Qed.

(** The service starts the agent on the file of the system, whatever file the
    installation was given. *)
Lemma service_reads_default config args i :
  readInstall config args = Ok i -> if_config i <> config ->
  exists rest f, AgentLoops.AgentLoops.run ["up"] = Ok (AgentLoops.AgentLoops.CmdUp, rest) /\ readUp config rest = Ok f /\
    uf_config f = config /\ uf_config f <> if_config i.
Proof. intros _ Hne. by exists [], (mkUpFlags config "" "" "" "" false false "" false false). Qed.

(** What a line of the usage text says is a flag, and whether it takes a value. *)
Definition described (line : string) : option (string * kind) :=
  match CutPrefix line "  --" with
  | (rest, true) =>
      match Fields rest with
      | n :: v :: _ => Some (n, if HasPrefix v "<" then KString else KBool)
      | [n] => Some (n, KBool)
      | [] => None
      end
  | _ => None
  end.

(** The usage text describes the flags of [up], all of them and no other, and says
    of each whether it takes a value. *)
Lemma usage_describes x : x ∈ omap described (usageLines "netflow.json") <-> x ∈ upSet.
Proof.
  assert (omap described (usageLines "netflow.json") =
    [("setup-key", KString); ("server", KString); ("name", KString); ("config", KString); ("interface", KString);
     ("userspace", KBool); ("echo", KBool); ("probe", KString); ("debug", KBool); ("prove-nat", KBool)]) as -> by (vm_compute; reflexivity).
  unfold upSet. rewrite !elem_of_cons. tauto.
Qed.

(** ** Witness *)

Definition exSettings : list setting := [Text "server" "https://panel"; Switch "debug" true; Text "name" "-a=b"; Switch "debug" false].

Lemma Parse_spellings_witness :
  Parse upSet ["-server"; "https://panel"; "--debug"; "--name=-a=b"; "-debug=F"; "now"; "--echo"] nothing =
    Ok (fold_left (fun g x => put x g) exSettings nothing, ["now"; "--echo"]).
Proof.
  apply (Parse_spellings upSet exSettings [["-server"; "https://panel"]; ["--debug"]; ["--name=-a=b"]; ["-debug=F"]] ["now"; "--echo"]).
  - repeat constructor.
    + apply (sp_apart "server" "https://panel" "-"). by left.
    + apply (sp_on "debug" "--"). by right.
    + apply (sp_joined "name" "-a=b" "--"). by right.
    + apply (sp_said "debug" false "F" "-"); [by left|reflexivity].
  - repeat constructor; discriminate.
  - reflexivity.
Defined.

End Flags.
