(* ===== verification/Lifecycle.v ===== *)
(** * cmd/nfagent/main.go: the life of one process, and of the processes the
    service manager starts one after the other.

    A process is what [up] starts, the steps by which it ends (the main
    goroutine, [Engine.Run], and whoever calls [os.Exit]), and what it leaves of
    the machine's forwarding.  The loops that only observe ([serveEcho],
    [runProbe], [reportStatus]) are functions of what they were answered. *)
From S2P Require Import Prelude GoStrings NetIP NetText Keys P2P UAPI Router AgentMap Flags.

Module Lifecycle.
Import Router.Router.

(** ** What [up] starts *)

Inductive loop : Type :=
| LEngine | LFollowMap | LWatchRelay | LReport | LEcho | LProbe (target : string) | LStatus | LUpdates | LControl.

#[global] Instance loop_eq_dec : EqDecision loop.
Proof. solve_decision. Defined.

(** The goroutines of [up], in the order they are started. *)
Definition started (cfg : AgentMap.AgentMap.Config) (f : Flags.Flags.upFlags) : list loop :=
  [LEngine] ++
  (if negb (String.eqb (AgentMap.AgentMap.cf_server cfg) "") && negb (String.eqb (AgentMap.AgentMap.cf_token cfg) "")
   then [LFollowMap; LWatchRelay; LReport] else []) ++
  (if Flags.Flags.uf_echo f then [LEcho] else []) ++
  (if negb (String.eqb (Flags.Flags.uf_probe f) "") then [LProbe (Flags.Flags.uf_probe f)] else []) ++
  [LStatus; LUpdates; LControl].

(** ** How it ends *)

(** What is done on the way out. *)
Inductive act : Type := AGoodbye | AStopEngine | AClosePeers | ACloseDevice | ACloseRouter.

#[global] Instance act_eq_dec : EqDecision act.
Proof. solve_decision. Defined.

(** The main goroutine: serving; after [<-ctx.Done()]; after the goodbye; in the
    select; returned. *)
Inductive mainPc : Type := MServe | MBye | MStop | MWait | MReturned (err : option string).

(** [Engine.Run]: waiting for its context; closing the peers; closing the device;
    returned. *)
Inductive runPc : Type := RServe | RPeers | RDevice | RReturned (err : option string).

(** Who calls [os.Exit(1)]: [restart], or the function given to [OnGiveUp]. *)
Inductive exitPc : Type := XNone | XBye.

(** How a process ended: [up] returned, or [os.Exit]. *)
Inductive ending : Type := Stopped | Exited.

Record process : Type := mkProcess {
  p_main : mainPc; p_run : runPc; p_exit : exitPc; p_signal : bool; p_log : list act; p_over : option ending }.

Definition launched : process := mkProcess MServe RServe XNone false [] None.

Inductive event : Type :=
| EvSignal                              (* SIGINT or SIGTERM *)
| EvMain                                (* the main goroutine goes on *)
| EvTimeout                             (* five seconds in the select *)
| EvRun (err : option string)           (* Run goes on; what closing the device answers *)
| EvExit.                               (* somebody decides to exit, then does *)

(** The deferred calls of [up] run when it returns, the router's among them. *)
Definition returns (err : option string) (p : process) : process :=
  mkProcess (MReturned err) (p_run p) (p_exit p) (p_signal p) (p_log p ++ [ACloseRouter]) (Some Stopped).

(** [restart], and the function given to [OnGiveUp]: a goodbye, then the end, with
    nothing deferred. *)
Definition exits (p : process) : process :=
  match p_exit p with
  | XNone => mkProcess (p_main p) (p_run p) XBye (p_signal p) (p_log p ++ [AGoodbye]) (p_over p)
  | XBye => mkProcess (p_main p) (p_run p) XBye (p_signal p) (p_log p) (Some Exited)
  end.

(** [Engine.Run] from where it waits. *)
Definition runNext (err : option string) (p : process) : process :=
  let go r log := mkProcess (p_main p) r (p_exit p) (p_signal p) log (p_over p) in
  match p_run p with
  | RServe => if bool_decide (AStopEngine ∈ p_log p) then go RPeers (p_log p) else p
  | RPeers => go RDevice (p_log p ++ [AClosePeers])
  | RDevice => go (RReturned err) (p_log p ++ [ACloseDevice])
  | RReturned _ => p
  end.

Definition stopGrace : Z := 5 * Second.

Definition step (p : process) (e : event) : process :=
  match p_over p with
  | Some _ => p
  | None =>
      let say a p := mkProcess (p_main p) (p_run p) (p_exit p) (p_signal p) (p_log p ++ [a]) (p_over p) in
      let main m p := mkProcess m (p_run p) (p_exit p) (p_signal p) (p_log p) (p_over p) in
      match e with
      | EvSignal => mkProcess (p_main p) (p_run p) (p_exit p) true (p_log p) None
      | EvMain =>
          match p_main p with
          | MServe => if p_signal p then main MBye p else p
          | MBye => main MStop (say AGoodbye p)
          | MStop => main MWait (say AStopEngine p)
          | MWait => match p_run p with RReturned err => returns err p | _ => p end
          | MReturned _ => p
          end
      | EvTimeout => match p_main p with MWait => returns None p | _ => p end
      | EvRun err => runNext err p
      | EvExit => exits p
      end
  end.

Definition runs (es : list event) (p : process) : process := fold_left step es p.

(** ** A process and the machine's forwarding

    [followTheMap] calls [Apply] from a goroutine of its own, while [up] on its way
    out runs the deferred [Close]; nothing orders the two.  Both are cut where they
    touch the machine: [Apply] looks at the switch, writes it, loads the rules;
    [Close] takes the rules away, then puts the switch back. *)

Record applying : Type := mkApplying { ap_answers : answers; ap_iface : string; ap_mesh : Prefix; ap_routes : list Route }.

Inductive applyPc : Type := AIdle | ALook (c : applying) | AWrite (c : applying) | ALoad (c : applying).
Inductive closePc : Type := CNot | CSwitch | CDone | CGone.

Record host : Type := mkHost {
  h_proc : process; h_router : router; h_machine : machine; h_apply : applyPc; h_close : closePc }.

Inductive hostEvent : Type :=
| HProc (e : event)
| HCall (c : applying)                  (* [Apply] is called *)
| HApply                                (* and goes on *)
| HClose (a : answers)                  (* the deferred call goes on *)
| HGone.                                (* [main] has returned *)

(** A process starts with a router that knows nothing. *)
Definition born (m : machine) : host := mkHost launched newRouter m AIdle CNot.

(** The process is no more. *)
Definition over (h : host) : bool :=
  match p_over (h_proc h), h_close h with Some Exited, _ | _, CGone => true | _, _ => false end.

Section Hosts.
Context (p : platform) `{!Platform p}.

Definition beginApply (c : applying) (h : host) : host :=
  let routes := sorted (ap_routes c) in
  if (length routes =? 0)%nat
  then mkHost (h_proc h) (h_router h) (clear p (ap_answers c) (h_machine h)) AIdle (h_close h)
  else match available p (ap_answers c) with
       | Some _ => h
       | None => mkHost (h_proc h) (h_router h) (h_machine h) (ALook c) (h_close h)
       end.

Definition stepApply (h : host) : host :=
  match h_apply h with
  | AIdle => h
  | ALook c =>
      match lookSwitch (ap_answers c) (h_router h) (h_machine h) with
      | (r, Err _) => mkHost (h_proc h) r (h_machine h) AIdle (h_close h)
      | (r, Ok true) => mkHost (h_proc h) r (h_machine h) (AWrite c) (h_close h)
      | (r, Ok false) => mkHost (h_proc h) r (h_machine h) (ALoad c) (h_close h)
      end
  | AWrite c =>
      match turnOn (ap_answers c) (h_machine h) with
      | (m, Err _) => mkHost (h_proc h) (h_router h) m AIdle (h_close h)
      | (m, Ok _) => mkHost (h_proc h) (h_router h) m (ALoad c) (h_close h)
      end
  | ALoad c =>
      mkHost (h_proc h) (h_router h) (load p (ap_answers c) (ap_iface c) (ap_mesh c) (sorted (ap_routes c)) (h_machine h)).1
        AIdle (h_close h)
  end.

(** Only [up] returning runs what it deferred. *)
Definition stepClose (a : answers) (h : host) : host :=
  match p_over (h_proc h), h_close h with
  | Some Stopped, CNot => mkHost (h_proc h) (h_router h) (clear p a (h_machine h)) (h_apply h) CSwitch
  | Some Stopped, CSwitch => mkHost (h_proc h) (h_router h) (putBack a (h_router h) (h_machine h)).1 (h_apply h) CDone
  | _, _ => h
  end.

Definition hstep (h : host) (e : hostEvent) : host :=
  if over h then h
  else match e with
       | HProc e => mkHost (step (h_proc h) e) (h_router h) (h_machine h) (h_apply h) (h_close h)
       | HCall c => match h_apply h with AIdle => beginApply c h | _ => h end
       | HApply => stepApply h
       | HClose a => stepClose a h
       | HGone => match h_close h with CDone => mkHost (h_proc h) (h_router h) (h_machine h) (h_apply h) CGone | _ => h end
       end.

Definition hruns (es : list hostEvent) (h : host) : host := fold_left hstep es h.

(** One process after the other, on one machine. *)
Definition live (m : machine) (es : list hostEvent) : machine := h_machine (hruns es (born m)).
Definition lives (ess : list (list hostEvent)) (m : machine) : machine := fold_left live ess m.

End Hosts.

(** ** The loops that only look *)

Definition echoPort : Z := 7777.
Definition echoBuffer : nat := 512.

(** One connection of [serveEcho]: what is written back, unless the read failed. *)
Definition echoAnswer (hostname : string) (read : option (list byte)) : option string :=
  match read with
  | Some b => Some (unchars (take echoBuffer b) +:+ " answered by " +:+ hostname)
  | None => None
  end.

(** One round of [runProbe]: the dial, then the read of the answer. *)
Inductive probeSays : Type := ProbeFailed | ProbeNoAnswer | ProbeOk (answer : string).
Definition probeRound (dialled : bool) (read : option (list byte)) : probeSays :=
  if negb dialled then ProbeFailed
  else match read with Some b => ProbeOk (unchars (take echoBuffer b)) | None => ProbeNoAnswer end.

(** [runProbe]: nothing when the target is not an address. *)
Definition runProbe (target : option Addr) (rounds : list (bool * option (list byte))) : list probeSays :=
  match target with None => [] | Some _ => map (fun r => probeRound r.1 r.2) rounds end.

(** The row of a peer in [reportStatus]; [ago] renders the age of a handshake and
    [key\[:8\]] panics on a short key. *)
Record statusRow : Type := mkRow {
  sr_key : string; sr_state : P2P.P2P.State; sr_endpoint : string; sr_handshake : string; sr_rx : Z; sr_tx : Z; sr_signal : bool }.

Section StatusLog.
Context `{WGKeys}.

Definition logRow (ago : Z -> string) (st : gmap string UAPI.UAPI.PeerStatus) (state : Key -> P2P.P2P.State)
    (signal : bool) (key : Key) : go statusRow :=
  let text := KeyString key in
  let s := default UAPI.UAPI.zeroStatus (st !! text) in
  if (String.length text <? 8)%nat then Panic
  else Ret (mkRow (String.substring 0 8 text) (state key) (UAPI.UAPI.ps_endpoint s)
              (if 0 <? UAPI.UAPI.ps_handshake s then ago (UAPI.UAPI.ps_handshake s) +:+ " ago" else "never")
              (UAPI.UAPI.ps_rx s) (UAPI.UAPI.ps_tx s) signal).

(** [reportStatus]: a row for each of the peers [up] read from the file, at every
    round at which the device can be read. *)
Definition reportStatus (ago : Z -> string) (peers : list Key)
    (rounds : list (option (gmap string UAPI.UAPI.PeerStatus) * (Key -> P2P.P2P.State) * bool)) : go (list (list statusRow)) :=
  fold_right (fun r acc =>
      let '(st, state, signal) := r in
      match st with
      | None => acc
      | Some st =>
          rows ← fold_right (fun k acc => row ← logRow ago st state signal k; rest ← acc; Ret (row :: rest)) (Ret []) peers;
          rest ← acc; Ret (rows :: rest)
      end) (Ret []) rounds.

End StatusLog.
(** ** The way out *)

(** Where the main goroutine and [Engine.Run] stand, from what was done. *)
Definition tearing (a : act) : Prop := a = AClosePeers \/ a = ACloseDevice \/ a = ACloseRouter.

(** Everything torn down is after a goodbye. *)
Definition ordered (l : list act) : Prop :=
  forall before a after, l = before ++ a :: after -> tearing a -> AGoodbye ∈ before.

Record Inv (p : process) : Prop := {
  inv_ordered : ordered (p_log p);
  inv_main : match p_main p with
             | MServe | MBye => AStopEngine ∉ p_log p
             | MStop => AGoodbye ∈ p_log p /\ AStopEngine ∉ p_log p
             | MWait | MReturned _ => AGoodbye ∈ p_log p /\ AStopEngine ∈ p_log p
             end;
  inv_run : p_run p <> RServe -> AGoodbye ∈ p_log p;
  inv_router : ACloseRouter ∈ p_log p <-> p_over p = Some Stopped;
  inv_over : p_over p = Some Stopped <-> exists err, p_main p = MReturned err;
  inv_bye : p_exit p = XBye -> AGoodbye ∈ p_log p;
  inv_exited : p_over p = Some Exited -> p_exit p = XBye }.

Lemma ordered_snoc l a : ordered l -> (tearing a -> AGoodbye ∈ l) -> ordered (l ++ [a]).
Proof.
  intros Hl Ha before b after E Hb. destruct after as [|c after _] using rev_ind.
  - apply app_inj_tail in E as [<- <-]. by apply Ha.
  - rewrite app_comm_cons, app_assoc in E. apply app_inj_tail in E as [-> _]. by eapply Hl.
Qed.

Lemma launched_inv : Inv launched.
Proof.
  split; simpl; try set_solver; try naive_solver.
  by intros [|] ? ?.
Qed.

Lemma in_snoc (a b : act) l : a ∈ l ++ [b] <-> a ∈ l \/ a = b.
Proof. by rewrite elem_of_app, list_elem_of_singleton. Qed.

(** What the main goroutine has done, where it stands. *)
Definition mainDid (m : mainPc) (l : list act) : Prop :=
  match m with
  | MServe | MBye => AStopEngine ∉ l
  | MStop => AGoodbye ∈ l /\ AStopEngine ∉ l
  | MWait | MReturned _ => AGoodbye ∈ l /\ AStopEngine ∈ l
  end.

(** A process that has not returned. *)
Lemma going_inv m r x s l o :
  ordered l -> mainDid m l -> (r <> RServe -> AGoodbye ∈ l) -> ACloseRouter ∉ l -> (forall err, m <> MReturned err) ->
  (x = XBye -> AGoodbye ∈ l) -> o = None \/ o = Some Exited /\ x = XBye -> Inv (mkProcess m r x s l o).
Proof.
  intros Ho Hm Hr Hc Hnm Hx Hov. split; simpl; try done.
  - split; [done|]. by destruct Hov as [->|[-> _]].
  - split; [by destruct Hov as [->|[-> _]]|]. intros [err H]. by destruct (Hnm err).
  - by destruct Hov as [->|[-> ?]].
Qed.

Ltac going := apply going_inv; simpl; rewrite ?in_snoc; try apply ordered_snoc; unfold tearing; intuition congruence.
Ltac said := apply going_inv; simpl; rewrite ?in_snoc; try apply ordered_snoc; unfold tearing;
  try match goal with H : forall a, _ |- mainDid _ _ => apply H end; intuition congruence.

Lemma proc_inv p e : Inv p -> Inv (step p e).
Proof.
  unfold step, exits, runNext. destruct p as [m r x s l [o|]]; [done|]. intros [Ho Hm Hr Hc Hov Hb Hx]. simpl in *. change (mainDid m l) in Hm.
  assert (Hnr : ACloseRouter ∉ l) by (intros H; by apply Hc in H).
  assert (Hnm : forall err, m <> MReturned err) by (intros err ->; destruct Hov as [_ Hov]; discriminate Hov; by exists err).
  clear Hc Hov Hx.
  assert (Hret : mainDid MWait l -> forall err, Inv (returns err (mkProcess m r x s l None))).
  { intros [H1 H2] err. split; simpl; rewrite ?in_snoc;
      [by apply ordered_snoc|tauto|tauto|naive_solver|naive_solver|tauto|done]. }
  assert (Hkeep : forall a, a <> AStopEngine -> mainDid m l -> mainDid m (l ++ [a])).
  { intros a Ha. destruct m; simpl; rewrite !in_snoc; intuition congruence. }
  destruct e as [| | |err|].
  - by going.
  - destruct m as [| | | |err]; [destruct s| | |destruct r|by destruct (Hnm err)]; try (by apply Hret); simpl in Hm; by going.
  - destruct m as [| | | |err]; try (by apply Hret); simpl in Hm; by going.
  - destruct r as [| | |err']; [case_bool_decide as Hst| | |]; [|by going|by said|by said|by going].
    assert (AGoodbye ∈ l) by (destruct m; simpl in Hm; tauto). by going.
  - destruct x; [by said|by going].
Qed.

Lemma process_inv es : Inv (runs es launched).
Proof.
  induction es as [|e es IH] using rev_ind; [apply launched_inv|]. unfold runs. rewrite fold_left_app. by apply proc_inv.
Qed.

(** However the goroutines of a process interleave on the way out, nothing is
    torn down before the peers were told; the forwarding is put back exactly when
    [up] returns, and never when somebody exits; and once a signal came, three
    steps of the main goroutine and its patience end the process. *)
Theorem way_out es :
  let p := runs es launched in
  ordered (p_log p) /\
  (p_over p = Some Stopped <-> ACloseRouter ∈ p_log p) /\
  (p_over p <> None -> AGoodbye ∈ p_log p) /\
  (p_signal p = true -> p_over p = None -> p_over (runs [EvMain; EvMain; EvMain; EvTimeout] p) = Some Stopped).
Proof.
  intros p. destruct (process_inv es) as [Ho Hm _ Hr Hov Hb Hx]. fold p in Ho, Hm, Hr, Hov, Hb, Hx.
  split; [done|]. split; [by rewrite Hr|]. split.
  - destruct (p_over p) as [[]|]; [|by auto|done]. intros _. destruct Hov as [Hov _]. destruct (Hov eq_refl) as [err E].
    rewrite E in Hm. tauto.
  - destruct p as [m r x s l o]. simpl in *. intros -> ->. destruct m as [| | | |err]; [| | | |].
    1-4: unfold runs; simpl; destruct r; reflexivity.
    destruct Hov as [_ Hov]. by discriminate (Hov (ex_intro _ err eq_refl)).
Qed.

(** ** Forwarding, from one process to the next *)

Section Forwarding.
Context (p : platform) `{!Platform p}.

(** The pieces of a call that nothing comes between are [Router.Apply] and
    [Router.Close]. *)
Lemma Apply_whole c pr r m cl :
  over (mkHost pr r m AIdle cl) = false ->
  hruns p [HCall c; HApply; HApply; HApply] (mkHost pr r m AIdle cl) =
    let x := Apply p (ap_answers c) (ap_iface c) (ap_mesh c) (ap_routes c) r m in mkHost pr x.1.1 x.1.2 AIdle cl.
Proof.
  destruct c as [a iface mesh routes]. intros Ho. unfold hruns. cbn [fold_left].
  assert (Hov : forall r m ap, over (mkHost pr r m ap cl) = false) by done.
  unfold hstep at 4. rewrite Hov. cbn [h_apply]. unfold beginApply, Apply, enableForwarding. cbn -[hstep sorted].
  assert (Hidle : forall r m, hstep p (mkHost pr r m AIdle cl) HApply = mkHost pr r m AIdle cl)
    by (intros; unfold hstep; by rewrite Hov).
  destruct (length (sorted routes) =? 0)%nat; [by rewrite !Hidle|].
  destruct (available p a); [by rewrite !Hidle|].
  assert (Hload : forall r m, hstep p (mkHost pr r m (ALoad (mkApplying a iface mesh routes)) cl) HApply =
    mkHost pr r (load p a iface mesh (sorted routes) m).1 AIdle cl) by (intros; unfold hstep; by rewrite Hov).
  unfold hstep at 3. rewrite Hov. cbn -[hstep sorted].
  destruct (lookSwitch a r m) as [r' [[]|e]].
  - unfold hstep at 2. rewrite Hov. cbn -[hstep sorted]. destruct (turnOn a m) as [m' [[]|e]]; [|by rewrite Hidle].
    rewrite Hload. cbn. by destruct (load p a iface mesh (sorted routes) m').
  - rewrite Hload, Hidle. cbn. by destruct (load p a iface mesh (sorted routes) m).
  - by rewrite !Hidle.
Qed.

Lemma Apply_alone c h :
  over h = false -> h_apply h = AIdle ->
  let h' := hruns p [HCall c; HApply; HApply; HApply] h in
  (h_router h', h_machine h') =
    (Apply p (ap_answers c) (ap_iface c) (ap_mesh c) (ap_routes c) (h_router h) (h_machine h)).1 /\ h_apply h' = AIdle.
Proof.
  destruct h as [pr r m ap cl]. cbn [h_apply h_router h_machine]. intros Ho ->. rewrite (Apply_whole c pr r m cl Ho). cbn.
  by destruct (Apply _ _ _ _ _ _ _) as [[r' m'] res].
Qed.

Lemma Close_alone a h :
  over h = false -> p_over (h_proc h) = Some Stopped -> h_close h = CNot ->
  h_machine (hruns p [HClose a; HClose a] h) = (Close p a (h_router h) (h_machine h)).1.
Proof.
  destruct h as [pr r m ap cl]. cbn. intros Ho Hp ->. unfold hruns. cbn [fold_left].
  assert (Hov : forall r m, over (mkHost pr r m ap CSwitch) = false) by (intros; unfold over; cbn; by rewrite Hp).
  unfold hstep at 2. rewrite Ho. unfold stepClose. cbn. rewrite Hp. unfold hstep. rewrite Hov. unfold stepClose. cbn. by rewrite Hp.
Qed.

(** *** A machine that forwards *)

Lemma over_stays q e x : p_over q = Some x -> step q e = q.
Proof. unfold step. by intros ->. Qed.

(** Only the events of the process move it. *)
Lemma hstep_proc h e : h_proc (hstep p h e) = match e with HProc e' => if over h then h_proc h else step (h_proc h) e' | _ => h_proc h end.
Proof.
  unfold hstep. destruct (over h); [by destruct e|]. destruct e as [e|c| |a|]; [done|..].
  - destruct (h_apply h); try done. unfold beginApply. by repeat case_match.
  - unfold stepApply. by repeat case_match.
  - unfold stepClose. by repeat case_match.
  - by destruct (h_close h).
Qed.

Lemma over_stays_host es : forall h x, p_over (h_proc h) = Some x -> p_over (h_proc (hruns p es h)) = Some x.
Proof.
  induction es as [|e es IH]; intros h x Hx; [done|]. cbn. apply IH. rewrite hstep_proc. destruct e; try done.
  destruct (over h); [done|]. by erewrite over_stays.
Qed.

(** The switch reads on; a process that found it so has touched nothing, and will
    not. *)
Definition lit (h : host) : Prop := TrimSpace (switch (h_machine h)) = "1".
Definition bystander (h : host) : Prop := lit h /\ touched (h_router h) = false /\ forall c, h_apply h <> AWrite c.

Lemma bystander_step h e : bystander h -> bystander (hstep p h e) /\ switch (h_machine (hstep p h e)) = switch (h_machine h).
Proof.
  intros (Hl & Ht & Hw). unfold bystander, lit in *. unfold hstep. destruct (over h); [done|].
  destruct e as [e|c| |a|]; cbn [h_machine h_router h_apply]; [done|..].
  - destruct (h_apply h) eqn:Ea; rewrite ?Ea; try done. unfold beginApply.
    destruct (_ =? _)%nat; [cbn; by rewrite clear_switch|]. destruct (available p _); cbn; [by rewrite Ea|done].
  - unfold stepApply. destruct (h_apply h) as [|c|c|c] eqn:Ea; cbn; rewrite ?Ea; [done| |by destruct (Hw c)|by rewrite load_switch].
    unfold lookSwitch. destruct (a_reads (ap_answers c)); cbn [negb]; [|done]. rewrite Hl. cbn. done.
  - unfold stepClose. destruct (p_over (h_proc h)) as [[]|]; try done. destruct (h_close h); cbn; rewrite ?clear_switch; try done.
    unfold putBack. by rewrite Ht.
  - by destruct (h_close h).
Qed.

Lemma bystander_run es : forall h, bystander h -> switch (h_machine (hruns p es h)) = switch (h_machine h).
Proof.
  induction es as [|e es IH]; intros h Hb; [done|]. cbn. destruct (bystander_step h e Hb) as [Hb' E]. rewrite <- E. by apply IH.
Qed.

Lemma lives_on ess : forall m, TrimSpace (switch m) = "1" -> switch (lives p ess m) = switch m.
Proof.
  induction ess as [|es ess IH]; intros m Hon; [done|]. change (lives p (es :: ess) m) with (lives p ess (live p m es)).
  assert (E : switch (live p m es) = switch m) by (apply (bystander_run es (born m)); by repeat split).
  rewrite IH; by rewrite E.
Qed.

(** As long as [up] has not returned, a switch that is on stays on. *)
Lemma lit_step h e : lit h -> p_over (h_proc (hstep p h e)) <> Some Stopped -> lit (hstep p h e).
Proof.
  unfold lit, hstep. intros Hl. destruct (over h); [done|]. destruct e as [e|c| |a|]; cbn; [done|..].
  - destruct (h_apply h); try done. unfold beginApply. destruct (_ =? _)%nat; [cbn; by rewrite clear_switch|]. by destruct (available p _).
  - unfold stepApply. destruct (h_apply h) as [|c|c|c]; cbn; [done| | |by rewrite load_switch].
    + by destruct (lookSwitch _ _ _) as [r [[]|]].
    + unfold turnOn. by destruct (a_writes _).
  - unfold stepClose. destruct (p_over (h_proc h)) as [[]|] eqn:Ep; try done. by destruct (h_close h); cbn; rewrite Ep.
  - by destruct (h_close h).
Qed.

Lemma lit_run es : forall h, lit h -> p_over (h_proc (hruns p es h)) <> Some Stopped -> lit (hruns p es h).
Proof.
  induction es as [|e es IH]; intros h Hl Ho; [done|]. cbn in *. apply IH; [|done]. apply lit_step; [done|].
  intros E. apply Ho. by apply over_stays_host.
Qed.

(** *** A machine that is put back *)

(** The process so far, before [Close]. *)
Definition noted (sw0 : string) (h : host) : Prop :=
  kept sw0 (h_router h) (switch (h_machine h)) /\ (forall c, h_apply h = AWrite c -> touched (h_router h) = true).

Lemma noted_step sw0 h e : noted sw0 h -> h_close (hstep p h e) = CNot -> noted sw0 (hstep p h e).
Proof.
  unfold noted, hstep. intros [Hk Hw]. destruct (over h); [done|]. destruct e as [e|c| |a|]; cbn; [done|..].
  - destruct (h_apply h) eqn:Ea; rewrite ?Ea; try done. unfold beginApply.
    destruct (_ =? _)%nat; [cbn; by rewrite clear_switch|]. by destruct (available p _); cbn; rewrite ?Ea.
  - unfold stepApply. destruct (h_apply h) as [|c|c|c] eqn:Ea; cbn; rewrite ?Ea; [done| | |by rewrite load_switch].
    + destruct (lookSwitch _ _ _) as [r [[]|]] eqn:El; destruct (lookSwitch_kept _ _ _ _ _ _ El Hk) as (Hk' & Ht & _); cbn; intros _;
        (split; [done|]); try done. by intros ? _; apply Ht.
    + pose proof (turnOn_kept (ap_answers c) _ _ _ (Hw c eq_refl) Hk) as Hk'. by destruct (turnOn _ _) as [m [[]|]].
  - unfold stepClose. destruct (p_over (h_proc h)) as [[]|]; try done. destruct (h_close h); done.
  - destruct (h_close h); done.
Qed.

(** [Close] begins once. *)
Lemma closing_stays h e : h_close (hstep p h e) = CNot -> h_close h = CNot.
Proof.
  unfold hstep. destruct (over h); [done|]. destruct e as [e|c| |a|]; cbn; [done|..].
  - destruct (h_apply h); try done. unfold beginApply. by repeat case_match.
  - unfold stepApply. by repeat case_match.
  - unfold stepClose. destruct (p_over (h_proc h)) as [[]|]; [|done..]. destruct (h_close h) eqn:E; cbn; congruence.
  - destruct (h_close h) eqn:E; cbn; congruence.
Qed.

Lemma noted_run sw0 es : forall h, noted sw0 h -> h_close (hruns p es h) = CNot -> noted sw0 (hruns p es h).
Proof.
  induction es as [|e es IH] using rev_ind; intros h Hn Hc; [done|]. unfold hruns in *. rewrite fold_left_app in *. cbn in *.
  apply noted_step; [|done]. apply IH; [done|]. by eapply closing_stays.
Qed.

(** Once [up] has returned: no call of [Apply] comes, and the system answers. *)
Definition settling (e : hostEvent) : Prop :=
  match e with
  | HCall _ => False
  | HClose a => a_writes a = true /\ a_tool a = true /\ a_rules a = true
  | _ => True
  end.

Record leaving (sw0 : string) (h : host) : Prop := {
  lv_over : p_over (h_proc h) = Some Stopped;
  lv_idle : h_apply h = AIdle;
  lv_close : match h_close h with
             | CNot => kept sw0 (h_router h) (switch (h_machine h))
             | CSwitch => kept sw0 (h_router h) (switch (h_machine h)) /\ rules (h_machine h) = None
             | CDone | CGone => switch (h_machine h) = sw0 /\ rules (h_machine h) = None
             end }.

Lemma leaving_step sw0 h e :
  sw0 = TrimSpace sw0 +:+ NL -> TrimSpace sw0 <> "" -> settling e -> leaving sw0 h -> leaving sw0 (hstep p h e).
Proof.
  intros Hs Hne He [Ho Hi Hc]. unfold hstep. destruct (over h); [done|]. destruct e as [e|c| |a|].
  - split; cbn; [by erewrite over_stays|done..].
  - done.
  - unfold stepApply. by rewrite Hi.
  - destruct He as (Hw & Ht & Hr). unfold stepClose. rewrite Ho. destruct (h_close h) eqn:Ec; [| |by split; rewrite ?Ec..]; split; cbn; try done.
    + rewrite clear_switch. split; [done|by apply clear_rules].
    + destruct Hc as [Hk Hn]. destruct (putBack_kept a _ _ _ Hs Hne Hw Hk) as (_ & -> & ->). done.
  - destruct (h_close h) eqn:Ec; [by split; rewrite ?Ec..| |by split; rewrite ?Ec]. by split.
Qed.

(** A process that was stopped between two calls of [Apply] and whose deferred
    [Close] ran, on a system that answers. *)
Definition clean (m : machine) (es : list hostEvent) : Prop := exists es1 es2,
  es = es1 ++ es2 /\ p_over (h_proc (hruns p es1 (born m))) = Some Stopped /\
  h_apply (hruns p es1 (born m)) = AIdle /\ h_close (hruns p es1 (born m)) = CNot /\ Forall settling es2 /\
  (h_close (hruns p es (born m)) = CDone \/ h_close (hruns p es (born m)) = CGone).

Lemma live_clean m es :
  switch m = TrimSpace (switch m) +:+ NL -> TrimSpace (switch m) <> "" -> clean m es ->
  switch (live p m es) = switch m /\ rules (live p m es) = None.
Proof.
  intros Hs Hne (es1 & es2 & -> & Ho & Hi & Hc & Hq & Hd).
  assert (H1 : leaving (switch m) (hruns p es1 (born m))).
  { split; [done|done|]. rewrite Hc. by apply (noted_run (switch m) es1 (born m)). }
  assert (H2 : forall es h, Forall settling es -> leaving (switch m) h -> leaving (switch m) (hruns p es h)).
  { intros es. induction es as [|e es IH]; intros h Hq'; [done|]. apply Forall_cons in Hq' as [He Hq']. intros Hl. cbn.
    apply IH; [done|]. by apply leaving_step. }
  unfold live. unfold hruns in *. rewrite fold_left_app in *. pose proof (lv_close _ _ (H2 es2 _ Hq H1)) as Hl.
  unfold hruns in Hl. by destruct Hd as [Hd|Hd]; rewrite Hd in Hl.
Qed.

Fixpoint cleans (m : machine) (ess : list (list hostEvent)) : Prop :=
  match ess with [] => True | es :: ess => clean m es /\ cleans (live p m es) ess end.

(** C40: what becomes of the machine's forwarding, process after process.
    Processes that are each stopped between two calls of [Apply], whose deferred
    [Close] then runs on a system that answers, leave it with the switch it had
    and none of the agent's rules.  But a process in which the switch came to be
    on, and that ends without [up] returning, because something in it called
    [os.Exit] to apply a change or to start over or because it was killed, leaves
    it on, and no later process turns it off, however it runs and ends, since each
    takes what it finds for what the machine had.  A call of [Apply] with
    something to carry, on a system that answers, does turn it on. *)
Theorem forwarding_across_processes :
  (forall m0 ess, switch m0 = TrimSpace (switch m0) +:+ NL -> TrimSpace (switch m0) <> "" -> ess <> [] -> cleans m0 ess ->
     switch (lives p ess m0) = switch m0 /\ rules (lives p ess m0) = None) /\
  (forall m es1 es2, TrimSpace (switch (live p m es1)) = "1" ->
     p_over (h_proc (hruns p (es1 ++ es2) (born m))) <> Some Stopped ->
     TrimSpace (switch (live p m (es1 ++ es2))) = "1" /\
     forall ess, switch (lives p ((es1 ++ es2) :: ess) m) = switch (live p m (es1 ++ es2))) /\
  (forall h c, over h = false -> h_apply h = AIdle -> ap_routes c <> [] -> available p (ap_answers c) = None ->
     a_reads (ap_answers c) = true -> a_writes (ap_answers c) = true ->
     TrimSpace (switch (h_machine (hruns p [HCall c; HApply; HApply; HApply] h))) = "1").
Proof.
  split; [|split].
  - intros m0 ess. revert m0. induction ess as [|es ess IH]; intros m0 Hs Hne He Hall; [done|]. destruct Hall as [Hc Hcs].
    change (lives p (es :: ess) m0) with (lives p ess (live p m0 es)). destruct (live_clean m0 es Hs Hne Hc) as [E1 E2].
    destruct ess as [|es' ess]; [done|]. rewrite <- E1. apply IH; by rewrite ?E1.
  - intros m es1 es2 Hon Ho. assert (Hl : TrimSpace (switch (live p m (es1 ++ es2))) = "1").
    { unfold live, hruns in *. rewrite fold_left_app in *. by apply lit_run. }
    split; [done|]. intros ess. by apply (lives_on ess).
  - intros h c Ho Hi Hr Hav Hre Hwr. destruct (Apply_alone c h Ho Hi) as [E _].
    apply (f_equal snd) in E. cbn [snd] in E. rewrite E. unfold Apply, enableForwarding.
    destruct (Nat.eqb_spec (length (sorted (ap_routes c))) 0) as [E0|_].
    { apply length_zero_iff_nil in E0. destruct Hr. apply Permutation_nil_r. rewrite <- E0. unfold sorted. by rewrite merge_sort_Permutation. }
    rewrite Hav. unfold lookSwitch. rewrite Hre. cbn [negb].
    destruct (String.eqb_spec (TrimSpace (switch (h_machine h))) "1") as [Eon|].
    + pose proof (load_switch (ap_answers c) (ap_iface c) (ap_mesh c) (sorted (ap_routes c)) (h_machine h)) as El.
      destruct (load p _ _ _ _ _). cbn in *. by rewrite El.
    + unfold turnOn. rewrite Hwr.
      pose proof (load_switch (ap_answers c) (ap_iface c) (ap_mesh c) (sorted (ap_routes c)) (setSwitch ("1" +:+ NL) (h_machine h))) as El.
      destruct (load p _ _ _ _ _). cbn in *. by rewrite El.
Qed.

End Forwarding.

(** A machine that did not forward, whose agent restarted once while it carried a
    network: stopped for good, it forwards. *)
Definition carries : applying := mkApplying fine "nf0" lab [mkRoute lan true].
Definition carrying : list hostEvent := [HCall carries; HApply; HApply; HApply].
Definition stopping : list hostEvent := map HProc [EvSignal; EvMain; EvMain; EvMain; EvTimeout].
Definition exiting : list hostEvent := map HProc [EvExit; EvExit].
Definition stoppedLife : list hostEvent := carrying ++ stopping ++ [HClose fine; HClose fine; HGone].
Definition still : machine := mkMachine ("0" +:+ NL) None None "".

Lemma restart_leaves_forwarding :
  switch (lives linux [carrying ++ exiting; stoppedLife] still) = "1" +:+ NL.
Proof. vm_compute. reflexivity. Qed.

(** And one that is stopped while [followTheMap] is in the middle of a call: the
    switch is put back, then turned on again by what was left of the call. *)
Lemma late_apply_leaves_forwarding :
  switch (live linux still ([HCall carries; HApply] ++ stopping ++ [HClose fine; HClose fine; HApply; HApply; HGone])) = "1" +:+ NL.
Proof. vm_compute. reflexivity. Qed.

(** ** Witnesses *)

Lemma stoppedLife_clean : clean linux still stoppedLife.
Proof.
  exists (carrying ++ stopping), [HClose fine; HClose fine; HGone]. split; [reflexivity|]. split; [reflexivity|].
  split; [reflexivity|]. split; [reflexivity|]. split; [repeat constructor|]. right. reflexivity.
Qed.

Lemma forwarding_across_processes_witness :
  is_Some (rules (live linux still carrying)) /\
  switch (lives linux [stoppedLife] still) = switch still /\ rules (lives linux [stoppedLife] still) = None /\
  forall ess, switch (lives linux ((carrying ++ exiting) :: ess) still) = "1" +:+ NL.
Proof.
  split; [vm_compute; by eexists|]. destruct (forwarding_across_processes linux) as (H1 & H2 & _).
  destruct (H1 still [stoppedLife] eq_refl) as [E1 E2]; [discriminate|discriminate|exact (conj stoppedLife_clean I)|].
  split; [exact E1|]. split; [exact E2|]. intros ess.
  destruct (H2 still carrying exiting) as [_ H3]; [vm_compute; reflexivity|vm_compute; discriminate|].
  rewrite (H3 ess). vm_compute. reflexivity.
Defined.

Lemma way_out_witness :
  let p := runs [EvSignal; EvMain] launched in
  p_over p = None /\ p_over (runs [EvMain; EvMain; EvMain; EvTimeout] p) = Some Stopped.
Proof.
  intros p. split; [reflexivity|]. apply (way_out [EvSignal; EvMain]); reflexivity.
Defined.

(** ** The loops that only look *)

(** A status round prints a row for each of the peers of the file, keys being
    longer than what is cut of them. *)
Lemma reportStatus_rows `{WGKeys} ago peers rounds :
  (forall k, k ∈ peers -> (8 <= String.length (KeyString k))%nat) ->
  exists rows, reportStatus ago peers rounds = Ret rows /\ Forall (fun r => length r = length peers) rows /\
    (length rows <= length rounds)%nat.
Proof.
  intros Hk. unfold reportStatus.
  assert (Hround : forall st state signal, exists rows,
    fold_right (fun k acc => row ← logRow ago st state signal k; rest ← acc; Ret (row :: rest)) (Ret []) peers = Ret rows /\
    length rows = length peers).
  { intros st state signal. induction peers as [|k peers IH]; [by exists []|].
    destruct IH as (rows & E & Hl); [intros; apply Hk; by right|]. cbn [fold_right]. rewrite E. unfold logRow at 1.
    destruct (Nat.ltb_spec (String.length (KeyString k)) 8); [specialize (Hk k ltac:(left)); lia|].
    eexists. split; [reflexivity|]. simpl. by rewrite Hl. }
  induction rounds as [|[[st state] signal] rounds IH]; [by exists []|]. destruct IH as (rows & E & Hf & Hl).
  cbn [fold_right]. destruct st as [st|]; [|exists rows; simpl; split_and!; [done|done|lia]].
  destruct (Hround st state signal) as (r & Er & Hr). rewrite Er, E. simpl.
  eexists. split; [reflexivity|]. split; [by constructor|simpl; lia].
Qed.

End Lifecycle.
